(** * Verification of the extended-Yul transpiler (warpdex/jul)

    A shallow embedding of the parts of the transpiler that the
    specification's testable properties talk about: number literals,
    constant folding, struct packing, ABI hashing, calldata binding, the
    method dispatcher, inline-suppression padding, the preprocessor, and
    the parsing and serializing of [emit] and [throw] statements.

    Conventions.
    - JavaScript [BigInt] values are [Z]; [&], [|], [^], [<<], [>>] are
      [Z.land], [Z.lor], [Z.lxor], [Z.shiftl], [Z.shiftr]; [/] and [%] are
      [Z.quot] and [Z.rem] (truncating), and both throw on a zero divisor.
    - JavaScript strings are [string]; one [ascii] stands for one code unit
      in the range 0..255.
    - A function that may throw returns [result]; a function that may
      return [null] returns an [option]. *)

From Stdlib Require Import ZArith List String Ascii Bool Lia.
Import ListNotations.

#[local] Set Warnings "-register-all".

Local Open Scope string_scope.
Local Open Scope list_scope.
Local Open Scope Z_scope.

(** ** Exceptions *)

Inductive result (A : Type) : Type :=
| Ok (a : A)
| Throw (msg : string).

Arguments Ok {A} a.
Arguments Throw {A} msg.

Definition bind {A B : Type} (r : result A) (k : A -> result B) : result B :=
  match r with
  | Ok a => k a
  | Throw m => Throw m
  end.

Notation "x <- r ;; k" := (bind r (fun x => k))
  (at level 61, r at next level, right associativity).

Definition failed {A : Type} (r : result A) : Prop :=
  match r with
  | Ok _ => False
  | Throw _ => True
  end.

(** [assert(cond)]: continue when the condition holds, throw otherwise. *)
Definition assert_ (cond : bool) (msg : string) : result unit :=
  if cond then Ok tt else Throw msg.

(** ** Constants (part_000, lines 26-27) *)

Definition U256_MAX : Z := Z.shiftl 1 256 - 1.
Definition I256_SIGN : Z := Z.shiftl 1 255.

Definition two256 : Z := 2 ^ 256.

(** ** Strings *)

Module Str.

Definition code (c : ascii) : Z := Z.of_nat (nat_of_ascii c).

Definition len (s : string) : Z := Z.of_nat (String.length s).

Fixpoint strip_prefix (p s : string) : option string :=
  match p with
  | EmptyString => Some s
  | String a p' =>
      match s with
      | EmptyString => None
      | String b s' => if Ascii.eqb a b then strip_prefix p' s' else None
      end
  end.

Definition startsWith (s p : string) : bool :=
  match strip_prefix p s with
  | Some _ => true
  | None => false
  end.

Fixpoint all (p : ascii -> bool) (s : string) : bool :=
  match s with
  | EmptyString => true
  | String c s' => p c && all p s'
  end.

(** The longest prefix of [s] made of characters satisfying [p], and what
    follows it: a greedy character-class repetition [[...]*]. *)
Fixpoint span (p : ascii -> bool) (s : string) : string * string :=
  match s with
  | EmptyString => (EmptyString, EmptyString)
  | String c s' =>
      if p c then let '(a, b) := span p s' in (String c a, b)
      else (EmptyString, s)
  end.

Definition is_digit (c : ascii) : bool :=
  (48 <=? code c) && (code c <=? 57).

Definition is_hex_digit (c : ascii) : bool :=
  is_digit c
  || ((97 <=? code c) && (code c <=? 102))
  || ((65 <=? code c) && (code c <=? 70)).

Definition is_zero_char (c : ascii) : bool := code c =? 48.

(** The one-character string holding a double quote. *)
Definition dquote : string := String (ascii_of_nat 34) EmptyString.

Fixpoint repeat (c : ascii) (n : nat) : string :=
  match n with
  | O => EmptyString
  | S k => String c (repeat c k)
  end.

Fixpoint join (sep : string) (l : list string) : string :=
  match l with
  | [] => ""
  | [x] => x
  | x :: rest => x ++ sep ++ join sep rest
  end.

End Str.

(** ** Numbers and their text *)

Module Num.

(** Value of one digit character, letters in either case. *)
Definition digit_value (c : ascii) : option Z :=
  let n := Str.code c in
  if (48 <=? n) && (n <=? 57) then Some (n - 48)
  else if (97 <=? n) && (n <=? 122) then Some (n - 87)
  else if (65 <=? n) && (n <=? 90) then Some (n - 55)
  else None.

Definition digit_in (radix : Z) (c : ascii) : option Z :=
  match digit_value c with
  | Some d => if d <? radix then Some d else None
  | None => None
  end.

Fixpoint parse_digits (radix acc : Z) (s : string) : option Z :=
  match s with
  | EmptyString => Some acc
  | String c s' =>
      match digit_in radix c with
      | Some d => parse_digits radix (acc * radix + d) s'
      | None => None
      end
  end.

(** One or more digits in the given radix. *)
Definition parse_number (radix : Z) (s : string) : option Z :=
  match s with
  | EmptyString => None
  | _ => parse_digits radix 0 s
  end.

Definition digit_char (d : Z) : ascii :=
  ascii_of_nat (Z.to_nat (if d <? 10 then d + 48 else d + 87)).

(** Digits of a non-negative number, least significant first. *)
Fixpoint digits_le (radix : Z) (fuel : nat) (n : Z) : list Z :=
  match fuel with
  | O => []
  | S f =>
      (n mod radix) ::
      (if n / radix =? 0 then [] else digits_le radix f (n / radix))
  end.

Definition value_le (radix : Z) (ds : list Z) : Z :=
  fold_right (fun d acc => d + radix * acc) 0 ds.

Fixpoint string_of_chars (l : list ascii) : string :=
  match l with
  | [] => EmptyString
  | c :: l' => String c (string_of_chars l')
  end.

Definition digits_fuel (n : Z) : nat := S (Z.to_nat (Z.log2 n)).

Definition unsigned_text (radix n : Z) : string :=
  string_of_chars (map digit_char (rev (digits_le radix (digits_fuel n) n))).

(** [n.toString(radix)] on a BigInt or an integer Number. *)
Definition toString (radix n : Z) : string :=
  if n <? 0 then String "-" (unsigned_text radix (- n))
  else unsigned_text radix n.

(** [BigInt(string)]: StringToBigInt of ECMAScript for texts without white
    space.  A sign is accepted in front of decimal digits only; the
    prefixes [0x], [0o] and [0b] take no sign, so [BigInt("-0x10")]
    throws a SyntaxError.  The empty string converts to [0n]. *)
Definition BigInt (s : string) : result Z :=
  let syntax_error := Throw ("SyntaxError: Cannot convert " ++ s ++ " to a BigInt") in
  let of_option (o : option Z) :=
    match o with
    | Some v => Ok v
    | None => syntax_error
    end in
  match s with
  | EmptyString => Ok 0
  | _ =>
      match Str.strip_prefix "0x" s, Str.strip_prefix "0X" s with
      | Some h, _ | None, Some h => of_option (parse_number 16 h)
      | None, None =>
          match Str.strip_prefix "0o" s, Str.strip_prefix "0O" s with
          | Some o, _ | None, Some o => of_option (parse_number 8 o)
          | None, None =>
              match Str.strip_prefix "0b" s, Str.strip_prefix "0B" s with
              | Some b, _ | None, Some b => of_option (parse_number 2 b)
              | None, None =>
                  match Str.strip_prefix "-" s, Str.strip_prefix "+" s with
                  | Some d, _ => of_option (option_map Z.opp (parse_number 10 d))
                  | None, Some d => of_option (parse_number 10 d)
                  | None, None => of_option (parse_number 10 s)
                  end
              end
          end
      end
  end.

End Num.

(** ** The AST (spec section 3; object literals of part_000)

    A node is the JavaScript object [{type: ..., ...}].  The name of a
    [FunctionCall] is an [Identifier] node in the source; only its [value]
    is ever read, so the embedding stores that string.  In the same way a
    typed identifier list stores (name, type) pairs of strings, and a
    literal's [kind] is the value of its type identifier or [None] for
    [null].  Source positions ([filename], [line]) and comments are not
    represented. *)

Inductive subtype : Type :=
| HexNumberT
| DecimalNumberT
| StringLiteralT
| HexLiteralT
| BoolLiteralT.

Definition typed_idents : Type := list (string * option string).

Inductive node : Type :=
| NRoot (nodes : list node)
| NBlock (body : list node)
| NIdentifier (value : string) (replaceable : bool)
| NLiteral (sub : subtype) (kind : option string) (value : string)
| NFunctionCall (name : string) (args : list node)
| NVariableDeclaration (vars : typed_idents) (expr : option node)
| NAssignment (lhs : list string) (rhs : node)
| NIf (expr block : node) (branches : list (node * node))
      (otherwise : option node)
| NFold (expr block : node) (branches : list (node * node))
        (otherwise : option node)
| NSwitch (expr : node) (cases : list node) (def : option node)
| NCase (value block : node)
| NDefault (block : node)
| NForLoop (init test update block : node)
| NBreakContinue (value : string)
| NLeave
| NFunctionDefinition (name : string) (params : typed_idents)
                      (modifier : option string) (returns : typed_idents)
                      (block : node) (builtin : bool).

Definition subtype_eqb (a b : subtype) : bool :=
  match a, b with
  | HexNumberT, HexNumberT
  | DecimalNumberT, DecimalNumberT
  | StringLiteralT, StringLiteralT
  | HexLiteralT, HexLiteralT
  | BoolLiteralT, BoolLiteralT => true
  | _, _ => false
  end.

(** [node.value] of a literal or identifier. *)
Definition value_of (n : node) : string :=
  match n with
  | NLiteral _ _ v => v
  | NIdentifier v _ => v
  | NBreakContinue v => v
  | _ => ""
  end.

(** ** AST helpers (part_000, lines 8424-8893) *)

(** The JavaScript values handed to [Literal]: a BigInt, an integer
    Number or a boolean.  (Strings and Buffers, which [SubLiteral] also
    accepts, are not used by the code embedded here.) *)
Inductive jsvalue : Type :=
| VBigInt (v : Z)
| VNumber (v : Z)
| VBool (b : bool).

Definition SubLiteral (value : jsvalue) : subtype * string :=
  match value with
  | VBigInt v =>
      let num := Z.land v U256_MAX in
      if num <? 1024 then (DecimalNumberT, Num.toString 10 num)
      else
        let str := Num.toString 16 num in
        let str := if Z.odd (Str.len str) then ("0" ++ str)%string else str in
        (HexNumberT, ("0x" ++ str)%string)
  | VNumber v => (DecimalNumberT, Num.toString 10 v)
  | VBool b => (BoolLiteralT, if b then "true" else "false")
  end.

Definition Literal (value : jsvalue) : node :=
  let '(sub, text) := SubLiteral value in
  NLiteral sub None text.

Definition Root (nodes : list node) : node := NRoot nodes.
Definition Null : node := Root [].
Definition Block (body : list node) : node := NBlock body.
Definition Identifier (name : string) : node := NIdentifier name false.
Definition HexNumber (value : string) : node := NLiteral HexNumberT None value.
Definition HexLiteral (value : string) : node :=
  NLiteral HexLiteralT None ("hex" ++ Str.dquote ++ value ++ Str.dquote).
Definition Call (name : string) (args : list node) : node :=
  NFunctionCall name args.
Definition Assign (ident : string) (expr : node) : node :=
  NAssignment [ident] expr.
Definition If (expr block : node) : node := NIf expr block [] None.

Definition Add (x y : node) : node := Call "add" [x; y].
Definition Xor (x y : node) : node := Call "xor" [x; y].
Definition Shl (shift : Z) (num : node) : node :=
  Call "shl" [Literal (VNumber shift); num].
Definition Shr (shift : Z) (num : node) : node :=
  Call "shr" [Literal (VNumber shift); num].
Definition CallValue : node := Call "callvalue" [].
Definition CallDataLoad (pos : Z) : node :=
  Call "calldataload" [Literal (VNumber pos)].
Definition CallDataSize : node := Call "calldatasize" [].
Definition IsZero (expr : node) : node := Call "iszero" [expr].
Definition Lt (x y : node) : node := Call "lt" [x; y].
Definition Gt (x y : node) : node := Call "gt" [x; y].
Definition Stop : node := Call "stop" [].
Definition Revert : node :=
  Call "revert" [Literal (VNumber 0); Literal (VNumber 0)].
Definition PopAsm (expr : node) : node :=
  Call "verbatim_1i_0o" [HexLiteral "50"; expr].
Definition CodeSizeAsm : node := Call "verbatim_0i_1o" [HexLiteral "38"].
Definition RequireZero (expr : node) : node := If expr (Block [Revert]).
Definition RequireEq (x y : node) : node := RequireZero (Xor x y).
Definition RequireGte (x y : node) : node := RequireZero (Lt x y).

(** ** Predicates on nodes (part_000, lines 9051-9193) *)

Definition isNull (n : node) : bool :=
  match n with
  | NRoot [] => true
  | _ => false
  end.

Definition isLiteral (n : node) : bool :=
  match n with
  | NLiteral HexNumberT _ _
  | NLiteral DecimalNumberT _ _
  | NLiteral BoolLiteralT _ _ => true
  | _ => false
  end.

Definition isStringLiteral (n : node) : bool :=
  match n with
  | NLiteral StringLiteralT _ _ => true
  | _ => false
  end.

Definition isLiterals (args : list node) : bool := forallb isLiteral args.

(** [/^0+$/] *)
Definition re_zeros (s : string) : bool :=
  match s with
  | EmptyString => false
  | _ => Str.all Str.is_zero_char s
  end.

(** [/^0*1$/] *)
Definition re_zeros_one (s : string) : bool :=
  String.eqb (snd (Str.span Str.is_zero_char s)) "1".

Definition isZero (n : node) : bool :=
  match n with
  | NLiteral HexNumberT _ v =>
      match Str.strip_prefix "0x" v with
      | Some r => re_zeros r
      | None => false
      end
  | NLiteral DecimalNumberT _ v => re_zeros v
  | NLiteral BoolLiteralT _ v => String.eqb v "false"
  | _ => false
  end.

Definition isOne (n : node) : bool :=
  match n with
  | NLiteral HexNumberT _ v =>
      match Str.strip_prefix "0x" v with
      | Some r => re_zeros_one r
      | None => false
      end
  | NLiteral DecimalNumberT _ v => re_zeros_one v
  | NLiteral BoolLiteralT _ v => String.eqb v "true"
  | _ => false
  end.

Definition isDefaultIdentifier (n : node) : bool :=
  match n with
  | NIdentifier v _ => String.eqb v "@"
  | _ => false
  end.

Definition isCall (n : node) (name : string) (length : nat) : bool :=
  match n with
  | NFunctionCall f args =>
      String.eqb f name && Nat.eqb (List.length args) length
  | _ => false
  end.

Definition isLtCall (n : node) : bool := isCall n "lt" 2.
Definition isGtCall (n : node) : bool := isCall n "gt" 2.

(** [toBigInt] (part_000, lines 9488-9496). *)
Definition toBigInt (value : string) : result Z :=
  if String.eqb value "false" then Ok 0
  else if String.eqb value "true" then Ok 1
  else Num.BigInt value.

(** ** The parser's number literals (part_000, lines 1493-1550)

    The parser state that matters for a token is the remaining input.
    A production returns [Ok None] for [null] (no match, nothing
    consumed), [Ok (Some (token, input'))] after consuming a token and the
    white space behind it, and [Throw] when an assertion fails or a
    built-in throws. *)

Module Parser.

Definition is_space (c : ascii) : bool :=
  let n := Str.code c in
  (n =? 10) || (n =? 13) || (n =? 9) || (n =? 32).

Definition eatSpace (input : string) : string :=
  snd (Str.span is_space input).

Definition opt_minus (input : string) : string * string :=
  match Str.strip_prefix "-" input with
  | Some r => ("-", r)
  | None => ("", input)
  end.

(** [/^-?0x[0-9a-fA-F]+/]: the matched text and the rest of the input. *)
Definition match_HexNumber (input : string) : option (string * string) :=
  let '(sign, r) := opt_minus input in
  match Str.strip_prefix "0x" r with
  | None => None
  | Some r' =>
      let '(ds, rest) := Str.span Str.is_hex_digit r' in
      match ds with
      | EmptyString => None
      | _ => Some ((sign ++ "0x" ++ ds)%string, rest)
      end
  end.

(** [/^-?[0-9]+/] *)
Definition match_DecimalNumber (input : string) : option (string * string) :=
  let '(sign, r) := opt_minus input in
  let '(ds, rest) := Str.span Str.is_digit r in
  match ds with
  | EmptyString => None
  | _ => Some ((sign ++ ds)%string, rest)
  end.

Definition token : Type := (subtype * string)%type.

Definition HexNumber (input : string) : result (option (token * string)) :=
  match match_HexNumber input with
  | None => Ok None
  | Some (value, rest) =>
      let input' := eatSpace rest in
      let neg := Str.startsWith value "-" in
      _ <- assert_ (Str.len value <=? (if neg then 1 else 0) + 2 + 64)
             "Parse error" ;;
      _ <- (if Str.len value =? 67
            then n <- Num.BigInt value ;;
                 assert_ (- I256_SIGN <=? n) "Parse error"
            else Ok tt) ;;
      if neg then
        v <- Num.BigInt value ;;
        Ok (Some ((HexNumberT,
                   ("0x" ++ Num.toString 16 (Z.land v U256_MAX))%string),
                  input'))
      else Ok (Some ((HexNumberT, value), input'))
  end.

Definition DecimalNumber (input : string) : result (option (token * string)) :=
  match match_DecimalNumber input with
  | None => Ok None
  | Some (value, rest) =>
      let input' := eatSpace rest in
      _ <- assert_ (Str.len value <=? 78) "Parse error" ;;
      _ <- (if Str.len value =? 78
            then n <- Num.BigInt value ;;
                 assert_ ((- I256_SIGN <=? n) && (n <=? U256_MAX))
                   "Parse error"
            else Ok tt) ;;
      if Str.startsWith value "-" then
        v <- Num.BigInt value ;;
        Ok (Some ((HexNumberT,
                   ("0x" ++ Num.toString 16 (Z.land v U256_MAX))%string),
                  input'))
      else Ok (Some ((DecimalNumberT, value), input'))
  end.

Definition NumberLiteral (input : string) : result (option (token * string)) :=
  r <- HexNumber input ;;
  match r with
  | Some t => Ok (Some t)
  | None => DecimalNumber input
  end.

End Parser.

(** ** [JSON.parse] on the text of a string literal

    A [StringLiteral] node carries a quoted text: what the parser's
    [StringLiteral] production matched, or what [JSON.stringify] printed.
    On such a text [JSON.parse] returns a string, here the list of its
    code units, or throws a SyntaxError.  Other JSON texts (numbers,
    arrays, surrounding white space) are outside this model and are
    reported as a throw. *)

Module JSON.

(** The one-character escapes: quote, backslash, slash, b, f, n, r, t. *)
Definition simple_escape (k : Z) : option Z :=
  if k =? 34 then Some 34
  else if k =? 92 then Some 92
  else if k =? 47 then Some 47
  else if k =? 98 then Some 8
  else if k =? 102 then Some 12
  else if k =? 110 then Some 10
  else if k =? 114 then Some 13
  else if k =? 116 then Some 9
  else None.

Definition hex4 (a b c d : ascii) : option Z :=
  let s := String a (String b (String c (String d EmptyString))) in
  if Str.all Str.is_hex_digit s then Num.parse_number 16 s else None.

(** The characters after the opening quote, up to the closing quote, which
    must end the text. *)
Fixpoint parse_chars (s : string) : result (list Z) :=
  match s with
  | EmptyString => Throw "SyntaxError: Unterminated string in JSON"
  | String c s' =>
      let n := Str.code c in
      if n =? 34 then
        match s' with
        | EmptyString => Ok []
        | _ => Throw "SyntaxError: Unexpected character after JSON"
        end
      else if n =? 92 then
        match s' with
        | EmptyString => Throw "SyntaxError: Unterminated string in JSON"
        | String e s'' =>
            if Str.code e =? 117 then
              match s'' with
              | String a (String b (String c' (String d rest))) =>
                  match hex4 a b c' d with
                  | Some u => r <- parse_chars rest ;; Ok (u :: r)
                  | None => Throw "SyntaxError: Bad Unicode escape in JSON"
                  end
              | _ => Throw "SyntaxError: Bad Unicode escape in JSON"
              end
            else
              match simple_escape (Str.code e) with
              | Some u => r <- parse_chars s'' ;; Ok (u :: r)
              | None => Throw "SyntaxError: Bad escaped character in JSON"
              end
        end
      else if n <? 32 then
        Throw "SyntaxError: Bad control character in string literal in JSON"
      else r <- parse_chars s' ;; Ok (n :: r)
  end.

Definition parse (text : string) : result (list Z) :=
  match text with
  | String q s' =>
      if Str.code q =? 34 then parse_chars s'
      else Throw "SyntaxError: Unexpected token in JSON"
  | EmptyString => Throw "SyntaxError: Unexpected end of JSON input"
  end.

End JSON.

(** ** Expression folding (part_000, lines 6371-6829) *)

Module BigOps.

(** [x / y] on BigInts truncates and throws a RangeError when [y] is zero. *)
Definition div (x y : Z) : result Z :=
  if y =? 0 then Throw "RangeError: Division by zero" else Ok (Z.quot x y).

(** [x % y] *)
Definition rem (x y : Z) : result Z :=
  if y =? 0 then Throw "RangeError: Division by zero" else Ok (Z.rem x y).

(** [x ** y] throws a RangeError on a negative exponent.  (An engine also
    throws a RangeError when the power, or a shifted value, outgrows its
    largest BigInt; [Z] has no such bound, so this model returns a value
    there.) *)
Definition pow (x y : Z) : result Z :=
  if y <? 0 then Throw "RangeError: Exponent must be non-negative"
  else Ok (x ^ y).

(** [if (x & I256_SIGN) x = -(-x & U256_MAX)] *)
Definition to_signed (x : Z) : Z :=
  if Z.land x I256_SIGN =? 0 then x else - (Z.land (- x) U256_MAX).

End BigOps.

Definition list_Z_eqb (a b : list Z) : bool :=
  if list_eq_dec Z.eq_dec a b then true else false.

Definition b2z (b : bool) : Z := if b then 1 else 0.

Module Fold.

(** [if (!isLiterals(args)) return null;] followed by the conversion of
    two literal arguments. *)
Definition literals2 (args : list node) (a0 a1 : node)
    (k : Z -> Z -> result (option node)) : result (option node) :=
  if negb (isLiterals args) then Ok None
  else
    x <- toBigInt (value_of a0) ;;
    y <- toBigInt (value_of a1) ;;
    k x y.

Definition literals3 (args : list node) (a0 a1 a2 : node)
    (k : Z -> Z -> Z -> result (option node)) : result (option node) :=
  if negb (isLiterals args) then Ok None
  else
    x <- toBigInt (value_of a0) ;;
    y <- toBigInt (value_of a1) ;;
    m <- toBigInt (value_of a2) ;;
    k x y m.

Definition big (v : Z) : result (option node) := Ok (Some (Literal (VBigInt v))).
Definition num (v : Z) : result (option node) := Ok (Some (Literal (VNumber v))).
Definition ret (n : node) : result (option node) := Ok (Some n).
Definition null : result (option node) := Ok None.

Definition add (args : list node) : result (option node) :=
  match args with
  | [a0; a1] =>
      if isZero a0 then ret a1
      else if isZero a1 then ret a0
      else literals2 args a0 a1 (fun x y => big (x + y))
  | _ => null
  end.

Definition sub (args : list node) : result (option node) :=
  match args with
  | [a0; a1] =>
      if isZero a1 then ret a0
      else literals2 args a0 a1 (fun x y => big (x - y))
  | _ => null
  end.

Definition mul (args : list node) : result (option node) :=
  match args with
  | [a0; a1] =>
      if isZero a0 || isZero a1 then num 0
      else if isOne a0 then ret a1
      else if isOne a1 then ret a0
      else literals2 args a0 a1 (fun x y => big (x * y))
  | _ => null
  end.

(** [case 'div': case 'sdiv':] *)
Definition div (is_sdiv : bool) (args : list node) : result (option node) :=
  match args with
  | [a0; a1] =>
      if isZero a0 || isZero a1 then num 0
      else if negb is_sdiv && isOne a1 then ret a0
      else literals2 args a0 a1 (fun x y =>
             let x := if is_sdiv then BigOps.to_signed x else x in
             let y := if is_sdiv then BigOps.to_signed y else y in
             q <- BigOps.div x y ;; big q)
  | _ => null
  end.

(** [case 'mod': case 'smod':] *)
Definition mod_ (is_smod : bool) (args : list node) : result (option node) :=
  match args with
  | [a0; a1] =>
      if isZero a0 || isZero a1 then num 0
      else if isOne a1 then num 0
      else literals2 args a0 a1 (fun x y =>
             let x := if is_smod then BigOps.to_signed x else x in
             let y := if is_smod then BigOps.to_signed y else y in
             r <- BigOps.rem x y ;; big r)
  | _ => null
  end.

Definition exp (args : list node) : result (option node) :=
  match args with
  | [a0; a1] =>
      if isZero a1 then num 1
      else if isOne a1 then ret a0
      else if isZero a0 then num 0
      else literals2 args a0 a1 (fun x y => p <- BigOps.pow x y ;; big p)
  | _ => null
  end.

Definition addmod (args : list node) : result (option node) :=
  match args with
  | [a0; a1; a2] =>
      if isZero a2 then num 0
      else literals3 args a0 a1 a2 (fun x y m =>
             r <- BigOps.rem (x + y) m ;; big r)
  | _ => null
  end.

Definition mulmod (args : list node) : result (option node) :=
  match args with
  | [a0; a1; a2] =>
      if isZero a0 || isZero a1 || isZero a2 then num 0
      else literals3 args a0 a1 a2 (fun x y m =>
             r <- BigOps.rem (x * y) m ;; big r)
  | _ => null
  end.

Definition not_ (args : list node) : result (option node) :=
  match args with
  | [a0] =>
      if negb (isLiterals args) then null
      else x <- toBigInt (value_of a0) ;; big (Z.lxor x U256_MAX)
  | _ => null
  end.

Definition and_ (args : list node) : result (option node) :=
  match args with
  | [a0; a1] =>
      if isZero a0 then num 0
      else if isZero a1 then num 0
      else literals2 args a0 a1 (fun x y => big (Z.land x y))
  | _ => null
  end.

Definition or_ (args : list node) : result (option node) :=
  match args with
  | [a0; a1] =>
      if isZero a0 then ret a1
      else if isZero a1 then ret a0
      else literals2 args a0 a1 (fun x y => big (Z.lor x y))
  | _ => null
  end.

Definition xor (args : list node) : result (option node) :=
  match args with
  | [a0; a1] =>
      if isZero a0 then ret a1
      else if isZero a1 then ret a0
      else literals2 args a0 a1 (fun x y => big (Z.lxor x y))
  | _ => null
  end.

Definition shl (args : list node) : result (option node) :=
  match args with
  | [a0; a1] =>
      if isZero a0 then ret a1
      else literals2 args a0 a1 (fun shift n => big (Z.shiftl n shift))
  | _ => null
  end.

(** [case 'shr': case 'sar':] *)
Definition shr (is_sar : bool) (args : list node) : result (option node) :=
  match args with
  | [a0; a1] =>
      if isZero a0 then ret a1
      else literals2 args a0 a1 (fun shift n =>
             let n := if is_sar then BigOps.to_signed n else n in
             big (Z.shiftr n shift))
  | _ => null
  end.

Definition signextend (args : list node) : result (option node) :=
  match args with
  | [a0; a1] =>
      literals2 args a0 a1 (fun b x =>
        if 31 <? b then big x
        else
          let bit := b * 8 + 7 in
          let mask := Z.shiftl 1 bit - 1 in
          if negb (Z.land x (Z.shiftl 1 bit) =? 0)
          then big (Z.lor x (Z.lxor mask U256_MAX))
          else big (Z.land x mask))
  | _ => null
  end.

Definition byte (args : list node) : result (option node) :=
  match args with
  | [a0; a1] =>
      literals2 args a0 a1 (fun pos n =>
        if 31 <? pos then num 0
        else
          let shift := Z.shiftl (31 - pos) 3 in
          big (Z.land (Z.shiftr n shift) 255))
  | _ => null
  end.

(** The two arguments of a call node ([const [x, y] = node.args]). *)
Definition args2 (n : node) : option (node * node) :=
  match n with
  | NFunctionCall _ [x; y] => Some (x, y)
  | _ => None
  end.

Definition iszero_literal (a0 : node) : result (option node) :=
  if negb (isLiteral a0) then null
  else x <- toBigInt (value_of a0) ;; num (b2z (x =? 0)).

Definition iszero_gt (a0 : node) : result (option node) :=
  match (if isGtCall a0 then args2 a0 else None) with
  | Some (x, y) =>
      if isLiteral y then
        n <- toBigInt (value_of y) ;;
        if n =? U256_MAX then num 1
        else ret (Lt x (Literal (VBigInt (n + 1))))
      else iszero_literal a0
  | None => iszero_literal a0
  end.

Definition iszero (args : list node) : result (option node) :=
  match args with
  | [a0] =>
      match (if isLtCall a0 then args2 a0 else None) with
      | Some (x, y) =>
          if isLiteral y then
            n <- toBigInt (value_of y) ;;
            if n =? 0 then num 1
            else ret (Gt x (Literal (VBigInt (n - 1))))
          else iszero_gt a0
      | None => iszero_gt a0
      end
  | _ => null
  end.

Definition eq (args : list node) : result (option node) :=
  match args with
  | [a0; a1] =>
      if isStringLiteral a0 && isStringLiteral a1 then
        lhs <- JSON.parse (value_of a0) ;;
        rhs <- JSON.parse (value_of a1) ;;
        num (b2z (list_Z_eqb lhs rhs))
      else if isLiterals args then
        lhs <- toBigInt (value_of a0) ;;
        rhs <- toBigInt (value_of a1) ;;
        num (b2z (lhs =? rhs))
      else if isZero a0 then ret (IsZero a1)
      else if isZero a1 then ret (IsZero a0)
      else null
  | _ => null
  end.

(** [case 'lt': case 'slt':] *)
Definition lt (is_slt : bool) (args : list node) : result (option node) :=
  match args with
  | [a0; a1] =>
      literals2 args a0 a1 (fun lhs rhs =>
        let lhs := if is_slt then BigOps.to_signed lhs else lhs in
        let rhs := if is_slt then BigOps.to_signed rhs else rhs in
        num (b2z (lhs <? rhs)))
  | _ => null
  end.

(** [case 'gt': case 'sgt':] *)
Definition gt (is_sgt : bool) (args : list node) : result (option node) :=
  match args with
  | [a0; a1] =>
      literals2 args a0 a1 (fun lhs rhs =>
        let lhs := if is_sgt then BigOps.to_signed lhs else lhs in
        let rhs := if is_sgt then BigOps.to_signed rhs else rhs in
        num (b2z (rhs <? lhs)))
  | _ => null
  end.

Definition bswap16 (x : Z) : Z :=
  Z.lor (Z.shiftl (Z.land x 255) 8) (Z.shiftr (Z.land x 65280) 8).

Definition bswap32 (x : Z) : Z :=
  let x := Z.lor (Z.shiftl (Z.land x 65535) 16)
                 (Z.shiftr (Z.land x 4294901760) 16) in
  Z.lor (Z.shiftl (Z.land x 16711935) 8)
        (Z.shiftr (Z.land x 4278255360) 8).

Definition bswap64 (x : Z) : Z :=
  let x := Z.lor (Z.shiftl (Z.land x 4294967295) 32)
                 (Z.shiftr (Z.land x 18446744069414584320) 32) in
  let x := Z.lor (Z.shiftl (Z.land x 281470681808895) 16)
                 (Z.shiftr (Z.land x 18446462603027742720) 16) in
  Z.lor (Z.shiftl (Z.land x 71777214294589695) 8)
        (Z.shiftr (Z.land x 18374966859414961920) 8).

Definition bswap (f : Z -> Z) (args : list node) : result (option node) :=
  match args with
  | [a0] =>
      if negb (isLiterals args) then null
      else x <- toBigInt (value_of a0) ;; big (f x)
  | _ => null
  end.

Definition named (name s : string) : bool := String.eqb name s.

(** [fold(name, args)]: [Ok (Some n)] is the replacement node, [Ok None]
    is [null]. *)
Definition fold (name : string) (args : list node) : result (option node) :=
  if named name "add" then add args
  else if named name "sub" then sub args
  else if named name "mul" then mul args
  else if named name "div" then div false args
  else if named name "sdiv" then div true args
  else if named name "mod" then mod_ false args
  else if named name "smod" then mod_ true args
  else if named name "exp" then exp args
  else if named name "addmod" then addmod args
  else if named name "mulmod" then mulmod args
  else if named name "not" then not_ args
  else if named name "and" then and_ args
  else if named name "or" then or_ args
  else if named name "xor" then xor args
  else if named name "shl" then shl args
  else if named name "shr" then shr false args
  else if named name "sar" then shr true args
  else if named name "signextend" then signextend args
  else if named name "byte" then byte args
  else if named name "iszero" then iszero args
  else if named name "eq" then eq args
  else if named name "lt" then lt false args
  else if named name "slt" then lt true args
  else if named name "gt" then gt false args
  else if named name "sgt" then gt true args
  else if named name "__bswap16" then bswap bswap16 args
  else if named name "__bswap32" then bswap bswap32 args
  else if named name "__bswap64" then bswap bswap64 args
  else null.

(** [tryFold(node)]: [fold(node.name, node.args) || node]. *)
Definition tryFold (n : node) : result node :=
  match n with
  | NFunctionCall name args =>
      r <- fold name args ;;
      match r with
      | Some n' => Ok n'
      | None => Ok n
      end
  | _ => Ok n
  end.

End Fold.

(** ** 256-bit EVM arithmetic

    The meaning of the foldable opcodes on words, that is on integers in
    [0, 2^256), as the EVM defines them. *)

Module EVM.

Definition u256 (v : Z) : Z := v mod two256.

(** The two's-complement reading of a word. *)
Definition signed (x : Z) : Z := if x <? 2 ^ 255 then x else x - two256.

Definition add (x y : Z) : Z := u256 (x + y).
Definition sub (x y : Z) : Z := u256 (x - y).
Definition mul (x y : Z) : Z := u256 (x * y).
Definition div (x y : Z) : Z := if y =? 0 then 0 else x / y.
Definition sdiv (x y : Z) : Z :=
  if y =? 0 then 0
  else u256 (Z.sgn (signed x) * Z.sgn (signed y)
             * (Z.abs (signed x) / Z.abs (signed y))).
Definition mod_ (x y : Z) : Z := if y =? 0 then 0 else x mod y.
Definition smod (x y : Z) : Z :=
  if y =? 0 then 0
  else u256 (Z.sgn (signed x) * (Z.abs (signed x) mod Z.abs (signed y))).
Definition exp (x y : Z) : Z := u256 (x ^ y).
Definition addmod (x y m : Z) : Z := if m =? 0 then 0 else (x + y) mod m.
Definition mulmod (x y m : Z) : Z := if m =? 0 then 0 else (x * y) mod m.
Definition not_ (x : Z) : Z := two256 - 1 - x.
Definition and_ (x y : Z) : Z := Z.land x y.
Definition or_ (x y : Z) : Z := Z.lor x y.
Definition xor (x y : Z) : Z := Z.lxor x y.
Definition shl (s x : Z) : Z := if s <? 256 then u256 (x * 2 ^ s) else 0.
Definition shr (s x : Z) : Z := if s <? 256 then x / 2 ^ s else 0.
Definition sar (s x : Z) : Z :=
  if s <? 256 then u256 (signed x / 2 ^ s)
  else if signed x <? 0 then two256 - 1 else 0.
Definition signextend (b x : Z) : Z :=
  if b <? 31 then
    let t := 8 * b + 7 in
    let low := x mod 2 ^ (t + 1) in
    if low <? 2 ^ t then low else u256 (low - 2 ^ (t + 1))
  else x.
Definition byte (i x : Z) : Z :=
  if i <? 32 then (x / 2 ^ (8 * (31 - i))) mod 256 else 0.
Definition iszero (x : Z) : Z := b2z (x =? 0).
Definition eq (x y : Z) : Z := b2z (x =? y).
Definition lt (x y : Z) : Z := b2z (x <? y).
Definition gt (x y : Z) : Z := b2z (y <? x).
Definition slt (x y : Z) : Z := b2z (signed x <? signed y).
Definition sgt (x y : Z) : Z := b2z (signed y <? signed x).

Definition op1 (f : Z -> Z) (vs : list Z) : option Z :=
  match vs with
  | [x] => Some (f x)
  | _ => None
  end.

Definition op2 (f : Z -> Z -> Z) (vs : list Z) : option Z :=
  match vs with
  | [x; y] => Some (f x y)
  | _ => None
  end.

Definition op3 (f : Z -> Z -> Z -> Z) (vs : list Z) : option Z :=
  match vs with
  | [x; y; z] => Some (f x y z)
  | _ => None
  end.

(** The arithmetic opcodes by name; [None] for any other function. *)
Definition opcode (name : string) (vs : list Z) : option Z :=
  if String.eqb name "add" then op2 add vs
  else if String.eqb name "sub" then op2 sub vs
  else if String.eqb name "mul" then op2 mul vs
  else if String.eqb name "div" then op2 div vs
  else if String.eqb name "sdiv" then op2 sdiv vs
  else if String.eqb name "mod" then op2 mod_ vs
  else if String.eqb name "smod" then op2 smod vs
  else if String.eqb name "exp" then op2 exp vs
  else if String.eqb name "addmod" then op3 addmod vs
  else if String.eqb name "mulmod" then op3 mulmod vs
  else if String.eqb name "not" then op1 not_ vs
  else if String.eqb name "and" then op2 and_ vs
  else if String.eqb name "or" then op2 or_ vs
  else if String.eqb name "xor" then op2 xor vs
  else if String.eqb name "shl" then op2 shl vs
  else if String.eqb name "shr" then op2 shr vs
  else if String.eqb name "sar" then op2 sar vs
  else if String.eqb name "signextend" then op2 signextend vs
  else if String.eqb name "byte" then op2 byte vs
  else if String.eqb name "iszero" then op1 iszero vs
  else if String.eqb name "eq" then op2 eq vs
  else if String.eqb name "lt" then op2 lt vs
  else if String.eqb name "slt" then op2 slt vs
  else if String.eqb name "gt" then op2 gt vs
  else if String.eqb name "sgt" then op2 sgt vs
  else None.

(** A valuation gives a word to everything that is not an arithmetic
    opcode applied to arguments or a numeric literal: identifiers, string
    and hex literals, and calls of other functions. *)
Record valuation : Type := {
  ident : string -> Z;
  text : subtype -> string -> Z;
  call : string -> list Z -> Z
}.

Fixpoint eval (rho : valuation) (n : node) : Z :=
  match n with
  | NLiteral sub _ v =>
      if isLiteral n then
        match toBigInt v with
        | Ok x => u256 x
        | Throw _ => 0
        end
      else u256 (text rho sub v)
  | NIdentifier v _ => u256 (ident rho v)
  | NFunctionCall f args =>
      let vs := map (eval rho) args in
      match opcode f vs with
      | Some v => u256 v
      | None => u256 (call rho f vs)
      end
  | _ => 0
  end.

(** Every numeric literal of the expression denotes a word. *)
Fixpoint wf (n : node) : bool :=
  match n with
  | NLiteral _ _ v =>
      if isLiteral n then
        match toBigInt v with
        | Ok x => (0 <=? x) && (x <? two256)
        | Throw _ => false
        end
      else true
  | NFunctionCall _ args => forallb wf args
  | _ => true
  end.

End EVM.

(** The opcodes [fold] knows, leaving out its own [__bswap] helpers. *)
Definition foldable_opcodes : list string :=
  ["add"; "sub"; "mul"; "div"; "sdiv"; "mod"; "smod"; "exp"; "addmod";
   "mulmod"; "not"; "and"; "or"; "xor"; "shl"; "shr"; "sar"; "signextend";
   "byte"; "iszero"; "eq"; "lt"; "slt"; "gt"; "sgt"].

(** ** Structs (part_000, lines 7042-7249) *)

(** A [StructMember] node after [Transformer.prepare]: the values of its
    type and name identifiers and its default-value node. *)
Module StructMemberNode.

Record t : Type := {
  kind : string;
  name : string;
  value : node
}.

End StructMemberNode.

Module StructDefinition.

Record t : Type := {
  name : string;
  members : list StructMemberNode.t
}.

End StructDefinition.

Module StructMember.

Record t : Type := {
  name : string;
  offset : Z;
  width : Z;
  value : Z;
  shift : Z;
  mask : node;
  imask : node;
  mod_ : Z
}.

(** [constructor(name, offset, width, value)] *)
Definition new (name : string) (offset width : Z) (value : string)
    : result t :=
  let shift := 256 - (offset + width) in
  let mask := Z.shiftl 1 width - 1 in
  let imask := Z.lxor (Z.shiftl mask shift) U256_MAX in
  v <- toBigInt value ;;
  Ok {| name := name;
        offset := offset;
        width := width;
        value := Z.land v mask;
        shift := shift;
        mask := Literal (VBigInt mask);
        imask := Literal (VBigInt imask);
        mod_ := mask |}.

Definition Or (x y : node) : node := Call "or" [x; y].

Definition accumulate (m : t) (acc value : node) : node :=
  if isZero acc then
    if shift m =? 0 then value else Shl (shift m) value
  else
    if shift m =? 0 then Or acc value else Or acc (Shl (shift m) value).

(** [mem.value << BigInt(mem.shift)] *)
Definition placed (m : t) : Z := Z.shiftl (value m) (shift m).

End StructMember.

Module Struct.

Record t : Type := {
  name : string;
  members : list StructMember.t;
  value : node;
  width : Z
}.

(** [/^<prefix>\d{lo,hi}$/]: the digits after the prefix. *)
Definition re_digits (prefix : string) (lo hi : nat) (s : string)
    : option string :=
  match Str.strip_prefix prefix s with
  | Some d =>
      if Str.all Str.is_digit d
         && Nat.leb lo (String.length d) && Nat.leb (String.length d) hi
      then Some d
      else None
  | None => None
  end.

(** [parseInt(digits, 10)] on a non-empty run of decimal digits. *)
Definition parseInt (d : string) : Z :=
  match Num.parse_number 10 d with
  | Some v => v
  | None => 0
  end.

(** The bit width of a member type; the [else] branch throws. *)
Definition type_width (id type : string) : result Z :=
  match re_digits "uint" 1 3 type with
  | Some d => Ok (parseInt d)
  | None =>
      match re_digits "int" 1 3 type with
      | Some d => Ok (parseInt d)
      | None =>
          if String.eqb type "address" then Ok 160
          else if String.eqb type "bool" then Ok 1
          else
            match re_digits "bytes" 1 2 type with
            | Some d => Ok (parseInt d * 8)
            | None =>
                if String.eqb type "function" then Ok 192
                else Throw ("Invalid struct type: " ++ id ++ ":" ++ type)
            end
    end
  end.

Definition has (members : list StructMember.t) (name : string) : bool :=
  existsb (fun m => String.eqb (StructMember.name m) name) members.

(** The loop of [init]: the state is [offset], [n] and the members
    collected so far. *)
Fixpoint init_loop (sname : string) (nodes : list StructMemberNode.t)
    (offset n : Z) (members : list StructMember.t)
    : result (Z * Z * list StructMember.t) :=
  match nodes with
  | [] => Ok (offset, n, members)
  | member :: rest =>
      let type := StructMemberNode.kind member in
      let name := StructMemberNode.name member in
      let id := (sname ++ "->" ++ name)%string in
      width <- type_width id type ;;
      if String.eqb name "+" then
        init_loop sname rest (offset + width) n members
      else if has members name then
        Throw ("Duplicate struct member name: " ++ id)
      else if negb (isLiteral (StructMemberNode.value member)) then
        Throw ("Default value for " ++ id ++ " must be a literal.")
      else
        mem <- StructMember.new name offset width
                 (value_of (StructMemberNode.value member)) ;;
        init_loop sname rest (offset + width)
          (Z.lor n (StructMember.placed mem)) (members ++ [mem])
  end.

(** [new Struct(node)] *)
Definition init (node : StructDefinition.t) : result t :=
  let sname := StructDefinition.name node in
  st <- init_loop sname (StructDefinition.members node) 0 0 [] ;;
  let '(offset, n, members) := st in
  if (offset =? 0) || (256 <? offset) then
    Throw ("Invalid struct size: " ++ sname)
  else
    Ok {| name := sname;
          members := members;
          value := Literal (VBigInt n);
          width := offset |}.

Definition stack : Type := list (StructMember.t * node).

(** The first loop of [fold] over the arguments, then the second loop over
    the members that got no argument. *)
Fixpoint fold_loop (members : list StructMember.t) (args : list node)
    (n : Z) (st : stack) : result (Z * stack) :=
  match args with
  | [] =>
      Ok (fold_left (fun n mem => Z.lor n (StructMember.placed mem))
            members n, st)
  | arg :: args' =>
      match members with
      | [] => Throw "TypeError: Cannot read properties of undefined"
      | mem :: members' =>
          if isDefaultIdentifier arg then
            fold_loop members' args' (Z.lor n (StructMember.placed mem)) st
          else if isLiteral arg then
            v <- toBigInt (value_of arg) ;;
            fold_loop members' args'
              (Z.lor n (Z.shiftl (Z.land v (StructMember.mod_ mem))
                                 (StructMember.shift mem))) st
          else fold_loop members' args' n (st ++ [(mem, arg)])
      end
  end.

Definition fold (s : t) (args : list node) : result node :=
  match args with
  | [] => Ok (value s)
  | _ =>
      if Nat.ltb (List.length (members s)) (List.length args) then
        Throw ("Too many arguments passed to struct(" ++ name s ++ ")")
      else
        r <- fold_loop (members s) args 0 [] ;;
        let '(n, st) := r in
        Ok (fold_left (fun expr p => StructMember.accumulate (fst p) expr (snd p))
              st (Literal (VBigInt n)))
  end.

(** The sum of the member widths, padding included. *)
Fixpoint total_width (sname : string) (nodes : list StructMemberNode.t)
    : result Z :=
  match nodes with
  | [] => Ok 0
  | member :: rest =>
      w <- type_width (sname ++ "->" ++ StructMemberNode.name member)
             (StructMemberNode.kind member) ;;
      t <- total_width sname rest ;;
      Ok (w + t)
  end.

End Struct.

(** ** ABI hashing (part_000, lines 9451-9480)

    [keccak256.digest] comes from the bcrypto library and is taken as a
    parameter [keccak256 : list Z -> list Z] from bytes to bytes.
    [Buffer.from(text, 'binary')] keeps the low byte of every code unit. *)

Module AbiHash.

Definition canonicalize (type : string) : string :=
  if String.eqb type "uint" then "uint256"
  else if String.eqb type "int" then "int256"
  else if String.eqb type "uint[]" then "uint256[]"
  else if String.eqb type "int[]" then "int256[]"
  else type.

Fixpoint bytes_of (s : string) : list Z :=
  match s with
  | EmptyString => []
  | String c s' => Str.code c :: bytes_of s'
  end.

(** Two lower-case hexadecimal digits per byte: [buf.toString('hex')]. *)
Fixpoint hex (bytes : list Z) : string :=
  match bytes with
  | [] => EmptyString
  | b :: rest =>
      String (Num.digit_char (b / 16))
        (String (Num.digit_char (b mod 16)) (hex rest))
  end.

Definition preimage (name : string) (types : list string) : string :=
  (name ++ "(" ++ Str.join "," (map canonicalize types) ++ ")")%string.

Definition abiHash (keccak256 : list Z -> list Z) (name : string)
    (types : list string) : list Z :=
  keccak256 (bytes_of (preimage name types)).

(** ['0x' + hash.toString('hex', 0, 4)] *)
Definition methodHash (keccak256 : list Z -> list Z) (name : string)
    (types : list string) : string :=
  ("0x" ++ hex (firstn 4 (abiHash keccak256 name types)))%string.

(** ['0x' + hash.toString('hex')] *)
Definition eventHash (keccak256 : list Z -> list Z) (name : string)
    (types : list string) : string :=
  ("0x" ++ hex (abiHash keccak256 name types))%string.

End AbiHash.

(** ** ABI types and parameters (part_000, lines 825-903, 7893-8001) *)

Module ABIType.

Record t : Type := {
  value : string;
  base : string;
  width : Z;
  array : bool
}.

End ABIType.

(** [MethodParams.items] and [EventParams.items] after
    [Transformer.prepare]: the name is the identifier's value or [None]. *)
Definition method_items : Type := list (ABIType.t * option string).
Definition event_items : Type := list (ABIType.t * option string * bool).

Module MethodParam.

Record t : Type := {
  name : option string;
  type : string;
  base : string;
  width : Z;
  array : bool;
  offset : Z
}.

Definition new (name : option string) (ty : ABIType.t) (offset : Z) : t :=
  {| name := name;
     type := ABIType.value ty;
     base := ABIType.base ty;
     width := ABIType.width ty;
     array := ABIType.array ty;
     offset := offset |}.

(** [assert(this.array)] is left to the callers, which test [array]. *)
Definition unit_ (p : t) : Z := if width p =? 0 then 1 else 32.

Definition ref (p : t) : node := Literal (VNumber (offset p)).

Definition is_calldataload (expr : node) : option node :=
  match expr with
  | NFunctionCall f (a :: _) =>
      if String.eqb f "calldataload" then Some a else None
  | _ => None
  end.

(** [check(expr, pos = null)] with [pos] left at its default. *)
Definition check (p : t) (expr : node) : result node :=
  if array p then
    let unit := Literal (VNumber (unit_ p)) in
    match is_calldataload expr with
    | Some a => Ok (Call "__check_calldata_array" [a; unit])
    | None =>
        match expr with
        | NIdentifier _ _ =>
            Ok (Call "__check_memory_array"
                  [expr; unit; Literal (VNumber 0)])
        | _ => Throw "Invalid expression for check()."
        end
    end
  else
    _ <- assert_ (0 <? width p) "AssertionError" ;;
    if width p =? 256 then Ok Null
    else if String.eqb (base p) "int" then
      Ok (Call "__check_int" [expr; Literal (VNumber (width p))])
    else if String.eqb (base p) "bytes" || String.eqb (base p) "function" then
      Ok (RequireZero (Shl (width p) expr))
    else Ok (RequireZero (Shr (width p) expr)).

Definition isPadded (p : t) : bool :=
  if array p || (width p =? 256) then false
  else String.eqb (base p) "bytes" || String.eqb (base p) "function".

Definition decode (p : t) (expr : node) : node :=
  if isPadded p then Shr (256 - width p) expr else expr.

Definition read (p : t) : node :=
  if array p then Add (CallDataLoad (offset p)) (Literal (VNumber 4))
  else decode p (CallDataLoad (offset p)).

End MethodParam.

(** ** Methods (part_000, lines 7525-7887) *)

(** A [MethodDeclaration] node after [Transformer.prepare]. *)
Module MethodDeclaration.

Record t : Type := {
  name : string;
  params : method_items;
  visibility : option string;
  mutability : option string;
  modifier : option string;
  returns : method_items
}.

End MethodDeclaration.

Definition opt_is (o : option string) (s : string) : bool :=
  match o with
  | Some v => String.eqb v s
  | None => false
  end.

Fixpoint includes_char (s : string) (c : ascii) : bool :=
  match s with
  | EmptyString => false
  | String a s' => Ascii.eqb a c || includes_char s' c
  end.

Module Method.

Record t : Type := {
  type : string;
  name : string;
  params : list MethodParam.t;
  map : list (string * MethodParam.t);
  visibility : option string;
  mutability : option string;
  modifier : option string;
  returns : list MethodParam.t;
  signature : string;
  array : bool;
  signed : bool;
  retArray : bool;
  retSigned : bool
}.

(** [this.map.get(name)] *)
Fixpoint map_get (m : list (string * MethodParam.t)) (name : string)
    : option MethodParam.t :=
  match m with
  | [] => None
  | (k, p) :: rest => if String.eqb k name then Some p else map_get rest name
  end.

Definition map_has (m : list (string * MethodParam.t)) (name : string)
    : bool :=
  match map_get m name with
  | Some _ => true
  | None => false
  end.

Record params_state : Type := {
  st_params : list MethodParam.t;
  st_map : list (string * MethodParam.t);
  st_array : bool;
  st_signed : bool
}.

(** The first loop of [init], over the parameters. *)
Fixpoint params_loop (items : method_items) (offset : Z) (st : params_state)
    : result params_state :=
  match items with
  | [] => Ok st
  | (ty, name) :: rest =>
      let param := MethodParam.new name ty offset in
      m <- match name with
           | Some n =>
               if map_has (st_map st) n
               then Throw ("Duplicate parameter name: " ++ n)
               else Ok (st_map st ++ [(n, param)])
           | None => Ok (st_map st)
           end ;;
      let is_array := ABIType.array ty in
      let is_signed :=
        negb is_array && String.eqb (ABIType.base ty) "int"
        && (ABIType.width ty <? 256) in
      params_loop rest (offset + 32)
        {| st_params := st_params st ++ [param];
           st_map := m;
           st_array := st_array st || is_array;
           st_signed := st_signed st || is_signed |}
  end.

(** The second loop of [init], over the returns. *)
Fixpoint returns_loop (items : method_items) (offset : Z) (st : params_state)
    : params_state :=
  match items with
  | [] => st
  | (ty, name) :: rest =>
      let param := MethodParam.new name ty offset in
      let is_array := ABIType.array ty in
      let is_signed :=
        negb is_array && String.eqb (ABIType.base ty) "int"
        && (ABIType.width ty <? 256) in
      returns_loop rest (offset + 32)
        {| st_params := st_params st ++ [param];
           st_map := st_map st;
           st_array := st_array st || is_array;
           st_signed := st_signed st || is_signed |}
  end.

Definition empty_state : params_state :=
  {| st_params := []; st_map := []; st_array := false; st_signed := false |}.

Definition types_of (items : method_items) : list string :=
  List.map (fun it => ABIType.value (fst it)) items.

(** [new Method(node)] *)
Definition init (keccak256 : list Z -> list Z) (node : MethodDeclaration.t)
    : result t :=
  let name := MethodDeclaration.name node in
  let visibility := MethodDeclaration.visibility node in
  let mutability := MethodDeclaration.mutability node in
  _ <- (if includes_char name "." then Throw (name ++ "() has invalid name.")
        else Ok tt) ;;
  let special := String.eqb name "receive" || String.eqb name "fallback" in
  _ <- (if special then
          match MethodDeclaration.params node,
                MethodDeclaration.returns node with
          | [], [] =>
              match visibility with
              | Some v =>
                  if negb (String.eqb v "external")
                  then Throw (name ++ "() must be defined as external.")
                  else Ok tt
              | None => Ok tt
              end
          | _, _ => Throw (name ++ "() cannot have params/returns.")
          end
        else Ok tt) ;;
  _ <- (if special && String.eqb name "receive"
           && negb (opt_is mutability "payable")
        then Throw (name ++ "() must be payable.")
        else Ok tt) ;;
  ps <- params_loop (MethodDeclaration.params node) 4 empty_state ;;
  let rs := returns_loop (MethodDeclaration.returns node) 0 empty_state in
  Ok {| type := if special then name else "function";
        name := name;
        params := st_params ps;
        map := st_map ps;
        visibility := visibility;
        mutability := mutability;
        modifier := MethodDeclaration.modifier node;
        returns := st_params rs;
        signature :=
          AbiHash.methodHash keccak256 name
            (types_of (MethodDeclaration.params node));
        array := st_array ps;
        signed := st_signed ps;
        retArray := st_array rs;
        retSigned := st_signed rs |}.

Definition isFunction (m : t) : bool := String.eqb (type m) "function".

(** The parameter loop of [check]: the non-null checks, in order. *)
Fixpoint param_checks (params : list MethodParam.t) : result (list node) :=
  match params with
  | [] => Ok []
  | param :: rest =>
      c <- MethodParam.check param (CallDataLoad (MethodParam.offset param)) ;;
      cs <- param_checks rest ;;
      Ok (if isNull c then cs else c :: cs)
  end.

(** [check()]: the nodes of the [Root] it returns. *)
Definition check (m : t) : result (list node) :=
  let guard :=
    if negb (opt_is (mutability m) "payable")
    then [RequireZero CallValue] else [] in
  if negb (isFunction m) then Ok guard
  else
    let size := Literal (VNumber (4 + Z.of_nat (List.length (params m)) * 32)) in
    let size_check :=
      if array m then RequireGte CallDataSize size
      else RequireEq CallDataSize size in
    cs <- param_checks (params m) ;;
    Ok (guard ++ [size_check] ++ cs).

End Method.

(** ** Events and errors (part_000, lines 8007-8354) *)

Module EventDeclaration.

Record t : Type := {
  name : string;
  params : event_items;
  anonymous : bool;
  packed : bool;
  modifier : option string
}.

End EventDeclaration.

Module EventParam.

Record t : Type := {
  name : option string;
  type : string;
  base : string;
  width : Z;
  bytes : Z;
  array : bool;
  indexed : bool
}.

Definition new (name : option string) (ty : ABIType.t) (indexed : bool) : t :=
  let width := Z.land (ABIType.width ty + 7) (Z.lnot 7) in
  {| name := name;
     type := ABIType.value ty;
     base := ABIType.base ty;
     width := width;
     bytes := width / 8;
     array := ABIType.array ty;
     indexed := indexed |}.

End EventParam.

Module Event.

Record t : Type := {
  name : string;
  params : list EventParam.t;
  packed : bool;
  anonymous : bool;
  modifier : option string;
  signature : string;
  array : bool
}.

(** [param.array && i !== heap.length - 1] for some [i]. *)
Fixpoint misuses_array (heap : list EventParam.t) : bool :=
  match heap with
  | [] => false
  | [_] => false
  | p :: rest => EventParam.array p || misuses_array rest
  end.

Definition init (keccak256 : list Z -> list Z) (node : EventDeclaration.t)
    : result t :=
  let name := EventDeclaration.name node in
  let items := EventDeclaration.params node in
  let packed := EventDeclaration.packed node in
  let anonymous := EventDeclaration.anonymous node in
  let params :=
    List.map (fun it => EventParam.new (snd (fst it)) (fst (fst it)) (snd it))
      items in
  let array :=
    existsb (fun it => ABIType.array (fst (fst it)) && negb (snd it)) items in
  let heap :=
    if packed then filter (fun p => negb (EventParam.indexed p)) params
    else [] in
  let total :=
    Z.of_nat (List.length (filter (fun it => snd it) items)) in
  if misuses_array heap then
    Throw ("Event " ++ name ++ " misuses array type.")
  else if 3 + b2z anonymous <? total then
    Throw ("Event " ++ name ++ " has too many indexed parameters")
  else
    Ok {| name := name;
          params := params;
          packed := packed;
          anonymous := anonymous;
          modifier := EventDeclaration.modifier node;
          signature :=
            AbiHash.eventHash keccak256 name
              (List.map (fun it => ABIType.value (fst (fst it))) items);
          array := array |}.

End Event.

Module ErrorDeclaration.

Record t : Type := {
  name : string;
  params : method_items
}.

End ErrorDeclaration.

Module VMError.

Record t : Type := {
  name : string;
  params : list MethodParam.t;
  signature : string;
  array : bool
}.

Fixpoint params_loop (items : method_items) (offset : Z)
    : list MethodParam.t :=
  match items with
  | [] => []
  | (ty, name) :: rest =>
      MethodParam.new name ty offset :: params_loop rest (offset + 32)
  end.

Definition init (keccak256 : list Z -> list Z) (node : ErrorDeclaration.t)
    : t :=
  let items := ErrorDeclaration.params node in
  {| name := ErrorDeclaration.name node;
     params := params_loop items 4;
     signature :=
       AbiHash.methodHash keccak256 (ErrorDeclaration.name node)
         (Method.types_of items);
     array := existsb (fun it => ABIType.array (fst it)) items |}.

End VMError.

(** ** Calldata identifiers and the dispatcher
       (part_000, lines 3514-3530 and 3644-3769)

    [scope.findCalldata()] is the bound method or [None];
    [scope.findFunc(name)] is abstracted to [available name], and
    [scope.dependsOn(name)] throws when the function is not available.
    What [dependsOn] records in the scope is not modelled. *)

Module Transformer.

Definition dependsOn (available : string -> bool) (name : string)
    : result unit :=
  if available name then Ok tt else Throw (name ++ "() not available.").

(** [case 'CallDataIdentifier'], with [name] the value of the member. *)
Definition CallDataIdentifier (calldata : option Method.t) (name : string)
    (ref : bool) : result node :=
  match calldata with
  | None => Throw "No method available."
  | Some method =>
      match Method.map_get (Method.map method) name with
      | None => Throw ("Unknown method parameter: " ++ name)
      | Some param =>
          if ref then Ok (MethodParam.ref param)
          else Ok (MethodParam.read param)
      end
  end.

Definition addDeps (available : string -> bool) (m : Method.t) : result unit :=
  _ <- (if Method.array m then dependsOn available "__check_calldata_array"
        else Ok tt) ;;
  if Method.signed m then dependsOn available "__check_int" else Ok tt.

Definition mutex_deps (available : string -> bool) : result unit :=
  _ <- dependsOn available "__mutex_key" ;;
  _ <- dependsOn available "__mutex_lock" ;;
  dependsOn available "__mutex_unlock".

Definition method_helper (name : string) : string :=
  ("__method_" ++ name)%string.

(** The block built for one method inside the loop of [method.select]. *)
Definition arm (available : string -> bool) (method : Method.t)
    : result node :=
  check <- Method.check method ;;
  _ <- addDeps available method ;;
  if opt_is (Method.modifier method) "locked" then
    _ <- mutex_deps available ;;
    Ok (Block (check ++ [Call "__mutex_lock" [];
                         Call (method_helper (Method.name method)) [];
                         Call "__mutex_unlock" []]))
  else
    Ok (Block (check ++ [Call (method_helper (Method.name method)) []])).

Record select_state : Type := {
  fallback : node;
  receive : option node;
  cases : list node
}.

Fixpoint select_loop (available : string -> bool) (methods : list Method.t)
    (st : select_state) : result select_state :=
  match methods with
  | [] => Ok st
  | method :: rest =>
      block <- arm available method ;;
      if String.eqb (Method.name method) "receive" then
        select_loop available rest
          {| fallback := fallback st; receive := Some block;
             cases := cases st |}
      else if String.eqb (Method.name method) "fallback" then
        select_loop available rest
          {| fallback := block; receive := receive st; cases := cases st |}
      else
        select_loop available rest
          {| fallback := fallback st; receive := receive st;
             cases := cases st
                      ++ [NCase (HexNumber (Method.signature method)) block] |}
  end.

Definition Eq (x y : node) : node := Call "eq" [x; y].

(** [case 'method.select'] for a call without arguments; [methods] are
    the values of [scope.methods] in insertion order. *)
Definition method_select (available : string -> bool)
    (methods : list Method.t) : result node :=
  match methods with
  | [] => Ok Stop
  | _ =>
      st <- select_loop available methods
              {| fallback := Block [Revert]; receive := None; cases := [] |} ;;
      let either :=
        match receive st with
        | Some r =>
            Block [NSwitch (Eq CallDataSize (Literal (VNumber 0)))
                     [NCase (Literal (VNumber 1)) r]
                     (Some (NDefault (fallback st)))]
        | None => fallback st
        end in
      Ok (Root
            [NSwitch (Lt CallDataSize (Literal (VNumber 4)))
               [NCase (Literal (VNumber 1)) either]
               (Some (NDefault
                        (Block [NSwitch (Shr 224 (CallDataLoad 0))
                                  (cases st)
                                  (Some (NDefault (fallback st)))])));
             Stop])
  end.


End Transformer.

(** ** Running a dispatcher arm

    The statements of a check prelude and of a dispatcher arm are [if]
    statements and calls.  [revert] ends the execution by reverting;
    [stop] and [return] end it normally; any other call is recorded in
    the trace and then either returns or ends the execution, as the
    machine's oracle [after_call] says.  Conditions are evaluated with
    [EVM.eval]. *)

Module Exec.

Inductive halt : Type :=
| Reverted
| Stopped.

Record machine : Type := {
  rho : EVM.valuation;
  after_call : string -> list Z -> option halt
}.


Fixpoint exec (m : machine) (n : node) (trace : list string)
    : option halt * list string :=
  match n with
  | NRoot body | NBlock body =>
      (fix run (l : list node) (tr : list string) :=
         match l with
         | [] => (None, tr)
         | s :: l' =>
             match exec m s tr with
             | (Some h, tr') => (Some h, tr')
             | (None, tr') => run l' tr'
             end
         end) body trace
  | NIf e b _ _ =>
      if EVM.eval (rho m) e =? 0 then (None, trace) else exec m b trace
  | NFunctionCall f args =>
      if String.eqb f "revert" then (Some Reverted, trace)
      else if String.eqb f "stop" || String.eqb f "return"
      then (Some Stopped, trace)
      else (after_call m f (List.map (EVM.eval (rho m)) args),
            trace ++ [f])
  | _ => (None, trace)
  end.

End Exec.

(** The parts of the node that [method.select] returns. *)
Module Dispatcher.

Definition selector_cases (root : node) : list node :=
  match root with
  | NRoot [NSwitch _ _ (Some (NDefault (NBlock [NSwitch _ cases _]))); _] =>
      cases
  | _ => []
  end.

Definition fallback_block (root : node) : option node :=
  match root with
  | NRoot [NSwitch _ _
             (Some (NDefault (NBlock [NSwitch _ _ (Some (NDefault b))]))); _] =>
      Some b
  | _ => None
  end.



End Dispatcher.

(** ** The code-size walker and inline suppression
       (part_000, lines 5975-6325 and 8899-9049)

    [traverse] lists the nodes that the generator yields, in order.  The
    end markers ([BlockEnd], [FunctionEnd]) and the identifier nodes that
    this embedding stores as strings (function names, typed identifier
    lists, literal kinds) are left out: [codeSize] gives them no weight. *)

Definition opt_nodes (f : node -> list node) (o : option node) : list node :=
  match o with
  | Some n => f n
  | None => []
  end.

Fixpoint traverse (n : node) : list node :=
  n ::
  match n with
  | NRoot nodes => flat_map traverse nodes
  | NBlock body => flat_map traverse body
  | NIdentifier _ _ => []
  | NLiteral _ _ _ => []
  | NFunctionCall _ args => flat_map traverse args
  | NVariableDeclaration _ expr => opt_nodes traverse expr
  | NAssignment _ rhs => traverse rhs
  | NIf expr block branches otherwise
  | NFold expr block branches otherwise =>
      traverse expr ++ traverse block
      ++ flat_map (fun p => traverse (fst p) ++ traverse (snd p)) branches
      ++ opt_nodes traverse otherwise
  | NSwitch expr cases def =>
      traverse expr ++ flat_map traverse cases ++ opt_nodes traverse def
  | NCase value block => traverse value ++ traverse block
  | NDefault block => traverse block
  | NForLoop init test update block =>
      traverse init ++ traverse test ++ traverse update ++ traverse block
  | NBreakContinue _ => []
  | NLeave => []
  | NFunctionDefinition _ _ _ _ block _ => traverse block
  end.

Module CodeSize.

(** The walker's state: the set [ignore] of literal values already
    counted, and [size]. *)
Definition state : Type := (list Z * Z)%type.

Definition seen (ignore : list Z) (v : Z) : bool :=
  existsb (Z.eqb v) ignore.

(** One iteration of the loop of [codeSize]. *)
Definition step (st : state) (n : node) : result state :=
  let '(ignore, size) := st in
  match n with
  | NAssignment _ _ => Ok (ignore, size + 0)
  | NVariableDeclaration _ _ => Ok (ignore, size + 0)
  | NFunctionDefinition _ _ _ _ _ _ => Ok (ignore, size + 1)
  | NIf _ _ _ _ => Ok (ignore, size + 2)
  | NSwitch _ cases def =>
      let size := size + (1 + 2 * Z.of_nat (List.length cases)) in
      Ok (ignore, match def with Some _ => size + 2 | None => size end)
  | NForLoop _ _ _ _ => Ok (ignore, size + 3)
  | NBreakContinue _ => Ok (ignore, size + 2)
  | NLeave => Ok (ignore, size + 2)
  | NBlock _ => Ok (ignore, size + 0)
  | NFunctionCall _ _ => Ok (ignore, size + 1)
  | NIdentifier _ _ => Ok (ignore, size + 0)
  | NLiteral _ _ v =>
      if isLiteral n then
        value <- toBigInt v ;;
        if negb (value =? 0) && negb (seen ignore value)
        then Ok (value :: ignore, size + 1)
        else Ok (ignore, size)
      else Ok (ignore, size + 1)
  | _ => Ok (ignore, size)
  end.

Fixpoint walk (nodes : list node) (st : state) : result state :=
  match nodes with
  | [] => Ok st
  | n :: rest => st' <- step st n ;; walk rest st'
  end.

Definition codeSize (root : node) : result Z :=
  st <- walk (traverse root) ([], 0) ;; Ok (snd st).

End CodeSize.

(** [func.block.body], [func.params.items], [func.returns.items]. *)
Definition body_of (block : node) : list node :=
  match block with
  | NBlock body => body
  | _ => []
  end.

Definition isInlinableExpression (returns : typed_idents) (block : node)
    : bool :=
  match returns, body_of block with
  | [(ret, _)], [NAssignment [lhs] _] => String.eqb lhs ret
  | _, _ => false
  end.

Module NoInline_.

Definition needs (params : typed_idents) (memguard : bool) : Z :=
  match params with
  | [] => if memguard then 8 else 6
  | _ => if memguard then 16 else 12
  end.

(** [CODESIZE POP] *)
Definition pad : node := PopAsm CodeSizeAsm.

(** [while (size < needs) { body.push(pad); size += 4; }]: the loop runs
    at most [fuel] times; [None] when the fuel runs out. *)
Fixpoint pad_loop (fuel : nat) (size needs : Z) (body : list node)
    : option (list node) :=
  if size <? needs then
    match fuel with
    | O => None
    | S f => pad_loop f (size + 4) needs (body ++ [pad])
    end
  else Some body.

End NoInline_.

(** [NoInline(func, memguard)] on a [FunctionDefinition] node. *)
Definition NoInline (func : node) (memguard : bool) : result node :=
  match func with
  | NFunctionDefinition name params modifier returns block builtin =>
      let needs := NoInline_.needs params memguard in
      size <- CodeSize.codeSize block ;;
      let '(body, size) :=
        if isInlinableExpression returns block
        then ([NoInline_.pad], size + 4) else ([], size) in
      match NoInline_.pad_loop (Z.to_nat needs) size needs body with
      | None => Throw "the padding loop did not finish"
      | Some [] => Ok func
      | Some body =>
          Ok (NFunctionDefinition name params None returns
                (Block (body ++ body_of block)) builtin)
      end
  | _ => Throw "TypeError: not a function definition"
  end.

(** [FunctionConstant(name, expr, memguard)] *)
Definition FunctionConstant (name : string) (expr : node) (memguard : bool)
    : result node :=
  let needs := if memguard then 8 else 6 in
  s <- CodeSize.codeSize expr ;;
  match NoInline_.pad_loop (Z.to_nat needs) (4 + s) needs [NoInline_.pad] with
  | None => Throw "the padding loop did not finish"
  | Some body =>
      Ok (NFunctionDefinition name [] None [("__ret", None)]
            (Block (body ++ [Assign "__ret" expr])) false)
  end.

(** ** The preprocessor: [case 'Fold'] of [Transformer.rewrite]
       (part_000, lines 2525-2542)

    The rule calls [this.rewrite] on the conditions and on the block it
    selects; here that function is the parameter [rewrite]. *)

Module Scope.

Inductive macro : Type :=
| MacroConstant (expr : node)
| MacroDefinition (params : list string) (block : node).

Inductive const : Type :=
| ConstNode (value : node)
| ConstWrapper (ident : string).

(** The maps of one scope that identifier rewriting reads. *)
Record frame : Type := {
  consts : list (string * const);
  macros : list (string * macro);
  funcs : list string
}.

(** A scope with its parents, innermost first. *)
Definition t : Type := list frame.

Fixpoint get {A : Type} (m : list (string * A)) (name : string) : option A :=
  match m with
  | [] => None
  | (k, v) :: rest => if String.eqb k name then Some v else get rest name
  end.

Fixpoint findMacro (s : t) (name : string) : option macro :=
  match s with
  | [] => None
  | f :: parents =>
      match get (macros f) name with
      | Some m => Some m
      | None => findMacro parents name
      end
  end.

Fixpoint findConst (s : t) (name : string) : option const :=
  match s with
  | [] => None
  | f :: parents =>
      match get (consts f) name with
      | Some c => Some c
      | None => findConst parents name
      end
  end.

Fixpoint findFunc (s : t) (name : string) : bool :=
  match s with
  | [] => false
  | f :: parents =>
      existsb (String.eqb name) (funcs f) || findFunc parents name
  end.

End Scope.

Module Rewrite.

(** [isLiteral(result) && toBigInt(result.value)] *)
Definition taken (res : node) : result bool :=
  if isLiteral res then
    v <- toBigInt (value_of res) ;; Ok (negb (v =? 0))
  else Ok false.

(** The loop over [[node.expr, node.block], ...node.branches] and what
    follows it. *)
Fixpoint Fold_loop (rewrite : node -> result node)
    (branches : list (node * node)) (otherwise : option node)
    : result node :=
  match branches with
  | [] =>
      match otherwise with
      | Some o => rewrite o
      | None => Ok Null
      end
  | (expr, block) :: rest =>
      res <- rewrite expr ;;
      t <- taken res ;;
      if t then rewrite block else Fold_loop rewrite rest otherwise
  end.

(** [case 'Fold'] *)
Definition Fold (rewrite : node -> result node) (n : node)
    : result node :=
  match n with
  | NFold expr block branches otherwise =>
      Fold_loop rewrite ((expr, block) :: branches) otherwise
  | _ => Throw "unreachable"
  end.

(** [case 'Identifier'] (lines 3532-3560): [hardfork] is
    [hardforks[this.hardfork]]; [rewrite] is the recursive call on the
    expression of a macro constant. *)
Definition Identifier_ (hardfork : Z) (scope : Scope.t)
    (rewrite : node -> result node) (value : string)
    (replaceable : bool) : result node :=
  if String.eqb value "EVM_VERSION" then Ok (Literal (VNumber hardfork))
  else
    match Scope.findMacro scope value with
    | Some (Scope.MacroConstant expr) => rewrite expr
    | _ =>
        match (if replaceable then Scope.findConst scope value else None) with
        | Some (Scope.ConstWrapper ident) =>
            if Scope.findFunc scope ident then Ok (Call ident [])
            else Throw (ident ++ "() not available.")
        | Some (Scope.ConstNode c) => Ok c
        | None => Ok (NIdentifier value replaceable)
        end
    end.

(** [Transformer.rewrite] on identifiers and on literals without a kind;
    the recursion through macro constants is bounded by [fuel].  Every
    other node is outside this fragment. *)
Fixpoint leaf (fuel : nat) (hardfork : Z) (scope : Scope.t) (n : node)
    : result node :=
  match fuel with
  | O => Throw "RangeError: Maximum call stack size exceeded"
  | S f =>
      match n with
      | NIdentifier value replaceable =>
          Identifier_ hardfork scope (leaf f hardfork scope) value replaceable
      | NLiteral sub None value => Ok (NLiteral sub None value)
      | _ => Throw "outside the modelled fragment"
      end
  end.

End Rewrite.

(** ** Parsing and serializing [emit] and [throw] statements
       (part_000, lines 91-163, 1295-1345, 1347-1359, 1434-1491,
        1664-1676, 1740-1782, 4633-4642, 5153-5164, 5214-5251)

    A fragment of the parser and of the serializer: sources made of
    [emit] and [throw] statements and expression statements, whose
    expressions are number and boolean literals, identifiers and function
    calls, without comments or string quotes.  [Statement] and
    [Expression] try their alternatives in the order of the source; an
    alternative that belongs to no other part of this fragment is
    represented by the test that makes it return [null]: its leading
    keyword, or the literal text its regular expression starts with.
    When that test passes the input is outside the fragment, which is
    reported as a throw with the message [outside]. *)

Module RoundTrip.

Inductive statement : Type :=
| SEmit (name : string) (offset : node) (args : list node)
| SThrow (name : string) (args : list node)
| SExpression (expr : node).

Definition outside : string := "outside the modelled fragment".

Definition parse_error : string := "SyntaxError: Parse error".

(** [[A-Za-z_$]] *)
Definition is_ident_start (c : ascii) : bool :=
  let n := Str.code c in
  ((65 <=? n) && (n <=? 90)) || ((97 <=? n) && (n <=? 122))
  || (n =? 95) || (n =? 36).

(** [[\w$.]] *)
Definition is_ident_char (c : ascii) : bool :=
  is_ident_start c || Str.is_digit c || (Str.code c =? 46).

(** [consume(str)] *)
Definition consume (str input : string) : option string :=
  match Str.strip_prefix str input with
  | Some r => Some (Parser.eatSpace r)
  | None => None
  end.

(** [keyword(str)] *)
Definition keyword (str input : string) : option string :=
  match Str.strip_prefix str input with
  | Some (String c r) =>
      if is_ident_char c then None else Some (Parser.eatSpace (String c r))
  | Some EmptyString => Some EmptyString
  | None => None
  end.

(** The identifier pattern: a letter, underscore or dollar, then letters,
    digits, underscores, dollars and dots; without the white space behind
    it. *)
Definition match_Identifier (input : string) : option (string * string) :=
  match input with
  | String c r =>
      if is_ident_start c then
        let '(cs, rest) := Str.span is_ident_char r in
        Some (String c cs, rest)
      else None
  | EmptyString => None
  end.

(** [Identifier()]: the value and the input after it. *)
Definition Identifier (input : string) : option (string * string) :=
  match match_Identifier input with
  | Some (v, rest) => Some (v, Parser.eatSpace rest)
  | None => None
  end.

(** [peek] of [MemberIdentifier]: an identifier, optionally a colon and
    an identifier, then an arrow. *)
Definition peek_MemberIdentifier (input : string) : bool :=
  match match_Identifier input with
  | None => false
  | Some (_, rest) =>
      Str.startsWith rest "->"
      || match Str.strip_prefix ":" rest with
         | Some r =>
             match match_Identifier r with
             | Some (_, r') => Str.startsWith r' "->"
             | None => false
             end
         | None => false
         end
  end.

Definition any_keyword (kws : list string) (input : string) : bool :=
  existsb (fun kw => match keyword kw input with
                     | Some _ => true
                     | None => false
                     end) kws.

Definition any_prefix (ps : list string) (input : string) : bool :=
  existsb (Str.startsWith input) ps.

(** [IdentifierList()] followed by [consume(':=')], as [Assignment]
    starts: [Ok true] when an assignment begins here. *)
Fixpoint begins_Assignment (fuel : nat) (first : bool) (input : string)
    : result bool :=
  match fuel with
  | O => Throw outside
  | S f =>
      match Identifier input with
      | None => if first then Ok false else Throw parse_error
      | Some (_, rest) =>
          match consume "," rest with
          | Some rest' => begins_Assignment f false rest'
          | None => Ok (Str.startsWith rest ":=")
          end
      end
  end.

(** [Literal()] for numbers and booleans, with the optional kind. *)
Definition Literal_ (input : string) : result (option (node * string)) :=
  if any_prefix [Str.dquote; ("hex" ++ Str.dquote)%string; "hex'"] input
  then Throw outside
  else
    tok <- Parser.NumberLiteral input ;;
    let tok :=
      match tok with
      | Some t => Some t
      | None =>
          match keyword "true" input with
          | Some rest => Some ((BoolLiteralT, "true"), rest)
          | None =>
              match keyword "false" input with
              | Some rest => Some ((BoolLiteralT, "false"), rest)
              | None => None
              end
          end
      end in
    match tok with
    | None => Ok None
    | Some ((sub, value), rest) =>
        match consume ":" rest with
        | Some rest' =>
            match Identifier rest' with
            | Some (kind, rest'') =>
                Ok (Some (NLiteral sub (Some kind) value, rest''))
            | None => Throw parse_error
            end
        | None => Ok (Some (NLiteral sub None value, rest))
        end
    end.

(** [do { args.push(this.assert(this.Expression())) }
     while (this.consume(','))] *)
Fixpoint expression_list (n : nat)
    (Expression : string -> result (option (node * string)))
    (input : string) : result (list node * string) :=
  match n with
  | O => Throw outside
  | S k =>
      e <- Expression input ;;
      match e with
      | None => Throw parse_error
      | Some (expr, rest) =>
          match consume "," rest with
          | Some rest' =>
              r <- expression_list k Expression rest' ;;
              Ok (expr :: fst r, snd r)
          | None => Ok ([expr], rest)
          end
      end
  end.

(** [expect(str)] *)
Definition expect (str input : string) : result string :=
  match consume str input with
  | Some rest => Ok rest
  | None => Throw ("SyntaxError: Expected " ++ str)
  end.

Fixpoint Expression (fuel : nat) (input : string)
    : result (option (node * string)) :=
  match fuel with
  | O => Throw outside
  | S f =>
      (* StructInitializer, MethodSignature, EventSignature,
         ErrorSignature, InterfaceCall *)
      if any_prefix ["struct"; "method"; "event"; "error"; "create"; "call"]
           input
      then Throw outside
      else
        (* FunctionCall *)
        let call :=
          match Identifier input with
          | None => Ok None
          | Some (name, rest) =>
              match consume "(" rest with
              | None => Ok None
              | Some rest' =>
                  r <- (if Str.startsWith rest' ")" then Ok ([], rest')
                        else expression_list fuel (Expression f) rest') ;;
                  rest'' <- expect ")" (snd r) ;;
                  Ok (Some (NFunctionCall name (fst r), rest''))
              end
          end in
        c <- call ;;
        match c with
        | Some r => Ok (Some r)
        | None =>
            l <- Literal_ input ;;
            match l with
            | Some r => Ok (Some r)
            | None =>
                (* AnyIdentifier(true) *)
                if peek_MemberIdentifier input
                   || any_prefix ["&calldata."; "calldata."] input
                then Throw outside
                else
                  match Identifier input with
                  | Some (v, rest) => Ok (Some (NIdentifier v true, rest))
                  | None => Ok None
                  end
            end
        end
  end.

Definition Emit (fuel : nat) (input : string)
    : result (option (statement * string)) :=
  match keyword "emit" input with
  | None => Ok None
  | Some rest =>
      match Identifier rest with
      | None => Throw parse_error
      | Some (name, rest) =>
          rest <- expect "(" rest ;;
          o <- Expression fuel rest ;;
          match o with
          | None => Throw parse_error
          | Some (offset, rest) =>
              r <- match consume "," rest with
                   | Some rest' => expression_list fuel (Expression fuel) rest'
                   | None => Ok ([], rest)
                   end ;;
              rest <- expect ")" (snd r) ;;
              Ok (Some (SEmit name offset (fst r), rest))
          end
      end
  end.

Definition Throw_ (fuel : nat) (input : string)
    : result (option (statement * string)) :=
  match keyword "throw" input with
  | None => Ok None
  | Some rest =>
      match Identifier rest with
      | None => Throw parse_error
      | Some (name, rest) =>
          rest <- expect "(" rest ;;
          r <- expression_list fuel (Expression fuel) rest ;;
          rest <- expect ")" (snd r) ;;
          Ok (Some (SThrow name (fst r), rest))
      end
  end.

Definition Statement (fuel : nat) (input : string)
    : result (option (statement * string)) :=
  (* Pragma, Fold *)
  if any_keyword ["pragma"; "@if"] input then Throw outside
  (* IncludeCall, Enum, StructDefinition, Interface, Contract,
     ObjectBlock, CodeBlock, ConstructorDefinition, DataValue, Block *)
  else if any_prefix ["include"; "enum"; "struct"; "interface"; "contract";
                      "object"; "code"; "constructor"; "data"; "{"] input
  then Throw outside
  (* Macro, FunctionDefinition, MethodDefinition, EventDeclaration,
     ErrorDeclaration, VariableDeclaration, ConstDeclaration *)
  else if any_keyword ["macro"; "function"; "method"; "event"; "error";
                       "let"; "const"] input
  then Throw outside
  (* MemberAssignment *)
  else if peek_MemberIdentifier input then Throw outside
  else
    (* Assignment *)
    a <- begins_Assignment fuel true input ;;
    if a then Throw outside
    (* If, Switch, ForLoop, While *)
    else if any_keyword ["if"; "switch"; "for"; "while"] input
    then Throw outside
    (* DoWhile *)
    else if any_prefix ["do"] input then Throw outside
    (* BreakContinue, Leave *)
    else if any_keyword ["break"; "continue"; "leave"] input
    then Throw outside
    else
      e <- Emit fuel input ;;
      match e with
      | Some r => Ok (Some r)
      | None =>
          t <- Throw_ fuel input ;;
          match t with
          | Some r => Ok (Some r)
          | None =>
              x <- Expression fuel input ;;
              match x with
              | Some (expr, rest) => Ok (Some (SExpression expr, rest))
              | None => Ok None
              end
          end
      end.

Fixpoint Statements (n fuel : nat) (input : string)
    : result (list statement * string) :=
  match n with
  | O => Throw outside
  | S k =>
      s <- Statement fuel input ;;
      match s with
      | None => Ok ([], input)
      | Some (stmt, rest) =>
          r <- Statements k fuel rest ;;
          Ok (stmt :: fst r, snd r)
      end
  end.

(** Comment stripping leaves a text without [/], quote or carriage
    return as it is. *)
Definition plain (c : ascii) : bool :=
  negb ((Str.code c =? 47) || (Str.code c =? 34) || (Str.code c =? 13)).

(** [parse(input)]: the nodes of the [Root]. *)
Definition parse (input : string) : result (list statement) :=
  if negb (Str.all plain input) then Throw outside
  else
    let fuel := S (String.length input) in
    r <- Statements fuel fuel (Parser.eatSpace input) ;;
    match snd r with
    | EmptyString => Ok (fst r)
    | _ => Throw parse_error
    end.

Fixpoint encode (n : node) : result string :=
  match n with
  | NFunctionCall name args =>
      args' <- (fix each (l : list node) : result (list string) :=
                  match l with
                  | [] => Ok []
                  | a :: l' =>
                      s <- encode a ;; ss <- each l' ;; Ok (s :: ss)
                  end) args ;;
      Ok (name ++ "(" ++ Str.join ", " args' ++ ")")%string
  | NLiteral _ (Some kind) value => Ok (value ++ ":" ++ kind)%string
  | NLiteral _ None value => Ok value
  | NIdentifier value _ => Ok value
  | _ => Throw outside
  end.

Fixpoint encode_all (l : list node) : result (list string) :=
  match l with
  | [] => Ok []
  | a :: l' => s <- encode a ;; ss <- encode_all l' ;; Ok (s :: ss)
  end.

(** [encode(node)] when [node] is [null]: the [switch (node.type)]
    throws. *)
Definition encode_null : result string :=
  Throw "TypeError: Cannot read properties of null (reading 'type')".

(** [case 'Emit': case 'Throw':] *)
Definition encode_statement (s : statement) : result string :=
  match s with
  | SEmit name offset args =>
      off <- encode offset ;;
      args' <- encode_all args ;;
      Ok ("emit " ++ name ++ "(" ++ off ++ ", " ++ Str.join ", " args' ++ ")")%string
  | SThrow name args =>
      off <- encode_null ;;
      args' <- encode_all args ;;
      Ok ("throw " ++ name ++ "(" ++ off ++ ", " ++ Str.join ", " args' ++ ")")%string
  | SExpression expr => encode expr
  end.

Definition newline : string := String (ascii_of_nat 10) EmptyString.

Fixpoint encode_statements (l : list statement) : result (list string) :=
  match l with
  | [] => Ok []
  | a :: l' =>
      s <- encode_statement a ;; ss <- encode_statements l' ;; Ok (s :: ss)
  end.

(** [serialize(root)] *)
Definition serialize (root : list statement) : result string :=
  out <- encode_statements root ;; Ok (Str.join newline out).

(** [parse(serialize(parse(source)))] *)
Definition roundtrip (source : string) : result (list statement) :=
  ast <- parse source ;;
  text <- serialize ast ;;
  parse text.

End RoundTrip.

(** ** Conditions (part_000, lines 9163-9254 and 3012-3046) *)

Definition isZeroCall (n : node) : bool := isCall n "iszero" 1.
Definition isEqCall (n : node) : bool := isCall n "eq" 2.

(** [node.args[0]] and [node.args[1]], [undefined] being [None]. *)
Definition arg0 (n : node) : option node :=
  match n with
  | NFunctionCall _ (a :: _) => Some a
  | _ => None
  end.

Definition arg1 (n : node) : option node :=
  match n with
  | NFunctionCall _ (_ :: b :: _) => Some b
  | _ => None
  end.

Definition holds (p : node -> bool) (o : option node) : bool :=
  match o with
  | Some n => p n
  | None => false
  end.

Definition isNeqCall (n : node) : bool := isZeroCall n && holds isEqCall (arg0 n).
Definition isZeroCast (n : node) : bool :=
  isZeroCall n && holds isZeroCall (arg0 n).
Definition isGtCast (n : node) : bool := isGtCall n && holds isZero (arg1 n).
Definition isEqLiteral (n : node) : bool :=
  isEqCall n && holds isLiteral (arg1 n).

(** [ocj(node)], optimize conditional jump. *)
Definition ocj (n : node) : node :=
  if isZeroCast n then
    match n with
    | NFunctionCall _ (NFunctionCall _ (x :: _) :: _) => x
    | _ => n
    end
  else if isGtCast n then
    match n with
    | NFunctionCall _ (x :: _) => x
    | _ => n
    end
  else if isNeqCall n then
    match n with
    | NFunctionCall _ (NFunctionCall _ (x :: y :: _) :: _) => Xor x y
    | _ => n
    end
  else n.

(** The names for which [returnsBool] answers [true] at once. *)
Definition bool_calls : list string :=
  ["lt"; "gt"; "slt"; "sgt"; "eq"; "iszero";
   "call"; "callcode"; "delegatecall"; "staticcall"].

Fixpoint returnsBool (n : node) : bool :=
  match n with
  | NLiteral _ _ _ => isZero n || isOne n
  | NFunctionCall name args =>
      if existsb (String.eqb name) bool_calls then true
      else if String.eqb name "and" then
        match args with
        | [x; y] => returnsBool x || returnsBool y
        | _ => false
        end
      else if String.eqb name "or" || String.eqb name "xor" then
        match args with
        | [x; y] => returnsBool x && returnsBool y
        | _ => false
        end
      else false
  | _ => false
  end.

(** The head of the [switch] that [case 'If'] builds for a branch that is
    followed by another branch or by an [else]: the expression switched on
    and the value of the one case (lines 3015-3031). *)
Definition switch_head (expr : node) : node * node :=
  if isZeroCall expr then
    match arg0 expr with
    | Some x => (x, Literal (VNumber 0))
    | None => (expr, Literal (VNumber 0))
    end
  else if isEqLiteral expr then
    match arg0 expr, arg1 expr with
    | Some x, Some y => (x, y)
    | _, _ => (expr, Literal (VNumber 0))
    end
  else if returnsBool expr then (expr, Literal (VNumber 1))
  else (IsZero expr, Literal (VNumber 0)).

(** ** Reading and writing struct members (part_000, lines 7172-7229)

    [name] is the identifier node of the variable that holds the packed
    word.  An assignment node stores the value of that identifier. *)

Definition And (x y : node) : node := Call "and" [x; y].
Definition Or (x y : node) : node := Call "or" [x; y].
Definition Byte (pos : Z) (num : node) : node :=
  Call "byte" [Literal (VNumber pos); num].

Module MemberAccess.

Import StructMember.

(** [read(name)] *)
Definition read (m : t) (name : node) : node :=
  if shift m =? 0 then And name (mask m)
  else if offset m =? 0 then Shr (shift m) name
  else if (width m =? 8) && (Z.land (offset m) 7 =? 0)
  then Byte (offset m / 8) name
  else And (Shr (shift m) name) (mask m).

(** [put(name, value)] *)
Definition put (m : t) (name value : node) : result node :=
  if isLiteral value then
    num <- toBigInt (value_of value) ;;
    if num =? 0 then Ok Null
    else
      let value := Literal (VBigInt (Z.shiftl num (shift m))) in
      Ok (Assign (value_of name) (Or name value))
  else if shift m =? 0 then Ok (Assign (value_of name) (Or name value))
  else Ok (Assign (value_of name) (Or name (Shl (shift m) value))).

(** [write(name, value)] *)
Definition write (m : t) (name value : node) : result node :=
  if isLiteral value then
    num <- toBigInt (value_of value) ;;
    if num =? 0 then Ok (Assign (value_of name) (And name (imask m)))
    else
      let value := Literal (VBigInt (Z.shiftl num (shift m))) in
      if num =? mod_ m then Ok (Assign (value_of name) (Or name value))
      else Ok (Assign (value_of name) (Or (And name (imask m)) value))
  else if shift m =? 0
  then Ok (Assign (value_of name) (Or (And name (imask m)) value))
  else Ok (Assign (value_of name) (Or (And name (imask m)) (Shl (shift m) value))).

End MemberAccess.

(** ** Versions (part_000, lines 9556-9640)

    The version numbers are JavaScript Numbers below 2^24, on which the
    32-bit [<<], [|] and [>>] agree with [Z.shiftl], [Z.lor] and
    [Z.shiftr]. *)

Module Semver.

(** One group [(0|[1-9]\d{0,2})] of [VERSION_REGEX], which is followed by
    a dot or by the end of the text: the run of digits found must be [0],
    or start with a non-zero digit and hold at most three digits.  The
    value is [Number] of the group. *)
Definition component (s : string) : option (Z * string) :=
  let '(ds, rest) := Str.span Str.is_digit s in
  match ds with
  | EmptyString => None
  | String c ds' =>
      if String.eqb ds "0"
         || (negb (Str.is_zero_char c) && Nat.leb (String.length ds') 2)
      then
        match Num.parse_number 10 ds with
        | Some n => Some (n, rest)
        | None => None
        end
      else None
  end.

(** [VERSION_REGEX.exec(str)]: the three groups as numbers. *)
Definition VERSION_REGEX (str : string) : option (list Z) :=
  match component str with
  | None => None
  | Some (a, r) =>
      match Str.strip_prefix "." r with
      | None => None
      | Some r =>
          match component r with
          | None => None
          | Some (b, r) =>
              match Str.strip_prefix "." r with
              | None => None
              | Some r =>
                  match component r with
                  | Some (c, EmptyString) => Some [a; b; c]
                  | _ => None
                  end
              end
          end
      end
  end.

Definition invalid_format (str : string) : string :=
  ("SyntaxError: Invalid version format: " ++ str)%string.

(** The loop of [parseVersion] over the groups. *)
Fixpoint pack (str : string) (nums : list Z) (version : Z) : result Z :=
  match nums with
  | [] => Ok version
  | num :: rest =>
      if 256 <=? num then Throw (invalid_format str)
      else pack str rest (Z.lor (Z.shiftl version 8) num)
  end.

Definition parseVersion (str : string) : result Z :=
  match VERSION_REGEX str with
  | None => Throw (invalid_format str)
  | Some nums => pack str nums 0
  end.

(** [SEMVER_PREFIX]: the prefix matched, or the empty string. *)
Definition SEMVER_PREFIX (str : string) : string :=
  if Str.startsWith str "^" then "^"
  else if Str.startsWith str "~" then "~"
  else if Str.startsWith str "<=" then "<="
  else if Str.startsWith str ">=" then ">="
  else if Str.startsWith str "<" then "<"
  else if Str.startsWith str ">" then ">"
  else if Str.startsWith str "=" then "="
  else "".

Definition substring_from (n : nat) (s : string) : string :=
  String.substring n (String.length s - n) s.

Definition parsePattern (str : string) : result (string * Z) :=
  let prefix := SEMVER_PREFIX str in
  match parseVersion (substring_from (String.length prefix) str) with
  | Ok version =>
      Ok (if String.eqb prefix "" then "=" else prefix, version)
  | Throw _ => Throw ("SyntaxError: Invalid version pattern: " ++ str)
  end.

(** [semver.match(version, pattern)] *)
Definition match_ (version pattern : string) : result bool :=
  p <- parsePattern pattern ;;
  let '(pre, exp) := p in
  ver <- parseVersion version ;;
  if String.eqb pre "^" then
    if negb (Z.shiftr ver 16 =? Z.shiftr exp 16) then Ok false
    else Ok (exp <=? ver)
  else if String.eqb pre "~" then
    if negb (Z.shiftr ver 8 =? Z.shiftr exp 8) then Ok false
    else Ok (exp <=? ver)
  else if String.eqb pre "<" then Ok (ver <? exp)
  else if String.eqb pre "<=" then Ok (ver <=? exp)
  else if String.eqb pre ">" then Ok (exp <? ver)
  else if String.eqb pre ">=" then Ok (exp <=? ver)
  else if String.eqb pre "=" then Ok (ver =? exp)
  else Throw "unreachable".

(** [semver.test(str)] *)
Definition test (str : string) : bool :=
  match parsePattern str with
  | Ok _ => true
  | Throw _ => false
  end.

End Semver.

(** [MethodParam.encode(expr)] (part_000, lines 7945-7950): the inverse
    of [decode]. *)
Module ParamCoding.

Definition encode (p : MethodParam.t) (expr : node) : node :=
  if MethodParam.isPadded p then Shl (256 - MethodParam.width p) expr
  else expr.

End ParamCoding.

(** ** Emitting events: the topics
       (part_000, lines 8061-8080 and 8131; [EventParam.encode],
       lines 8276-8282)

    Of [_emit] this is the part that collects the topics in [stack] and
    names the log instruction after their number; the data part, built
    from [heap], is left out. *)

Module EventEmit.

(** [EventParam.encode(expr)] *)
Definition encode (p : EventParam.t) (expr : node) : result node :=
  if negb (EventParam.array p) && (EventParam.width p <? 256) then
    if String.eqb (EventParam.base p) "bytes"
       || String.eqb (EventParam.base p) "function"
    then Fold.tryFold (Shl (256 - EventParam.width p) expr)
    else Ok expr
  else Ok expr.

(** The loop over the parameters: the indexed arguments go to [stack]. *)
Fixpoint stack_loop (params : list EventParam.t) (args : list node)
    (stack : list node) : result (list node) :=
  match params, args with
  | [], _ => Ok stack
  | param :: params', arg :: args' =>
      if EventParam.indexed param then
        e <- encode param arg ;;
        stack_loop params' args' (stack ++ [e])
      else stack_loop params' args' stack
  | _ :: _, [] => Throw "AssertionError"
  end.

Definition stack (e : Event.t) (args : list node) : result (list node) :=
  _ <- assert_ (Nat.eqb (List.length args) (List.length (Event.params e)))
         "AssertionError" ;;
  stack_loop (Event.params e) args
    (if Event.anonymous e then [] else [HexNumber (Event.signature e)]).

(** ['log' + stack.length.toString(10)] *)
Definition logName (stack : list node) : string :=
  ("log" ++ Num.toString 10 (Z.of_nat (List.length stack)))%string.

End EventEmit.

(** ** Notions used by the statements *)

(** One step of the accumulation of a packed struct: the member, placed
    at its offset, is or-ed into the word. *)
Definition lor_placed (n : Z) (mem : StructMember.t) : Z :=
  Z.lor n (StructMember.placed mem).

(** A declared member that is not padding. *)
Definition declared (m : StructMemberNode.t) : bool :=
  negb (String.eqb (StructMemberNode.name m) "+").

(** The packed default constant of a declaration, in the words of the
    specification: every member that is not padding contributes its
    default value, reduced modulo [2^w], shifted left by [256 - (o + w)],
    where [w] is the width of its type and [o] the sum of the widths
    declared before it; the contributions are or-ed together. *)
Fixpoint packed_default (sname : string) (nodes : list StructMemberNode.t)
    (o : Z) : Z :=
  match nodes with
  | [] => 0
  | m :: rest =>
      match Struct.type_width (sname ++ "->" ++ StructMemberNode.name m)
              (StructMemberNode.kind m) with
      | Ok w =>
          Z.lor
            (if declared m then
               match toBigInt (value_of (StructMemberNode.value m)) with
               | Ok d => Z.shiftl (d mod 2 ^ w) (256 - (o + w))
               | Throw _ => 0
               end
             else 0)
            (packed_default sname rest (o + w))
      | Throw _ => 0
      end
  end.

(** A method that is neither [receive] nor [fallback]. *)
Definition ordinary (m : Method.t) : bool :=
  negb (String.eqb (Method.name m) "receive")
  && negb (String.eqb (Method.name m) "fallback").


(** The condition rewrites without error to a literal zero or to
    something that is no literal: the branch is passed over. *)
Definition skipped (rewrite : node -> result node) (e : node) : Prop :=
  exists r, rewrite e = Ok r /\
            (isLiteral r = false \/
             (isLiteral r = true /\ toBigInt (value_of r) = Ok 0)).

(** The condition rewrites to a non-zero literal. *)
Definition selected (rewrite : node -> result node) (e : node) : Prop :=
  exists r v, rewrite e = Ok r /\ isLiteral r = true /\
              toBigInt (value_of r) = Ok v /\ v <> 0.

(** The word whose bits from [t] up to 255 are set. *)
Definition upper (t : Z) : Z := Z.lxor (Z.ones t) U256_MAX.

(** ** Sample inputs *)

(** The largest 256-bit value, written out: 78 decimal digits. *)
Definition max_u256_text : string :=
  "115792089237316195423570985008687907853269984665640564039457584007913129639935".

(** The struct of the README: uint64 value, uint24 prefix := 0x160014,
    bytes20 hash. *)
Definition btc_output : StructDefinition.t :=
  {| StructDefinition.name := "btc_output";
     StructDefinition.members :=
       [ {| StructMemberNode.kind := "uint64";
            StructMemberNode.name := "value";
            StructMemberNode.value := Literal (VNumber 0) |};
         {| StructMemberNode.kind := "uint24";
            StructMemberNode.name := "prefix";
            StructMemberNode.value := NLiteral HexNumberT None "0x160014" |};
         {| StructMemberNode.kind := "bytes20";
            StructMemberNode.name := "hash";
            StructMemberNode.value := Literal (VNumber 0) |} ] |}.

Definition btc_output_struct : Struct.t :=
  match Struct.init btc_output with
  | Ok s => s
  | Throw _ =>
      {| Struct.name := ""; Struct.members := [];
         Struct.value := Null; Struct.width := 0 |}
  end.

(** The method of the README:
    [method foobar(uint32 id, uint64 amount, bytes32[] hashes)]. *)
Definition foobar : MethodDeclaration.t :=
  {| MethodDeclaration.name := "foobar";
     MethodDeclaration.params :=
       [ ({| ABIType.value := "uint32"; ABIType.base := "uint";
             ABIType.width := 32; ABIType.array := false |}, Some "id");
         ({| ABIType.value := "uint64"; ABIType.base := "uint";
             ABIType.width := 64; ABIType.array := false |}, Some "amount");
         ({| ABIType.value := "bytes32[]"; ABIType.base := "bytes";
             ABIType.width := 256; ABIType.array := true |}, Some "hashes") ];
     MethodDeclaration.visibility := None;
     MethodDeclaration.mutability := None;
     MethodDeclaration.modifier := None;
     MethodDeclaration.returns := [] |}.

(** A stand-in digest, used only to run [init] on a concrete method. *)
Definition digest_stub (bytes : list Z) : list Z :=
  firstn 32 (bytes ++ List.repeat 0 32).

Definition foobar_method (keccak256 : list Z -> list Z) : Method.t :=
  match Method.init keccak256 foobar with
  | Ok m => m
  | Throw _ =>
      {| Method.type := ""; Method.name := ""; Method.params := [];
         Method.map := []; Method.visibility := None;
         Method.mutability := None; Method.modifier := None;
         Method.returns := []; Method.signature := "";
         Method.array := false; Method.signed := false;
         Method.retArray := false; Method.retSigned := false |}
  end.

(** A locked method [withdraw(uint256 amount)] and a payable [deposit()]. *)
Definition uint256_type : ABIType.t :=
  {| ABIType.value := "uint256"; ABIType.base := "uint";
     ABIType.width := 256; ABIType.array := false |}.

Definition withdraw : MethodDeclaration.t :=
  {| MethodDeclaration.name := "withdraw";
     MethodDeclaration.params := [(uint256_type, Some "amount")];
     MethodDeclaration.visibility := None;
     MethodDeclaration.mutability := None;
     MethodDeclaration.modifier := Some "locked";
     MethodDeclaration.returns := [] |}.

Definition deposit : MethodDeclaration.t :=
  {| MethodDeclaration.name := "deposit";
     MethodDeclaration.params := [];
     MethodDeclaration.visibility := Some "external";
     MethodDeclaration.mutability := Some "payable";
     MethodDeclaration.modifier := None;
     MethodDeclaration.returns := [] |}.

Definition method_of (decl : MethodDeclaration.t) : Method.t :=
  match Method.init digest_stub decl with
  | Ok m => m
  | Throw _ => foobar_method digest_stub
  end.

Definition all_available (name : string) : bool := true.

Definition bank_methods : list Method.t :=
  [method_of deposit; method_of withdraw].

Definition bank_dispatcher : node :=
  match Transformer.method_select all_available bank_methods with
  | Ok root => root
  | Throw _ => Null
  end.

(** The options' default hard fork, london. *)
Definition london : Z := 202108.

Definition root_scope : Scope.t :=
  [ {| Scope.consts := []; Scope.macros := []; Scope.funcs := [] |} ].

(** A valuation in which every identifier is 0. *)
Definition all_zero : EVM.valuation :=
  {| EVM.ident := fun _ => 0;
     EVM.text := fun _ _ => 0;
     EVM.call := fun _ _ => 0 |}.

(** The node that a folding rule returns, if any, has only numeric
    literals that denote words. *)
Definition wf_result (res : result (option node)) : Prop :=
  match res with
  | Ok (Some r) => EVM.wf r = true
  | _ => True
  end.

(** The bits [s .. s + k - 1] of a word, as a number below [2^k]. *)
Definition field (s k w : Z) : Z := (w / 2 ^ s) mod 2 ^ k.

(** The right-hand side of an assignment node. *)
Definition assigned (n : node) : option node :=
  match n with
  | NAssignment _ rhs => Some rhs
  | _ => None
  end.

(** The member [prefix] of the README's struct: 24 bits at offset 64. *)
Definition prefix_member : StructMember.t :=
  match StructMember.new "prefix" 64 24 "0x160014" with
  | Ok m => m
  | Throw _ =>
      {| StructMember.name := ""; StructMember.offset := 0;
         StructMember.width := 0; StructMember.value := 0;
         StructMember.shift := 0; StructMember.mask := Null;
         StructMember.imask := Null; StructMember.mod_ := 0 |}
  end.

(** The text [a.b.c] of a version, each part in decimal. *)
Definition version_text (a b c : Z) : string :=
  (Num.toString 10 a ++ "." ++ Num.toString 10 b ++ "."
   ++ Num.toString 10 c)%string.

(** The text does not go on with a character of the class. *)
Definition stops (p : ascii -> bool) (rest : string) : bool :=
  match rest with
  | EmptyString => true
  | String c _ => negb (p c)
  end.

(** The decimal text of [a] is a group of the version pattern and reads
    back as [a]. *)
Definition group_ok (a : Z) : bool :=
  let ds := Num.toString 10 a in
  Str.all Str.is_digit ds
  && match ds with
     | EmptyString => false
     | String c ds' =>
         String.eqb ds "0"
         || (negb (Str.is_zero_char c) && Nat.leb (String.length ds') 2)
     end
  && match Num.parse_number 10 ds with
     | Some n => n =? a
     | None => false
     end.

(** The order of versions, part by part. *)
Definition version_lt (a b c a' b' c' : Z) : bool :=
  (a <? a') || ((a =? a') && ((b <? b') || ((b =? b') && (c <? c')))).

Definition version_eq (a b c a' b' c' : Z) : bool :=
  (a =? a') && (b =? b') && (c =? c').

(** The members of a struct as [init] lays them out: each one made by
    [StructMember.new] from its own name, offset and width, one after the
    other from bit [lo] on, none of them past bit [hi]. *)
Fixpoint laid (lo hi : Z) (ms : list StructMember.t) : Prop :=
  match ms with
  | [] => lo <= hi
  | m :: rest =>
      lo <= StructMember.offset m /\
      0 <= StructMember.width m /\
      (exists d, StructMember.new (StructMember.name m) (StructMember.offset m)
                   (StructMember.width m) d = Ok m) /\
      laid (StructMember.offset m + StructMember.width m) hi rest
  end.

(** The value an initialiser gives to a member: its default when the
    argument is [@] or is missing, otherwise the value of the argument,
    cut to the width of the member. *)
Definition given (rho : EVM.valuation) (m : StructMember.t)
    (arg : option node) : Z :=
  match arg with
  | None => StructMember.value m
  | Some a =>
      if isDefaultIdentifier a then StructMember.value m
      else EVM.eval rho a mod 2 ^ StructMember.width m
  end.

(** What the arguments of an initialiser add to the packed word, member by
    member: the default or the literal, cut to the width, or the value of
    the argument as it is, each shifted to the place of the member. *)
Fixpoint shares (rho : EVM.valuation) (ms : list StructMember.t)
    (args : list node) : list Z :=
  match ms with
  | [] => []
  | m :: ms' =>
      (match args with
       | [] => StructMember.value m
       | a :: _ =>
           if isDefaultIdentifier a then StructMember.value m
           else if isLiteral a
           then EVM.eval rho a mod 2 ^ StructMember.width m
           else EVM.eval rho a
       end * 2 ^ StructMember.shift m)
      :: shares rho ms' (List.tl args)
  end.

Definition or_all (l : list Z) : Z := fold_right Z.lor 0 l.

(** The share of a member whose argument is evaluated at run time. *)
Definition late (rho : EVM.valuation) (p : StructMember.t * node) : Z :=
  EVM.u256 (EVM.eval rho (snd p) * 2 ^ StructMember.shift (fst p)).

(** Every argument that is evaluated at run time fits the member it
    initialises. *)
Fixpoint fits (rho : EVM.valuation) (ms : list StructMember.t)
    (args : list node) : bool :=
  match ms, args with
  | m :: ms', a :: args' =>
      (isDefaultIdentifier a || isLiteral a
       || (EVM.eval rho a <? 2 ^ StructMember.width m))
      && fits rho ms' args'
  | _, _ => true
  end.

(** * Properties *)

Example BigInt_hex : Num.BigInt "0xFf" = Ok 255.
Proof. reflexivity. Qed.

Example BigInt_negative_decimal : Num.BigInt "-12" = Ok (-12).
Proof. reflexivity. Qed.

Example BigInt_negative_hex_throws : failed (Num.BigInt "-0x10").
Proof. exact I. Qed.

Example toString_hex : Num.toString 16 3735928559 = "deadbeef".
Proof. reflexivity. Qed.

Example toString_dec : Num.toString 10 1023 = "1023".
Proof. reflexivity. Qed.

(** ** Number text: printing and reading back *)

Module NumFacts.

Lemma digit_in_char (radix d : Z) :
  0 <= d < radix -> radix <= 16 ->
  Num.digit_in radix (Num.digit_char d) = Some d.
Proof.
  intros Hd Hr.
  assert (Hcases : d = 0 \/ d = 1 \/ d = 2 \/ d = 3 \/ d = 4 \/ d = 5 \/
                   d = 6 \/ d = 7 \/ d = 8 \/ d = 9 \/ d = 10 \/ d = 11 \/
                   d = 12 \/ d = 13 \/ d = 14 \/ d = 15) by lia.
  unfold Num.digit_in.
  repeat (destruct Hcases as [-> | Hcases]); try subst d;
    match goal with
    | |- context [Num.digit_value (Num.digit_char ?k)] =>
        change (Num.digit_value (Num.digit_char k)) with (Some k)
    end;
    cbv beta iota;
    match goal with
    | |- context [?k <? radix] =>
        destruct (Z.ltb_spec0 k radix); [reflexivity | lia]
    end.
Qed.

Lemma string_of_chars_app (a b : list ascii) :
  Num.string_of_chars (a ++ b)
  = (Num.string_of_chars a ++ Num.string_of_chars b)%string.
Proof.
  induction a as [|c a IH]; simpl; [reflexivity | now rewrite IH].
Qed.

Lemma parse_digits_app (radix : Z) (s1 s2 : string) :
  forall acc,
    Num.parse_digits radix acc (s1 ++ s2)
    = match Num.parse_digits radix acc s1 with
      | Some a => Num.parse_digits radix a s2
      | None => None
      end.
Proof.
  induction s1 as [|c s1 IH]; intros acc; simpl; [reflexivity|].
  destruct (Num.digit_in radix c); [apply IH | reflexivity].
Qed.

Lemma parse_digits_rev (radix : Z) (ds : list Z) :
  radix <= 16 ->
  Forall (fun d => 0 <= d < radix) ds ->
  forall acc,
    Num.parse_digits radix acc
      (Num.string_of_chars (map Num.digit_char (rev ds)))
    = Some (acc * radix ^ Z.of_nat (List.length ds) + Num.value_le radix ds).
Proof.
  intros Hr Hall.
  induction Hall as [|d ds Hd Hall IH]; intros acc.
  - simpl. f_equal. lia.
  - cbn [rev]. rewrite map_app, string_of_chars_app, parse_digits_app, IH.
    cbn [map Num.string_of_chars Num.parse_digits].
    rewrite (digit_in_char radix d Hd Hr).
    f_equal. cbn [List.length Num.value_le fold_right].
    fold (Num.value_le radix ds).
    rewrite Nat2Z.inj_succ, Z.pow_succ_r by lia. ring.
Qed.

Lemma digits_le_range (radix : Z) (fuel : nat) :
  0 < radix ->
  forall n, Forall (fun d => 0 <= d < radix) (Num.digits_le radix fuel n).
Proof.
  intros Hr. induction fuel as [|f IH]; intros n; simpl; [constructor|].
  constructor.
  - apply Z.mod_pos_bound; lia.
  - destruct (n / radix =? 0); [constructor | apply IH].
Qed.

Lemma digits_le_value (radix : Z) (fuel : nat) :
  1 < radix ->
  forall n, 0 <= n < radix ^ Z.of_nat fuel ->
            Num.value_le radix (Num.digits_le radix fuel n) = n.
Proof.
  intros Hr. induction fuel as [|f IH]; intros n Hn.
  - simpl in Hn. change (radix ^ 0) with 1 in Hn. simpl. lia.
  - cbn [Num.digits_le Num.value_le fold_right].
    rewrite Nat2Z.inj_succ, Z.pow_succ_r in Hn by lia.
    destruct (Z.eqb_spec (n / radix) 0) as [Hq | Hq].
    + simpl. pose proof (Z.div_mod n radix ltac:(lia)). lia.
    + fold (Num.value_le radix (Num.digits_le radix f (n / radix))).
      rewrite IH.
      * pose proof (Z.div_mod n radix ltac:(lia)). lia.
      * split; [apply Z.div_pos; lia|].
        apply Z.div_lt_upper_bound; lia.
Qed.

Lemma digits_fuel_enough (radix n : Z) :
  1 < radix -> 0 <= n -> n < radix ^ Z.of_nat (Num.digits_fuel n).
Proof.
  intros Hr Hn. unfold Num.digits_fuel.
  rewrite Nat2Z.inj_succ, Z2Nat.id by apply Z.log2_nonneg.
  destruct (Z.eq_dec n 0) as [-> | Hz].
  - simpl. lia.
  - pose proof (Z.log2_spec n ltac:(lia)) as [_ Hlt].
    eapply Z.lt_le_trans; [exact Hlt|].
    apply Z.pow_le_mono_l. lia.
Qed.

Lemma digits_le_nonempty (radix : Z) (n : Z) :
  Num.digits_le radix (Num.digits_fuel n) n <> [].
Proof. unfold Num.digits_fuel. simpl. discriminate. Qed.

Lemma unsigned_text_nonempty (radix n : Z) :
  Num.unsigned_text radix n <> EmptyString.
Proof.
  unfold Num.unsigned_text.
  pose proof (digits_le_nonempty radix n) as Hne.
  destruct (Num.digits_le radix (Num.digits_fuel n) n) as [|d ds] eqn:E;
    [contradiction|].
  cbn [rev]. rewrite map_app, string_of_chars_app.
  destruct (Num.string_of_chars (map Num.digit_char (rev ds)));
    simpl; discriminate.
Qed.

(** Reading back the digits that [toString] printed. *)
Lemma parse_unsigned_text (radix n : Z) :
  1 < radix <= 16 -> 0 <= n ->
  Num.parse_number radix (Num.unsigned_text radix n) = Some n.
Proof.
  intros Hr Hn. unfold Num.parse_number.
  pose proof (unsigned_text_nonempty radix n) as Hne.
  destruct (Num.unsigned_text radix n) eqn:E; [contradiction|].
  rewrite <- E. unfold Num.unsigned_text.
  rewrite parse_digits_rev; [| lia | apply digits_le_range; lia].
  rewrite digits_le_value; [f_equal; lia | lia |].
  split; [lia | apply digits_fuel_enough; lia].
Qed.

Lemma toString_nonneg (radix n : Z) :
  0 <= n -> Num.toString radix n = Num.unsigned_text radix n.
Proof.
  intros Hn. unfold Num.toString.
  destruct (Z.ltb_spec n 0); [lia | reflexivity].
Qed.

Lemma parse_digits_all (radix : Z) (s : string) :
  Str.all Str.is_digit s = true -> 10 <= radix ->
  forall acc, 0 <= acc ->
    exists m, Num.parse_digits radix acc s = Some m /\ 0 <= m.
Proof.
  intros Hall Hr. induction s as [|c s IH]; intros acc Hacc; simpl.
  - eauto.
  - simpl in Hall. apply andb_prop in Hall as [Hc Hs].
    unfold Num.digit_in, Num.digit_value.
    unfold Str.is_digit in Hc. rewrite Hc.
    apply andb_prop in Hc as [H1 H2].
    apply Z.leb_le in H1, H2.
    destruct (Z.ltb_spec (Str.code c - 48) radix); [| lia].
    apply IH; [assumption | nia].
Qed.

End NumFacts.

(** ** Number literals of the parser *)

Module ParserFacts.

Lemma land_U256 (v : Z) : Z.land v U256_MAX = v mod two256.
Proof.
  unfold U256_MAX, two256. change (Z.shiftl 1 256 - 1) with (Z.ones 256).
  apply Z.land_ones. lia.
Qed.

Lemma span_all (p : ascii -> bool) (s : string) :
  Str.all p (fst (Str.span p s)) = true.
Proof.
  induction s as [|c s IH]; simpl; [reflexivity|].
  destruct (p c) eqn:Hc; [| reflexivity].
  destruct (Str.span p s) as [a b]. simpl in *. now rewrite Hc, IH.
Qed.

Lemma BigInt_minus (ds : string) :
  Num.BigInt (String "-" ds)
  = match option_map Z.opp (Num.parse_number 10 ds) with
    | Some v => Ok v
    | None =>
        Throw ("SyntaxError: Cannot convert " ++ String "-" ds
               ++ " to a BigInt")
    end.
Proof. reflexivity. Qed.

Lemma BigInt_0x (h : string) :
  Num.BigInt ("0x" ++ h)
  = match Num.parse_number 16 h with
    | Some v => Ok v
    | None =>
        Throw ("SyntaxError: Cannot convert " ++ "0x" ++ h ++ " to a BigInt")
    end.
Proof. reflexivity. Qed.

(** A negative hexadecimal text is not a BigInt. *)
Lemma BigInt_minus_0x (h : string) : failed (Num.BigInt ("-0x" ++ h)).
Proof.
  change ("-0x" ++ h)%string with (String "-" ("0x" ++ h)).
  rewrite BigInt_minus.
  change (Num.parse_number 10 ("0x" ++ h)) with (@None Z).
  exact I.
Qed.

Lemma toBigInt_0x_text (n : Z) :
  0 <= n -> toBigInt ("0x" ++ Num.toString 16 n) = Ok n.
Proof.
  intros Hn. unfold toBigInt.
  change (String.eqb ("0x" ++ Num.toString 16 n) "false") with false.
  change (String.eqb ("0x" ++ Num.toString 16 n) "true") with false.
  cbv iota. rewrite BigInt_0x, NumFacts.toString_nonneg by assumption.
  now rewrite NumFacts.parse_unsigned_text by lia.
Qed.

Lemma match_DecimalNumber_negative (input value rest : string) :
  Parser.match_DecimalNumber input = Some (value, rest) ->
  Str.startsWith value "-" = true ->
  exists ds, value = String "-" ds /\ Str.all Str.is_digit ds = true /\
             ds <> EmptyString.
Proof.
  unfold Parser.match_DecimalNumber, Parser.opt_minus.
  destruct (Str.strip_prefix "-" input) as [r|] eqn:Hs.
  - pose proof (span_all Str.is_digit r) as Hall.
    destruct (Str.span Str.is_digit r) as [ds rest'].
    destruct ds as [|c ds]; [discriminate|].
    intros [= <- <-] _. exists (String c ds).
    repeat split; [exact Hall | discriminate].
  - pose proof (span_all Str.is_digit input) as Hall.
    destruct (Str.span Str.is_digit input) as [ds rest'].
    destruct ds as [|c ds]; [discriminate|].
    intros [= <- <-] Hneg. exfalso.
    simpl in Hall. apply andb_prop in Hall as [Hc _].
    unfold Str.startsWith in Hneg. cbn [Str.strip_prefix] in Hneg.
    destruct (Ascii.eqb_spec "-" c) as [<- | Hne]; [discriminate Hc|].
    discriminate Hneg.
Qed.

End ParserFacts.

(** C9, as stated, fails: a decimal literal of 78 digits (more than 77) is
    accepted when its value fits 256 bits. *)
Lemma DecimalNumber_78_digits_accepted :
  Str.len max_u256_text = 78 /\
  Parser.DecimalNumber max_u256_text
  = Ok (Some ((DecimalNumberT, max_u256_text), "")).
Proof. split; reflexivity. Qed.

(** X28: a token that [HexNumber] matched with a minus sign makes the
    production throw: [BigInt] refuses the text. *)
Lemma HexNumber_negative_throws (input value rest : string) :
  Parser.match_HexNumber input = Some (value, rest) ->
  Str.startsWith value "-" = true ->
  failed (Parser.HexNumber input).
Proof.
  intros Hm Hneg. unfold Parser.HexNumber. rewrite Hm, Hneg.
  unfold Parser.match_HexNumber, Parser.opt_minus in Hm.
  destruct (Str.strip_prefix "-" input) as [r|] eqn:Hs.
  - destruct (Str.strip_prefix "0x" r) as [r'|]; [| discriminate].
    destruct (Str.span Str.is_hex_digit r') as [ds rest'].
    destruct ds as [|c ds]; [discriminate|].
    injection Hm as <- <-.
    pose proof (ParserFacts.BigInt_minus_0x (String c ds)) as Hthrow.
    cbn [append] in Hthrow |- *.
    destruct (Num.BigInt (String "-" (String "0" (String "x" (String c ds)))))
      as [v|msg]; [destruct Hthrow|].
    destruct (assert_ _ _) as [[]|]; [| exact I].
    cbn [bind]. destruct (Str.len _ =? 67); cbn [bind]; exact I.
  - destruct (Str.strip_prefix "0x" input) as [r'|]; [| discriminate].
    destruct (Str.span Str.is_hex_digit r') as [ds rest'].
    destruct ds as [|c ds]; [discriminate|].
    injection Hm as <- <-. discriminate Hneg.
Qed.

(** C9 (amended): a decimal token longer than 78 characters, sign included,
    is rejected - that is, more than 78 digits, or more than 77 digits
    after a minus sign; a token of exactly 78 characters is rejected unless
    its value lies in [-2^255, 2^256 - 1]; and every accepted negative
    decimal literal becomes the HexNumber whose value is the two's
    complement of its magnitude modulo 2^256. *)
Theorem DecimalNumber_limits (input value rest : string) :
  Parser.match_DecimalNumber input = Some (value, rest) ->
  (78 < Str.len value -> failed (Parser.DecimalNumber input)) /\
  (Str.len value = 78 ->
   forall n, Num.BigInt value = Ok n ->
             ~ (- I256_SIGN <= n <= U256_MAX) ->
             failed (Parser.DecimalNumber input)) /\
  (Str.startsWith value "-" = true ->
   forall tok input',
     Parser.DecimalNumber input = Ok (Some (tok, input')) ->
     exists ds m,
       value = String "-" ds /\
       Num.parse_number 10 ds = Some m /\
       tok = (HexNumberT,
              ("0x" ++ Num.toString 16 ((two256 - m) mod two256))%string) /\
       toBigInt (snd tok) = Ok ((two256 - m) mod two256)).
Proof.
  intros Hm. unfold Parser.DecimalNumber. rewrite Hm.
  split; [| split].
  - intros Hlen.
    destruct (Z.leb_spec (Str.len value) 78); [lia | exact I].
  - intros Hlen n Hn Hrange.
    rewrite Hlen, Hn. cbn [assert_ Z.leb Z.compare Pos.compare
                            Pos.compare_cont bind Z.eqb Pos.eqb].
    destruct (Z.leb_spec (- I256_SIGN) n), (Z.leb_spec n U256_MAX);
      cbn; try exact I; lia.
  - intros Hneg tok input' Hok.
    destruct (ParserFacts.match_DecimalNumber_negative _ _ _ Hm Hneg)
      as (ds & -> & Hall & Hds).
    rewrite Hneg in Hok.
    destruct (NumFacts.parse_digits_all 10 ds Hall ltac:(lia) 0 ltac:(lia))
      as (m & Hparse & Hm0).
    assert (Hnum : Num.parse_number 10 ds = Some m).
    { unfold Num.parse_number. destruct ds; [contradiction | exact Hparse]. }
    assert (Hbig : Num.BigInt (String "-" ds) = Ok (- m)).
    { rewrite ParserFacts.BigInt_minus, Hnum. reflexivity. }
    rewrite Hbig in Hok.
    assert (Hval : Z.land (- m) U256_MAX = (two256 - m) mod two256).
    { rewrite ParserFacts.land_U256.
      replace (two256 - m) with (- m + 1 * two256) by ring.
      now rewrite Z.mod_add by (unfold two256; lia). }
    destruct (assert_ (Str.len (String "-" ds) <=? 78) _) as [[]|];
      [| discriminate Hok].
    cbn [bind] in Hok.
    assert (Hfin : Ok (Some ((HexNumberT,
                     ("0x" ++ Num.toString 16 (Z.land (- m) U256_MAX))%string),
                     Parser.eatSpace rest)) = Ok (Some (tok, input'))).
    { destruct (Str.len (String "-" ds) =? 78); cbn [bind] in Hok.
      - destruct (assert_ _ _) as [[]|]; [exact Hok | discriminate Hok].
      - exact Hok. }
    rewrite Hval in Hfin.
    assert (Htok : tok = (HexNumberT,
              ("0x" ++ Num.toString 16 ((two256 - m) mod two256))%string))
      by congruence.
    exists ds, m. repeat split; try assumption.
    rewrite Htok. cbn [snd].
    apply ParserFacts.toBigInt_0x_text.
    apply Z.mod_pos_bound. unfold two256. lia.
Qed.

(** Witness: -1 becomes 0xff...ff (64 hex digits). *)
Lemma DecimalNumber_limits_witness :
  exists ds m,
    "-1" = String "-" ds /\
    Num.parse_number 10 ds = Some m /\
    (HexNumberT,
     "0xffffffffffffffffffffffffffffffffffffffffffffffffffffffffffffffff")
    = (HexNumberT,
       ("0x" ++ Num.toString 16 ((two256 - m) mod two256))%string) /\
    toBigInt
      "0xffffffffffffffffffffffffffffffffffffffffffffffffffffffffffffffff"
    = Ok ((two256 - m) mod two256).
Proof.
  exact (proj2 (proj2 (DecimalNumber_limits "-1 " "-1" " " eq_refl))
           eq_refl
           (HexNumberT,
            "0xffffffffffffffffffffffffffffffffffffffffffffffffffffffffffffffff")
           "" eq_refl).
Defined.

(** ** Struct layout *)

Module StructFacts.

Lemma new_layout (name : string) (offset width : Z) (value : string)
    (mem : StructMember.t) :
  StructMember.new name offset width value = Ok mem ->
  StructMember.name mem = name /\
  StructMember.offset mem = offset /\
  StructMember.width mem = width /\
  StructMember.shift mem = 256 - (offset + width).
Proof.
  unfold StructMember.new. destruct (toBigInt value); cbn [bind]; [| discriminate].
  intros [= <-]. cbn. repeat split.
Qed.

(** What the loop of [init] has done when it returns. *)
Lemma init_loop_spec (sname : string) (nodes : list StructMemberNode.t) :
  forall offset n members offset' n' members',
    Struct.init_loop sname nodes offset n members = Ok (offset', n', members') ->
    Struct.total_width sname nodes = Ok (offset' - offset) /\
    exists added,
      members' = members ++ added /\
      n' = fold_left lor_placed added n /\
      forall pre m post,
        nodes = pre ++ m :: post ->
        StructMemberNode.name m <> "+" ->
        exists sm o,
          In sm added /\
          StructMember.name sm = StructMemberNode.name m /\
          Struct.total_width sname pre = Ok o /\
          StructMember.offset sm = offset + o /\
          StructMember.shift sm
          = 256 - (StructMember.offset sm + StructMember.width sm) /\
          Struct.type_width (sname ++ "->" ++ StructMemberNode.name m)
            (StructMemberNode.kind m) = Ok (StructMember.width sm).
Proof.
  induction nodes as [|member rest IH];
    intros offset n members offset' n' members' H.
  - cbn in H. injection H as <- <- <-. split.
    + cbn. f_equal. lia.
    + exists []. rewrite app_nil_r. repeat split.
      intros pre m post Heq. destruct pre; discriminate.
  - cbn [Struct.init_loop] in H. cbn [Struct.total_width].
    destruct (Struct.type_width _ (StructMemberNode.kind member))
      as [w|] eqn:Hw; cbn [bind] in H |- *; [| discriminate].
    destruct (String.eqb_spec (StructMemberNode.name member) "+") as [Hp|Hp].
    + apply IH in H as (Htot & added & -> & -> & Hlay).
      rewrite Htot. cbn [bind]. split; [f_equal; lia|].
      exists added. repeat split.
      intros pre m post Heq Hne.
      destruct pre as [|p pre]; cbn in Heq; injection Heq as <- ->.
      * contradiction.
      * destruct (Hlay pre m post eq_refl Hne)
          as (sm & o & Hin & Hn & Ho & Hoff & Hsh & Hty).
        exists sm, (w + o). cbn [Struct.total_width].
        rewrite Hw, Ho. cbn [bind]. repeat split; try assumption. lia.
    + destruct (Struct.has members (StructMemberNode.name member));
        [discriminate|].
      destruct (isLiteral (StructMemberNode.value member));
        cbn [negb] in H; [| discriminate].
      destruct (StructMember.new _ offset w _) as [mem|] eqn:Hnew;
        cbn [bind] in H; [| discriminate].
      apply new_layout in Hnew as (Hn1 & Hn2 & Hn3 & Hn4).
      apply IH in H as (Htot & added & -> & -> & Hlay).
      rewrite Htot. cbn [bind]. split; [f_equal; lia|].
      exists (mem :: added). rewrite <- app_assoc. repeat split.
      intros pre m post Heq Hne.
      destruct pre as [|p pre]; cbn in Heq; injection Heq as <- ->.
      * exists mem, 0. cbn [Struct.total_width].
        repeat split; try assumption; [now left | lia | | ].
        -- rewrite Hn4, Hn2, Hn3. reflexivity.
        -- now rewrite Hn3.
      * destruct (Hlay pre m post eq_refl Hne)
          as (sm & o & Hin & Hn & Ho & Hoff & Hsh & Hty).
        exists sm, (w + o). cbn [Struct.total_width].
        rewrite Hw, Ho. cbn [bind].
        repeat split; try assumption; [now right | lia].
Qed.

Lemma digit_in_nonneg (radix : Z) (c : ascii) (d : Z) :
  Num.digit_in radix c = Some d -> 0 <= d.
Proof.
  unfold Num.digit_in, Num.digit_value.
  destruct ((48 <=? Str.code c) && (Str.code c <=? 57)) eqn:H1.
  - apply andb_prop in H1 as [H1 _]. apply Z.leb_le in H1.
    destruct (_ <? radix); intros [= <-]; lia.
  - destruct ((97 <=? Str.code c) && (Str.code c <=? 122)) eqn:H2.
    + apply andb_prop in H2 as [H2 _]. apply Z.leb_le in H2.
      destruct (_ <? radix); intros [= <-]; lia.
    + destruct ((65 <=? Str.code c) && (Str.code c <=? 90)) eqn:H3;
        [| discriminate].
      apply andb_prop in H3 as [H3 _]. apply Z.leb_le in H3.
      destruct (_ <? radix); intros [= <-]; lia.
Qed.

Lemma parse_digits_nonneg (radix : Z) (s : string) :
  0 <= radix ->
  forall acc v, 0 <= acc -> Num.parse_digits radix acc s = Some v -> 0 <= v.
Proof.
  intros Hr. induction s as [|c s IH]; intros acc v Hacc; cbn.
  - intros [= <-]. assumption.
  - destruct (Num.digit_in radix c) as [d|] eqn:Hd; [| discriminate].
    apply digit_in_nonneg in Hd. apply IH. nia.
Qed.

Lemma parseInt_nonneg (d : string) : 0 <= Struct.parseInt d.
Proof.
  unfold Struct.parseInt, Num.parse_number.
  destruct d as [|c d]; [lia|].
  destruct (Num.parse_digits 10 0 (String c d)) as [v|] eqn:H; [| lia].
  eapply parse_digits_nonneg in H; lia.
Qed.

Lemma type_width_nonneg (id type : string) (w : Z) :
  Struct.type_width id type = Ok w -> 0 <= w.
Proof.
  unfold Struct.type_width.
  destruct (Struct.re_digits "uint" 1 3 type) as [d|].
  { intros [= <-]. apply parseInt_nonneg. }
  destruct (Struct.re_digits "int" 1 3 type) as [d|].
  { intros [= <-]. apply parseInt_nonneg. }
  destruct (String.eqb type "address"); [intros [= <-]; lia|].
  destruct (String.eqb type "bool"); [intros [= <-]; lia|].
  destruct (Struct.re_digits "bytes" 1 2 type) as [d|].
  { intros [= <-]. pose proof (parseInt_nonneg d). lia. }
  destruct (String.eqb type "function"); [intros [= <-]; lia | discriminate].
Qed.

Lemma total_width_nonneg (sname : string) (nodes : list StructMemberNode.t) :
  forall w, Struct.total_width sname nodes = Ok w -> 0 <= w.
Proof.
  induction nodes as [|m rest IH]; intros w; cbn.
  - intros [= <-]. lia.
  - destruct (Struct.type_width _ _) as [w1|] eqn:H1; cbn [bind];
      [| discriminate].
    destruct (Struct.total_width sname rest) as [w2|]; cbn [bind];
      [| discriminate].
    intros [= <-]. apply type_width_nonneg in H1.
    specialize (IH w2 eq_refl). lia.
Qed.

Lemma fold_loop_defaults (members : list StructMember.t) :
  forall args n st,
    forallb isDefaultIdentifier args = true ->
    (List.length args <= List.length members)%nat ->
    Struct.fold_loop members args n st
    = Ok (fold_left lor_placed members n, st).
Proof.
  induction members as [|mem members IH]; intros args n st Hall Hlen.
  - destruct args; [reflexivity | cbn in Hlen; lia].
  - destruct args as [|arg args]; [reflexivity|].
    cbn in Hall. apply andb_prop in Hall as [Ha Hall].
    cbn [Struct.fold_loop]. rewrite Ha.
    rewrite IH by (assumption || (cbn in Hlen; lia)). reflexivity.
Qed.

Lemma new_value (name : string) (offset width : Z) (value : string)
    (mem : StructMember.t) :
  StructMember.new name offset width value = Ok mem ->
  0 <= width ->
  exists d, toBigInt value = Ok d /\
            StructMember.value mem = d mod 2 ^ width /\
            0 <= StructMember.value mem < 2 ^ width.
Proof.
  unfold StructMember.new.
  destruct (toBigInt value) as [d|]; cbn [bind]; [| discriminate].
  intros [= <-] Hw. exists d. cbn [StructMember.value].
  rewrite Z.shiftl_1_l.
  replace (2 ^ width - 1) with (Z.ones width) by (rewrite Z.ones_equiv; lia).
  rewrite Z.land_ones by lia.
  repeat split; try reflexivity; apply Z.mod_pos_bound;
    apply Z.pow_pos_nonneg; lia.
Qed.

Lemma declared_padding (m : StructMemberNode.t) :
  StructMemberNode.name m = "+" -> declared m = false.
Proof. unfold declared. now intros ->. Qed.

Lemma declared_member (m : StructMemberNode.t) :
  StructMemberNode.name m <> "+" -> declared m = true.
Proof.
  unfold declared. intros H.
  now destruct (String.eqb_spec (StructMemberNode.name m) "+").
Qed.

(** What the loop of [init] has collected when it returns: the members,
    one for each declared member in order, and the constant. *)
Lemma init_loop_pins (sname : string) (nodes : list StructMemberNode.t) :
  forall offset n members offset' n' members',
    Struct.init_loop sname nodes offset n members = Ok (offset', n', members') ->
    exists added,
      members' = members ++ added /\
      List.length added = List.length (filter declared nodes) /\
      n' = Z.lor n (packed_default sname nodes offset) /\
      forall pre m post,
        nodes = pre ++ m :: post ->
        StructMemberNode.name m <> "+" ->
        exists sm o d,
          nth_error added (List.length (filter declared pre)) = Some sm /\
          StructMember.name sm = StructMemberNode.name m /\
          Struct.total_width sname pre = Ok o /\
          StructMember.offset sm = offset + o /\
          Struct.type_width (sname ++ "->" ++ StructMemberNode.name m)
            (StructMemberNode.kind m) = Ok (StructMember.width sm) /\
          StructMember.shift sm
          = 256 - (StructMember.offset sm + StructMember.width sm) /\
          toBigInt (value_of (StructMemberNode.value m)) = Ok d /\
          StructMember.value sm = d mod 2 ^ StructMember.width sm /\
          0 <= StructMember.value sm < 2 ^ StructMember.width sm.
Proof.
  induction nodes as [|member rest IH];
    intros offset n members offset' n' members' H.
  - cbn in H. injection H as <- <- <-. exists [].
    rewrite app_nil_r. cbn [packed_default filter List.length].
    rewrite Z.lor_0_r. repeat split.
    intros pre m post Heq. destruct pre; discriminate.
  - cbn [Struct.init_loop] in H. cbn [packed_default filter].
    destruct (Struct.type_width _ (StructMemberNode.kind member))
      as [w|] eqn:Hw; cbn [bind] in H; [| discriminate].
    pose proof (type_width_nonneg _ _ _ Hw) as Hw0.
    destruct (String.eqb_spec (StructMemberNode.name member) "+") as [Hp|Hp].
    + rewrite (declared_padding _ Hp).
      apply IH in H as (added & -> & Hlen & -> & Hlay).
      exists added. rewrite Z.lor_0_l.
      split; [reflexivity|]. split; [assumption|]. split; [reflexivity|].
      intros pre m post Heq Hne.
      destruct pre as [|p pre]; cbn in Heq; injection Heq as <- ->.
      * contradiction.
      * destruct (Hlay pre m post eq_refl Hne)
          as (sm & o & d & Hn & Hnm & Ho & Hoff & Hty & Hsh & Hd & Hv & Hr).
        exists sm, (w + o), d. cbn [Struct.total_width filter].
        rewrite (declared_padding _ Hp), Hw, Ho. cbn [bind].
        repeat split; try assumption; lia.
    + rewrite (declared_member _ Hp).
      destruct (Struct.has members (StructMemberNode.name member));
        [discriminate|].
      destruct (isLiteral (StructMemberNode.value member));
        cbn [negb] in H; [| discriminate].
      destruct (StructMember.new _ offset w _) as [mem|] eqn:Hnew;
        cbn [bind] in H; [| discriminate].
      pose proof (new_layout _ _ _ _ _ Hnew)
        as (Hn1 & Hn2 & Hn3 & Hn4).
      destruct (new_value _ _ _ _ _ Hnew Hw0) as (d & Hd & Hv & Hr).
      apply IH in H as (added & -> & Hlen & -> & Hlay).
      exists (mem :: added). rewrite <- app_assoc.
      split; [reflexivity|].
      split; [cbn [List.length]; now rewrite Hlen|].
      split.
      { rewrite Hd. unfold StructMember.placed.
        rewrite Hv, Hn4. now rewrite Z.lor_assoc. }
      intros pre m post Heq Hne.
      destruct pre as [|p pre]; cbn in Heq; injection Heq as <- ->.
      * exists mem, 0, d. cbn [Struct.total_width filter List.length nth_error].
        rewrite Hn3.
        repeat split; try assumption; try reflexivity; try lia.
      * destruct (Hlay pre m post eq_refl Hne)
          as (sm & o & d' & Hn & Hnm & Ho & Hoff & Hty & Hsh & Hd' & Hv' & Hr').
        exists sm, (w + o), d'. cbn [Struct.total_width filter].
        rewrite (declared_member _ Hp). cbn [List.length nth_error].
        rewrite Hw, Ho. cbn [bind].
        repeat split; try assumption; lia.
Qed.

End StructFacts.

(** C5: a struct is constructed only when the sum of its member widths,
    padding included, lies in (0, 256].  The struct has exactly the
    declared members that are not padding, in their order; the member
    declared at bit offset [o] with width [w] is shifted left by
    [256 - (o + w)], the first member starting at the most significant
    bit, and its value is the declared default reduced modulo [2^w].  The
    constant of the struct is the or of its members, each at its place,
    which is the packed default of the declaration; and an initialiser
    with no argument, or with only [@] arguments (no more than the struct
    has members), folds to that constant. *)
Theorem struct_packing (node : StructDefinition.t) :
  let sname := StructDefinition.name node in
  let nodes := StructDefinition.members node in
  (forall w, Struct.total_width sname nodes = Ok w ->
             ~ (0 < w <= 256) -> failed (Struct.init node)) /\
  (forall s,
     Struct.init node = Ok s ->
     (0 < Struct.width s <= 256 /\
      Struct.total_width sname nodes = Ok (Struct.width s)) /\
     List.length (Struct.members s) = List.length (filter declared nodes) /\
     (forall pre m post,
        nodes = pre ++ m :: post ->
        StructMemberNode.name m <> "+" ->
        exists sm o d,
          nth_error (Struct.members s) (List.length (filter declared pre))
          = Some sm /\
          In sm (Struct.members s) /\
          StructMember.name sm = StructMemberNode.name m /\
          Struct.total_width sname pre = Ok o /\
          StructMember.offset sm = o /\
          Struct.type_width (sname ++ "->" ++ StructMemberNode.name m)
            (StructMemberNode.kind m) = Ok (StructMember.width sm) /\
          StructMember.shift sm = 256 - (o + StructMember.width sm) /\
          toBigInt (value_of (StructMemberNode.value m)) = Ok d /\
          StructMember.value sm = d mod 2 ^ StructMember.width sm /\
          0 <= StructMember.value sm < 2 ^ StructMember.width sm) /\
     Struct.value s
     = Literal (VBigInt (fold_left lor_placed (Struct.members s) 0)) /\
     Struct.value s = Literal (VBigInt (packed_default sname nodes 0)) /\
     Struct.fold s [] = Ok (Struct.value s) /\
     (forall args,
        forallb isDefaultIdentifier args = true ->
        (List.length args <= List.length (Struct.members s))%nat ->
        Struct.fold s args = Ok (Struct.value s))).
Proof.
  intros sname nodes. split.
  - intros w Hw Hrange. unfold Struct.init. fold sname nodes.
    destruct (Struct.init_loop sname nodes 0 0 []) as [[[o n] ms]|] eqn:Hl;
      cbn [bind]; [| exact I].
    apply StructFacts.init_loop_spec in Hl as (Htot & _).
    rewrite Hw in Htot. injection Htot as Htot.
    apply StructFacts.total_width_nonneg in Hw.
    destruct (Z.eqb_spec o 0), (Z.ltb_spec 256 o); cbn; try exact I; lia.
  - intros s Hinit. unfold Struct.init in Hinit. fold sname nodes in Hinit.
    destruct (Struct.init_loop sname nodes 0 0 []) as [[[o n] ms]|] eqn:Hl;
      cbn [bind] in Hinit; [| discriminate].
    pose proof (StructFacts.init_loop_pins _ _ _ _ _ _ _ _ Hl)
      as (pinned & Hpm & Hlen & Hpn & Hpin).
    apply StructFacts.init_loop_spec in Hl as (Htot & added & Hms & Hn & Hlay).
    cbn [app] in Hms, Hpm. subst ms. subst added.
    destruct (Z.eqb_spec o 0), (Z.ltb_spec 256 o); cbn in Hinit;
      try discriminate.
    injection Hinit as <-. cbn.
    replace (o - 0) with o in Htot by lia.
    pose proof (StructFacts.total_width_nonneg _ _ _ Htot) as Hpos.
    split; [split; [lia | assumption] |].
    split; [assumption |].
    split; [| split; [now rewrite Hn | split; [| split; [reflexivity |]]]].
    + intros pre m post Heq Hne.
      destruct (Hpin pre m post Heq Hne)
        as (sm & o' & d & Hnth & Hnm & Ho & Hoff & Hty & Hsh & Hd & Hv & Hr).
      exists sm, o', d. cbn in Hoff. subst o'.
      repeat split; try assumption; try apply Hr.
      eapply nth_error_In; exact Hnth.
    + rewrite Hpn. now rewrite Z.lor_0_l.
    + intros args Hall Hlen'. unfold Struct.fold.
      cbn [Struct.members Struct.name Struct.value] in *.
      destruct args as [|a args]; [reflexivity|].
      destruct (Nat.ltb_spec (List.length pinned) (List.length (a :: args)));
        [lia|].
      rewrite StructFacts.fold_loop_defaults by assumption.
      now rewrite Hn.
Qed.

Example btc_output_init :
  Struct.init btc_output = Ok btc_output_struct /\
  Struct.width btc_output_struct = 248 /\
  map StructMember.shift (Struct.members btc_output_struct) = [192; 168; 8].
Proof. repeat split. Qed.

(** Scenario (b) of the specification. *)
Example btc_output_fold :
  Struct.fold btc_output_struct
    [ Literal (VNumber 100000000);
      NIdentifier "@" false;
      NLiteral HexNumberT None "0xdeadbeef00000000000000000000000000000000" ]
  = Ok (Literal (VBigInt
          (Z.lor (Z.lor (Z.shiftl 100000000 192) (Z.shiftl 1441812 168))
                 (Z.shiftl 1271270612704050900734399246419756505046821371904 8)))).
Proof. reflexivity. Qed.

(** Witness: the README's struct.  Its constant is the default of
    [prefix], 0x160014, at the bits 168 to 191, and an initialiser with
    two [@] arguments folds to it. *)
Lemma struct_packing_witness :
  Struct.value btc_output_struct = Literal (VBigInt (Z.shiftl 1441812 168)) /\
  Struct.fold btc_output_struct [NIdentifier "@" false; NIdentifier "@" false]
  = Ok (Struct.value btc_output_struct).
Proof.
  exact (conj
           (proj1 (proj2 (proj2 (proj2 (proj2
              (proj2 (struct_packing btc_output) btc_output_struct
                 eq_refl))))))
           (proj2 (proj2 (proj2 (proj2 (proj2 (proj2
              (proj2 (struct_packing btc_output) btc_output_struct
                 eq_refl))))))
              [NIdentifier "@" false; NIdentifier "@" false] eq_refl
              ltac:(vm_compute; lia))).
Defined.

(** ** Selectors and topics *)

Section Signatures.

Variable keccak256 : list Z -> list Z.

Lemma canonicalize_cases :
  AbiHash.canonicalize "uint" = "uint256" /\
  AbiHash.canonicalize "int" = "int256" /\
  AbiHash.canonicalize "uint[]" = "uint256[]" /\
  AbiHash.canonicalize "int[]" = "int256[]" /\
  (forall t, t <> "uint" -> t <> "int" -> t <> "uint[]" -> t <> "int[]" ->
             AbiHash.canonicalize t = t).
Proof.
  repeat split; try reflexivity.
  intros t H1 H2 H3 H4. unfold AbiHash.canonicalize.
  destruct (String.eqb_spec t "uint"); [contradiction|].
  destruct (String.eqb_spec t "int"); [contradiction|].
  destruct (String.eqb_spec t "uint[]"); [contradiction|].
  destruct (String.eqb_spec t "int[]"); [contradiction | reflexivity].
Qed.

Lemma Method_init_signature (node : MethodDeclaration.t) (m : Method.t) :
  Method.init keccak256 node = Ok m ->
  Method.name m = MethodDeclaration.name node /\
  Method.signature m
  = AbiHash.methodHash keccak256 (MethodDeclaration.name node)
      (Method.types_of (MethodDeclaration.params node)).
Proof.
  unfold Method.init.
  destruct (includes_char _ _); cbn [bind]; [discriminate|].
  match goal with
  | |- (_ <- ?c ;; _) = _ -> _ => destruct c; cbn [bind]; [| discriminate]
  end.
  match goal with
  | |- (_ <- ?c ;; _) = _ -> _ => destruct c; cbn [bind]; [| discriminate]
  end.
  destruct (Method.params_loop _ _ _); cbn [bind]; [| discriminate].
  intros [= <-]. split; reflexivity.
Qed.

Lemma Event_init_signature (node : EventDeclaration.t) (e : Event.t) :
  Event.init keccak256 node = Ok e ->
  Event.signature e
  = AbiHash.eventHash keccak256 (EventDeclaration.name node)
      (List.map (fun it => ABIType.value (fst (fst it)))
         (EventDeclaration.params node)).
Proof.
  unfold Event.init.
  destruct (Event.misuses_array _); [discriminate|].
  destruct (_ <? _); [discriminate|].
  intros [= <-]. reflexivity.
Qed.

End Signatures.

(** C2: the signature of a method, error or event named [n] with parameter
    types [t1..tn] is computed from keccak-256 of the text
    [n(canon(t1),...,canon(tn))], where [canon] rewrites exactly [uint],
    [int], [uint[]] and [int[]]; methods and errors keep the first four
    bytes of the digest, events keep all of it. *)
Theorem signatures_are_keccak (keccak256 : list Z -> list Z) :
  let digest (name : string) (types : list string) :=
    keccak256
      (AbiHash.bytes_of
         (name ++ "(" ++ Str.join "," (List.map AbiHash.canonicalize types)
          ++ ")")) in
  (AbiHash.canonicalize "uint" = "uint256" /\
   AbiHash.canonicalize "int" = "int256" /\
   AbiHash.canonicalize "uint[]" = "uint256[]" /\
   AbiHash.canonicalize "int[]" = "int256[]" /\
   (forall t, t <> "uint" -> t <> "int" -> t <> "uint[]" -> t <> "int[]" ->
              AbiHash.canonicalize t = t)) /\
  (forall node m,
     Method.init keccak256 node = Ok m ->
     Method.signature m
     = ("0x" ++ AbiHash.hex
                  (firstn 4 (digest (MethodDeclaration.name node)
                               (List.map (fun it => ABIType.value (fst it))
                                  (MethodDeclaration.params node)))))%string) /\
  (forall node,
     VMError.signature (VMError.init keccak256 node)
     = ("0x" ++ AbiHash.hex
                  (firstn 4 (digest (ErrorDeclaration.name node)
                               (List.map (fun it => ABIType.value (fst it))
                                  (ErrorDeclaration.params node)))))%string) /\
  (forall node e,
     Event.init keccak256 node = Ok e ->
     Event.signature e
     = ("0x" ++ AbiHash.hex
                  (digest (EventDeclaration.name node)
                     (List.map (fun it => ABIType.value (fst (fst it)))
                        (EventDeclaration.params node))))%string).
Proof.
  intros digest. split; [apply canonicalize_cases|]. split; [| split].
  - intros node m H. apply Method_init_signature in H as [_ ->]. reflexivity.
  - intros node. reflexivity.
  - intros node e H. apply Event_init_signature in H as ->. reflexivity.
Qed.

(** ** The method of the README:
       [method foobar(uint32 id, uint64 amount, bytes32[] hashes)] *)

Lemma foobar_init (keccak256 : list Z -> list Z) :
  Method.init keccak256 foobar = Ok (foobar_method keccak256).
Proof. reflexivity. Qed.

Lemma signatures_are_keccak_witness :
  Method.signature (foobar_method digest_stub)
  = ("0x" ++ AbiHash.hex
               (firstn 4 (digest_stub
                            (AbiHash.bytes_of
                               "foobar(uint32,uint64,bytes32[])"))))%string.
Proof.
  exact (proj1 (proj2 (signatures_are_keccak digest_stub))
           foobar (foobar_method digest_stub) (foobar_init digest_stub)).
Defined.

(** C6, as stated, fails: [calldata.id] is not rewritten to
    [shr(224, calldataload(4))], nor [calldata.amount] to
    [shr(192, calldataload(36))]. *)
Lemma calldata_id_is_not_shifted :
  Transformer.CallDataIdentifier (Some (foobar_method digest_stub)) "id" false
  <> Ok (Shr 224 (CallDataLoad 4)) /\
  Transformer.CallDataIdentifier (Some (foobar_method digest_stub))
    "amount" false
  <> Ok (Shr 192 (CallDataLoad 36)).
Proof. split; discriminate. Qed.

(** C6 (amended): for [foobar(uint32 id, uint64 amount, bytes32[] hashes)]
    the transformer rewrites [calldata.id] to [calldataload(4)],
    [calldata.amount] to [calldataload(36)], [calldata.hashes] to
    [add(calldataload(68), 4)] and [&calldata.id] to the literal [4]. *)
Theorem foobar_calldata (keccak256 : list Z -> list Z) :
  exists m,
    Method.init keccak256 foobar = Ok m /\
    Transformer.CallDataIdentifier (Some m) "id" false
    = Ok (NFunctionCall "calldataload" [NLiteral DecimalNumberT None "4"]) /\
    Transformer.CallDataIdentifier (Some m) "amount" false
    = Ok (NFunctionCall "calldataload" [NLiteral DecimalNumberT None "36"]) /\
    Transformer.CallDataIdentifier (Some m) "hashes" false
    = Ok (NFunctionCall "add"
            [NFunctionCall "calldataload" [NLiteral DecimalNumberT None "68"];
             NLiteral DecimalNumberT None "4"]) /\
    Transformer.CallDataIdentifier (Some m) "id" true
    = Ok (NLiteral DecimalNumberT None "4").
Proof.
  exists (foobar_method keccak256). repeat split.
Qed.

(** ** The dispatcher *)

Module SelectFacts.

Import Transformer.



Lemma select_loop_no_fallback (available : string -> bool)
    (methods : list Method.t) :
  ~ In "fallback" (List.map Method.name methods) ->
  forall st st',
    select_loop available methods st = Ok st' -> fallback st' = fallback st.
Proof.
  induction methods as [|m rest IH]; intros Hno st st' H; cbn in H.
  - now injection H as <-.
  - destruct (arm available m) as [block|]; cbn [bind] in H; [| discriminate].
    cbn in Hno.
    assert (Hrest : ~ In "fallback" (List.map Method.name rest)) by tauto.
    destruct (String.eqb (Method.name m) "receive").
    { now apply IH in H. }
    destruct (String.eqb_spec (Method.name m) "fallback") as [E|E].
    { exfalso. apply Hno. now left. }
    now apply IH in H.
Qed.







End SelectFacts.







(** ** Inline suppression *)

Module SizeFacts.

Import CodeSize.

Lemma walk_app (a b : list node) :
  forall st, walk (a ++ b) st = (st' <- walk a st ;; walk b st').
Proof.
  induction a as [|n a IH]; intros st; cbn; [reflexivity|].
  destruct (step st n); cbn [bind]; [apply IH | reflexivity].
Qed.

Ltac same_size :=
  match goal with
  | |- Ok (?i, ?a) = Ok (?i, ?b) =>
      let E := fresh in
      assert (E : a = b) by lia;
      exact (f_equal (fun z => Ok (i, z)) E)
  end.

Ltac same_state :=
  let H := fresh in
  intros H;
  match type of H with
  | Ok (?i, ?a) = Ok (?i', ?s') =>
      assert (i' = i) by congruence;
      assert (s' = a) by congruence;
      subst i' s'; same_size
  end.

Lemma step_shift (n : node) (ig ig' : list Z) (s s' c : Z) :
  step (ig, s) n = Ok (ig', s') -> step (ig, s + c) n = Ok (ig', s' + c).
Proof.
  destruct n; cbn [step]; try same_state.
  - destruct (isLiteral _).
    + destruct (toBigInt value); cbn [bind]; [| discriminate].
      destruct (negb (a =? 0) && negb (seen ig a)); same_state.
    + same_state.
  - destruct def; same_state.
Qed.

Lemma walk_shift (l : list node) (c : Z) :
  forall ig s ig' s',
    walk l (ig, s) = Ok (ig', s') -> walk l (ig, s + c) = Ok (ig', s' + c).
Proof.
  induction l as [|n l IH]; intros ig s ig' s' H; cbn [walk] in *.
  - injection H as <- <-. reflexivity.
  - destruct (step (ig, s) n) as [[ig1 s1]|] eqn:Hs; cbn [bind] in H;
      [| discriminate].
    rewrite (step_shift _ _ _ _ _ c Hs). cbn [bind]. now apply IH.
Qed.

Ltac grown_state :=
  let H := fresh in
  intros H;
  match type of H with
  | Ok (_, ?a) = Ok (_, ?s') => assert (s' = a) by congruence; lia
  end.

Lemma step_mono (n : node) (ig ig' : list Z) (s s' : Z) :
  step (ig, s) n = Ok (ig', s') -> s <= s'.
Proof.
  destruct n; cbn [step]; try grown_state.
  - destruct (isLiteral _).
    + destruct (toBigInt value); cbn [bind]; [| discriminate].
      destruct (negb (a =? 0) && negb (seen ig a)); grown_state.
    + grown_state.
  - destruct def; grown_state.
Qed.

Lemma walk_mono (l : list node) :
  forall ig s ig' s', walk l (ig, s) = Ok (ig', s') -> s <= s'.
Proof.
  induction l as [|n l IH]; intros ig s ig' s' H; cbn [walk] in *.
  - injection H as <- <-. lia.
  - destruct (step (ig, s) n) as [[ig1 s1]|] eqn:Hs; cbn [bind] in H;
      [| discriminate].
    apply step_mono in Hs. apply IH in H. lia.
Qed.

Lemma codeSize_nonneg (root : node) (s : Z) :
  codeSize root = Ok s -> 0 <= s.
Proof.
  unfold codeSize.
  destruct (walk (traverse root) ([], 0)) as [[ig s']|] eqn:H; cbn [bind];
    [| discriminate].
  intros [= <-]. now apply walk_mono in H.
Qed.

(** One [CODESIZE POP] weighs 4 and adds no literal to the set. *)
Lemma walk_pad (ig : list Z) (s : Z) :
  walk (traverse NoInline_.pad) (ig, s) = Ok (ig, s + 4).
Proof.
  cbn. same_size.
Qed.

Lemma walk_pads (k : nat) :
  forall ig s,
    walk (flat_map traverse (List.repeat NoInline_.pad k)) (ig, s)
    = Ok (ig, s + 4 * Z.of_nat k).
Proof.
  induction k as [|k IH]; intros ig s.
  - cbn. same_size.
  - cbn [List.repeat flat_map]. rewrite walk_app, walk_pad. cbn [bind].
    rewrite IH. same_size.
Qed.

(** Prepending [k] pads to a block adds [4 * k] to its size. *)
Lemma codeSize_padded (k : nat) (body : list node) (s : Z) :
  codeSize (NBlock body) = Ok s ->
  codeSize (NBlock (List.repeat NoInline_.pad k ++ body))
  = Ok (s + 4 * Z.of_nat k).
Proof.
  unfold codeSize. cbn [traverse walk step bind].
  destruct (walk (flat_map traverse body) ([], 0 + 0)) as [[ig s']|] eqn:H;
    cbn [bind]; [| discriminate].
  intros [= <-]. rewrite flat_map_app, walk_app, walk_pads. cbn [bind].
  replace (0 + 0 + 4 * Z.of_nat k) with (0 + 0 + (4 * Z.of_nat k)) by lia.
  rewrite (walk_shift _ (4 * Z.of_nat k) _ _ _ _ H). reflexivity.
Qed.

Lemma pad_loop_spec (needs : Z) (fuel : nat) :
  forall size body,
    needs - size <= Z.of_nat fuel ->
    exists k,
      NoInline_.pad_loop fuel size needs body
      = Some (body ++ List.repeat NoInline_.pad k) /\
      needs <= size + 4 * Z.of_nat k /\
      (needs <= size -> k = 0%nat).
Proof.
  induction fuel as [|f IH]; intros size body Hfuel.
  - cbn. destruct (Z.ltb_spec size needs); [lia|].
    exists 0%nat. cbn. rewrite app_nil_r. repeat split; lia.
  - cbn [NoInline_.pad_loop].
    destruct (Z.ltb_spec size needs).
    + destruct (IH (size + 4) (body ++ [NoInline_.pad]) ltac:(lia))
        as (k & Hk & Hle & _).
      exists (S k). rewrite Hk, <- app_assoc. cbn [app List.repeat].
      repeat split; lia.
    + exists 0%nat. cbn. rewrite app_nil_r. repeat split; lia.
Qed.

End SizeFacts.

(** The weights of the walker, one loop iteration at a time. *)
Lemma codeSize_weights (ignore : list Z) (size : Z) :
  (forall lhs rhs,
     CodeSize.step (ignore, size) (NAssignment lhs rhs)
     = Ok (ignore, size + 0)) /\
  (forall f args,
     CodeSize.step (ignore, size) (NFunctionCall f args)
     = Ok (ignore, size + 1)) /\
  (forall e b br o,
     CodeSize.step (ignore, size) (NIf e b br o) = Ok (ignore, size + 2)) /\
  (forall e cases d,
     CodeSize.step (ignore, size) (NSwitch e cases (Some d))
     = Ok (ignore, size + (1 + 2 * Z.of_nat (List.length cases)) + 2)) /\
  (forall e cases,
     CodeSize.step (ignore, size) (NSwitch e cases None)
     = Ok (ignore, size + (1 + 2 * Z.of_nat (List.length cases)))) /\
  (forall i t u b,
     CodeSize.step (ignore, size) (NForLoop i t u b)
     = Ok (ignore, size + 3)) /\
  (forall v,
     CodeSize.step (ignore, size) (NBreakContinue v)
     = Ok (ignore, size + 2)) /\
  CodeSize.step (ignore, size) NLeave = Ok (ignore, size + 2) /\
  (forall sub kind text v,
     isLiteral (NLiteral sub kind text) = true ->
     toBigInt text = Ok v ->
     CodeSize.step (ignore, size) (NLiteral sub kind text)
     = if negb (v =? 0) && negb (CodeSize.seen ignore v)
       then Ok (v :: ignore, size + 1)
       else Ok (ignore, size)).
Proof.
  repeat split.
  intros sub kind text v Hlit Hv. cbn [CodeSize.step].
  rewrite Hlit, Hv. reflexivity.
Qed.

(** C8: [NoInline] returns for every function whose body can be sized;
    the function it returns has the original body behind [k] pads
    (verbatim [CODESIZE POP], weighing 4 each), and the walker's count of
    that body is the original count plus [4 * k], which is at least the
    threshold: 6 (8 with memguard) without parameters, 12 (16 with
    memguard) with parameters. *)
Theorem noinline_reaches_threshold
    (name : string) (params : typed_idents) (modifier : option string)
    (returns : typed_idents) (body : list node) (builtin memguard : bool)
    (s : Z) :
  CodeSize.codeSize (NBlock body) = Ok s ->
  let func :=
    NFunctionDefinition name params modifier returns (NBlock body) builtin in
  let threshold :=
    match params with
    | [] => if memguard then 8 else 6
    | _ => if memguard then 16 else 12
    end in
  exists (k : nat) (func' : node),
    NoInline func memguard = Ok func' /\
    func' = (match k with
             | O => func
             | _ => NFunctionDefinition name params None returns
                      (NBlock (List.repeat NoInline_.pad k ++ body)) builtin
             end) /\
    CodeSize.codeSize NoInline_.pad = Ok 4 /\
    CodeSize.codeSize (NBlock (List.repeat NoInline_.pad k ++ body))
    = Ok (s + 4 * Z.of_nat k) /\
    threshold <= s + 4 * Z.of_nat k.
Proof.
  intros Hs func threshold.
  pose proof (SizeFacts.codeSize_nonneg _ _ Hs) as Hpos.
  assert (Hthr : threshold = NoInline_.needs params memguard) by reflexivity.
  assert (Hneeds : 0 <= threshold).
  { subst threshold. destruct params, memguard; lia. }
  unfold NoInline, func. rewrite Hs. cbn [bind].
  fold (NoInline_.needs params memguard). rewrite <- Hthr.
  destruct (isInlinableExpression returns (NBlock body)).
  - destruct (SizeFacts.pad_loop_spec threshold (Z.to_nat threshold)
                (s + 4) [NoInline_.pad] ltac:(lia)) as (k & Hk & Hle & _).
    rewrite Hk. exists (S k), (NFunctionDefinition name params None returns
                 (NBlock (List.repeat NoInline_.pad (S k) ++ body)) builtin).
    cbn [app List.repeat body_of Block].
    repeat split; try reflexivity.
    + apply (SizeFacts.codeSize_padded (S k) body s Hs).
    + lia.
  - destruct (SizeFacts.pad_loop_spec threshold (Z.to_nat threshold)
                s [] ltac:(lia)) as (k & Hk & Hle & Hzero).
    rewrite Hk. cbn [app].
    destruct k as [|k].
    + exists 0%nat, func. cbn [List.repeat app].
      repeat split; try reflexivity.
      * rewrite Hs. f_equal. lia.
      * lia.
    + exists (S k), (NFunctionDefinition name params None returns
                 (NBlock (List.repeat NoInline_.pad (S k) ++ body)) builtin).
      cbn [app List.repeat body_of Block].
      repeat split; try reflexivity.
      * apply (SizeFacts.codeSize_padded (S k) body s Hs).
      * lia.
Qed.

(** A helper [function f(x) noinline { leave }]: size 2, ten short of 12,
    so three pads are prepended. *)
Lemma noinline_reaches_threshold_witness :
  exists (k : nat) (func' : node),
    NoInline (NFunctionDefinition "f" [("x", None)] (Some "noinline") []
                (NBlock [NLeave]) false) false = Ok func' /\
    func' = (match k with
             | O => NFunctionDefinition "f" [("x", None)] (Some "noinline") []
                      (NBlock [NLeave]) false
             | _ => NFunctionDefinition "f" [("x", None)] None []
                      (NBlock (List.repeat NoInline_.pad k ++ [NLeave])) false
             end) /\
    CodeSize.codeSize NoInline_.pad = Ok 4 /\
    CodeSize.codeSize (NBlock (List.repeat NoInline_.pad k ++ [NLeave]))
    = Ok (2 + 4 * Z.of_nat k) /\
    12 <= 2 + 4 * Z.of_nat k.
Proof.
  exact (noinline_reaches_threshold "f" [("x", None)] (Some "noinline") []
           [NLeave] false false 2 eq_refl).
Defined.

Example noinline_pads_three :
  NoInline (NFunctionDefinition "f" [("x", None)] (Some "noinline") []
              (NBlock [NLeave]) false) false
  = Ok (NFunctionDefinition "f" [("x", None)] None []
          (NBlock [NoInline_.pad; NoInline_.pad; NoInline_.pad; NLeave]) false).
Proof. reflexivity. Qed.

(** ** The preprocessor *)

Section FoldRule.

Variable rewrite : node -> result node.

Lemma skipped_not_taken (e : node) :
  skipped rewrite e -> exists r, rewrite e = Ok r /\ Rewrite.taken r = Ok false.
Proof.
  intros (r & Hr & [Hn | [Hl Hz]]); exists r; split; try assumption.
  - unfold Rewrite.taken. now rewrite Hn.
  - unfold Rewrite.taken. now rewrite Hl, Hz.
Qed.

Lemma Fold_loop_skips (pre : list (node * node)) :
  Forall (fun p => skipped rewrite (fst p)) pre ->
  forall rest otherwise,
    Rewrite.Fold_loop rewrite (pre ++ rest) otherwise
    = Rewrite.Fold_loop rewrite rest otherwise.
Proof.
  induction 1 as [|[e b] pre Hs _ IH]; intros rest otherwise;
    [reflexivity|].
  cbn [app Rewrite.Fold_loop].
  destruct (skipped_not_taken e Hs) as (r & -> & Ht). cbn [bind].
  rewrite Ht. cbn [bind]. apply IH.
Qed.

(** C4 (amended): the first branch whose rewritten condition is a non-zero
    literal is inlined, whatever the later branches and the else block
    are; a branch whose condition rewrites to a literal zero, or to
    something that is not a literal, contributes nothing and is not an
    error; when every branch is passed over, the else block is inlined,
    or the empty node if there is none. *)
Theorem preprocessor_fold
    (expr block : node) (branches : list (node * node))
    (otherwise : option node) :
  (forall pre e b post,
     (expr, block) :: branches = pre ++ (e, b) :: post ->
     Forall (fun p => skipped rewrite (fst p)) pre ->
     selected rewrite e ->
     Rewrite.Fold rewrite (NFold expr block branches otherwise) = rewrite b) /\
  (Forall (fun p => skipped rewrite (fst p)) ((expr, block) :: branches) ->
   Rewrite.Fold rewrite (NFold expr block branches otherwise)
   = match otherwise with
     | Some o => rewrite o
     | None => Ok (NRoot [])
     end).
Proof.
  split.
  - intros pre e b post Heq Hpre (r & v & Hr & Hl & Hv & Hnz).
    cbn [Rewrite.Fold]. rewrite Heq, Fold_loop_skips by assumption.
    cbn [Rewrite.Fold_loop]. rewrite Hr. cbn [bind].
    unfold Rewrite.taken. rewrite Hl, Hv. cbn [bind].
    destruct (Z.eqb_spec v 0); [contradiction | reflexivity].
  - intros Hall. cbn [Rewrite.Fold].
    rewrite <- (app_nil_r ((expr, block) :: branches)).
    rewrite Fold_loop_skips by assumption. reflexivity.
Qed.

End FoldRule.

(** C4, as stated, fails: [@if x { y }] with an identifier [x] that is
    neither a macro nor a constant does not make the transformation fail;
    the branch is passed over and the empty node is returned. *)
Lemma Fold_non_literal_condition_is_no_error :
  Rewrite.leaf 4 london root_scope (NIdentifier "x" true)
  = Ok (NIdentifier "x" true) /\
  isLiteral (NIdentifier "x" true) = false /\
  Rewrite.Fold (Rewrite.leaf 4 london root_scope)
    (NFold (NIdentifier "x" true) (NRoot [NIdentifier "y" true]) [] None)
  = Ok (NRoot []).
Proof. repeat split. Qed.

(** Witness: [@if x { a } elif EVM_VERSION { b } else { c }] selects [b]. *)
Lemma preprocessor_fold_witness :
  Rewrite.Fold (Rewrite.leaf 4 london root_scope)
    (NFold (NIdentifier "x" true) (NIdentifier "a" true)
       [(NIdentifier "EVM_VERSION" true, NIdentifier "b" true)]
       (Some (NIdentifier "c" true)))
  = Rewrite.leaf 4 london root_scope (NIdentifier "b" true).
Proof.
  refine (proj1 (preprocessor_fold (Rewrite.leaf 4 london root_scope)
                   (NIdentifier "x" true) (NIdentifier "a" true)
                   [(NIdentifier "EVM_VERSION" true, NIdentifier "b" true)]
                   (Some (NIdentifier "c" true)))
            [(NIdentifier "x" true, NIdentifier "a" true)]
            (NIdentifier "EVM_VERSION" true) (NIdentifier "b" true) []
            eq_refl _ _).
  - constructor; [| constructor].
    exists (NIdentifier "x" true). split; [reflexivity | left; reflexivity].
  - exists (NLiteral DecimalNumberT None "202108"), 202108.
    repeat split. discriminate.
Defined.

(** ** Constant folding *)

(** *** Literals and their values *)

Module LiteralFacts.

Lemma is_zero_char_eq (c : ascii) : Str.is_zero_char c = true -> c = "0"%char.
Proof.
  unfold Str.is_zero_char, Str.code. intros H. apply Z.eqb_eq in H.
  rewrite <- (ascii_nat_embedding c).
  replace (nat_of_ascii c) with 48%nat by lia. reflexivity.
Qed.

Lemma parse_digits_zeros (radix : Z) (s : string) :
  1 < radix ->
  Str.all Str.is_zero_char s = true ->
  Num.parse_digits radix 0 s = Some 0.
Proof.
  intros Hr. induction s as [|c s IH]; intros H; cbn in *; [reflexivity|].
  apply andb_prop in H as [Hc Hs]. apply is_zero_char_eq in Hc. subst c.
  unfold Num.digit_in. change (Num.digit_value "0") with (Some 0).
  cbv beta iota. destruct (Z.ltb_spec0 0 radix); [| lia].
  now apply IH.
Qed.

Lemma span_zeros (s : string) :
  exists z, s = (z ++ snd (Str.span Str.is_zero_char s))%string /\
            Str.all Str.is_zero_char z = true.
Proof.
  induction s as [|c s (z & Hz & Hall)]; cbn.
  - now exists EmptyString.
  - destruct (Str.is_zero_char c) eqn:Hc.
    + destruct (Str.span Str.is_zero_char s) as [a b]. cbn in *.
      exists (String c z). cbn. rewrite Hc, Hall. split; [| reflexivity].
      now rewrite <- Hz.
    + now exists EmptyString.
Qed.

(** [/^0+$/] *)
Lemma re_zeros_parse (radix : Z) (s : string) :
  1 < radix -> re_zeros s = true -> Num.parse_number radix s = Some 0.
Proof.
  intros Hr H. unfold re_zeros in H. destruct s as [|c s]; [discriminate|].
  unfold Num.parse_number. now apply parse_digits_zeros.
Qed.

(** [/^0*1$/] *)
Lemma re_zeros_one_parse (radix : Z) (s : string) :
  1 < radix -> re_zeros_one s = true -> Num.parse_number radix s = Some 1.
Proof.
  intros Hr H. unfold re_zeros_one in H. apply String.eqb_eq in H.
  destruct (span_zeros s) as (z & Hs & Hz). rewrite H in Hs.
  assert (Hne : s <> EmptyString).
  { rewrite Hs. destruct z; discriminate. }
  unfold Num.parse_number. destruct s as [|c s']; [contradiction|].
  rewrite Hs, NumFacts.parse_digits_app, (parse_digits_zeros radix z Hr Hz).
  cbn. unfold Num.digit_in. change (Num.digit_value "1") with (Some 1).
  cbv beta iota. destruct (Z.ltb_spec0 1 radix); [reflexivity | lia].
Qed.

(** A prefix holding a character that is no digit does not start a run of
    digits. *)
Lemma strip_prefix_digits (p s : string) :
  Str.all Str.is_digit s = true ->
  Str.all Str.is_digit p = false ->
  Str.strip_prefix p s = None.
Proof.
  revert s. induction p as [|a p IH]; intros s Hs Hp; [discriminate|].
  destruct s as [|b s]; [reflexivity|]. cbn in *.
  apply andb_prop in Hs as [Hb Hs].
  destruct (Ascii.eqb_spec a b) as [-> | Hne]; [| reflexivity].
  rewrite Hb in Hp. cbn in Hp. now apply IH.
Qed.

Lemma eqb_digits (s t : string) :
  s <> EmptyString ->
  Str.all Str.is_digit s = true ->
  Str.all Str.is_digit t = false ->
  String.eqb s t = false.
Proof.
  intros Hne Hs Ht. destruct (String.eqb_spec s t) as [-> | H];
    [congruence | reflexivity].
Qed.

(** [BigInt] and [toBigInt] on a run of decimal digits. *)
Lemma toBigInt_digits (s : string) :
  s <> EmptyString ->
  Str.all Str.is_digit s = true ->
  toBigInt s = match Num.parse_number 10 s with
               | Some v => Ok v
               | None =>
                   Throw ("SyntaxError: Cannot convert " ++ s
                          ++ " to a BigInt")
               end.
Proof.
  intros Hne Hall. unfold toBigInt.
  rewrite (eqb_digits s "false"), (eqb_digits s "true") by easy.
  unfold Num.BigInt.
  destruct s as [|c s'] eqn:Hs; [contradiction|]. rewrite <- Hs in *.
  rewrite !strip_prefix_digits by easy. reflexivity.
Qed.

Lemma is_digit_digit_char (d : Z) :
  0 <= d < 10 -> Str.is_digit (Num.digit_char d) = true.
Proof.
  intros H.
  assert (Hc : d = 0 \/ d = 1 \/ d = 2 \/ d = 3 \/ d = 4 \/ d = 5 \/
               d = 6 \/ d = 7 \/ d = 8 \/ d = 9) by lia.
  repeat (destruct Hc as [-> | Hc]); try subst d; reflexivity.
Qed.

Lemma all_digits_chars (ds : list Z) :
  Forall (fun d => 0 <= d < 10) ds ->
  Str.all Str.is_digit (Num.string_of_chars (map Num.digit_char ds)) = true.
Proof.
  induction 1 as [|d ds Hd _ IH]; cbn; [reflexivity|].
  now rewrite is_digit_digit_char, IH.
Qed.

Lemma unsigned_text_digits (n : Z) :
  Str.all Str.is_digit (Num.unsigned_text 10 n) = true.
Proof.
  unfold Num.unsigned_text. apply all_digits_chars.
  apply Forall_rev. apply NumFacts.digits_le_range. lia.
Qed.

Lemma toBigInt_decimal_text (n : Z) :
  0 <= n -> toBigInt (Num.toString 10 n) = Ok n.
Proof.
  intros Hn. rewrite NumFacts.toString_nonneg by assumption.
  rewrite toBigInt_digits.
  - now rewrite NumFacts.parse_unsigned_text by lia.
  - apply NumFacts.unsigned_text_nonempty.
  - apply unsigned_text_digits.
Qed.

Lemma toBigInt_0x (h : string) :
  toBigInt ("0x" ++ h)
  = match Num.parse_number 16 h with
    | Some v => Ok v
    | None =>
        Throw ("SyntaxError: Cannot convert " ++ "0x" ++ h ++ " to a BigInt")
    end.
Proof. reflexivity. Qed.

(** The literal built from a BigInt reads back as its value modulo
    2^256. *)
Lemma Literal_big_value (v : Z) :
  exists sub text,
    Literal (VBigInt v) = NLiteral sub None text /\
    isLiteral (NLiteral sub None text) = true /\
    toBigInt text = Ok (v mod two256).
Proof.
  unfold Literal, SubLiteral. rewrite ParserFacts.land_U256.
  assert (Hm : 0 <= v mod two256) by (apply Z.mod_pos_bound; reflexivity).
  destruct (v mod two256 <? 1024).
  - do 2 eexists. repeat split. now apply toBigInt_decimal_text.
  - destruct (Z.odd _); do 2 eexists; (split; [reflexivity|]); split;
      try reflexivity.
    + rewrite toBigInt_0x.
      rewrite NumFacts.toString_nonneg by assumption.
      pose proof (NumFacts.parse_unsigned_text 16 (v mod two256)
                    ltac:(lia) Hm) as Hp.
      pose proof (NumFacts.unsigned_text_nonempty 16 (v mod two256)) as Hne.
      unfold Num.parse_number in *.
      destruct (Num.unsigned_text 16 (v mod two256)) as [|c t];
        [contradiction|].
      cbn [append Num.parse_digits].
      change (Num.digit_in 16 "0") with (Some 0). cbv beta iota.
      change (0 * 16 + 0) with 0.
      cbn [Num.parse_digits] in Hp. now rewrite Hp.
    + now apply ParserFacts.toBigInt_0x_text.
Qed.

End LiteralFacts.
(** *** Words *)

Module WordFacts.

Lemma two256_double : two256 = 2 * 2 ^ 255.
Proof. reflexivity. Qed.

Lemma u256_small (x : Z) : 0 <= x < two256 -> EVM.u256 x = x.
Proof. apply Z.mod_small. Qed.

Lemma u256_range (x : Z) : 0 <= EVM.u256 x < two256.
Proof. apply Z.mod_pos_bound. reflexivity. Qed.

Lemma u256_idem (x : Z) : EVM.u256 (EVM.u256 x) = EVM.u256 x.
Proof. apply u256_small, u256_range. Qed.

Lemma testbit_255 (x : Z) :
  0 <= x < two256 -> Z.testbit x 255 = negb (x <? 2 ^ 255).
Proof.
  rewrite two256_double. intros H.
  assert (Hp : 0 < 2 ^ 255) by reflexivity.
  destruct (Z.ltb_spec x (2 ^ 255)) as [Hlt | Hge]; cbn [negb].
  - apply Z.testbit_false; [lia|]. rewrite Z.div_small by lia. reflexivity.
  - apply Z.testbit_true; [lia|].
    replace (x / 2 ^ 255) with 1; [reflexivity|].
    apply Z.div_unique with (r := x - 2 ^ 255); lia.
Qed.

Lemma land_sign (x : Z) :
  0 <= x < two256 -> (Z.land x I256_SIGN =? 0) = (x <? 2 ^ 255).
Proof.
  intros H. pose proof (testbit_255 x H) as Hb.
  change I256_SIGN with (2 ^ 255).
  destruct (x <? 2 ^ 255); cbn [negb] in Hb.
  - apply Z.eqb_eq, Z.bits_inj'. intros n Hn.
    rewrite Z.land_spec, Z.bits_0, Z.pow2_bits_eqb by lia.
    destruct (Z.eqb_spec 255 n) as [<- | _]; [now rewrite Hb|].
    apply andb_false_r.
  - apply Z.eqb_neq. intros E.
    assert (Ht : Z.testbit (Z.land x (2 ^ 255)) 255 = true).
    { rewrite Z.land_spec, Hb, Z.pow2_bits_eqb by lia. reflexivity. }
    rewrite E, Z.bits_0 in Ht. discriminate.
Qed.

(** The signed reading of the folder is the two's-complement reading. *)
Lemma to_signed_signed (x : Z) :
  0 <= x < two256 -> BigOps.to_signed x = EVM.signed x.
Proof.
  intros H. unfold BigOps.to_signed, EVM.signed.
  rewrite land_sign by assumption.
  destruct (Z.ltb_spec x (2 ^ 255)) as [Hlt | Hge]; [reflexivity|].
  rewrite ParserFacts.land_U256.
  assert (Hp : 0 < 2 ^ 255) by reflexivity.
  rewrite two256_double in *.
  assert (E : (- x) mod (2 * 2 ^ 255) = 2 * 2 ^ 255 - x).
  { symmetry. apply Z.mod_unique with (q := -1); lia. }
  rewrite E. lia.
Qed.

Lemma signed_zero (x : Z) :
  0 <= x < two256 -> (EVM.signed x =? 0) = (x =? 0).
Proof.
  intros H. unfold EVM.signed. rewrite two256_double in *.
  assert (Hp : 0 < 2 ^ 255) by reflexivity.
  destruct (Z.ltb_spec x (2 ^ 255)); [reflexivity|].
  destruct (Z.eqb_spec (x - 2 * 2 ^ 255) 0), (Z.eqb_spec x 0); lia.
Qed.

Lemma lxor_max (x : Z) :
  0 <= x < two256 -> Z.lxor x U256_MAX = two256 - 1 - x.
Proof.
  intros H. change U256_MAX with (Z.ones 256).
  assert (Hl : Z.ldiff x (Z.ones 256) = 0).
  { destruct (Z.eq_dec x 0) as [-> | Hx]; [reflexivity|].
    apply Z.ldiff_ones_r_low; [lia|].
    apply Z.log2_lt_pow2; [lia | exact (proj2 H)]. }
  replace (two256 - 1 - x) with (Z.ones 256 - x)
    by (rewrite Z.ones_equiv; unfold two256; lia).
  rewrite (Z.sub_nocarry_ldiff (Z.ones 256) x Hl).
  apply Z.bits_inj'. intros n Hn.
  rewrite Z.lxor_spec, Z.ldiff_spec.
  assert (Hx : Z.testbit (Z.ldiff x (Z.ones 256)) n = false)
    by (rewrite Hl; apply Z.bits_0).
  rewrite Z.ldiff_spec in Hx.
  destruct (Z.testbit x n), (Z.testbit (Z.ones 256) n);
    try reflexivity; discriminate.
Qed.

Lemma shiftl_high (x s : Z) : 256 <= s -> (x * 2 ^ s) mod two256 = 0.
Proof.
  intros H. replace s with ((s - 256) + 256) by lia.
  rewrite Z.pow_add_r by lia. fold two256.
  rewrite Z.mul_assoc. apply Z.mod_mul. discriminate.
Qed.

Lemma shiftr_high (x s : Z) :
  0 <= x < two256 -> 256 <= s -> x / 2 ^ s = 0.
Proof.
  intros H Hs. apply Z.div_small. split; [lia|].
  apply Z.lt_le_trans with (m := two256); [lia|].
  unfold two256. apply Z.pow_le_mono_r; lia.
Qed.

Lemma signed_range (x : Z) :
  0 <= x < two256 -> - 2 ^ 255 <= EVM.signed x < 2 ^ 255.
Proof.
  intros H. unfold EVM.signed. rewrite two256_double in *.
  destruct (Z.ltb_spec x (2 ^ 255)); lia.
Qed.

Lemma sar_high (v s : Z) :
  - 2 ^ 255 <= v < 2 ^ 255 -> 256 <= s ->
  EVM.u256 (v / 2 ^ s) = if v <? 0 then two256 - 1 else 0.
Proof.
  intros H Hs.
  assert (Hle : 2 ^ 255 < 2 ^ s) by (apply Z.pow_lt_mono_r; lia).
  destruct (Z.ltb_spec v 0).
  - replace (v / 2 ^ s) with (-1); [reflexivity|].
    apply Z.div_unique with (r := v + 2 ^ s); lia.
  - rewrite Z.div_small by lia. reflexivity.
Qed.

End WordFacts.
Module BitFacts.

Lemma land_pow2 (x t : Z) :
  0 <= t -> Z.land x (2 ^ t) = if Z.testbit x t then 2 ^ t else 0.
Proof.
  intros Ht. apply Z.bits_inj'. intros n Hn.
  rewrite Z.land_spec, Z.pow2_bits_eqb by assumption.
  destruct (Z.eqb_spec t n) as [<- | Hne].
  - destruct (Z.testbit x t); cbn.
    + now rewrite Z.pow2_bits_true.
    + now rewrite Z.bits_0.
  - rewrite andb_false_r.
    destruct (Z.testbit x t); [| now rewrite Z.bits_0].
    rewrite Z.pow2_bits_false; [reflexivity | lia].
Qed.

Lemma testbit_high (x n : Z) :
  0 <= x < two256 -> 256 <= n -> Z.testbit x n = false.
Proof.
  intros H Hn. apply Z.testbit_false; [lia|].
  rewrite Z.div_small; [reflexivity|]. split; [lia|].
  apply Z.lt_le_trans with (m := two256); [lia|].
  unfold two256. apply Z.pow_le_mono_r; lia.
Qed.

Lemma upper_bits (t n : Z) :
  0 <= t <= 256 -> 0 <= n ->
  Z.testbit (upper t) n = (t <=? n) && (n <? 256).
Proof.
  intros Ht Hn. unfold upper. change U256_MAX with (Z.ones 256).
  rewrite Z.lxor_spec, !Z.testbit_ones_nonneg by lia.
  destruct (Z.ltb_spec n t), (Z.leb_spec t n), (Z.ltb_spec n 256);
    try reflexivity; lia.
Qed.

Lemma upper_value (t : Z) : 0 <= t <= 256 -> upper t = two256 - 2 ^ t.
Proof.
  intros Ht. unfold upper. rewrite WordFacts.lxor_max.
  - rewrite Z.ones_equiv. lia.
  - rewrite Z.ones_equiv. unfold two256.
    assert (0 < 2 ^ t) by (apply Z.pow_pos_nonneg; lia).
    assert (2 ^ t <= 2 ^ 256) by (apply Z.pow_le_mono_r; lia).
    lia.
Qed.

Lemma lor_upper (x t : Z) :
  0 <= x < two256 -> 0 <= t <= 256 ->
  Z.lor x (upper t) = x mod 2 ^ t + (two256 - 2 ^ t).
Proof.
  intros Hx Ht. rewrite <- (upper_value t Ht).
  rewrite <- (Z.add_lor_land (x mod 2 ^ t) (upper t)).
  assert (Hl : Z.land (x mod 2 ^ t) (upper t) = 0).
  { apply Z.bits_inj'. intros n Hn.
    rewrite Z.land_spec, Z.bits_0, upper_bits by lia.
    destruct (Z.leb_spec t n).
    - rewrite Z.mod_pow2_bits_high by lia. reflexivity.
    - rewrite andb_false_l. apply andb_false_r. }
  rewrite Hl, Z.add_0_r.
  apply Z.bits_inj'. intros n Hn.
  rewrite !Z.lor_spec, upper_bits by lia.
  destruct (Z.leb_spec t n).
  - rewrite Z.mod_pow2_bits_high by lia.
    destruct (Z.ltb_spec n 256); cbn.
    + apply orb_true_r.
    + rewrite (testbit_high x n) by lia. reflexivity.
  - now rewrite Z.mod_pow2_bits_low by lia.
Qed.

Lemma mod_pow2_succ (x t : Z) :
  0 <= t ->
  x mod 2 ^ (t + 1) = x mod 2 ^ t + 2 ^ t * Z.b2z (Z.testbit x t).
Proof.
  intros Ht. rewrite Z.pow_add_r by lia. change (2 ^ 1) with 2.
  assert (0 < 2 ^ t) by (apply Z.pow_pos_nonneg; lia).
  rewrite Z.rem_mul_r by lia. now rewrite Z.testbit_spec'.
Qed.

(** What the folder computes for [signextend] is the sign extension of the
    EVM. *)
Lemma signextend_word (b x : Z) :
  0 <= b <= 31 -> 0 <= x < two256 ->
  let bit := b * 8 + 7 in
  let mask := Z.shiftl 1 bit - 1 in
  (if negb (Z.land x (Z.shiftl 1 bit) =? 0)
   then Z.lor x (Z.lxor mask U256_MAX)
   else Z.land x mask) = EVM.signextend b x.
Proof.
  intros Hb Hx bit mask.
  assert (Hbit : 0 <= bit <= 255) by (unfold bit; lia).
  assert (Hp : 0 < 2 ^ bit) by (apply Z.pow_pos_nonneg; lia).
  assert (Hmask : mask = Z.ones bit).
  { unfold mask. rewrite Z.shiftl_1_l, Z.ones_equiv. lia. }
  rewrite Hmask, Z.shiftl_1_l, land_pow2 by lia. fold (upper bit).
  rewrite Z.land_ones, lor_upper by lia.
  pose proof (Z.mod_pos_bound x (2 ^ bit) Hp) as Hlo.
  pose proof (mod_pow2_succ x bit ltac:(lia)) as Hsucc.
  unfold EVM.signextend.
  replace (8 * b + 7) with bit by (unfold bit; lia).
  destruct (Z.ltb_spec b 31) as [Hlt | Hge].
  - assert (Hle : 2 ^ (bit + 1) <= two256).
    { unfold two256. apply Z.pow_le_mono_r; unfold bit; lia. }
    assert (H2 : 2 ^ (bit + 1) = 2 * 2 ^ bit).
    { rewrite Z.pow_add_r by lia. change (2 ^ 1) with 2. lia. }
    cbv zeta. rewrite Hsucc.
    destruct (Z.testbit x bit); cbn [Z.b2z].
    + replace (2 ^ bit =? 0) with false by (symmetry; apply Z.eqb_neq; lia).
      cbn [negb].
      destruct (Z.ltb_spec (x mod 2 ^ bit + 2 ^ bit * 1) (2 ^ bit)); [lia|].
      unfold EVM.u256.
      apply Z.mod_unique with (q := -1); lia.
    + cbn. destruct (Z.ltb_spec (x mod 2 ^ bit + 2 ^ bit * 0) (2 ^ bit)); lia.
  - assert (Eb : bit = 255) by (unfold bit; lia).
    rewrite Eb in *. change (255 + 1) with 256 in Hsucc.
    fold two256 in Hsucc. rewrite (Z.mod_small x two256) in Hsucc by lia.
    rewrite WordFacts.two256_double in *.
    destruct (Z.testbit x 255); cbn [Z.b2z] in *.
    + replace (2 ^ 255 =? 0) with false by reflexivity. cbn [negb].
      clear - Hsucc. remember (x mod 2 ^ 255) as lo. remember (2 ^ 255) as P.
      lia.
    + cbn [Z.eqb negb]. clear - Hsucc Hlo.
      remember (x mod 2 ^ 255) as lo. remember (2 ^ 255) as P. lia.
Qed.

Lemma byte_word (pos n : Z) :
  0 <= pos <= 31 ->
  Z.land (Z.shiftr n (Z.shiftl (31 - pos) 3)) 255
  = (n / 2 ^ (8 * (31 - pos))) mod 256.
Proof.
  intros Hp. rewrite Z.shiftl_mul_pow2 by lia. change (2 ^ 3) with 8.
  rewrite Z.shiftr_div_pow2 by lia.
  change 255 with (Z.ones 8). rewrite Z.land_ones by lia.
  change (2 ^ 8) with 256. now rewrite (Z.mul_comm (31 - pos) 8).
Qed.

End BitFacts.
(** *** Folding and evaluation *)

Module EvalFacts.

Lemma strip_prefix_app (p s r : string) :
  Str.strip_prefix p s = Some r -> s = (p ++ r)%string.
Proof.
  revert s. induction p as [|a p IH]; intros s H; cbn in *.
  - congruence.
  - destruct s as [|b s]; [discriminate|].
    destruct (Ascii.eqb_spec a b) as [-> | _]; [| discriminate].
    now rewrite (IH s H).
Qed.

Lemma all_zero_digits (s : string) :
  Str.all Str.is_zero_char s = true -> Str.all Str.is_digit s = true.
Proof.
  induction s as [|c s IH]; cbn; [reflexivity|].
  intros H. apply andb_prop in H as [Hc Hs].
  apply LiteralFacts.is_zero_char_eq in Hc. subst c. now rewrite IH.
Qed.

Lemma all_app (p : ascii -> bool) (s t : string) :
  Str.all p (s ++ t) = Str.all p s && Str.all p t.
Proof.
  induction s as [|c s IH]; cbn; [reflexivity|].
  now rewrite IH, andb_assoc.
Qed.

Lemma re_zeros_one_digits (s : string) :
  re_zeros_one s = true -> s <> EmptyString /\ Str.all Str.is_digit s = true.
Proof.
  unfold re_zeros_one. intros H. apply String.eqb_eq in H.
  destruct (LiteralFacts.span_zeros s) as (z & Hs & Hz). rewrite H in Hs.
  split.
  - rewrite Hs. destruct z; discriminate.
  - rewrite Hs, all_app, (all_zero_digits z Hz). reflexivity.
Qed.

Lemma toBigInt_bool (v : string) (b : bool) :
  String.eqb v (if b then "true" else "false") = true ->
  toBigInt v = Ok (b2z b).
Proof.
  intros H. apply String.eqb_eq in H. subst v. now destruct b.
Qed.

Lemma isZero_literal (n : node) :
  isZero n = true -> isLiteral n = true /\ toBigInt (value_of n) = Ok 0.
Proof.
  destruct n as [| | |sub kind v| | | | | | | | | | | |]; try discriminate.
  destruct sub; try discriminate; cbn [isZero isLiteral value_of];
    intros H; (split; [reflexivity|]).
  - destruct (Str.strip_prefix "0x" v) as [r|] eqn:Hp; [| discriminate].
    apply strip_prefix_app in Hp. subst v.
    rewrite LiteralFacts.toBigInt_0x.
    now rewrite (LiteralFacts.re_zeros_parse 16 r) by (lia || assumption).
  - assert (Hne : v <> EmptyString) by (destruct v; [discriminate | easy]).
    assert (Hall : Str.all Str.is_zero_char v = true)
      by (destruct v; [discriminate | exact H]).
    rewrite LiteralFacts.toBigInt_digits
      by (assumption || now apply all_zero_digits).
    now rewrite (LiteralFacts.re_zeros_parse 10 v) by (lia || assumption).
  - exact (toBigInt_bool v false H).
Qed.

Lemma isOne_literal (n : node) :
  isOne n = true -> isLiteral n = true /\ toBigInt (value_of n) = Ok 1.
Proof.
  destruct n as [| | |sub kind v| | | | | | | | | | | |]; try discriminate.
  destruct sub; try discriminate; cbn [isOne isLiteral value_of];
    intros H; (split; [reflexivity|]).
  - destruct (Str.strip_prefix "0x" v) as [r|] eqn:Hp; [| discriminate].
    apply strip_prefix_app in Hp. subst v.
    rewrite LiteralFacts.toBigInt_0x.
    now rewrite (LiteralFacts.re_zeros_one_parse 16 r) by (lia || assumption).
  - destruct (re_zeros_one_digits v H) as [Hne Hall].
    rewrite LiteralFacts.toBigInt_digits by assumption.
    now rewrite (LiteralFacts.re_zeros_one_parse 10 v) by (lia || assumption).
  - exact (toBigInt_bool v true H).
Qed.

Section Eval.

Variable rho : EVM.valuation.

Lemma eval_range (n : node) : 0 <= EVM.eval rho n < two256.
Proof.
  assert (H0 : 0 <= 0 < two256) by (split; reflexivity).
  destruct n; cbn [EVM.eval]; try exact H0.
  - apply WordFacts.u256_range.
  - destruct (isLiteral _); [| apply WordFacts.u256_range].
    destruct (toBigInt value); [apply WordFacts.u256_range | exact H0].
  - destruct (EVM.opcode _ _); apply WordFacts.u256_range.
Qed.

Lemma eval_toBigInt (n : node) (x : Z) :
  isLiteral n = true -> toBigInt (value_of n) = Ok x ->
  EVM.eval rho n = EVM.u256 x.
Proof.
  destruct n; try discriminate. cbn [EVM.eval value_of].
  intros -> ->. reflexivity.
Qed.

(** A literal that denotes a word evaluates to it. *)
Lemma eval_literal (n : node) :
  isLiteral n = true -> EVM.wf n = true ->
  toBigInt (value_of n) = Ok (EVM.eval rho n).
Proof.
  destruct n; try discriminate. cbn [EVM.eval EVM.wf value_of].
  intros ->. destruct (toBigInt value) as [x|]; [| discriminate].
  intros H. apply andb_prop in H as [H1 H2].
  apply Z.leb_le in H1. apply Z.ltb_lt in H2.
  now rewrite WordFacts.u256_small by lia.
Qed.

Lemma isZero_eval (n : node) : isZero n = true -> EVM.eval rho n = 0.
Proof.
  intros H. destruct (isZero_literal n H) as [Hl Hv].
  now rewrite (eval_toBigInt n 0 Hl Hv).
Qed.

Lemma isOne_eval (n : node) : isOne n = true -> EVM.eval rho n = 1.
Proof.
  intros H. destruct (isOne_literal n H) as [Hl Hv].
  now rewrite (eval_toBigInt n 1 Hl Hv).
Qed.

Lemma eval_big (v : Z) : EVM.eval rho (Literal (VBigInt v)) = EVM.u256 v.
Proof.
  destruct (LiteralFacts.Literal_big_value v) as (sub & text & E & Hl & Hv).
  rewrite E. rewrite (eval_toBigInt _ _ Hl Hv). apply WordFacts.u256_idem.
Qed.

Lemma eval_bit (b : bool) : EVM.eval rho (Literal (VNumber (b2z b))) = b2z b.
Proof. now destruct b. Qed.

Lemma eval_zero : EVM.eval rho (Literal (VNumber 0)) = 0.
Proof. reflexivity. Qed.

Lemma eval_one : EVM.eval rho (Literal (VNumber 1)) = 1.
Proof. reflexivity. Qed.

End Eval.

End EvalFacts.

Module FoldFacts.

Import EvalFacts.

Lemma ok_some_inj (a b : node) : Ok (Some a) = Ok (Some b) -> a = b.
Proof. congruence. Qed.

Lemma wf1 (a0 : node) : forallb EVM.wf [a0] = true -> EVM.wf a0 = true.
Proof. cbn. now rewrite andb_true_r. Qed.

Lemma wf2 (a0 a1 : node) :
  forallb EVM.wf [a0; a1] = true -> EVM.wf a0 = true /\ EVM.wf a1 = true.
Proof. cbn. rewrite andb_true_r. apply andb_prop. Qed.

Lemma wf3 (a0 a1 a2 : node) :
  forallb EVM.wf [a0; a1; a2] = true ->
  EVM.wf a0 = true /\ EVM.wf a1 = true /\ EVM.wf a2 = true.
Proof.
  cbn. rewrite andb_true_r. intros H.
  apply andb_prop in H as [H0 H]. apply andb_prop in H as [H1 H2]. auto.
Qed.

Lemma two256_pos : 0 < two256.
Proof. reflexivity. Qed.

(** The replacement is the node returned. *)
Ltac returned H :=
  unfold Fold.ret, Fold.num, Fold.big, Fold.null in H;
  first [ discriminate H
        | apply ok_some_inj in H;
          match type of H with _ = ?x => subst x end ].

Ltac evals :=
  rewrite ?eval_zero, ?eval_one, ?eval_big, ?eval_bit.

Ltac small :=
  rewrite ?WordFacts.u256_idem; try reflexivity;
  rewrite ?WordFacts.u256_small by lia; try reflexivity.

Section Sound.

Variable rho : EVM.valuation.

Lemma literals2_inv (a0 a1 : node) (k : Z -> Z -> result (option node))
    (r : node) :
  EVM.wf a0 = true -> EVM.wf a1 = true ->
  Fold.literals2 [a0; a1] a0 a1 k = Ok (Some r) ->
  k (EVM.eval rho a0) (EVM.eval rho a1) = Ok (Some r).
Proof.
  intros W0 W1. unfold Fold.literals2, isLiterals. cbn [forallb].
  destruct (isLiteral a0) eqn:L0; [| discriminate].
  destruct (isLiteral a1) eqn:L1; [| discriminate].
  cbn [andb negb].
  rewrite (eval_literal rho a0 L0 W0), (eval_literal rho a1 L1 W1).
  cbn [bind]. easy.
Qed.

Lemma literals3_inv (a0 a1 a2 : node)
    (k : Z -> Z -> Z -> result (option node)) (r : node) :
  EVM.wf a0 = true -> EVM.wf a1 = true -> EVM.wf a2 = true ->
  Fold.literals3 [a0; a1; a2] a0 a1 a2 k = Ok (Some r) ->
  k (EVM.eval rho a0) (EVM.eval rho a1) (EVM.eval rho a2) = Ok (Some r).
Proof.
  intros W0 W1 W2. unfold Fold.literals3, isLiterals. cbn [forallb].
  destruct (isLiteral a0) eqn:L0; [| discriminate].
  destruct (isLiteral a1) eqn:L1; [| discriminate].
  destruct (isLiteral a2) eqn:L2; [| discriminate].
  cbn [andb negb].
  rewrite (eval_literal rho a0 L0 W0), (eval_literal rho a1 L1 W1),
    (eval_literal rho a2 L2 W2).
  cbn [bind]. easy.
Qed.

Lemma literal1_inv (a0 : node) (k : Z -> result (option node)) (r : node) :
  EVM.wf a0 = true ->
  (if negb (isLiterals [a0]) then Fold.null
   else x <- toBigInt (value_of a0) ;; k x) = Ok (Some r) ->
  k (EVM.eval rho a0) = Ok (Some r).
Proof.
  intros W0. unfold isLiterals. cbn [forallb].
  destruct (isLiteral a0) eqn:L0; [| discriminate].
  cbn [andb negb]. rewrite (eval_literal rho a0 L0 W0). cbn [bind]. easy.
Qed.

Ltac open2 args a0 a1 W H W0 W1 R0 R1 :=
  intros W H; destruct args as [|a0 [|a1 [|? ?]]]; try discriminate H;
  apply wf2 in W as [W0 W1];
  pose proof (eval_range rho a0) as R0;
  pose proof (eval_range rho a1) as R1;
  pose proof two256_pos.

Ltac call2 f :=
  match goal with
  | |- context [EVM.eval ?r (NFunctionCall ?n [?a; ?b])] =>
      change (EVM.eval r (NFunctionCall n [a; b]))
        with (EVM.u256 (f (EVM.eval r a) (EVM.eval r b)))
  end.

Ltac zero Z0 := rewrite (isZero_eval rho _ Z0) in *.
Ltac one Z0 := rewrite (isOne_eval rho _ Z0) in *.

Lemma add_sound (args : list node) (r : node) :
  forallb EVM.wf args = true -> Fold.add args = Ok (Some r) ->
  EVM.eval rho r = EVM.eval rho (NFunctionCall "add" args).
Proof.
  open2 args a0 a1 W H W0 W1 R0 R1. call2 EVM.add. unfold Fold.add in H.
  unfold EVM.add.
  destruct (isZero a0) eqn:Z0;
    [returned H; zero Z0; rewrite Z.add_0_l; small|].
  destruct (isZero a1) eqn:Z1;
    [returned H; zero Z1; rewrite Z.add_0_r; small|].
  apply (literals2_inv _ _ _ _ W0 W1) in H. returned H. evals. now small.
Qed.

Lemma sub_sound (args : list node) (r : node) :
  forallb EVM.wf args = true -> Fold.sub args = Ok (Some r) ->
  EVM.eval rho r = EVM.eval rho (NFunctionCall "sub" args).
Proof.
  open2 args a0 a1 W H W0 W1 R0 R1. call2 EVM.sub. unfold Fold.sub in H.
  unfold EVM.sub.
  destruct (isZero a1) eqn:Z1;
    [returned H; zero Z1; rewrite Z.sub_0_r; small|].
  apply (literals2_inv _ _ _ _ W0 W1) in H. returned H. evals. now small.
Qed.

Lemma mul_sound (args : list node) (r : node) :
  forallb EVM.wf args = true -> Fold.mul args = Ok (Some r) ->
  EVM.eval rho r = EVM.eval rho (NFunctionCall "mul" args).
Proof.
  open2 args a0 a1 W H W0 W1 R0 R1. call2 EVM.mul. unfold Fold.mul in H.
  unfold EVM.mul.
  destruct (isZero a0) eqn:Z0;
    [returned H; zero Z0; evals; now rewrite Z.mul_0_l|].
  destruct (isZero a1) eqn:Z1;
    [returned H; zero Z1; evals; now rewrite Z.mul_0_r|].
  cbn [orb] in H.
  destruct (isOne a0) eqn:O0;
    [returned H; one O0; rewrite Z.mul_1_l; small|].
  destruct (isOne a1) eqn:O1;
    [returned H; one O1; rewrite Z.mul_1_r; small|].
  apply (literals2_inv _ _ _ _ W0 W1) in H. returned H. evals. now small.
Qed.

Lemma div_sound (args : list node) (r : node) :
  forallb EVM.wf args = true -> Fold.div false args = Ok (Some r) ->
  EVM.eval rho r = EVM.eval rho (NFunctionCall "div" args).
Proof.
  open2 args a0 a1 W H W0 W1 R0 R1. call2 EVM.div. unfold Fold.div in H.
  unfold EVM.div.
  destruct (isZero a0) eqn:Z0;
    [returned H; zero Z0; evals; rewrite Zdiv_0_l;
     now destruct (_ =? 0)|].
  destruct (isZero a1) eqn:Z1; [returned H; zero Z1; now evals|].
  cbn [orb negb andb] in H.
  destruct (isOne a1) eqn:O1;
    [returned H; one O1; cbn [Z.eqb]; rewrite Z.div_1_r; now small|].
  apply (literals2_inv _ _ _ _ W0 W1) in H. unfold BigOps.div in H.
  destruct (Z.eqb_spec (EVM.eval rho a1) 0) as [E | E]; [discriminate H|].
  cbn [bind] in H. returned H. evals.
  now rewrite Z.quot_div_nonneg by lia.
Qed.

Lemma sdiv_sound (args : list node) (r : node) :
  forallb EVM.wf args = true -> Fold.div true args = Ok (Some r) ->
  EVM.eval rho r = EVM.eval rho (NFunctionCall "sdiv" args).
Proof.
  open2 args a0 a1 W H W0 W1 R0 R1. call2 EVM.sdiv. unfold Fold.div in H.
  unfold EVM.sdiv.
  destruct (isZero a0) eqn:Z0;
    [returned H; zero Z0; evals; now destruct (_ =? 0)|].
  destruct (isZero a1) eqn:Z1; [returned H; zero Z1; now evals|].
  cbn [orb negb andb] in H.
  apply (literals2_inv _ _ _ _ W0 W1) in H. unfold BigOps.div in H.
  rewrite !WordFacts.to_signed_signed in H by assumption.
  rewrite WordFacts.signed_zero in H by assumption.
  destruct (Z.eqb_spec (EVM.eval rho a1) 0) as [E | E]; [discriminate H|].
  cbn [bind] in H. returned H. evals. small.
  rewrite Z.quot_div; [reflexivity|].
  intros Hs. apply E. apply Z.eqb_eq.
  rewrite <- WordFacts.signed_zero by assumption. now apply Z.eqb_eq.
Qed.

Lemma mod_sound (args : list node) (r : node) :
  forallb EVM.wf args = true -> Fold.mod_ false args = Ok (Some r) ->
  EVM.eval rho r = EVM.eval rho (NFunctionCall "mod" args).
Proof.
  open2 args a0 a1 W H W0 W1 R0 R1. call2 EVM.mod_. unfold Fold.mod_ in H.
  unfold EVM.mod_.
  destruct (isZero a0) eqn:Z0;
    [returned H; zero Z0; evals; rewrite Zmod_0_l;
     now destruct (_ =? 0)|].
  destruct (isZero a1) eqn:Z1; [returned H; zero Z1; now evals|].
  cbn [orb negb andb] in H.
  destruct (isOne a1) eqn:O1;
    [returned H; one O1; evals; cbn [Z.eqb]; now rewrite Z.mod_1_r|].
  apply (literals2_inv _ _ _ _ W0 W1) in H. unfold BigOps.rem in H.
  destruct (Z.eqb_spec (EVM.eval rho a1) 0) as [E | E]; [discriminate H|].
  cbn [bind] in H. returned H. evals.
  now rewrite Z.rem_mod_nonneg by lia.
Qed.

Lemma smod_sound (args : list node) (r : node) :
  forallb EVM.wf args = true -> Fold.mod_ true args = Ok (Some r) ->
  EVM.eval rho r = EVM.eval rho (NFunctionCall "smod" args).
Proof.
  open2 args a0 a1 W H W0 W1 R0 R1. call2 EVM.smod. unfold Fold.mod_ in H.
  unfold EVM.smod.
  destruct (isZero a0) eqn:Z0;
    [returned H; zero Z0; evals; now destruct (_ =? 0)|].
  destruct (isZero a1) eqn:Z1; [returned H; zero Z1; now evals|].
  cbn [orb negb andb] in H.
  destruct (isOne a1) eqn:O1.
  { returned H. one O1. evals. cbn [Z.eqb].
    change (Z.abs (EVM.signed 1)) with 1. now rewrite Z.mod_1_r, Z.mul_0_r. }
  apply (literals2_inv _ _ _ _ W0 W1) in H. unfold BigOps.rem in H.
  rewrite !WordFacts.to_signed_signed in H by assumption.
  rewrite WordFacts.signed_zero in H by assumption.
  destruct (Z.eqb_spec (EVM.eval rho a1) 0) as [E | E]; [discriminate H|].
  cbn [bind] in H. returned H. evals. small.
  rewrite Z.rem_mod; [reflexivity|].
  intros Hs. apply E. apply Z.eqb_eq.
  rewrite <- WordFacts.signed_zero by assumption. now apply Z.eqb_eq.
Qed.

(** [exp] with a literal-zero base is sound where the exponent is not
    zero. *)
Lemma exp_sound (args : list node) (r : node) :
  forallb EVM.wf args = true -> Fold.exp args = Ok (Some r) ->
  (forall a0 a1, args = [a0; a1] -> isZero a0 = true -> isZero a1 = false ->
                 EVM.eval rho a1 <> 0) ->
  EVM.eval rho r = EVM.eval rho (NFunctionCall "exp" args).
Proof.
  open2 args a0 a1 W H W0 W1 R0 R1. intros Hexp.
  call2 EVM.exp. unfold Fold.exp in H. unfold EVM.exp.
  destruct (isZero a1) eqn:Z1;
    [returned H; zero Z1; evals; now rewrite Z.pow_0_r|].
  destruct (isOne a1) eqn:O1;
    [returned H; one O1; rewrite Z.pow_1_r; now small|].
  destruct (isZero a0) eqn:Z0.
  { returned H. specialize (Hexp a0 a1 eq_refl Z0 Z1).
    zero Z0. evals. rewrite Z.pow_0_l by lia. reflexivity. }
  apply (literals2_inv _ _ _ _ W0 W1) in H. unfold BigOps.pow in H.
  destruct (Z.ltb_spec (EVM.eval rho a1) 0) as [E | E]; [lia|].
  cbn [bind] in H. returned H. evals. now small.
Qed.
Ltac open3 args a0 a1 a2 W H W0 W1 W2 R0 R1 R2 :=
  intros W H; destruct args as [|a0 [|a1 [|a2 [|? ?]]]]; try discriminate H;
  apply wf3 in W as (W0 & W1 & W2);
  pose proof (eval_range rho a0) as R0;
  pose proof (eval_range rho a1) as R1;
  pose proof (eval_range rho a2) as R2;
  pose proof two256_pos.

Ltac call3 f :=
  match goal with
  | |- context [EVM.eval ?r (NFunctionCall ?n [?a; ?b; ?c])] =>
      change (EVM.eval r (NFunctionCall n [a; b; c]))
        with (EVM.u256 (f (EVM.eval r a) (EVM.eval r b) (EVM.eval r c)))
  end.

Ltac open1 args a0 W H W0 R0 :=
  intros W H; destruct args as [|a0 [|? ?]]; try discriminate H;
  apply wf1 in W as W0;
  pose proof (eval_range rho a0) as R0;
  pose proof two256_pos.

Ltac call1 f :=
  match goal with
  | |- context [EVM.eval ?r (NFunctionCall ?n [?a])] =>
      change (EVM.eval r (NFunctionCall n [a]))
        with (EVM.u256 (f (EVM.eval r a)))
  end.

Lemma addmod_sound (args : list node) (r : node) :
  forallb EVM.wf args = true -> Fold.addmod args = Ok (Some r) ->
  EVM.eval rho r = EVM.eval rho (NFunctionCall "addmod" args).
Proof.
  open3 args a0 a1 a2 W H W0 W1 W2 R0 R1 R2. call3 EVM.addmod.
  unfold Fold.addmod in H. unfold EVM.addmod.
  destruct (isZero a2) eqn:Z2; [returned H; zero Z2; now evals|].
  apply (literals3_inv _ _ _ _ _ W0 W1 W2) in H. unfold BigOps.rem in H.
  destruct (Z.eqb_spec (EVM.eval rho a2) 0) as [E | E]; [discriminate H|].
  cbn [bind] in H. returned H. evals.
  now rewrite Z.rem_mod_nonneg by lia.
Qed.

Lemma mulmod_sound (args : list node) (r : node) :
  forallb EVM.wf args = true -> Fold.mulmod args = Ok (Some r) ->
  EVM.eval rho r = EVM.eval rho (NFunctionCall "mulmod" args).
Proof.
  open3 args a0 a1 a2 W H W0 W1 W2 R0 R1 R2. call3 EVM.mulmod.
  unfold Fold.mulmod in H. unfold EVM.mulmod.
  destruct (isZero a0) eqn:Z0;
    [returned H; zero Z0; evals; rewrite Z.mul_0_l, Zmod_0_l;
     now destruct (_ =? 0)|].
  destruct (isZero a1) eqn:Z1;
    [returned H; zero Z1; evals; rewrite Z.mul_0_r, Zmod_0_l;
     now destruct (_ =? 0)|].
  destruct (isZero a2) eqn:Z2; [returned H; zero Z2; now evals|].
  cbn [orb] in H.
  apply (literals3_inv _ _ _ _ _ W0 W1 W2) in H. unfold BigOps.rem in H.
  destruct (Z.eqb_spec (EVM.eval rho a2) 0) as [E | E]; [discriminate H|].
  cbn [bind] in H. returned H. evals.
  now rewrite Z.rem_mod_nonneg by nia.
Qed.

Lemma not_sound (args : list node) (r : node) :
  forallb EVM.wf args = true -> Fold.not_ args = Ok (Some r) ->
  EVM.eval rho r = EVM.eval rho (NFunctionCall "not" args).
Proof.
  open1 args a0 W H W0 R0. call1 EVM.not_. unfold Fold.not_ in H.
  apply (literal1_inv _ _ _ W0) in H. returned H. evals.
  now rewrite WordFacts.lxor_max by assumption.
Qed.

Lemma and_sound (args : list node) (r : node) :
  forallb EVM.wf args = true -> Fold.and_ args = Ok (Some r) ->
  EVM.eval rho r = EVM.eval rho (NFunctionCall "and" args).
Proof.
  open2 args a0 a1 W H W0 W1 R0 R1. call2 EVM.and_. unfold Fold.and_ in H.
  unfold EVM.and_.
  destruct (isZero a0) eqn:Z0;
    [returned H; zero Z0; evals; now rewrite Z.land_0_l|].
  destruct (isZero a1) eqn:Z1;
    [returned H; zero Z1; evals; now rewrite Z.land_0_r|].
  apply (literals2_inv _ _ _ _ W0 W1) in H. returned H. now evals.
Qed.

Lemma or_sound (args : list node) (r : node) :
  forallb EVM.wf args = true -> Fold.or_ args = Ok (Some r) ->
  EVM.eval rho r = EVM.eval rho (NFunctionCall "or" args).
Proof.
  open2 args a0 a1 W H W0 W1 R0 R1. call2 EVM.or_. unfold Fold.or_ in H.
  unfold EVM.or_.
  destruct (isZero a0) eqn:Z0;
    [returned H; zero Z0; rewrite Z.lor_0_l; now small|].
  destruct (isZero a1) eqn:Z1;
    [returned H; zero Z1; rewrite Z.lor_0_r; now small|].
  apply (literals2_inv _ _ _ _ W0 W1) in H. returned H. now evals.
Qed.

Lemma xor_sound (args : list node) (r : node) :
  forallb EVM.wf args = true -> Fold.xor args = Ok (Some r) ->
  EVM.eval rho r = EVM.eval rho (NFunctionCall "xor" args).
Proof.
  open2 args a0 a1 W H W0 W1 R0 R1. call2 EVM.xor. unfold Fold.xor in H.
  unfold EVM.xor.
  destruct (isZero a0) eqn:Z0;
    [returned H; zero Z0; rewrite Z.lxor_0_l; now small|].
  destruct (isZero a1) eqn:Z1;
    [returned H; zero Z1; rewrite Z.lxor_0_r; now small|].
  apply (literals2_inv _ _ _ _ W0 W1) in H. returned H. now evals.
Qed.

Lemma shl_sound (args : list node) (r : node) :
  forallb EVM.wf args = true -> Fold.shl args = Ok (Some r) ->
  EVM.eval rho r = EVM.eval rho (NFunctionCall "shl" args).
Proof.
  open2 args a0 a1 W H W0 W1 R0 R1. call2 EVM.shl. unfold Fold.shl in H.
  unfold EVM.shl.
  destruct (isZero a0) eqn:Z0;
    [returned H; zero Z0; cbn [Z.ltb Z.compare]; rewrite Z.pow_0_r, Z.mul_1_r;
     now small|].
  apply (literals2_inv _ _ _ _ W0 W1) in H. returned H. evals.
  rewrite Z.shiftl_mul_pow2 by lia.
  destruct (Z.ltb_spec (EVM.eval rho a0) 256); [now small|].
  unfold EVM.u256. now rewrite WordFacts.shiftl_high by assumption.
Qed.

Lemma shr_sound (args : list node) (r : node) :
  forallb EVM.wf args = true -> Fold.shr false args = Ok (Some r) ->
  EVM.eval rho r = EVM.eval rho (NFunctionCall "shr" args).
Proof.
  open2 args a0 a1 W H W0 W1 R0 R1. call2 EVM.shr. unfold Fold.shr in H.
  unfold EVM.shr.
  destruct (isZero a0) eqn:Z0;
    [returned H; zero Z0; cbn [Z.ltb Z.compare]; rewrite Z.pow_0_r, Z.div_1_r;
     now small|].
  apply (literals2_inv _ _ _ _ W0 W1) in H. returned H. evals.
  rewrite Z.shiftr_div_pow2 by lia.
  destruct (Z.ltb_spec (EVM.eval rho a0) 256); [reflexivity|].
  now rewrite WordFacts.shiftr_high by assumption.
Qed.

Lemma sar_sound (args : list node) (r : node) :
  forallb EVM.wf args = true -> Fold.shr true args = Ok (Some r) ->
  EVM.eval rho r = EVM.eval rho (NFunctionCall "sar" args).
Proof.
  open2 args a0 a1 W H W0 W1 R0 R1. call2 EVM.sar. unfold Fold.shr in H.
  unfold EVM.sar.
  destruct (isZero a0) eqn:Z0.
  { returned H. zero Z0. cbn [Z.ltb Z.compare].
    rewrite Z.pow_0_r, Z.div_1_r. rewrite WordFacts.u256_idem.
    unfold EVM.signed, EVM.u256.
    destruct (Z.ltb_spec (EVM.eval rho a1) (2 ^ 255)).
    - now rewrite Z.mod_small by assumption.
    - apply Z.mod_unique with (q := -1); lia. }
  apply (literals2_inv _ _ _ _ W0 W1) in H. returned H. evals.
  rewrite WordFacts.to_signed_signed by assumption.
  rewrite Z.shiftr_div_pow2 by lia.
  destruct (Z.ltb_spec (EVM.eval rho a0) 256); [now small|].
  rewrite WordFacts.sar_high
    by (try apply WordFacts.signed_range; assumption).
  destruct (EVM.signed (EVM.eval rho a1) <? 0); reflexivity.
Qed.

Lemma signextend_sound (args : list node) (r : node) :
  forallb EVM.wf args = true -> Fold.signextend args = Ok (Some r) ->
  EVM.eval rho r = EVM.eval rho (NFunctionCall "signextend" args).
Proof.
  open2 args a0 a1 W H W0 W1 R0 R1. call2 EVM.signextend.
  unfold Fold.signextend in H.
  apply (literals2_inv _ _ _ _ W0 W1) in H. cbv beta zeta in H.
  destruct (Z.ltb_spec 31 (EVM.eval rho a0)) as [Hb | Hb].
  - returned H. evals. unfold EVM.signextend.
    destruct (Z.ltb_spec (EVM.eval rho a0) 31); [lia | reflexivity].
  - pose proof (BitFacts.signextend_word (EVM.eval rho a0) (EVM.eval rho a1)
                  ltac:(lia) R1) as Hw.
    cbv zeta in Hw. rewrite <- Hw.
    destruct (negb _); returned H; evals; now small.
Qed.

Lemma byte_sound (args : list node) (r : node) :
  forallb EVM.wf args = true -> Fold.byte args = Ok (Some r) ->
  EVM.eval rho r = EVM.eval rho (NFunctionCall "byte" args).
Proof.
  open2 args a0 a1 W H W0 W1 R0 R1. call2 EVM.byte.
  unfold Fold.byte in H. unfold EVM.byte.
  apply (literals2_inv _ _ _ _ W0 W1) in H. cbv beta zeta in H.
  destruct (Z.ltb_spec 31 (EVM.eval rho a0)) as [Hb | Hb].
  - returned H. evals.
    destruct (Z.ltb_spec (EVM.eval rho a0) 32); [lia | reflexivity].
  - cbv zeta in H. returned H. evals.
    rewrite BitFacts.byte_word by lia.
    destruct (Z.ltb_spec (EVM.eval rho a0) 32); [reflexivity | lia].
Qed.
Lemma isCall_inv (n : node) (name : string) :
  isCall n name 2 = true -> exists x y, n = NFunctionCall name [x; y].
Proof.
  destruct n as [| | | |f l| | | | | | | | | | |]; try discriminate.
  cbn [isCall]. intros H. apply andb_prop in H as [Hf Hl].
  apply String.eqb_eq in Hf. subst f.
  destruct l as [|x [|y [|? ?]]]; try discriminate. now exists x, y.
Qed.

Lemma b2z_range (b : bool) : 0 <= b2z b < two256.
Proof. destruct b; split; (discriminate || reflexivity). Qed.

Lemma iszero_literal_sound (a0 r : node) :
  EVM.wf a0 = true -> Fold.iszero_literal a0 = Ok (Some r) ->
  EVM.eval rho r = EVM.u256 (EVM.iszero (EVM.eval rho a0)).
Proof.
  intros W0 H. unfold Fold.iszero_literal in H.
  destruct (isLiteral a0) eqn:L0; [| discriminate H]. cbn [negb] in H.
  rewrite (eval_literal rho a0 L0 W0) in H. cbn [bind] in H.
  returned H. evals. unfold EVM.iszero.
  now rewrite WordFacts.u256_small by apply b2z_range.
Qed.

Lemma iszero_gt_sound (a0 r : node) :
  EVM.wf a0 = true -> Fold.iszero_gt a0 = Ok (Some r) ->
  EVM.eval rho r = EVM.u256 (EVM.iszero (EVM.eval rho a0)).
Proof.
  intros W0 H. unfold Fold.iszero_gt in H.
  destruct (isGtCall a0) eqn:C0; [| now apply iszero_literal_sound].
  destruct (isCall_inv a0 "gt" C0) as (x & y & ->). cbn [Fold.args2] in H.
  destruct (isLiteral y) eqn:Ly; [| now apply iszero_literal_sound].
  apply wf2 in W0 as [Wx Wy].
  rewrite (eval_literal rho y Ly Wy) in H. cbn [bind] in H.
  pose proof (eval_range rho x) as Rx. pose proof (eval_range rho y) as Ry.
  change (EVM.eval rho (NFunctionCall "gt" [x; y]))
    with (EVM.u256 (EVM.gt (EVM.eval rho x) (EVM.eval rho y))).
  unfold EVM.iszero, EVM.gt.
  rewrite (WordFacts.u256_small (b2z _)) by apply b2z_range.
  assert (HM : U256_MAX = two256 - 1) by reflexivity.
  destruct (Z.eqb_spec (EVM.eval rho y) U256_MAX) as [E | E].
  - returned H. evals.
    destruct (Z.ltb_spec (EVM.eval rho y) (EVM.eval rho x)); [lia|].
    reflexivity.
  - returned H.
    change (EVM.eval rho (Lt x (Literal (VBigInt (EVM.eval rho y + 1)))))
      with (EVM.u256 (EVM.lt (EVM.eval rho x)
              (EVM.eval rho (Literal (VBigInt (EVM.eval rho y + 1)))))).
    evals. rewrite (WordFacts.u256_small (_ + 1)) by lia.
    unfold EVM.lt. f_equal.
    destruct (Z.ltb_spec (EVM.eval rho x) (EVM.eval rho y + 1)),
      (Z.ltb_spec (EVM.eval rho y) (EVM.eval rho x)); try reflexivity; lia.
Qed.

Lemma iszero_sound (args : list node) (r : node) :
  forallb EVM.wf args = true -> Fold.iszero args = Ok (Some r) ->
  EVM.eval rho r = EVM.eval rho (NFunctionCall "iszero" args).
Proof.
  open1 args a0 W H W0 R0. call1 EVM.iszero. unfold Fold.iszero in H.
  destruct (isLtCall a0) eqn:C0; [| now apply iszero_gt_sound].
  destruct (isCall_inv a0 "lt" C0) as (x & y & ->). cbn [Fold.args2] in H.
  destruct (isLiteral y) eqn:Ly; [| now apply iszero_gt_sound].
  apply wf2 in W0 as [Wx Wy].
  rewrite (eval_literal rho y Ly Wy) in H. cbn [bind] in H.
  pose proof (eval_range rho x) as Rx. pose proof (eval_range rho y) as Ry.
  change (EVM.eval rho (NFunctionCall "lt" [x; y]))
    with (EVM.u256 (EVM.lt (EVM.eval rho x) (EVM.eval rho y))).
  unfold EVM.iszero, EVM.lt.
  rewrite (WordFacts.u256_small (b2z _)) by apply b2z_range.
  destruct (Z.eqb_spec (EVM.eval rho y) 0) as [E | E].
  - returned H. evals.
    destruct (Z.ltb_spec (EVM.eval rho x) (EVM.eval rho y)); [lia|].
    reflexivity.
  - returned H.
    change (EVM.eval rho (Gt x (Literal (VBigInt (EVM.eval rho y - 1)))))
      with (EVM.u256 (EVM.gt (EVM.eval rho x)
              (EVM.eval rho (Literal (VBigInt (EVM.eval rho y - 1)))))).
    evals. rewrite (WordFacts.u256_small (_ - 1)) by lia.
    unfold EVM.gt. f_equal.
    destruct (Z.ltb_spec (EVM.eval rho y - 1) (EVM.eval rho x)),
      (Z.ltb_spec (EVM.eval rho x) (EVM.eval rho y)); try reflexivity; lia.
Qed.

(** [eq] on two string literals compares their texts and is set aside:
    the value of a string literal is left to the valuation. *)
Lemma eq_sound (args : list node) (r : node) :
  forallb EVM.wf args = true -> Fold.eq args = Ok (Some r) ->
  (forall a0 a1, args = [a0; a1] ->
                 isStringLiteral a0 && isStringLiteral a1 = false) ->
  EVM.eval rho r = EVM.eval rho (NFunctionCall "eq" args).
Proof.
  open2 args a0 a1 W H W0 W1 R0 R1. intros Hs.
  call2 EVM.eq. unfold Fold.eq in H. unfold EVM.eq.
  rewrite (Hs a0 a1 eq_refl) in H.
  unfold isLiterals in H. cbn [forallb] in H. rewrite andb_true_r in H.
  destruct (isLiteral a0) eqn:L0; cbn [andb] in H.
  - destruct (isLiteral a1) eqn:L1.
    + rewrite (eval_literal rho a0 L0 W0), (eval_literal rho a1 L1 W1) in H.
      cbn [bind] in H. returned H. evals.
      now rewrite WordFacts.u256_small by apply b2z_range.
    + destruct (isZero a0) eqn:Z0.
      * returned H. zero Z0.
        change (EVM.eval rho (IsZero a1))
          with (EVM.u256 (EVM.iszero (EVM.eval rho a1))).
        unfold EVM.iszero. now rewrite Z.eqb_sym.
      * destruct (isZero a1) eqn:Z1; [| discriminate H].
        destruct (isZero_literal a1 Z1) as [L1' _]. congruence.
  - destruct (isZero a0) eqn:Z0.
    + destruct (isZero_literal a0 Z0) as [L0' _]. congruence.
    + destruct (isZero a1) eqn:Z1; [| discriminate H].
      returned H. zero Z1.
      change (EVM.eval rho (IsZero a0))
        with (EVM.u256 (EVM.iszero (EVM.eval rho a0))).
      reflexivity.
Qed.

Lemma lt_sound (args : list node) (r : node) :
  forallb EVM.wf args = true -> Fold.lt false args = Ok (Some r) ->
  EVM.eval rho r = EVM.eval rho (NFunctionCall "lt" args).
Proof.
  open2 args a0 a1 W H W0 W1 R0 R1. call2 EVM.lt. unfold Fold.lt in H.
  apply (literals2_inv _ _ _ _ W0 W1) in H. cbv beta zeta iota in H.
  returned H. evals. unfold EVM.lt.
  now rewrite WordFacts.u256_small by apply b2z_range.
Qed.

Lemma slt_sound (args : list node) (r : node) :
  forallb EVM.wf args = true -> Fold.lt true args = Ok (Some r) ->
  EVM.eval rho r = EVM.eval rho (NFunctionCall "slt" args).
Proof.
  open2 args a0 a1 W H W0 W1 R0 R1. call2 EVM.slt. unfold Fold.lt in H.
  apply (literals2_inv _ _ _ _ W0 W1) in H. cbv beta zeta iota in H.
  rewrite !WordFacts.to_signed_signed in H by assumption.
  returned H. evals. unfold EVM.slt.
  now rewrite WordFacts.u256_small by apply b2z_range.
Qed.

Lemma gt_sound (args : list node) (r : node) :
  forallb EVM.wf args = true -> Fold.gt false args = Ok (Some r) ->
  EVM.eval rho r = EVM.eval rho (NFunctionCall "gt" args).
Proof.
  open2 args a0 a1 W H W0 W1 R0 R1. call2 EVM.gt. unfold Fold.gt in H.
  apply (literals2_inv _ _ _ _ W0 W1) in H. cbv beta zeta iota in H.
  returned H. evals. unfold EVM.gt.
  now rewrite WordFacts.u256_small by apply b2z_range.
Qed.

Lemma sgt_sound (args : list node) (r : node) :
  forallb EVM.wf args = true -> Fold.gt true args = Ok (Some r) ->
  EVM.eval rho r = EVM.eval rho (NFunctionCall "sgt" args).
Proof.
  open2 args a0 a1 W H W0 W1 R0 R1. call2 EVM.sgt. unfold Fold.gt in H.
  apply (literals2_inv _ _ _ _ W0 W1) in H. cbv beta zeta iota in H.
  rewrite !WordFacts.to_signed_signed in H by assumption.
  returned H. evals. unfold EVM.sgt.
  now rewrite WordFacts.u256_small by apply b2z_range.
Qed.
End Sound.

End FoldFacts.

(** X1: folding is sound everywhere else: for a foldable opcode and
    arguments whose numeric literals denote words, the node [fold] returns
    evaluates to what the call evaluates to, under every valuation,
    provided that an [exp] with a literal-zero base has an exponent that
    does not evaluate to zero, and that an [eq] does not compare two
    string literals. *)
Theorem fold_sound_elsewhere (rho : EVM.valuation) (name : string)
    (args : list node) (r : node) :
  In name foldable_opcodes ->
  forallb EVM.wf args = true ->
  Fold.fold name args = Ok (Some r) ->
  (name = "exp" -> forall a0 a1,
     args = [a0; a1] -> isZero a0 = true -> isZero a1 = false ->
     EVM.eval rho a1 <> 0) ->
  (name = "eq" -> forall a0 a1,
     args = [a0; a1] -> isStringLiteral a0 && isStringLiteral a1 = false) ->
  EVM.eval rho r = EVM.eval rho (NFunctionCall name args).
Proof.
  intros Hin W H Hexp Heq. unfold foldable_opcodes in Hin. cbn [In] in Hin.
  repeat (destruct Hin as [<- | Hin];
    [ first
        [ apply FoldFacts.add_sound; assumption
        | apply FoldFacts.sub_sound; assumption
        | apply FoldFacts.mul_sound; assumption
        | apply FoldFacts.div_sound; assumption
        | apply FoldFacts.sdiv_sound; assumption
        | apply FoldFacts.mod_sound; assumption
        | apply FoldFacts.smod_sound; assumption
        | apply FoldFacts.exp_sound; [assumption | assumption |];
          exact (Hexp eq_refl)
        | apply FoldFacts.addmod_sound; assumption
        | apply FoldFacts.mulmod_sound; assumption
        | apply FoldFacts.not_sound; assumption
        | apply FoldFacts.and_sound; assumption
        | apply FoldFacts.or_sound; assumption
        | apply FoldFacts.xor_sound; assumption
        | apply FoldFacts.shl_sound; assumption
        | apply FoldFacts.shr_sound; assumption
        | apply FoldFacts.sar_sound; assumption
        | apply FoldFacts.signextend_sound; assumption
        | apply FoldFacts.byte_sound; assumption
        | apply FoldFacts.iszero_sound; assumption
        | apply FoldFacts.eq_sound; [assumption | assumption |];
          exact (Heq eq_refl)
        | apply FoldFacts.lt_sound; assumption
        | apply FoldFacts.slt_sound; assumption
        | apply FoldFacts.gt_sound; assumption
        | apply FoldFacts.sgt_sound; assumption ]
    |]).
  contradiction.
Qed.

(** The rule at [iszero(lt(x, 5))], which becomes [gt(x, 4)]. *)
Lemma fold_sound_elsewhere_witness :
  Fold.fold "iszero" [Lt (Identifier "x") (NLiteral DecimalNumberT None "5")]
  = Ok (Some (Gt (Identifier "x") (NLiteral DecimalNumberT None "4"))) /\
  EVM.eval all_zero (Gt (Identifier "x") (NLiteral DecimalNumberT None "4"))
  = EVM.eval all_zero
      (NFunctionCall "iszero"
         [Lt (Identifier "x") (NLiteral DecimalNumberT None "5")]).
Proof.
  split; [reflexivity|].
  apply fold_sound_elsewhere.
  - vm_compute. tauto.
  - reflexivity.
  - reflexivity.
  - discriminate.
  - discriminate.
Defined.

(** *** The failing input *)

(** C1 at [exp(0, x)]: [fold] replaces the call by the literal 0, but
    with [x = 0] the call evaluates to 1, since 0 to the power 0 is 1 in
    the EVM. *)
Theorem fold_exp_zero_base :
  let args := [NLiteral DecimalNumberT None "0"; NIdentifier "x" true] in
  Fold.fold "exp" args = Ok (Some (NLiteral DecimalNumberT None "0")) /\
  forallb EVM.wf args = true /\
  EVM.eval all_zero (NLiteral DecimalNumberT None "0") = 0 /\
  EVM.eval all_zero (NFunctionCall "exp" args) = 1.
Proof. repeat split. Qed.

(** ** Round trip at the failing inputs *)

(** C3 at [throw Foo(1)] and at [emit Foo(0)]: the parser accepts both;
    serializing the first throws, because the serializer encodes the
    [offset] of a [Throw] node, which the parser sets to [null]; the
    second is printed as [emit Foo(0, )], which the parser rejects. *)
Theorem roundtrip_breaks_on_throw_and_emit :
  RoundTrip.parse "throw Foo(1)"
  = Ok [RoundTrip.SThrow "Foo" [NLiteral DecimalNumberT None "1"]] /\
  RoundTrip.serialize
    [RoundTrip.SThrow "Foo" [NLiteral DecimalNumberT None "1"]]
  = Throw "TypeError: Cannot read properties of null (reading 'type')" /\
  failed (RoundTrip.roundtrip "throw Foo(1)") /\
  RoundTrip.parse "emit Foo(0)"
  = Ok [RoundTrip.SEmit "Foo" (NLiteral DecimalNumberT None "0") []] /\
  RoundTrip.serialize
    [RoundTrip.SEmit "Foo" (NLiteral DecimalNumberT None "0") []]
  = Ok "emit Foo(0, )" /\
  failed (RoundTrip.parse "emit Foo(0, )") /\
  failed (RoundTrip.roundtrip "emit Foo(0)").
Proof. repeat split. Qed.

(** Where the serializer prints what the parser reads, the round trip
    holds: an [emit] with arguments. *)
Example roundtrip_emit_with_arguments :
  RoundTrip.roundtrip "emit Foo(0, add(x, 1))"
  = RoundTrip.parse "emit Foo(0, add(x, 1))".
Proof. reflexivity. Qed.

(** * Further properties *)

(** ** Conditions *)

Module ConditionFacts.

Import EvalFacts.

Lemma isCall_inv1 (n : node) (name : string) :
  isCall n name 1 = true -> exists x, n = NFunctionCall name [x].
Proof.
  destruct n as [| | | |f l| | | | | | | | | | |]; try discriminate.
  cbn [isCall]. intros H. apply andb_prop in H as [Hf Hl].
  apply String.eqb_eq in Hf. subst f.
  destruct l as [|x [|? ?]]; try discriminate. now exists x.
Qed.

Lemma bit_range (v : Z) : v = 0 \/ v = 1 -> 0 <= v < two256.
Proof. intros [-> | ->]; split; (discriminate || reflexivity). Qed.

Lemma b2z_bit (b : bool) : b2z b = 0 \/ b2z b = 1.
Proof. destruct b; auto. Qed.

Lemma u256_bit (v : Z) : v = 0 \/ v = 1 -> EVM.u256 v = v.
Proof. intros H. apply WordFacts.u256_small, bit_range, H. Qed.

Lemma b2z_zero (b : bool) : (b2z b =? 0) = negb b.
Proof. now destruct b. Qed.

Section Conditions.

Variable rho : EVM.valuation.

Lemma eval_iszero (x : node) :
  EVM.eval rho (NFunctionCall "iszero" [x]) = b2z (EVM.eval rho x =? 0).
Proof.
  change (EVM.eval rho (NFunctionCall "iszero" [x]))
    with (EVM.u256 (EVM.iszero (EVM.eval rho x))).
  apply u256_bit, b2z_bit.
Qed.

Lemma eval_eq (x y : node) :
  EVM.eval rho (NFunctionCall "eq" [x; y])
  = b2z (EVM.eval rho x =? EVM.eval rho y).
Proof.
  change (EVM.eval rho (NFunctionCall "eq" [x; y]))
    with (EVM.u256 (EVM.eq (EVM.eval rho x) (EVM.eval rho y))).
  apply u256_bit, b2z_bit.
Qed.

Lemma eval_gt (x y : node) :
  EVM.eval rho (NFunctionCall "gt" [x; y])
  = b2z (EVM.eval rho y <? EVM.eval rho x).
Proof.
  change (EVM.eval rho (NFunctionCall "gt" [x; y]))
    with (EVM.u256 (EVM.gt (EVM.eval rho x) (EVM.eval rho y))).
  apply u256_bit, b2z_bit.
Qed.

Lemma eval_xor (x y : node) :
  EVM.eval rho (Xor x y) = Z.lxor (EVM.eval rho x) (EVM.eval rho y).
Proof.
  change (EVM.eval rho (Xor x y))
    with (EVM.u256 (EVM.xor (EVM.eval rho x) (EVM.eval rho y))).
  pose proof (eval_range rho x) as Rx. pose proof (eval_range rho y) as Ry.
  unfold EVM.xor. apply WordFacts.u256_small. split.
  - apply Z.lxor_nonneg. lia.
  - destruct (Z.eq_dec (Z.lxor (EVM.eval rho x) (EVM.eval rho y)) 0)
      as [-> | Hne]; [reflexivity|].
    assert (H0 : 0 <= Z.lxor (EVM.eval rho x) (EVM.eval rho y))
      by (apply Z.lxor_nonneg; lia).
    apply Z.log2_lt_cancel. unfold two256.
    rewrite Z.log2_pow2 by lia.
    eapply Z.le_lt_trans; [apply Z.log2_lxor; lia|].
    apply Z.max_lub_lt.
    + destruct (Z.eq_dec (EVM.eval rho x) 0) as [-> | ?]; [reflexivity|].
      apply Z.log2_lt_pow2; [lia | apply Rx].
    + destruct (Z.eq_dec (EVM.eval rho y) 0) as [-> | ?]; [reflexivity|].
      apply Z.log2_lt_pow2; [lia | apply Ry].
Qed.

End Conditions.

End ConditionFacts.

(** X5: [ocj] keeps the truth of a condition: under every valuation the
    node it returns is zero exactly when the node it was given is zero;
    so an [if], a loop test or a [require] built on [ocj(expr)] takes the
    same way as one built on [expr]. *)
Theorem ocj_keeps_truth (rho : EVM.valuation) (n : node) :
  (EVM.eval rho (ocj n) =? 0) = (EVM.eval rho n =? 0).
Proof.
  unfold ocj.
  destruct (isZeroCast n) eqn:Hc.
  { unfold isZeroCast in Hc. apply andb_prop in Hc as [H1 H2].
    destruct (ConditionFacts.isCall_inv1 n "iszero" H1) as (a & ->).
    cbn [arg0 holds] in H2.
    destruct (ConditionFacts.isCall_inv1 a "iszero" H2) as (x & ->).
    rewrite !ConditionFacts.eval_iszero, !ConditionFacts.b2z_zero.
    now rewrite negb_involutive. }
  destruct (isGtCast n) eqn:Hg.
  { unfold isGtCast in Hg. apply andb_prop in Hg as [H1 H2].
    destruct (FoldFacts.isCall_inv n "gt" H1) as (x & y & ->).
    cbn [arg1 holds] in H2.
    rewrite ConditionFacts.eval_gt, (EvalFacts.isZero_eval rho y H2),
      ConditionFacts.b2z_zero.
    pose proof (EvalFacts.eval_range rho x) as Rx.
    destruct (Z.ltb_spec 0 (EVM.eval rho x)), (Z.eqb_spec (EVM.eval rho x) 0);
      try reflexivity; lia. }
  destruct (isNeqCall n) eqn:Hn; [| reflexivity].
  unfold isNeqCall in Hn. apply andb_prop in Hn as [H1 H2].
  destruct (ConditionFacts.isCall_inv1 n "iszero" H1) as (a & ->).
  cbn [arg0 holds] in H2.
  destruct (FoldFacts.isCall_inv a "eq" H2) as (x & y & ->).
  rewrite ConditionFacts.eval_xor, ConditionFacts.eval_iszero,
    ConditionFacts.eval_eq, !ConditionFacts.b2z_zero.
  destruct (Z.eqb_spec (EVM.eval rho x) (EVM.eval rho y)) as [E | E]; cbn.
  - rewrite E, Z.lxor_nilpotent. reflexivity.
  - apply Z.eqb_neq. intros H. apply E. now apply Z.lxor_eq.
Qed.
Module BoolFacts.

Import EvalFacts ConditionFacts.

Lemma land_bit_l (a b : Z) : (a = 0 \/ a = 1) -> 0 <= b ->
  Z.land a b = 0 \/ Z.land a b = 1.
Proof.
  intros [-> | ->] Hb; [left; apply Z.land_0_l|].
  rewrite Z.land_comm.
  assert (E : Z.land b 1 = b mod 2) by (apply (Z.land_ones b 1); lia).
  rewrite E. pose proof (Z.mod_pos_bound b 2 ltac:(lia)). lia.
Qed.

Lemma land_bit_r (a b : Z) : 0 <= a -> (b = 0 \/ b = 1) ->
  Z.land a b = 0 \/ Z.land a b = 1.
Proof. intros Ha Hb. rewrite Z.land_comm. now apply land_bit_l. Qed.

Lemma opcode_bit (f : string) (vs : list Z) (v : Z) :
  In f ["lt"; "gt"; "slt"; "sgt"; "eq"; "iszero"] ->
  EVM.opcode f vs = Some v -> v = 0 \/ v = 1.
Proof.
  intros Hin.
  repeat (destruct Hin as [<- | Hin];
    [ destruct vs as [|x [|y [|z vs]]]; try discriminate;
      intros [= <-]; apply b2z_bit |]).
  contradiction.
Qed.

Lemma opcode_none (f : string) (vs : list Z) :
  In f ["call"; "callcode"; "delegatecall"; "staticcall"] ->
  EVM.opcode f vs = None.
Proof.
  intros Hin.
  repeat (destruct Hin as [<- | Hin]; [reflexivity|]). contradiction.
Qed.

(** A node that [returnsBool] accepts evaluates to a bit. *)
Lemma returnsBool_bit (rho : EVM.valuation) :
  (forall f vs, In f bool_calls ->
                EVM.call rho f vs = 0 \/ EVM.call rho f vs = 1) ->
  forall n, returnsBool n = true ->
            EVM.eval rho n = 0 \/ EVM.eval rho n = 1.
Proof.
  intros Hcall. fix IH 1. intros n.
  destruct n as [| | |sub kind v|f args| | | | | | | | | | |];
    try discriminate.
  - cbn [returnsBool]. intros H. apply orb_prop in H as [H | H].
    + left. now apply EvalFacts.isZero_eval.
    + right. now apply EvalFacts.isOne_eval.
  - cbn [returnsBool].
    destruct (existsb (String.eqb f) bool_calls) eqn:Hb.
    + intros _. apply existsb_exists in Hb as (g & Hin & Hg).
      apply String.eqb_eq in Hg. subst g.
      cbn [EVM.eval].
      destruct (EVM.opcode f (map (EVM.eval rho) args)) as [v|] eqn:Ho.
      * assert (Hv : v = 0 \/ v = 1).
        { unfold bool_calls in Hin. cbn [In] in Hin.
          destruct Hin as [<- | [<- | [<- | [<- | [<- | [<- | Hin]]]]]];
            try (eapply opcode_bit; [| exact Ho]; cbn; tauto).
          rewrite opcode_none in Ho by exact Hin. discriminate. }
        now rewrite ConditionFacts.u256_bit.
      * rewrite ConditionFacts.u256_bit; now apply Hcall.
    + destruct (String.eqb_spec f "and") as [-> | Hand].
      * destruct args as [|x [|y [|? ?]]]; try discriminate.
        intros H.
        change (EVM.eval rho (NFunctionCall "and" [x; y]))
          with (EVM.u256 (EVM.and_ (EVM.eval rho x) (EVM.eval rho y))).
        pose proof (EvalFacts.eval_range rho x) as Rx.
        pose proof (EvalFacts.eval_range rho y) as Ry.
        assert (Hv : EVM.and_ (EVM.eval rho x) (EVM.eval rho y) = 0 \/
                     EVM.and_ (EVM.eval rho x) (EVM.eval rho y) = 1).
        { unfold EVM.and_. apply orb_prop in H as [H | H].
          - apply land_bit_l; [now apply IH | lia].
          - apply land_bit_r; [lia | now apply IH]. }
        now rewrite ConditionFacts.u256_bit.
      * destruct (String.eqb f "or" || String.eqb f "xor") eqn:Hox;
          [| discriminate].
        destruct args as [|x [|y [|? ?]]]; try discriminate.
        intros H. apply andb_prop in H as [Hx Hy].
        pose proof (IH x Hx) as Bx. pose proof (IH y Hy) as By.
        apply orb_prop in Hox as [Ho | Ho]; apply String.eqb_eq in Ho;
          subst f.
        -- change (EVM.eval rho (NFunctionCall "or" [x; y]))
             with (EVM.u256 (EVM.or_ (EVM.eval rho x) (EVM.eval rho y))).
           destruct Bx as [-> | ->], By as [-> | ->]; cbn; auto.
        -- change (EVM.eval rho (NFunctionCall "xor" [x; y]))
             with (EVM.u256 (EVM.xor (EVM.eval rho x) (EVM.eval rho y))).
           destruct Bx as [-> | ->], By as [-> | ->]; cbn; auto.
Qed.

End BoolFacts.

(** X6: [returnsBool] is sound: a node for which it answers [true]
    evaluates to 0 or to 1 under every valuation that gives 0 or 1 to what
    it leaves to the valuation among the names [returnsBool] trusts (the
    success flag of [call], [callcode], [delegatecall], [staticcall], and
    a comparison applied to a wrong number of arguments). *)
Theorem returnsBool_is_bit (rho : EVM.valuation) :
  (forall f vs, In f bool_calls ->
                EVM.call rho f vs = 0 \/ EVM.call rho f vs = 1) ->
  forall n, returnsBool n = true ->
            EVM.eval rho n = 0 \/ EVM.eval rho n = 1.
Proof. exact (BoolFacts.returnsBool_bit rho). Qed.

(** Witness: [and(lt(x, 5), y)] under the valuation that is zero
    everywhere. *)
Lemma returnsBool_is_bit_witness :
  EVM.eval all_zero
    (NFunctionCall "and"
       [Lt (Identifier "x") (NLiteral DecimalNumberT None "5");
        Identifier "y"]) = 0 \/
  EVM.eval all_zero
    (NFunctionCall "and"
       [Lt (Identifier "x") (NLiteral DecimalNumberT None "5");
        Identifier "y"]) = 1.
Proof.
  apply (returnsBool_is_bit all_zero).
  - intros f vs _. left. reflexivity.
  - reflexivity.
Defined.

(** X7: the [switch] that [case 'If'] builds for a branch followed by
    another branch or by an [else] takes the branch exactly when the
    condition is not zero: the expression switched on equals the value of
    the one case if and only if the condition of the branch is true.  (The
    valuation is as for [returnsBool].) *)
Theorem switch_head_selects (rho : EVM.valuation) (expr : node) :
  (forall f vs, In f bool_calls ->
                EVM.call rho f vs = 0 \/ EVM.call rho f vs = 1) ->
  let '(check, value) := switch_head expr in
  (EVM.eval rho check =? EVM.eval rho value) = negb (EVM.eval rho expr =? 0).
Proof.
  intros Hcall. unfold switch_head.
  destruct (isZeroCall expr) eqn:Hz.
  { destruct (ConditionFacts.isCall_inv1 expr "iszero" Hz) as (x & ->).
    cbn [arg0]. rewrite EvalFacts.eval_zero, ConditionFacts.eval_iszero,
      ConditionFacts.b2z_zero.
    now rewrite negb_involutive. }
  destruct (isEqLiteral expr) eqn:He.
  { unfold isEqLiteral in He. apply andb_prop in He as [H1 H2].
    destruct (FoldFacts.isCall_inv expr "eq" H1) as (x & y & ->).
    cbn [arg0 arg1]. rewrite ConditionFacts.eval_eq, ConditionFacts.b2z_zero.
    now rewrite negb_involutive. }
  destruct (returnsBool expr) eqn:Hb.
  { rewrite EvalFacts.eval_one.
    destruct (BoolFacts.returnsBool_bit rho Hcall expr Hb) as [-> | ->];
      reflexivity. }
  rewrite EvalFacts.eval_zero.
  change (EVM.eval rho (IsZero expr))
    with (EVM.eval rho (NFunctionCall "iszero" [expr])).
  now rewrite ConditionFacts.eval_iszero, ConditionFacts.b2z_zero.
Qed.

(** Witness: the branch [if eq(x, 5)] becomes [switch x case 5]. *)
Lemma switch_head_selects_witness :
  switch_head (Transformer.Eq (Identifier "x") (NLiteral DecimalNumberT None "5"))
  = (Identifier "x", NLiteral DecimalNumberT None "5") /\
  (EVM.eval all_zero (Identifier "x")
   =? EVM.eval all_zero (NLiteral DecimalNumberT None "5"))
  = negb (EVM.eval all_zero
            (Transformer.Eq (Identifier "x")
               (NLiteral DecimalNumberT None "5")) =? 0).
Proof.
  split; [reflexivity|].
  apply (switch_head_selects all_zero
           (Transformer.Eq (Identifier "x")
              (NLiteral DecimalNumberT None "5"))).
  intros f vs _. left. reflexivity.
Defined.

(** ** Literals *)

Module ClosureFacts.

(** The literals that the folder builds denote words. *)
Lemma literal_words :
  (forall v,
     isLiteral (Literal (VBigInt v)) = true /\
     toBigInt (value_of (Literal (VBigInt v))) = Ok (v mod two256) /\
     EVM.wf (Literal (VBigInt v)) = true) /\
  (forall b,
     isLiteral (Literal (VBool b)) = true /\
     toBigInt (value_of (Literal (VBool b))) = Ok (b2z b) /\
     EVM.wf (Literal (VBool b)) = true).
Proof.
  split.
  - intros v.
    destruct (LiteralFacts.Literal_big_value v) as (sub & text & E & Hl & Hv).
    rewrite E. cbn [value_of EVM.wf]. rewrite Hl, Hv.
    repeat split.
    pose proof (Z.mod_pos_bound v two256 eq_refl) as [H0 H1].
    apply andb_true_intro. split; [now apply Z.leb_le | now apply Z.ltb_lt].
  - intros [|]; repeat split.
Qed.

Lemma wf_big (v : Z) : wf_result (Fold.big v).
Proof. apply literal_words. Qed.

Lemma wf_bit (b : bool) : wf_result (Fold.num (b2z b)).
Proof. now destruct b. Qed.

Lemma wf_zero : wf_result (Fold.num 0).
Proof. reflexivity. Qed.

Lemma wf_one : wf_result (Fold.num 1).
Proof. reflexivity. Qed.

Lemma wf_null : wf_result Fold.null.
Proof. exact I. Qed.

Lemma wf_bind (A : Type) (r : result A) (k : A -> result (option node)) :
  (forall a, wf_result (k a)) -> wf_result (bind r k).
Proof. intros H. destruct r; [apply H | exact I]. Qed.

Lemma wf_literals2 (args : list node) (a0 a1 : node)
    (k : Z -> Z -> result (option node)) :
  (forall x y, wf_result (k x y)) -> wf_result (Fold.literals2 args a0 a1 k).
Proof.
  intros H. unfold Fold.literals2. destruct (negb _); [exact I|].
  apply wf_bind. intros x. apply wf_bind. intros y. apply H.
Qed.

Lemma wf_literals3 (args : list node) (a0 a1 a2 : node)
    (k : Z -> Z -> Z -> result (option node)) :
  (forall x y m, wf_result (k x y m)) ->
  wf_result (Fold.literals3 args a0 a1 a2 k).
Proof.
  intros H. unfold Fold.literals3. destruct (negb _); [exact I|].
  apply wf_bind. intros x. apply wf_bind. intros y.
  apply wf_bind. intros m. apply H.
Qed.

Ltac closed :=
  repeat first
    [ apply wf_big | apply wf_bit | apply wf_zero | apply wf_one
    | apply wf_null | exact I | assumption
    | apply wf_literals2; intros
    | apply wf_literals3; intros
    | apply wf_bind; intros
    | match goal with
      | |- wf_result (if ?c then _ else _) => destruct c
      | |- wf_result (Fold.ret _) => unfold Fold.ret, wf_result
      end ].

Ltac args2 args W a0 a1 W0 W1 :=
  destruct args as [|a0 [|a1 [|? ?]]]; try exact I;
  apply FoldFacts.wf2 in W as [W0 W1].

Lemma wf_call2 (f : string) (x y : node) :
  EVM.wf (NFunctionCall f [x; y]) = true ->
  EVM.wf x = true /\ EVM.wf y = true.
Proof. cbn [EVM.wf]. apply FoldFacts.wf2. Qed.

Lemma wf_iszero_literal (a0 : node) : wf_result (Fold.iszero_literal a0).
Proof. unfold Fold.iszero_literal. closed. Qed.

Lemma wf_iszero_gt (a0 : node) :
  EVM.wf a0 = true -> wf_result (Fold.iszero_gt a0).
Proof.
  intros W. unfold Fold.iszero_gt.
  destruct (isGtCall a0) eqn:C; [| apply wf_iszero_literal].
  destruct (FoldFacts.isCall_inv a0 "gt" C) as (x & y & ->).
  cbn [Fold.args2]. apply wf_call2 in W as [Wx Wy].
  destruct (isLiteral y); [| apply wf_iszero_literal].
  apply wf_bind. intros n. destruct (n =? U256_MAX); [apply wf_one|].
  unfold Fold.ret, wf_result, Lt, Call. cbn [EVM.wf forallb].
  rewrite Wx. now rewrite (proj2 (proj2 (proj1 literal_words _))).
Qed.

Lemma wf_iszero (args : list node) :
  forallb EVM.wf args = true -> wf_result (Fold.iszero args).
Proof.
  intros W. unfold Fold.iszero.
  destruct args as [|a0 [|? ?]]; try exact I.
  apply FoldFacts.wf1 in W.
  destruct (isLtCall a0) eqn:C; [| now apply wf_iszero_gt].
  destruct (FoldFacts.isCall_inv a0 "lt" C) as (x & y & ->).
  cbn [Fold.args2]. pose proof W as W'. apply wf_call2 in W' as [Wx Wy].
  destruct (isLiteral y); [| now apply wf_iszero_gt].
  apply wf_bind. intros n. destruct (n =? 0); [apply wf_one|].
  unfold Fold.ret, wf_result, Gt, Call. cbn [EVM.wf forallb].
  rewrite Wx. now rewrite (proj2 (proj2 (proj1 literal_words _))).
Qed.

End ClosureFacts.

(** X2: a literal built from a BigInt reads back as that number modulo
    2^256, and one built from a boolean as 1 or 0; both are numeric
    literals that denote a word. *)
Theorem Literal_reads_back :
  (forall v,
     isLiteral (Literal (VBigInt v)) = true /\
     toBigInt (value_of (Literal (VBigInt v))) = Ok (v mod two256) /\
     EVM.wf (Literal (VBigInt v)) = true) /\
  (forall b,
     isLiteral (Literal (VBool b)) = true /\
     toBigInt (value_of (Literal (VBool b))) = Ok (b2z b) /\
     EVM.wf (Literal (VBool b)) = true).
Proof. exact ClosureFacts.literal_words. Qed.

(** X4: folding keeps literals inside the 256-bit words: when every
    numeric literal of the arguments denotes a word, so does every numeric
    literal of the node that [fold] returns, for every name. *)
Theorem fold_keeps_words (name : string) (args : list node) (r : node) :
  forallb EVM.wf args = true ->
  Fold.fold name args = Ok (Some r) ->
  EVM.wf r = true.
Proof.
  intros W H.
  assert (G : wf_result (Fold.fold name args));
    [| now rewrite H in G].
  clear H. unfold Fold.fold.
  repeat match goal with
         | |- wf_result (if ?c then _ else _) =>
             destruct c;
             [ try (apply ClosureFacts.wf_iszero; assumption) |]
         end;
    try exact I;
    cbv delta [Fold.add Fold.sub Fold.mul Fold.div Fold.mod_ Fold.exp
               Fold.addmod Fold.mulmod Fold.not_ Fold.and_ Fold.or_ Fold.xor
               Fold.shl Fold.shr Fold.signextend Fold.byte Fold.lt Fold.gt
               Fold.eq Fold.bswap BigOps.div BigOps.rem BigOps.pow];
    cbv beta;
    destruct args as [|a0 [|a1 [|a2 [|? ?]]]]; try exact I;
    cbn [forallb] in W;
    repeat (let W0 := fresh "W" in apply andb_prop in W as [W0 W]);
    ClosureFacts.closed;
    try (cbv zeta; ClosureFacts.closed);
    unfold IsZero, Call; cbn [EVM.wf forallb];
    rewrite ?W0, ?W1; reflexivity.
Qed.

(** Witness: [add(1, 2)] folds to the literal 3. *)
Lemma fold_keeps_words_witness :
  EVM.wf (NLiteral DecimalNumberT None "3") = true.
Proof.
  apply (fold_keeps_words "add"
           [NLiteral DecimalNumberT None "1"; NLiteral DecimalNumberT None "2"]);
    reflexivity.
Defined.

(** ** Number tokens *)

Module TokenFacts.

Lemma parse_digits_bound (radix : Z) (s : string) :
  1 < radix ->
  forall acc m,
    0 <= acc ->
    Num.parse_digits radix acc s = Some m ->
    acc * radix ^ Str.len s <= m < (acc + 1) * radix ^ Str.len s.
Proof.
  intros Hr. induction s as [|c s IH]; intros acc m Hacc H.
  - cbn in H. injection H as <-. change (Str.len "") with 0.
    rewrite Z.pow_0_r. lia.
  - cbn [Num.parse_digits] in H.
    destruct (Num.digit_in radix c) as [d|] eqn:Hd; [| discriminate].
    pose proof (StructFacts.digit_in_nonneg radix c d Hd) as Hd0.
    assert (Hd1 : d < radix).
    { unfold Num.digit_in in Hd. destruct (Num.digit_value c); [| discriminate].
      destruct (Z.ltb_spec z radix); [| discriminate].
      injection Hd as <-. assumption. }
    apply IH in H; [| nia].
    assert (Hlen : Str.len (String c s) = Str.len s + 1).
    { unfold Str.len. cbn [String.length]. lia. }
    assert (Hn : 0 <= Str.len s) by (unfold Str.len; lia).
    rewrite Hlen, Z.pow_add_r, Z.pow_1_r by lia.
    assert (Hp : 0 < radix ^ Str.len s) by (apply Z.pow_pos_nonneg; lia).
    nia.
Qed.

Lemma hex_digit_in (c : ascii) :
  Str.is_hex_digit c = true -> exists d, Num.digit_in 16 c = Some d.
Proof.
  destruct c as [[] [] [] [] [] [] [] []]; vm_compute; intros H;
    try discriminate H; eauto.
Qed.

Lemma parse_hex_digits (s : string) :
  Str.all Str.is_hex_digit s = true ->
  forall acc, exists m, Num.parse_digits 16 acc s = Some m.
Proof.
  induction s as [|c s IH]; intros H acc; cbn [Num.parse_digits].
  - eauto.
  - cbn [Str.all] in H. apply andb_prop in H as [Hc Hs].
    destruct (hex_digit_in c Hc) as (d & ->). now apply IH.
Qed.

Lemma len_app (a b : string) : Str.len (a ++ b) = Str.len a + Str.len b.
Proof.
  unfold Str.len. induction a as [|c a IH]; cbn [append String.length].
  - lia.
  - rewrite !Nat2Z.inj_succ. lia.
Qed.

(** What [HexNumber] accepts: [0x] and at most 64 hexadecimal digits. *)
Lemma HexNumber_inv (input : string) (tok : Parser.token) (rest : string) :
  Parser.HexNumber input = Ok (Some (tok, rest)) ->
  exists ds, tok = (HexNumberT, ("0x" ++ ds)%string) /\
             ds <> EmptyString /\
             Str.all Str.is_hex_digit ds = true /\
             Str.len ds <= 64.
Proof.
  unfold Parser.HexNumber, Parser.match_HexNumber, Parser.opt_minus.
  destruct (Str.strip_prefix "-" input) as [r|] eqn:Hs.
  - destruct (Str.strip_prefix "0x" r) as [r'|]; [| discriminate].
    pose proof (ParserFacts.span_all Str.is_hex_digit r') as Hall.
    destruct (Str.span Str.is_hex_digit r') as [ds rest'].
    destruct ds as [|c ds]; [discriminate|].
    pose proof (ParserFacts.BigInt_minus_0x (String c ds)) as Hthrow.
    cbn [append] in Hthrow |- *.
    destruct (Num.BigInt (String "-" (String "0" (String "x" (String c ds)))))
      as [v|msg]; [destruct Hthrow|].
    change (Str.startsWith (String "-" (String "0" (String "x" (String c ds))))
              "-") with true.
    cbv iota.
    destruct (assert_ _ _) as [[]|]; [| discriminate].
    cbn [bind]. destruct (Str.len _ =? 67); cbn [bind]; discriminate.
  - destruct (Str.strip_prefix "0x" input) as [r'|]; [| discriminate].
    pose proof (ParserFacts.span_all Str.is_hex_digit r') as Hall.
    destruct (Str.span Str.is_hex_digit r') as [ds rest'].
    destruct ds as [|c ds]; [discriminate|].
    cbn [fst] in Hall. cbn [append].
    change (Str.startsWith (String "0" (String "x" (String c ds))) "-")
      with false.
    cbv iota. unfold assert_.
    destruct (Z.leb_spec (Str.len (String "0" (String "x" (String c ds))))
                (0 + 2 + 64)) as [Hlen | Hlen]; [| discriminate].
    cbn [bind].
    assert (Hl : Str.len (String "0" (String "x" (String c ds)))
                 = 2 + Str.len (String c ds)).
    { unfold Str.len. cbn [String.length]. lia. }
    destruct (Str.len (String "0" (String "x" (String c ds))) =? 67) eqn:E67.
    { apply Z.eqb_eq in E67. lia. }
    cbn [bind]. intros H.
    assert (Htok : tok = (HexNumberT, String "0" (String "x" (String c ds))))
      by congruence.
    exists (String c ds). repeat split; try assumption; try discriminate.
    lia.
Qed.

(** What [DecimalNumber] accepts without a sign: at most 78 digits, and
    with 78 digits a value up to [U256_MAX]. *)
Lemma DecimalNumber_inv (input : string) (tok : Parser.token)
    (rest : string) :
  Parser.DecimalNumber input = Ok (Some (tok, rest)) ->
  (exists v, tok = (HexNumberT, ("0x" ++ Num.toString 16 v)%string) /\
             0 <= v < two256) \/
  (exists ds m, tok = (DecimalNumberT, ds) /\
                ds <> EmptyString /\
                Str.all Str.is_digit ds = true /\
                Num.parse_number 10 ds = Some m /\
                (Str.len ds <= 77 \/ m <= U256_MAX)).
Proof.
  unfold Parser.DecimalNumber.
  destruct (Parser.match_DecimalNumber input) as [[value rest']|] eqn:Hm;
    [| discriminate].
  unfold assert_.
  destruct (Z.leb_spec (Str.len value) 78) as [Hlen | Hlen]; [| discriminate].
  cbn [bind].
  destruct (Str.startsWith value "-") eqn:Hneg.
  - destruct (ParserFacts.match_DecimalNumber_negative _ _ _ Hm Hneg)
      as (ds & -> & Hall & Hds).
    destruct (NumFacts.parse_digits_all 10 ds Hall ltac:(lia) 0 ltac:(lia))
      as (m & Hparse & Hm0).
    assert (Hnum : Num.parse_number 10 ds = Some m).
    { unfold Num.parse_number. destruct ds; [contradiction | exact Hparse]. }
    assert (Hbig : Num.BigInt (String "-" ds) = Ok (- m)).
    { rewrite ParserFacts.BigInt_minus, Hnum. reflexivity. }
    rewrite Hbig. intros H. left.
    exists (Z.land (- m) U256_MAX). split.
    + destruct (Str.len (String "-" ds) =? 78); cbn [bind] in H.
      * destruct (_ && _); cbn [bind] in H; [congruence | discriminate H].
      * congruence.
    + rewrite ParserFacts.land_U256. apply Z.mod_pos_bound. reflexivity.
  - unfold Parser.match_DecimalNumber, Parser.opt_minus in Hm.
    destruct (Str.strip_prefix "-" input) as [r|] eqn:Hs.
    + destruct (Str.span Str.is_digit r) as [ds rest''].
      destruct ds; [discriminate|]. injection Hm as <- _.
      discriminate Hneg.
    + pose proof (ParserFacts.span_all Str.is_digit input) as Hall.
      destruct (Str.span Str.is_digit input) as [ds rest''].
      destruct ds as [|c ds]; [discriminate|].
      cbn [append] in Hm. injection Hm as <- _. cbn [fst] in Hall.
      destruct (NumFacts.parse_digits_all 10 (String c ds) Hall ltac:(lia) 0
                  ltac:(lia)) as (m & Hparse & Hm0).
      assert (Hnum : Num.parse_number 10 (String c ds) = Some m)
        by exact Hparse.
      intros H. right. exists (String c ds), m.
      assert (Hbig : Num.BigInt (String c ds) = Ok m).
      { pose proof (LiteralFacts.toBigInt_digits (String c ds)
                      ltac:(discriminate) Hall) as Ht.
        rewrite Hnum in Ht. unfold toBigInt in Ht.
        rewrite (LiteralFacts.eqb_digits (String c ds) "false"),
          (LiteralFacts.eqb_digits (String c ds) "true") in Ht
          by (try discriminate; easy).
        exact Ht. }
      destruct (Z.eqb_spec (Str.len (String c ds)) 78) as [E | E].
      * rewrite Hbig in H. cbn [bind] in H.
        destruct (Z.leb_spec m U256_MAX) as [Hle | Hgt].
        -- rewrite andb_true_r in H.
           destruct (- I256_SIGN <=? m); cbn [bind] in H;
             [| discriminate H].
           repeat split; try assumption; try discriminate;
             [congruence | now right].
        -- rewrite andb_false_r in H. discriminate H.
      * cbn [bind] in H.
        repeat split; try assumption; try discriminate;
          [congruence | left; lia].
Qed.

End TokenFacts.

(** X3: every number token that the parser accepts denotes a 256-bit
    word: its text converts to a number in [0, 2^256), whether it was
    written in hexadecimal, in decimal, or with a minus sign. *)
Theorem NumberLiteral_denotes_word (input : string) (sub : subtype)
    (text rest : string) :
  Parser.NumberLiteral input = Ok (Some ((sub, text), rest)) ->
  (sub = HexNumberT \/ sub = DecimalNumberT) /\
  exists v, toBigInt text = Ok v /\ 0 <= v < two256 /\
            EVM.wf (NLiteral sub None text) = true.
Proof.
  unfold Parser.NumberLiteral.
  assert (Hwf : forall s t v, (s = HexNumberT \/ s = DecimalNumberT) ->
                  toBigInt t = Ok v -> 0 <= v < two256 ->
                  EVM.wf (NLiteral s None t) = true).
  { intros s t v Hs Ht Hv. cbn [EVM.wf].
    assert (Hl : isLiteral (NLiteral s None t) = true)
      by (destruct Hs as [-> | ->]; reflexivity).
    rewrite Hl, Ht. apply andb_true_intro.
    split; [apply Z.leb_le | apply Z.ltb_lt]; lia. }
  destruct (Parser.HexNumber input) as [[[tok r]|]|msg] eqn:Hh;
    cbn [bind]; try discriminate.
  - intros H. assert (E : tok = (sub, text)) by congruence. subst tok.
    destruct (TokenFacts.HexNumber_inv _ _ _ Hh) as (ds & E & Hne & Hall & Hlen).
    injection E as -> ->. split; [now left|].
    destruct (TokenFacts.parse_hex_digits ds Hall 0) as (m & Hm).
    pose proof (TokenFacts.parse_digits_bound 16 ds ltac:(lia) 0 m
                  ltac:(lia) Hm) as Hb.
    assert (Hv : 0 <= m < two256).
    { assert (Hp : 16 ^ Str.len ds <= 16 ^ 64)
        by (apply Z.pow_le_mono_r; [lia | assumption]).
      change (16 ^ 64) with two256 in Hp. lia. }
    assert (Ht : toBigInt ("0x" ++ ds) = Ok m).
    { rewrite LiteralFacts.toBigInt_0x. unfold Num.parse_number.
      destruct ds; [contradiction|]. now rewrite Hm. }
    exists m. repeat split; try apply Hv; try assumption.
    eapply Hwf; eauto.
  - intros Hd.
    destruct (TokenFacts.DecimalNumber_inv _ _ _ Hd)
      as [(v & E & Hv) | (ds & m & E & Hne & Hall & Hm & Hb)];
      injection E as -> ->.
    + split; [now left|]. exists v.
      assert (Ht : toBigInt ("0x" ++ Num.toString 16 v) = Ok v)
        by (apply ParserFacts.toBigInt_0x_text; lia).
      repeat split; try apply Hv; try assumption.
      eapply Hwf; eauto.
    + split; [now right|]. exists m.
      assert (Ht : toBigInt ds = Ok m).
      { rewrite LiteralFacts.toBigInt_digits by assumption. now rewrite Hm. }
      assert (Hv : 0 <= m < two256).
      { unfold Num.parse_number in Hm. destruct ds as [|c ds'] eqn:Eds;
          [contradiction|]. rewrite <- Eds in *.
        pose proof (TokenFacts.parse_digits_bound 10 ds ltac:(lia) 0 m
                      ltac:(lia) Hm) as Hbd.
        destruct Hb as [Hlen | Hmax].
        - assert (Hp : 10 ^ Str.len ds <= 10 ^ 77).
          { apply Z.pow_le_mono_r; [lia | assumption]. }
          assert (H77 : 10 ^ 77 < two256) by reflexivity. lia.
        - assert (HM : U256_MAX = two256 - 1) by reflexivity. lia. }
      repeat split; try apply Hv; try assumption.
      eapply Hwf; eauto.
Qed.

(** Witness: the token of [-1]. *)
Lemma NumberLiteral_denotes_word_witness :
  (HexNumberT = HexNumberT \/ HexNumberT = DecimalNumberT) /\
  exists v,
    toBigInt
      "0xffffffffffffffffffffffffffffffffffffffffffffffffffffffffffffffff"
    = Ok v /\ 0 <= v < two256 /\
    EVM.wf (NLiteral HexNumberT None
      "0xffffffffffffffffffffffffffffffffffffffffffffffffffffffffffffffff")
    = true.
Proof.
  apply (NumberLiteral_denotes_word "-1" HexNumberT
    "0xffffffffffffffffffffffffffffffffffffffffffffffffffffffffffffffff" "").
  reflexivity.
Defined.

(** Witness of the rejection of signed hexadecimal: [-0x10]. *)
Lemma HexNumber_negative_throws_witness : failed (Parser.HexNumber "-0x10").
Proof.
  apply (HexNumber_negative_throws "-0x10" "-0x10" ""); reflexivity.
Defined.

(** ** Struct members *)

Module FieldFacts.

Lemma testbit_field (a s k i : Z) :
  0 <= s -> 0 <= k -> 0 <= i ->
  Z.testbit (field s k a) i = (i <? k) && Z.testbit a (i + s).
Proof.
  intros Hs Hk Hi. unfold field.
  destruct (Z.ltb_spec i k).
  - rewrite Z.mod_pow2_bits_low by lia. now rewrite Z.div_pow2_bits by lia.
  - now rewrite Z.mod_pow2_bits_high by lia.
Qed.

Lemma testbit_small (v k i : Z) :
  0 <= v < 2 ^ k -> k <= i -> Z.testbit v i = false.
Proof.
  intros Hv Hi.
  destruct (Z.eq_dec v 0) as [-> | Hne]; [apply Z.bits_0|].
  apply Z.bits_above_log2; [lia|].
  assert (Z.log2 v < k); [| lia].
  apply Z.log2_lt_pow2; lia.
Qed.

Lemma small_of_bits (v k : Z) :
  0 <= v -> 0 <= k ->
  (forall i, k <= i -> Z.testbit v i = false) -> v < 2 ^ k.
Proof.
  intros Hv Hk H.
  destruct (Z.eq_dec v 0) as [-> | Hne]; [apply Z.pow_pos_nonneg; lia|].
  apply Z.log2_lt_pow2; [lia|].
  destruct (Z.lt_ge_cases (Z.log2 v) k) as [Hlt | Hge]; [assumption|].
  pose proof (Z.bit_log2 v ltac:(lia)) as Hb.
  rewrite H in Hb by assumption. discriminate.
Qed.

Lemma lor_range (a b : Z) :
  0 <= a < two256 -> 0 <= b < two256 -> 0 <= Z.lor a b < two256.
Proof.
  intros Ha Hb. split; [apply Z.lor_nonneg; lia|].
  apply small_of_bits; [apply Z.lor_nonneg; lia | lia |].
  intros i Hi. rewrite Z.lor_spec.
  rewrite (testbit_small a 256 i), (testbit_small b 256 i) by (assumption).
  reflexivity.
Qed.

Lemma land_range (a b : Z) :
  0 <= a < two256 -> 0 <= b -> 0 <= Z.land a b < two256.
Proof.
  intros Ha Hb. split; [apply Z.land_nonneg; lia|].
  apply small_of_bits; [apply Z.land_nonneg; lia | lia |].
  intros i Hi. rewrite Z.land_spec.
  now rewrite (testbit_small a 256 i) by assumption.
Qed.

(** The mask of a member and its complement, by bits. *)
Lemma testbit_imask (s k i : Z) :
  0 <= s -> 0 <= k -> s + k <= 256 -> 0 <= i ->
  Z.testbit (Z.lxor (Z.shiftl (Z.shiftl 1 k - 1) s) U256_MAX) i
  = (i <? 256) && negb ((s <=? i) && (i <? s + k)).
Proof.
  intros Hs Hk Hsk Hi. change U256_MAX with (Z.ones 256).
  rewrite Z.lxor_spec, Z.testbit_ones_nonneg by lia.
  rewrite Z.shiftl_spec by lia.
  rewrite Z.shiftl_1_l. replace (2 ^ k - 1) with (Z.ones k)
    by (rewrite Z.ones_equiv; lia).
  destruct (Z.leb_spec s i).
  - rewrite Z.testbit_ones_nonneg by lia.
    destruct (Z.ltb_spec (i - s) k), (Z.ltb_spec i (s + k)),
      (Z.ltb_spec i 256); try reflexivity; lia.
  - rewrite Z.testbit_neg_r by lia.
    destruct (Z.ltb_spec i 256); reflexivity.
Qed.

Lemma imask_nonneg (s k : Z) :
  0 <= s -> 0 <= k -> s + k <= 256 ->
  0 <= Z.lxor (Z.shiftl (Z.shiftl 1 k - 1) s) U256_MAX < two256.
Proof.
  intros Hs Hk Hsk.
  assert (H0 : 0 <= Z.lxor (Z.shiftl (Z.shiftl 1 k - 1) s) U256_MAX).
  { apply Z.lxor_nonneg. split; intros _; [now vm_compute|].
    apply Z.shiftl_nonneg. rewrite Z.shiftl_1_l.
    assert (0 < 2 ^ k) by (apply Z.pow_pos_nonneg; lia). lia. }
  split; [assumption|].
  apply small_of_bits; [assumption | lia |].
  intros i Hi. rewrite testbit_imask by lia.
  destruct (Z.ltb_spec i 256); [lia | reflexivity].
Qed.

(** Storing [v] in the bits [s .. s + k - 1] of [w]. *)
Lemma field_written (w v s k : Z) :
  0 <= w < two256 -> 0 <= s -> 0 <= k -> s + k <= 256 -> 0 <= v < 2 ^ k ->
  field s k (Z.lor (Z.land w (Z.lxor (Z.shiftl (Z.shiftl 1 k - 1) s) U256_MAX))
                   (v * 2 ^ s)) = v.
Proof.
  intros Hw Hs Hk Hsk Hv. apply Z.bits_inj'. intros i Hi.
  rewrite testbit_field, Z.lor_spec, Z.land_spec, testbit_imask by lia.
  rewrite Z.mul_pow2_bits by lia. replace (i + s - s) with i by lia.
  destruct (Z.ltb_spec i k).
  - replace ((s <=? i + s) && (i + s <? s + k)) with true.
    + cbn. now rewrite !andb_false_r.
    + symmetry. apply andb_true_intro. split; [apply Z.leb_le | apply Z.ltb_lt]; lia.
  - cbn. symmetry. apply (testbit_small v k i); lia.
Qed.

(** The other fields keep their bits. *)
Lemma field_kept (w v s k s' k' : Z) :
  0 <= w < two256 -> 0 <= s -> 0 <= k -> s + k <= 256 -> 0 <= v < 2 ^ k ->
  0 <= s' -> 0 <= k' -> s' + k' <= s \/ s + k <= s' ->
  field s' k' (Z.lor (Z.land w (Z.lxor (Z.shiftl (Z.shiftl 1 k - 1) s) U256_MAX))
                     (v * 2 ^ s)) = field s' k' w.
Proof.
  intros Hw Hs Hk Hsk Hv Hs' Hk' Hd. apply Z.bits_inj'. intros i Hi.
  rewrite !testbit_field, Z.lor_spec, Z.land_spec, testbit_imask by lia.
  destruct (Z.ltb_spec i k'); [| reflexivity]. cbn [andb].
  assert (Hv' : Z.testbit (v * 2 ^ s) (i + s') = false).
  { destruct (Z.lt_ge_cases (i + s') s).
    - apply Z.mul_pow2_bits_low. lia.
    - rewrite Z.mul_pow2_bits by lia. apply (testbit_small v k); lia. }
  rewrite Hv', orb_false_r.
  replace ((s <=? i + s') && (i + s' <? s + k)) with false.
  - cbn. destruct (Z.ltb_spec (i + s') 256); [now rewrite andb_true_r|].
    rewrite (testbit_small w 256 (i + s')) by (assumption || lia).
    reflexivity.
  - symmetry. destruct (Z.leb_spec s (i + s')), (Z.ltb_spec (i + s') (s + k));
      try reflexivity; lia.
Qed.

(** Or-ing [v] into the bits [s .. s + k - 1]. *)
Lemma field_ored (w v s k : Z) :
  0 <= w -> 0 <= s -> 0 <= k -> 0 <= v ->
  field s k (Z.lor w (v * 2 ^ s)) = Z.lor (field s k w) (field 0 k v).
Proof.
  intros Hw Hs Hk Hv. apply Z.bits_inj'. intros i Hi.
  rewrite Z.lor_spec, !testbit_field, Z.lor_spec by lia.
  rewrite Z.mul_pow2_bits by lia.
  replace (i + s - s) with i by lia. rewrite Z.add_0_r.
  now destruct (i <? k).
Qed.

Lemma lor_kept (w v s k s' k' : Z) :
  0 <= s -> 0 <= k -> 0 <= v < 2 ^ k ->
  0 <= s' -> 0 <= k' -> s' + k' <= s \/ s + k <= s' ->
  field s' k' (Z.lor w (v * 2 ^ s)) = field s' k' w.
Proof.
  intros Hs Hk Hv Hs' Hk' Hd. apply Z.bits_inj'. intros i Hi.
  rewrite !testbit_field, Z.lor_spec by lia.
  destruct (Z.ltb_spec i k'); [| reflexivity]. cbn [andb].
  assert (Hv' : Z.testbit (v * 2 ^ s) (i + s') = false).
  { destruct (Z.lt_ge_cases (i + s') s).
    - apply Z.mul_pow2_bits_low. lia.
    - rewrite Z.mul_pow2_bits by lia. apply (testbit_small v k); lia. }
  now rewrite Hv', orb_false_r.
Qed.

End FieldFacts.
Module MemberFacts.

Import EvalFacts.

Lemma pow2_le (a b : Z) : 0 <= a <= b -> 2 ^ a <= 2 ^ b.
Proof. intros H. apply Z.pow_le_mono_r; lia. Qed.

Lemma field_all (s k w : Z) :
  0 <= w < two256 -> 0 <= s -> 0 <= k -> s + k = 256 ->
  w / 2 ^ s = field s k w.
Proof.
  intros Hw Hs Hk Hsk. unfold field. symmetry. apply Z.mod_small.
  assert (Hp : 0 < 2 ^ s) by (apply Z.pow_pos_nonneg; lia).
  split; [apply Z.div_pos; lia|].
  apply Z.div_lt_upper_bound; [assumption|].
  rewrite <- Z.pow_add_r by lia. replace (s + k) with 256 by lia. apply Hw.
Qed.

Lemma field_full (w s k : Z) :
  0 <= w < two256 -> 0 <= s -> 0 <= k -> s + k <= 256 ->
  Z.lor w ((2 ^ k - 1) * 2 ^ s)
  = Z.lor (Z.land w (Z.lxor (Z.shiftl (Z.shiftl 1 k - 1) s) U256_MAX))
          ((2 ^ k - 1) * 2 ^ s).
Proof.
  intros Hw Hs Hk Hsk. apply Z.bits_inj'. intros i Hi.
  rewrite !Z.lor_spec, Z.land_spec, FieldFacts.testbit_imask by lia.
  replace (2 ^ k - 1) with (Z.ones k) by (rewrite Z.ones_equiv; lia).
  destruct (Z.lt_ge_cases i s).
  - rewrite Z.mul_pow2_bits_low by lia.
    destruct (Z.leb_spec s i); [lia|]. cbn.
    destruct (Z.ltb_spec i 256); [now rewrite andb_true_r | lia].
  - rewrite Z.mul_pow2_bits, Z.testbit_ones_nonneg by lia.
    destruct (Z.ltb_spec (i - s) k).
    + now rewrite !orb_true_r.
    + rewrite !orb_false_r.
      destruct (Z.ltb_spec i (s + k)); [lia|]. rewrite andb_false_r. cbn.
      destruct (Z.ltb_spec i 256); [now rewrite andb_true_r|].
      rewrite (FieldFacts.testbit_small w 256 i) by (assumption || lia).
      reflexivity.
Qed.

Lemma field_ones (w s k : Z) :
  0 <= w < two256 -> 0 <= s -> 0 <= k -> s + k <= 256 ->
  Z.lor w ((Z.shiftl 1 k - 1) * 2 ^ s)
  = Z.lor (Z.land w (Z.lxor (Z.shiftl (Z.shiftl 1 k - 1) s) U256_MAX))
          ((Z.shiftl 1 k - 1) * 2 ^ s).
Proof.
  intros Hw Hs Hk Hsk.
  set (im := Z.lxor (Z.shiftl (Z.shiftl 1 k - 1) s) U256_MAX).
  rewrite Z.shiftl_1_l. subst im. now apply field_full.
Qed.

Lemma new_masks (id : string) (offset width : Z) (default : string)
    (m : StructMember.t) :
  StructMember.new id offset width default = Ok m ->
  StructMember.offset m = offset /\
  StructMember.width m = width /\
  StructMember.shift m = 256 - (offset + width) /\
  StructMember.mask m = Literal (VBigInt (Z.shiftl 1 width - 1)) /\
  StructMember.imask m
  = Literal (VBigInt (Z.lxor (Z.shiftl (Z.shiftl 1 width - 1)
                                (256 - (offset + width))) U256_MAX)) /\
  StructMember.mod_ m = Z.shiftl 1 width - 1.
Proof.
  unfold StructMember.new.
  destruct (toBigInt default); cbn [bind]; [| discriminate].
  intros [= <-]. repeat split.
Qed.

Section Access.

Variable rho : EVM.valuation.

Lemma eval_number (v : Z) :
  0 <= v < two256 -> EVM.eval rho (Literal (VNumber v)) = v.
Proof.
  intros Hv.
  rewrite (eval_toBigInt rho (Literal (VNumber v)) v eq_refl).
  - now apply WordFacts.u256_small.
  - apply LiteralFacts.toBigInt_decimal_text. lia.
Qed.

Lemma eval_and (x y : node) :
  EVM.eval rho (And x y) = Z.land (EVM.eval rho x) (EVM.eval rho y).
Proof.
  change (EVM.eval rho (And x y))
    with (EVM.u256 (EVM.and_ (EVM.eval rho x) (EVM.eval rho y))).
  apply WordFacts.u256_small, FieldFacts.land_range.
  - apply eval_range.
  - apply eval_range.
Qed.

Lemma eval_or (x y : node) :
  EVM.eval rho (Or x y) = Z.lor (EVM.eval rho x) (EVM.eval rho y).
Proof.
  change (EVM.eval rho (Or x y))
    with (EVM.u256 (EVM.or_ (EVM.eval rho x) (EVM.eval rho y))).
  apply WordFacts.u256_small, FieldFacts.lor_range; apply eval_range.
Qed.

Lemma eval_shr (s : Z) (x : node) :
  0 <= s < 256 -> EVM.eval rho (Shr s x) = EVM.eval rho x / 2 ^ s.
Proof.
  intros Hs.
  change (EVM.eval rho (Shr s x))
    with (EVM.u256 (EVM.shr (EVM.eval rho (Literal (VNumber s)))
                      (EVM.eval rho x))).
  assert (H256 : 256 < two256) by reflexivity.
  rewrite eval_number by lia. unfold EVM.shr.
  destruct (Z.ltb_spec s 256); [| lia].
  pose proof (eval_range rho x) as Rx.
  assert (Hp : 0 < 2 ^ s) by (apply Z.pow_pos_nonneg; lia).
  apply WordFacts.u256_small. split; [apply Z.div_pos; lia|].
  apply Z.div_lt_upper_bound; [assumption|]. nia.
Qed.

Lemma eval_shl (s k : Z) (x : node) :
  0 <= s -> 0 <= k -> s + k <= 256 -> s < 256 ->
  EVM.eval rho x < 2 ^ k ->
  EVM.eval rho (Shl s x) = EVM.eval rho x * 2 ^ s.
Proof.
  intros Hs Hk Hsk Hs' Hx.
  change (EVM.eval rho (Shl s x))
    with (EVM.u256 (EVM.shl (EVM.eval rho (Literal (VNumber s)))
                      (EVM.eval rho x))).
  assert (H256 : 256 < two256) by reflexivity.
  rewrite eval_number by lia. unfold EVM.shl.
  destruct (Z.ltb_spec s 256); [| lia].
  pose proof (eval_range rho x) as Rx.
  assert (Hp : 0 < 2 ^ s) by (apply Z.pow_pos_nonneg; lia).
  assert (Hb : EVM.eval rho x * 2 ^ s < two256).
  { apply Z.lt_le_trans with (m := 2 ^ k * 2 ^ s); [nia|].
    rewrite <- Z.pow_add_r by lia. unfold two256. apply pow2_le. lia. }
  rewrite WordFacts.u256_idem. apply WordFacts.u256_small. nia.
Qed.

Lemma eval_byte (p : Z) (x : node) :
  0 <= p < 32 ->
  EVM.eval rho (Byte p x) = (EVM.eval rho x / 2 ^ (8 * (31 - p))) mod 256.
Proof.
  intros Hp.
  change (EVM.eval rho (Byte p x))
    with (EVM.u256 (EVM.byte (EVM.eval rho (Literal (VNumber p)))
                      (EVM.eval rho x))).
  assert (H256 : 256 < two256) by reflexivity.
  rewrite eval_number by lia. unfold EVM.byte.
  destruct (Z.ltb_spec p 32); [| lia].
  apply WordFacts.u256_small.
  pose proof (Z.mod_pos_bound (EVM.eval rho x / 2 ^ (8 * (31 - p))) 256
                ltac:(lia)). lia.
Qed.

Lemma eval_mask (k : Z) :
  0 <= k <= 256 ->
  EVM.eval rho (Literal (VBigInt (Z.shiftl 1 k - 1))) = 2 ^ k - 1.
Proof.
  intros Hk. rewrite eval_big, Z.shiftl_1_l.
  assert (0 < 2 ^ k) by (apply Z.pow_pos_nonneg; lia).
  assert (2 ^ k <= two256) by (apply pow2_le; lia).
  apply WordFacts.u256_small. lia.
Qed.

Lemma eval_imask (s k : Z) :
  0 <= s -> 0 <= k -> s + k <= 256 ->
  EVM.eval rho
    (Literal (VBigInt (Z.lxor (Z.shiftl (Z.shiftl 1 k - 1) s) U256_MAX)))
  = Z.lxor (Z.shiftl (Z.shiftl 1 k - 1) s) U256_MAX.
Proof.
  intros Hs Hk Hsk. rewrite eval_big.
  apply WordFacts.u256_small, FieldFacts.imask_nonneg; assumption.
Qed.

Lemma eval_placed (v s k : Z) :
  0 <= s -> 0 <= k -> s + k <= 256 -> 0 <= v < 2 ^ k ->
  EVM.eval rho (Literal (VBigInt (Z.shiftl v s))) = v * 2 ^ s.
Proof.
  intros Hs Hk Hsk Hv. rewrite eval_big, Z.shiftl_mul_pow2 by lia.
  assert (Hp : 0 < 2 ^ s) by (apply Z.pow_pos_nonneg; lia).
  apply WordFacts.u256_small. split; [nia|].
  apply Z.lt_le_trans with (m := 2 ^ k * 2 ^ s); [nia|].
  rewrite <- Z.pow_add_r by lia. apply pow2_le. lia.
Qed.

End Access.

(** The node that [read] builds, evaluated. *)
Lemma read_field (rho : EVM.valuation) (id : string)
    (offset width : Z) (default : string) (m : StructMember.t)
    (name : node) :
  StructMember.new id offset width default = Ok m ->
  0 <= offset -> 0 < width -> offset + width <= 256 ->
  EVM.eval rho (MemberAccess.read m name)
  = field (256 - (offset + width)) width (EVM.eval rho name).
Proof.
  intros Hnew Ho Hw Hsum.
  destruct (MemberFacts.new_masks _ _ _ _ _ Hnew)
    as (Eo' & Ew' & Es' & Em' & _ & _).
  unfold MemberAccess.read. rewrite Eo', Ew', Es', Em'.
  clear Hnew Eo' Ew' Es' Em'.
  set (s := 256 - (offset + width)).
  assert (Hs : 0 <= s < 256) by (unfold s; lia).
  pose proof (EvalFacts.eval_range rho name) as Rn.
  destruct (Z.eqb_spec s 0) as [E0 | E0].
  { rewrite MemberFacts.eval_and, MemberFacts.eval_mask by lia.
    rewrite E0. unfold field. rewrite Z.pow_0_r, Z.div_1_r.
    replace (2 ^ width - 1) with (Z.ones width)
      by (rewrite Z.ones_equiv; lia).
    apply Z.land_ones. lia. }
  destruct (Z.eqb_spec offset 0) as [Eo | Eo].
  { rewrite MemberFacts.eval_shr by assumption.
    apply MemberFacts.field_all; (assumption || unfold s; lia). }
  destruct ((width =? 8) && (Z.land offset 7 =? 0)) eqn:Eb.
  { apply andb_prop in Eb as [E8 E7].
    apply Z.eqb_eq in E8. apply Z.eqb_eq in E7. subst width.
    assert (Hmod : offset mod 8 = 0).
    { rewrite <- E7. symmetry. apply (Z.land_ones offset 3). lia. }
    assert (Hdiv : offset = 8 * (offset / 8)).
    { rewrite (Z.div_mod offset 8) at 1 by lia. lia. }
    rewrite MemberFacts.eval_byte by lia.
    unfold field, s. replace (8 * (31 - offset / 8)) with (256 - (offset + 8))
      by lia. reflexivity. }
  rewrite MemberFacts.eval_and, MemberFacts.eval_mask,
    MemberFacts.eval_shr by lia.
  unfold field.
  replace (2 ^ width - 1) with (Z.ones width) by (rewrite Z.ones_equiv; lia).
  apply Z.land_ones. lia.
Qed.

End MemberFacts.

(** X8: reading a struct member yields the bits of the member: in each of
    its four forms ([and] with the mask, [shr], [byte], or [and] of [shr])
    the node that [read] builds evaluates to the [width] bits of the word
    that start [256 - (offset + width)] bits above the least significant
    one. *)
Theorem member_read_is_field (rho : EVM.valuation) (id : string)
    (offset width : Z) (default : string) (m : StructMember.t)
    (name : node) :
  StructMember.new id offset width default = Ok m ->
  0 <= offset -> 0 < width -> offset + width <= 256 ->
  EVM.eval rho (MemberAccess.read m name)
  = field (256 - (offset + width)) width (EVM.eval rho name).
Proof.
  exact (MemberFacts.read_field rho id offset width default m name).
Qed.

(** Witness: the member [prefix] of the README's struct, 24 bits at
    offset 64, read from the variable [x]. *)
Lemma member_read_is_field_witness :
  EVM.eval all_zero (MemberAccess.read prefix_member (Identifier "x"))
  = field (256 - (64 + 24)) 24 (EVM.eval all_zero (Identifier "x")).
Proof.
  apply (member_read_is_field all_zero "prefix" 64 24 "0x160014"
           prefix_member (Identifier "x")); [reflexivity | lia | lia | lia].
Defined.
(** X9: writing a struct member and reading it back gives the value
    written, and every other bit range of the word is left as it was,
    provided the value fits the width of the member (the code does not
    mask it).  This holds for each form of [write]: a literal zero, a
    literal of all ones, another literal, and an expression with or
    without a shift. *)
Theorem member_write_then_read (rho : EVM.valuation) (id : string)
    (offset width : Z) (default : string) (m : StructMember.t)
    (name value : node) :
  StructMember.new id offset width default = Ok m ->
  0 <= offset -> 0 < width -> offset + width <= 256 ->
  EVM.wf value = true ->
  EVM.eval rho value < 2 ^ width ->
  exists rhs,
    MemberAccess.write m name value = Ok (Assign (value_of name) rhs) /\
    field (256 - (offset + width)) width (EVM.eval rho rhs)
    = EVM.eval rho value /\
    forall s' k',
      0 <= s' -> 0 <= k' ->
      s' + k' <= 256 - (offset + width) \/ 256 - offset <= s' ->
      field s' k' (EVM.eval rho rhs) = field s' k' (EVM.eval rho name).
Proof.
  intros Hnew Ho Hw Hsum Hwf Hfit.
  destruct (MemberFacts.new_masks _ _ _ _ _ Hnew)
    as (_ & _ & Es' & _ & Ei' & Ed').
  unfold MemberAccess.write. rewrite Es', Ei', Ed'.
  clear Hnew Es' Ei' Ed'.
  set (s := 256 - (offset + width)).
  assert (Hs : 0 <= s < 256) by (unfold s; lia).
  assert (Hsk : s + width <= 256) by (unfold s; lia).
  assert (Hends : forall s', 256 - offset <= s' -> s + width <= s')
    by (intros; unfold s; lia).
  pose proof (EvalFacts.eval_range rho name) as Rn.
  pose proof (EvalFacts.eval_range rho value) as Rv.
  assert (Hstore : forall rhs,
            EVM.eval rho rhs
            = Z.lor (Z.land (EVM.eval rho name)
                       (Z.lxor (Z.shiftl (Z.shiftl 1 width - 1) s) U256_MAX))
                    (EVM.eval rho value * 2 ^ s) ->
            field s width (EVM.eval rho rhs) = EVM.eval rho value /\
            forall s' k',
              0 <= s' -> 0 <= k' -> s' + k' <= s \/ 256 - offset <= s' ->
              field s' k' (EVM.eval rho rhs)
              = field s' k' (EVM.eval rho name)).
  { intros rhs ->. split.
    - apply FieldFacts.field_written; lia.
    - intros s' k' Hs' Hk' Hd. apply FieldFacts.field_kept; try lia.
      all: destruct Hd as [Hd | Hd]; [now left | right; now apply Hends]. }
  destruct (isLiteral value) eqn:Hl.
  - rewrite (EvalFacts.eval_literal rho value Hl Hwf). cbn [bind].
    destruct (Z.eqb_spec (EVM.eval rho value) 0) as [E0 | E0].
    { eexists. split; [reflexivity|]. apply Hstore.
      rewrite MemberFacts.eval_and, MemberFacts.eval_imask by lia.
      now rewrite E0, Z.mul_0_l, Z.lor_0_r. }
    destruct (Z.eqb_spec (EVM.eval rho value) (Z.shiftl 1 width - 1))
      as [E1 | E1].
    { eexists. split; [reflexivity|]. apply Hstore.
      rewrite (MemberFacts.eval_or rho name).
      rewrite (MemberFacts.eval_placed rho _ s width) by lia.
      rewrite E1. apply MemberFacts.field_ones; lia. }
    eexists. split; [reflexivity|]. apply Hstore.
    rewrite MemberFacts.eval_or, MemberFacts.eval_and,
      MemberFacts.eval_imask by lia.
    now rewrite (MemberFacts.eval_placed rho _ s width) by lia.
  - destruct (Z.eqb_spec s 0) as [E0 | E0].
    { eexists. split; [reflexivity|]. apply Hstore.
      rewrite MemberFacts.eval_or, MemberFacts.eval_and,
        MemberFacts.eval_imask by lia.
      now rewrite E0, Z.pow_0_r, Z.mul_1_r. }
    eexists. split; [reflexivity|]. apply Hstore.
    rewrite MemberFacts.eval_or, MemberFacts.eval_and,
      MemberFacts.eval_imask by lia.
    now rewrite (MemberFacts.eval_shl rho s width) by lia.
Qed.

(** Witness: [x->prefix := y] where [y] is 0. *)
Lemma member_write_then_read_witness :
  exists rhs,
    MemberAccess.write prefix_member (Identifier "x") (Identifier "y")
    = Ok (Assign "x" rhs) /\
    field (256 - (64 + 24)) 24 (EVM.eval all_zero rhs)
    = EVM.eval all_zero (Identifier "y") /\
    forall s' k',
      0 <= s' -> 0 <= k' ->
      s' + k' <= 256 - (64 + 24) \/ 256 - 64 <= s' ->
      field s' k' (EVM.eval all_zero rhs)
      = field s' k' (EVM.eval all_zero (Identifier "x")).
Proof.
  apply (member_write_then_read all_zero "prefix" 64 24 "0x160014"
           prefix_member (Identifier "x") (Identifier "y"));
    [reflexivity | lia | lia | lia | reflexivity | reflexivity].
Defined.

(** X10: [put] or-s the value into the member: the new word reads, at
    the member, as the bitwise or of what was there and the value, and
    every other bit range is left as it was, provided the value fits the
    width; for a literal zero no statement is made at all. *)
Theorem member_put_ors (rho : EVM.valuation) (id : string)
    (offset width : Z) (default : string) (m : StructMember.t)
    (name value : node) :
  StructMember.new id offset width default = Ok m ->
  0 <= offset -> 0 < width -> offset + width <= 256 ->
  EVM.wf value = true ->
  EVM.eval rho value < 2 ^ width ->
  (MemberAccess.put m name value = Ok Null /\ EVM.eval rho value = 0) \/
  exists rhs,
    MemberAccess.put m name value = Ok (Assign (value_of name) rhs) /\
    field (256 - (offset + width)) width (EVM.eval rho rhs)
    = Z.lor (field (256 - (offset + width)) width (EVM.eval rho name))
            (EVM.eval rho value) /\
    forall s' k',
      0 <= s' -> 0 <= k' ->
      s' + k' <= 256 - (offset + width) \/ 256 - offset <= s' ->
      field s' k' (EVM.eval rho rhs) = field s' k' (EVM.eval rho name).
Proof.
  intros Hnew Ho Hw Hsum Hwf Hfit.
  destruct (MemberFacts.new_masks _ _ _ _ _ Hnew)
    as (_ & _ & Es' & _ & _ & _).
  unfold MemberAccess.put. rewrite Es'. clear Hnew Es'.
  set (s := 256 - (offset + width)).
  assert (Hs : 0 <= s < 256) by (unfold s; lia).
  assert (Hsk : s + width <= 256) by (unfold s; lia).
  assert (Hends : forall s', 256 - offset <= s' -> s + width <= s')
    by (intros; unfold s; lia).
  pose proof (EvalFacts.eval_range rho name) as Rn.
  pose proof (EvalFacts.eval_range rho value) as Rv.
  assert (Hstore : forall rhs,
            EVM.eval rho rhs
            = Z.lor (EVM.eval rho name) (EVM.eval rho value * 2 ^ s) ->
            field s width (EVM.eval rho rhs)
            = Z.lor (field s width (EVM.eval rho name)) (EVM.eval rho value) /\
            forall s' k',
              0 <= s' -> 0 <= k' -> s' + k' <= s \/ 256 - offset <= s' ->
              field s' k' (EVM.eval rho rhs)
              = field s' k' (EVM.eval rho name)).
  { intros rhs ->. split.
    - rewrite FieldFacts.field_ored by lia. f_equal.
      unfold field. rewrite Z.pow_0_r, Z.div_1_r. apply Z.mod_small. lia.
    - intros s' k' Hs' Hk' Hd.
      apply (FieldFacts.lor_kept _ _ s width); try lia.
      all: destruct Hd as [Hd | Hd]; [now left | right; now apply Hends]. }
  destruct (isLiteral value) eqn:Hl.
  - rewrite (EvalFacts.eval_literal rho value Hl Hwf). cbn [bind].
    destruct (Z.eqb_spec (EVM.eval rho value) 0) as [E0 | E0];
      [left; now split|].
    right. eexists. split; [reflexivity|]. apply Hstore.
    rewrite (MemberFacts.eval_or rho name).
    now rewrite (MemberFacts.eval_placed rho _ s width) by lia.
  - right. destruct (Z.eqb_spec s 0) as [E0 | E0].
    { eexists. split; [reflexivity|]. apply Hstore.
      rewrite (MemberFacts.eval_or rho name).
      now rewrite E0, Z.pow_0_r, Z.mul_1_r. }
    eexists. split; [reflexivity|]. apply Hstore.
    rewrite (MemberFacts.eval_or rho name).
    now rewrite (MemberFacts.eval_shl rho s width) by lia.
Qed.

(** Witness: [x->prefix |= y] where [y] is 0. *)
Lemma member_put_ors_witness :
  (MemberAccess.put prefix_member (Identifier "x") (Identifier "y") = Ok Null /\
   EVM.eval all_zero (Identifier "y") = 0) \/
  exists rhs,
    MemberAccess.put prefix_member (Identifier "x") (Identifier "y")
    = Ok (Assign "x" rhs) /\
    field (256 - (64 + 24)) 24 (EVM.eval all_zero rhs)
    = Z.lor (field (256 - (64 + 24)) 24 (EVM.eval all_zero (Identifier "x")))
            (EVM.eval all_zero (Identifier "y")) /\
    forall s' k',
      0 <= s' -> 0 <= k' ->
      s' + k' <= 256 - (64 + 24) \/ 256 - 64 <= s' ->
      field s' k' (EVM.eval all_zero rhs)
      = field s' k' (EVM.eval all_zero (Identifier "x")).
Proof.
  apply (member_put_ors all_zero "prefix" 64 24 "0x160014"
           prefix_member (Identifier "x") (Identifier "y"));
    [reflexivity | lia | lia | lia | reflexivity | reflexivity].
Defined.

(** ** Byte swaps *)

Module SwapFacts.

Ltac bits :=
  repeat progress
    (rewrite ?Z.lor_spec, ?Z.land_spec, ?Z.shiftl_spec, ?Z.shiftr_spec by lia;
     cbn - [Z.testbit Z.land Z.lor Z.shiftl Z.shiftr];
     repeat match goal with
            | |- context [Z.testbit ?a (Z.neg ?p)] =>
                change (Z.testbit a (Z.neg p)) with false
            end);
  repeat match goal with
         | |- context [Z.testbit (Z.pos ?p) ?i] =>
             let b := eval vm_compute in (Z.testbit (Z.pos p) i) in
             change (Z.testbit (Z.pos p) i) with b
         end;
  rewrite ?andb_true_r, ?andb_false_r, ?orb_false_r, ?orb_false_l;
  try reflexivity.

Ltac each_of j :=
  match goal with
  | H : 0 <= j < 8 |- _ =>
      let C := fresh "C" in
      assert (j = 0 \/ j = 1 \/ j = 2 \/ j = 3 \/ j = 4 \/ j = 5 \/ j = 6 \/
              j = 7) as C by lia;
      clear H;
      repeat (destruct C as [C | C]; [subst j|]); [..| subst j]
  end.

Lemma bswap16_bit (x k j : Z) :
  0 <= k < 2 -> 0 <= j < 8 ->
  Z.testbit (Fold.bswap16 x) (8 * k + j) = Z.testbit x (8 * (1 - k) + j).
Proof.
  intros Hk Hj. unfold Fold.bswap16.
  assert (Hk' : k = 0 \/ k = 1) by lia.
  destruct Hk' as [-> | ->]; each_of j; bits.
Qed.

Lemma bswap32_bit (x k j : Z) :
  0 <= k < 4 -> 0 <= j < 8 ->
  Z.testbit (Fold.bswap32 x) (8 * k + j) = Z.testbit x (8 * (3 - k) + j).
Proof.
  intros Hk Hj. unfold Fold.bswap32.
  assert (Hk' : k = 0 \/ k = 1 \/ k = 2 \/ k = 3) by lia.
  destruct Hk' as [-> | [-> | [-> | ->]]]; each_of j; bits.
Qed.

Lemma bswap64_bit (x k j : Z) :
  0 <= k < 8 -> 0 <= j < 8 ->
  Z.testbit (Fold.bswap64 x) (8 * k + j) = Z.testbit x (8 * (7 - k) + j).
Proof.
  intros Hk Hj. unfold Fold.bswap64.
  assert (Hk' : k = 0 \/ k = 1 \/ k = 2 \/ k = 3 \/ k = 4 \/ k = 5 \/ k = 6 \/
                k = 7) by lia.
  destruct Hk' as [-> | [-> | [-> | [-> | [-> | [-> | [-> | ->]]]]]]];
    each_of j; bits.
Qed.

(** The last step of a swap bounds the result. *)
Lemma step_range (y lo hi w : Z) :
  8 <= w -> 0 <= lo < 2 ^ (w - 8) -> 0 <= hi < 2 ^ w ->
  0 <= Z.lor (Z.shiftl (Z.land y lo) 8) (Z.shiftr (Z.land y hi) 8) < 2 ^ w.
Proof.
  intros Hw Hlo Hhi.
  assert (H0 : 0 <= Z.lor (Z.shiftl (Z.land y lo) 8)
                      (Z.shiftr (Z.land y hi) 8)).
  { apply Z.lor_nonneg. split.
    - apply Z.shiftl_nonneg, Z.land_nonneg. now right.
    - apply Z.shiftr_nonneg, Z.land_nonneg. now right. }
  split; [assumption|].
  apply FieldFacts.small_of_bits; [assumption | lia|].
  intros i Hi.
  rewrite Z.lor_spec, Z.shiftl_spec, Z.shiftr_spec, !Z.land_spec by lia.
  rewrite (FieldFacts.testbit_small lo (w - 8) (i - 8)) by lia.
  rewrite (FieldFacts.testbit_small hi w (i + 8)) by lia.
  now rewrite !andb_false_r.
Qed.

Lemma field_swapped (f : Z -> Z) (n x k : Z) :
  (forall k j, 0 <= k < n -> 0 <= j < 8 ->
               Z.testbit (f x) (8 * k + j) = Z.testbit x (8 * (n - 1 - k) + j)) ->
  0 <= k < n ->
  field (8 * k) 8 (f x) = field (8 * (n - 1 - k)) 8 x.
Proof.
  intros H Hk. apply Z.bits_inj'. intros j Hj.
  rewrite !FieldFacts.testbit_field by lia.
  destruct (Z.ltb_spec j 8); [| reflexivity]. cbn [andb].
  rewrite (Z.add_comm j (8 * k)), (Z.add_comm j (8 * (n - 1 - k))).
  apply H; lia.
Qed.

End SwapFacts.

(** X11: the byte swaps reverse bytes: byte [k] of [bswap16 x],
    [bswap32 x], [bswap64 x] (counted from the least significant one) is
    byte [1 - k], [3 - k], [7 - k] of [x], and the result has no bit above
    its 2, 4 or 8 bytes, whatever [x] is. *)
Theorem bswap_reverses_bytes (x : Z) :
  (0 <= Fold.bswap16 x < 2 ^ 16 /\
   forall k, 0 <= k < 2 ->
             field (8 * k) 8 (Fold.bswap16 x) = field (8 * (1 - k)) 8 x) /\
  (0 <= Fold.bswap32 x < 2 ^ 32 /\
   forall k, 0 <= k < 4 ->
             field (8 * k) 8 (Fold.bswap32 x) = field (8 * (3 - k)) 8 x) /\
  (0 <= Fold.bswap64 x < 2 ^ 64 /\
   forall k, 0 <= k < 8 ->
             field (8 * k) 8 (Fold.bswap64 x) = field (8 * (7 - k)) 8 x).
Proof.
  repeat split.
  - apply (SwapFacts.step_range x 255 65280 16); lia.
  - apply (SwapFacts.step_range x 255 65280 16); lia.
  - intros k Hk.
    apply (SwapFacts.field_swapped Fold.bswap16 2 x k); [| lia].
    intros k' j Hk' Hj. replace (2 - 1 - k') with (1 - k') by lia.
    now apply SwapFacts.bswap16_bit.
  - unfold Fold.bswap32.
    apply (SwapFacts.step_range _ 16711935 4278255360 32); lia.
  - unfold Fold.bswap32.
    apply (SwapFacts.step_range _ 16711935 4278255360 32); lia.
  - intros k Hk.
    apply (SwapFacts.field_swapped Fold.bswap32 4 x k); [| lia].
    intros k' j Hk' Hj. replace (4 - 1 - k') with (3 - k') by lia.
    now apply SwapFacts.bswap32_bit.
  - unfold Fold.bswap64.
    apply (SwapFacts.step_range _ 71777214294589695 18374966859414961920 64);
      lia.
  - unfold Fold.bswap64.
    apply (SwapFacts.step_range _ 71777214294589695 18374966859414961920 64);
      lia.
  - intros k Hk.
    apply (SwapFacts.field_swapped Fold.bswap64 8 x k); [| lia].
    intros k' j Hk' Hj. replace (8 - 1 - k') with (7 - k') by lia.
    now apply SwapFacts.bswap64_bit.
Qed.

(** ** Versions *)

Module VersionFacts.

Lemma append_nil_r (s : string) : (s ++ "")%string = s.
Proof. induction s as [|c s IH]; cbn; [reflexivity | now rewrite IH]. Qed.

Lemma append_assoc (a b c : string) :
  ((a ++ b) ++ c)%string = (a ++ (b ++ c))%string.
Proof. induction a as [|x a IH]; cbn; [reflexivity | now rewrite IH]. Qed.

Lemma span_join (p : ascii -> bool) (s : string) :
  s = (fst (Str.span p s) ++ snd (Str.span p s))%string.
Proof.
  induction s as [|c s IH]; cbn; [reflexivity|].
  destruct (p c); [| reflexivity].
  destruct (Str.span p s) as [a b]. cbn in *. now rewrite <- IH.
Qed.

Lemma span_app (p : ascii -> bool) (ds rest : string) :
  Str.all p ds = true -> stops p rest = true ->
  Str.span p (ds ++ rest) = (ds, rest).
Proof.
  intros Hall Hrest. induction ds as [|c ds IH]; cbn.
  - destruct rest as [|r rest]; [reflexivity|].
    cbn in Hrest. cbn. now destruct (p r).
  - cbn in Hall. apply andb_prop in Hall as [Hc Hds].
    rewrite Hc, (IH Hds). reflexivity.
Qed.

Lemma span_stops (p : ascii -> bool) (s : string) :
  stops p (snd (Str.span p s)) = true.
Proof.
  induction s as [|c s IH]; cbn; [reflexivity|].
  destruct (p c) eqn:Hc.
  - destruct (Str.span p s) as [a b]. exact IH.
  - cbn. now rewrite Hc.
Qed.

Lemma group_ok_all :
  forallb group_ok (map Z.of_nat (seq 0 256)) = true.
Proof. vm_compute. reflexivity. Qed.

Lemma group_ok_small (a : Z) : 0 <= a < 256 -> group_ok a = true.
Proof.
  intros Ha. pose proof group_ok_all as H.
  rewrite forallb_forall in H. apply H.
  apply in_map_iff. exists (Z.to_nat a). split; [lia|].
  apply in_seq. lia.
Qed.

Lemma component_text (a : Z) (rest : string) :
  0 <= a < 256 -> stops Str.is_digit rest = true ->
  Semver.component (Num.toString 10 a ++ rest) = Some (a, rest).
Proof.
  intros Ha Hrest. pose proof (group_ok_small a Ha) as Hok.
  unfold group_ok in Hok. cbv zeta in Hok.
  apply andb_prop in Hok as [Hok Hnum]. apply andb_prop in Hok as [Hall Hform].
  unfold Semver.component. rewrite (span_app _ _ _ Hall Hrest).
  destruct (Num.toString 10 a) as [|c ds'] eqn:E; [discriminate|].
  rewrite Hform.
  destruct (Num.parse_number 10 (String c ds')) as [n|]; [| discriminate].
  apply Z.eqb_eq in Hnum. now subst n.
Qed.

Lemma is_digit_cases (c : ascii) :
  Str.is_digit c = true ->
  c = "0"%char \/ c = "1"%char \/ c = "2"%char \/ c = "3"%char \/
  c = "4"%char \/ c = "5"%char \/ c = "6"%char \/ c = "7"%char \/
  c = "8"%char \/ c = "9"%char.
Proof.
  destruct c as [[] [] [] [] [] [] [] []]; vm_compute; intros H;
    try discriminate H; tauto.
Qed.

Ltac digit c H :=
  apply is_digit_cases in H;
  destruct H as [H | [H | [H | [H | [H | [H | [H | [H | [H | H]]]]]]]]];
  subst c.

(** A group reads back as the text of its value. *)
Lemma group_text (c : ascii) (ds' : string) (n : Z) :
  Str.all Str.is_digit (String c ds') = true ->
  String.eqb (String c ds') "0"
  || (negb (Str.is_zero_char c) && Nat.leb (String.length ds') 2) = true ->
  Num.parse_number 10 (String c ds') = Some n ->
  Num.toString 10 n = String c ds' /\ 0 <= n < 1000.
Proof.
  intros Hall Hform Hn.
  apply orb_prop in Hform as [H0 | Hform].
  { apply String.eqb_eq in H0. rewrite H0 in *. injection Hn as <-.
    split; [reflexivity | lia]. }
  apply andb_prop in Hform as [Hc Hlen].
  cbn [Str.all] in Hall. apply andb_prop in Hall as [Hd Hall].
  destruct ds' as [|c1 [|c2 [|? ?]]]; try discriminate Hlen.
  - digit c Hd; try discriminate Hc; injection Hn as <-;
      (split; [reflexivity | lia]).
  - cbn [Str.all] in Hall. apply andb_prop in Hall as [Hd1 _].
    digit c Hd; try discriminate Hc; digit c1 Hd1; injection Hn as <-;
      (split; [reflexivity | lia]).
  - cbn [Str.all] in Hall. apply andb_prop in Hall as [Hd1 Hall].
    apply andb_prop in Hall as [Hd2 _].
    digit c Hd; try discriminate Hc; digit c1 Hd1; digit c2 Hd2;
      injection Hn as <-; (split; [reflexivity | lia]).
Qed.

Lemma component_inv (s : string) (n : Z) (rest : string) :
  Semver.component s = Some (n, rest) ->
  s = (Num.toString 10 n ++ rest)%string /\ 0 <= n < 1000 /\
  stops Str.is_digit rest = true.
Proof.
  unfold Semver.component. intros H.
  pose proof (span_join Str.is_digit s) as Hj.
  pose proof (ParserFacts.span_all Str.is_digit s) as Hall.
  pose proof (span_stops Str.is_digit s) as Hst.
  destruct (Str.span Str.is_digit s) as [ds r]. cbn [fst snd] in *.
  destruct ds as [|c ds']; [discriminate|].
  destruct (String.eqb (String c ds') "0" || _) eqn:Hform; [| discriminate].
  destruct (Num.parse_number 10 (String c ds')) as [m|] eqn:Hm;
    [| discriminate].
  injection H as <- <-.
  destruct (group_text c ds' m Hall Hform Hm) as [Ht Hr].
  rewrite Ht. auto.
Qed.

Lemma lor_byte (v b : Z) :
  0 <= v -> 0 <= b < 256 -> Z.lor (Z.shiftl v 8) b = v * 256 + b.
Proof.
  intros Hv Hb. rewrite Z.shiftl_mul_pow2 by lia. change (2 ^ 8) with 256.
  rewrite <- (Z.add_lor_land (v * 256) b).
  assert (E : Z.land (v * 256) b = 0); [| lia].
  apply Z.bits_inj'. intros i Hi. rewrite Z.land_spec, Z.bits_0.
  change 256 with (2 ^ 8).
  destruct (Z.lt_ge_cases i 8).
  - now rewrite Z.mul_pow2_bits_low by lia.
  - rewrite (FieldFacts.testbit_small b 8 i) by (change (2 ^ 8) with 256; lia).
    apply andb_false_r.
Qed.

Lemma pack3 (str : string) (a b c : Z) :
  0 <= a < 256 -> 0 <= b < 256 -> 0 <= c < 256 ->
  Semver.pack str [a; b; c] 0 = Ok (a * 65536 + b * 256 + c).
Proof.
  intros Ha Hb Hc. cbn [Semver.pack].
  destruct (Z.leb_spec 256 a); [lia|].
  destruct (Z.leb_spec 256 b); [lia|].
  destruct (Z.leb_spec 256 c); [lia|].
  rewrite Z.shiftl_0_l, Z.lor_0_l.
  rewrite (lor_byte a b), (lor_byte (a * 256 + b) c) by lia. f_equal. lia.
Qed.

Lemma pack3_inv (str : string) (a b c v : Z) :
  0 <= a -> 0 <= b -> 0 <= c ->
  Semver.pack str [a; b; c] 0 = Ok v ->
  a < 256 /\ b < 256 /\ c < 256.
Proof.
  intros Ha Hb Hc. cbn [Semver.pack].
  destruct (Z.leb_spec 256 a); [discriminate|].
  destruct (Z.leb_spec 256 b); [discriminate|].
  destruct (Z.leb_spec 256 c); [discriminate|]. auto.
Qed.

Lemma regex_text (a b c : Z) :
  0 <= a < 256 -> 0 <= b < 256 -> 0 <= c < 256 ->
  Semver.VERSION_REGEX (version_text a b c) = Some [a; b; c].
Proof.
  intros Ha Hb Hc. unfold Semver.VERSION_REGEX, version_text.
  rewrite component_text by (assumption || reflexivity).
  cbn [Str.strip_prefix append Ascii.eqb Bool.eqb].
  rewrite component_text by (assumption || reflexivity).
  cbn [Str.strip_prefix append Ascii.eqb Bool.eqb].
  rewrite <- (append_nil_r (Num.toString 10 c)).
  rewrite component_text by (assumption || reflexivity).
  reflexivity.
Qed.

Lemma strip_dot (r r' : string) :
  Str.strip_prefix "." r = Some r' -> r = String "." r'.
Proof.
  intros H. apply EvalFacts.strip_prefix_app in H. exact H.
Qed.

Lemma shiftr_major (a b c : Z) :
  0 <= a -> 0 <= b < 256 -> 0 <= c < 256 ->
  Z.shiftr (a * 65536 + b * 256 + c) 16 = a.
Proof.
  intros Ha Hb Hc. rewrite Z.shiftr_div_pow2 by lia.
  change (2 ^ 16) with 65536. symmetry.
  apply Z.div_unique with (r := b * 256 + c); lia.
Qed.

Lemma shiftr_minor (a b c : Z) :
  0 <= a -> 0 <= b < 256 -> 0 <= c < 256 ->
  Z.shiftr (a * 65536 + b * 256 + c) 8 = a * 256 + b.
Proof.
  intros Ha Hb Hc. rewrite Z.shiftr_div_pow2 by lia.
  change (2 ^ 8) with 256. symmetry.
  apply Z.div_unique with (r := c); lia.
Qed.

Lemma parseVersion_text (a b c : Z) :
  0 <= a < 256 -> 0 <= b < 256 -> 0 <= c < 256 ->
  Semver.parseVersion (version_text a b c)
  = Ok (a * 65536 + b * 256 + c).
Proof.
  intros Ha Hb Hc. unfold Semver.parseVersion.
  rewrite regex_text by assumption. now apply pack3.
Qed.

End VersionFacts.

(** X12: [parseVersion] accepts exactly the texts [a.b.c] whose three
    parts are numbers below 256 written in decimal without leading zeros,
    and returns [a * 65536 + b * 256 + c]; every other text is refused. *)
Theorem parseVersion_reads_triples (str : string) (v : Z) :
  Semver.parseVersion str = Ok v <->
  exists a b c,
    0 <= a < 256 /\ 0 <= b < 256 /\ 0 <= c < 256 /\
    str = version_text a b c /\ v = a * 65536 + b * 256 + c.
Proof.
  split.
  - unfold Semver.parseVersion, Semver.VERSION_REGEX.
    destruct (Semver.component str) as [[a r1]|] eqn:Ha; [| discriminate].
    destruct (VersionFacts.component_inv _ _ _ Ha) as (E1 & Ra & _).
    destruct (Str.strip_prefix "." r1) as [r1'|] eqn:D1; [| discriminate].
    apply VersionFacts.strip_dot in D1.
    destruct (Semver.component r1') as [[b r2]|] eqn:Hb; [| discriminate].
    destruct (VersionFacts.component_inv _ _ _ Hb) as (E2 & Rb & _).
    destruct (Str.strip_prefix "." r2) as [r2'|] eqn:D2; [| discriminate].
    apply VersionFacts.strip_dot in D2.
    destruct (Semver.component r2') as [[c r3]|] eqn:Hc; [| discriminate].
    destruct (VersionFacts.component_inv _ _ _ Hc) as (E3 & Rc & _).
    destruct r3; [| discriminate].
    intros Hp.
    destruct (VersionFacts.pack3_inv str a b c v ltac:(lia) ltac:(lia)
                ltac:(lia) Hp) as (La & Lb & Lc).
    exists a, b, c. repeat split; try lia.
    + rewrite E1, D1, E2, D2, E3, VersionFacts.append_nil_r.
      reflexivity.
    + rewrite VersionFacts.pack3 in Hp by lia. congruence.
  - intros (a & b & c & Ha & Hb & Hc & -> & ->).
    now apply VersionFacts.parseVersion_text.
Qed.

Module MatchFacts.

Import VersionFacts.

Lemma substring_all (s : string) : String.substring 0 (String.length s) s = s.
Proof. induction s as [|c s IH]; cbn; [reflexivity | now rewrite IH]. Qed.

Lemma first_digit (a : Z) (rest : string) :
  0 <= a < 256 ->
  exists c s, (Num.toString 10 a ++ rest)%string = String c s /\
              Str.is_digit c = true.
Proof.
  intros Ha. pose proof (group_ok_small a Ha) as Hok.
  unfold group_ok in Hok. cbv zeta in Hok.
  apply andb_prop in Hok as [Hok _]. apply andb_prop in Hok as [Hall Hform].
  destruct (Num.toString 10 a) as [|c ds]; [discriminate Hform|].
  cbn [Str.all] in Hall. apply andb_prop in Hall as [Hc _].
  exists c, (ds ++ rest)%string. now split.
Qed.

Lemma prefix_none (a b c : Z) :
  0 <= a < 256 -> Semver.SEMVER_PREFIX (version_text a b c) = "".
Proof.
  intros Ha. unfold version_text.
  destruct (first_digit a ("." ++ Num.toString 10 b ++ "."
                           ++ Num.toString 10 c) Ha) as (x & s & -> & Hx).
  apply is_digit_cases in Hx.
  destruct Hx as [H | [H | [H | [H | [H | [H | [H | [H | [H | H]]]]]]]]];
    subst x; reflexivity.
Qed.

Lemma pattern_plain (a b c : Z) :
  0 <= a < 256 -> 0 <= b < 256 -> 0 <= c < 256 ->
  Semver.parsePattern (version_text a b c)
  = Ok ("=", a * 65536 + b * 256 + c).
Proof.
  intros Ha Hb Hc. unfold Semver.parsePattern.
  rewrite prefix_none by assumption.
  unfold Semver.substring_from. cbn [String.length].
  rewrite Nat.sub_0_r, substring_all.
  now rewrite parseVersion_text by assumption.
Qed.

Lemma pattern_prefixed (pre : string) (a b c : Z) :
  In pre ["^"; "~"; "<="; ">="; "<"; ">"; "="] ->
  0 <= a < 256 -> 0 <= b < 256 -> 0 <= c < 256 ->
  Semver.parsePattern (pre ++ version_text a b c)
  = Ok (pre, a * 65536 + b * 256 + c).
Proof.
  intros Hpre Ha Hb Hc. unfold Semver.parsePattern.
  assert (Hp : Semver.SEMVER_PREFIX (pre ++ version_text a b c) = pre).
  { cbn [In] in Hpre.
    destruct Hpre as [<- | [<- | [<- | [<- | [<- | [<- | [<- | []]]]]]]];
      try reflexivity.
    - unfold version_text.
      destruct (first_digit a ("." ++ Num.toString 10 b ++ "."
                               ++ Num.toString 10 c) Ha) as (x & s & -> & Hx).
      apply is_digit_cases in Hx.
      destruct Hx as [H | [H | [H | [H | [H | [H | [H | [H | [H | H]]]]]]]]];
        subst x; reflexivity.
    - unfold version_text.
      destruct (first_digit a ("." ++ Num.toString 10 b ++ "."
                               ++ Num.toString 10 c) Ha) as (x & s & -> & Hx).
      apply is_digit_cases in Hx.
      destruct Hx as [H | [H | [H | [H | [H | [H | [H | [H | [H | H]]]]]]]]];
        subst x; reflexivity. }
  rewrite Hp.
  assert (Hs : Semver.substring_from (String.length pre)
                 (pre ++ version_text a b c) = version_text a b c).
  { unfold Semver.substring_from. cbn [In] in Hpre.
    destruct Hpre as [<- | [<- | [<- | [<- | [<- | [<- | [<- | []]]]]]]];
      cbn [String.length append String.substring Nat.sub];
      rewrite ?Nat.sub_0_r; apply substring_all. }
  rewrite Hs, parseVersion_text by assumption.
  cbn [In] in Hpre.
  destruct Hpre as [<- | [<- | [<- | [<- | [<- | [<- | [<- | []]]]]]]];
    reflexivity.
Qed.

End MatchFacts.

(** X13: [semver.match] compares versions part by part: with [^] the
    first parts must be equal and the version must not be below the
    pattern; with [~] the first two parts must be equal and the third not
    below; [<], [<=], [>], [>=], [=] and a pattern without prefix compare
    the triples in lexicographic order. *)
Theorem semver_match_compares (a b c a' b' c' : Z) :
  0 <= a < 256 -> 0 <= b < 256 -> 0 <= c < 256 ->
  0 <= a' < 256 -> 0 <= b' < 256 -> 0 <= c' < 256 ->
  let v := version_text a b c in
  let p := version_text a' b' c' in
  let lt := version_lt a b c a' b' c' in
  let eq := version_eq a b c a' b' c' in
  Semver.match_ v ("^" ++ p) = Ok ((a =? a') && negb lt) /\
  Semver.match_ v ("~" ++ p) = Ok ((a =? a') && (b =? b') && (c' <=? c)) /\
  Semver.match_ v ("<" ++ p) = Ok lt /\
  Semver.match_ v ("<=" ++ p) = Ok (lt || eq) /\
  Semver.match_ v (">" ++ p) = Ok (negb (lt || eq)) /\
  Semver.match_ v (">=" ++ p) = Ok (negb lt) /\
  Semver.match_ v ("=" ++ p) = Ok eq /\
  Semver.match_ v p = Ok eq.
Proof.
  intros Ha Hb Hc Ha' Hb' Hc' v p lt eq. subst v p lt eq.
  unfold Semver.match_.
  rewrite !MatchFacts.pattern_prefixed by (assumption || (cbn; tauto)).
  rewrite MatchFacts.pattern_plain by assumption.
  cbn [bind]. rewrite VersionFacts.parseVersion_text by assumption.
  cbn [bind String.eqb Ascii.eqb Bool.eqb].
  rewrite !VersionFacts.shiftr_major, !VersionFacts.shiftr_minor by lia.
  unfold version_lt, version_eq.
  repeat split; f_equal;
    repeat match goal with
           | |- context [Z.eqb ?x ?y] => destruct (Z.eqb_spec x y)
           | |- context [Z.ltb ?x ?y] => destruct (Z.ltb_spec x y)
           | |- context [Z.leb ?x ?y] => destruct (Z.leb_spec x y)
           end; cbn; try reflexivity; lia.
Qed.

(** Witness: 1.2.3 against the patterns built on 1.0.7. *)
Lemma semver_match_compares_witness :
  Semver.match_ "1.2.3" "^1.0.7" = Ok true /\
  Semver.match_ "1.2.3" "~1.0.7" = Ok false /\
  Semver.match_ "1.2.3" "<1.0.7" = Ok false /\
  Semver.match_ "1.2.3" "<=1.0.7" = Ok false /\
  Semver.match_ "1.2.3" ">1.0.7" = Ok true /\
  Semver.match_ "1.2.3" ">=1.0.7" = Ok true /\
  Semver.match_ "1.2.3" "=1.0.7" = Ok false /\
  Semver.match_ "1.2.3" "1.0.7" = Ok false.
Proof.
  apply (semver_match_compares 1 2 3 1 0 7); lia.
Defined.

(** ** Methods and their parameters *)

Module LayoutFacts.

Import Method.

Lemma map_get_app (m : list (string * MethodParam.t)) (n : string)
    (p : MethodParam.t) (k : string) :
  map_get (m ++ [(k, p)]) n
  = match map_get m n with
    | Some q => Some q
    | None => if String.eqb k n then Some p else None
    end.
Proof.
  induction m as [|[k' q] m IH]; cbn [app map_get]; [reflexivity|].
  destruct (String.eqb k' n); [reflexivity | exact IH].
Qed.

(** A name already bound stays bound to the same parameter. *)
Lemma params_loop_keeps (items : method_items) :
  forall offset st st' n p,
    params_loop items offset st = Ok st' ->
    map_get (st_map st) n = Some p ->
    map_get (st_map st') n = Some p.
Proof.
  induction items as [|[ty name] items IH]; intros offset st st' n p H Hn.
  - cbn in H. now injection H as <-.
  - cbn [params_loop] in H.
    destruct name as [n0|].
    + destruct (map_has (st_map st) n0); [discriminate H|].
      cbn [bind] in H. eapply IH; [exact H|]. cbn [st_map].
      now rewrite map_get_app, Hn.
    + cbn [bind] in H. eapply IH; [exact H|]. exact Hn.
Qed.

(** A name bound before the loop cannot be declared again. *)
Lemma params_loop_fresh (items : method_items) :
  forall offset st st' i ty n,
    params_loop items offset st = Ok st' ->
    nth_error items i = Some (ty, Some n) ->
    map_get (st_map st) n = None.
Proof.
  induction items as [|[ty0 name0] items IH];
    intros offset st st' i ty n H Hi.
  - destruct i; discriminate Hi.
  - cbn [params_loop] in H. destruct i as [|i].
    + cbn in Hi. injection Hi as -> ->.
      unfold map_has in H. destruct (map_get (st_map st) n); [discriminate H|].
      reflexivity.
    + cbn [nth_error] in Hi.
      destruct name0 as [n0|].
      * destruct (map_has (st_map st) n0); [discriminate H|].
        cbn [bind] in H.
        pose proof (IH _ _ _ _ _ _ H Hi) as Hf. cbn [st_map] in Hf.
        rewrite map_get_app in Hf.
        destruct (map_get (st_map st) n); [discriminate Hf | reflexivity].
      * cbn [bind] in H. exact (IH _ _ _ _ _ _ H Hi).
Qed.

Lemma params_loop_binds (items : method_items) :
  forall offset st st' i ty n,
    params_loop items offset st = Ok st' ->
    nth_error items i = Some (ty, Some n) ->
    map_get (st_map st') n
    = Some (MethodParam.new (Some n) ty (offset + 32 * Z.of_nat i)).
Proof.
  induction items as [|[ty0 name0] items IH];
    intros offset st st' i ty n H Hi.
  - destruct i; discriminate Hi.
  - pose proof (params_loop_fresh _ _ _ _ _ _ _ H Hi) as Hfresh.
    cbn [params_loop] in H. destruct i as [|i].
    + cbn in Hi. injection Hi as -> ->.
      unfold map_has in H. rewrite Hfresh in H. cbn [bind] in H.
      eapply params_loop_keeps; [exact H|]. cbn [st_map].
      rewrite map_get_app, Hfresh, String.eqb_refl.
      now rewrite Z.mul_0_r, Z.add_0_r.
    + cbn [nth_error] in Hi.
      replace (offset + 32 * Z.of_nat (S i))
        with (offset + 32 + 32 * Z.of_nat i) by lia.
      destruct name0 as [n0|].
      * destruct (map_has (st_map st) n0); [discriminate H|].
        cbn [bind] in H. exact (IH _ _ _ _ _ _ H Hi).
      * cbn [bind] in H. exact (IH _ _ _ _ _ _ H Hi).
Qed.

Lemma init_params (keccak256 : list Z -> list Z)
    (node : MethodDeclaration.t) (m : Method.t) :
  init keccak256 node = Ok m ->
  exists ps,
    params_loop (MethodDeclaration.params node) 4 empty_state = Ok ps /\
    map m = st_map ps /\ params m = st_params ps /\
    name m = MethodDeclaration.name node /\
    mutability m = MethodDeclaration.mutability node /\
    type m = (if String.eqb (MethodDeclaration.name node) "receive"
                 || String.eqb (MethodDeclaration.name node) "fallback"
              then MethodDeclaration.name node else "function").
Proof.
  unfold init.
  destruct (includes_char _ _); [discriminate|]. cbn [bind].
  match goal with
  | |- context [bind ?r _] => destruct r as [[]|]; [| discriminate]
  end.
  cbn [bind].
  match goal with
  | |- context [bind ?r _] => destruct r as [[]|]; [| discriminate]
  end.
  cbn [bind].
  destruct (params_loop _ 4 empty_state) as [ps|]; [| discriminate].
  cbn [bind]. intros [= <-]. exists ps. repeat split.
Qed.

End LayoutFacts.

(** X14: calldata layout.  In every method that [Method] accepts, the
    parameter declared at position [i] (from 0) under the name [n] sits at
    byte [4 + 32 * i] of the calldata: [&calldata.n] is rewritten to that
    number and [calldata.n] to the read of a parameter of its type at
    that offset, that is [calldataload(4 + 32 * i)], shifted right for
    [bytesN] and [function], or [add(calldataload(4 + 32 * i), 4)] for an
    array. *)
Theorem calldata_layout (keccak256 : list Z -> list Z)
    (node : MethodDeclaration.t) (m : Method.t) (i : nat) (ty : ABIType.t)
    (n : string) :
  Method.init keccak256 node = Ok m ->
  nth_error (MethodDeclaration.params node) i = Some (ty, Some n) ->
  let pos := 4 + 32 * Z.of_nat i in
  Transformer.CallDataIdentifier (Some m) n true
  = Ok (Literal (VNumber pos)) /\
  Transformer.CallDataIdentifier (Some m) n false
  = Ok (if ABIType.array ty
        then Add (CallDataLoad pos) (Literal (VNumber 4))
        else if (ABIType.width ty =? 256)
             then CallDataLoad pos
             else if String.eqb (ABIType.base ty) "bytes"
                     || String.eqb (ABIType.base ty) "function"
                  then Shr (256 - ABIType.width ty) (CallDataLoad pos)
                  else CallDataLoad pos).
Proof.
  intros Hinit Hi pos.
  destruct (LayoutFacts.init_params _ _ _ Hinit) as (ps & Hl & Hmap & _).
  pose proof (LayoutFacts.params_loop_binds _ _ _ _ _ _ _ Hl Hi) as Hget.
  fold pos in Hget.
  unfold Transformer.CallDataIdentifier. rewrite Hmap, Hget.
  split; [reflexivity|].
  unfold MethodParam.read, MethodParam.decode, MethodParam.isPadded,
    MethodParam.new.
  cbn [MethodParam.array MethodParam.width MethodParam.base
       MethodParam.offset].
  destruct (ABIType.array ty); [reflexivity|]. cbn [orb].
  destruct (ABIType.width ty =? 256); [reflexivity|].
  reflexivity.
Qed.

(** Witness: [amount], the second parameter of the README's method. *)
Lemma calldata_layout_witness :
  Transformer.CallDataIdentifier (Some (foobar_method digest_stub)) "amount"
    true = Ok (Literal (VNumber (4 + 32 * Z.of_nat 1))) /\
  Transformer.CallDataIdentifier (Some (foobar_method digest_stub)) "amount"
    false = Ok (CallDataLoad (4 + 32 * Z.of_nat 1)).
Proof.
  exact (calldata_layout digest_stub foobar (foobar_method digest_stub) 1
           {| ABIType.value := "uint64"; ABIType.base := "uint";
              ABIType.width := 64; ABIType.array := false |}
           "amount" eq_refl eq_refl).
Defined.

Module GuardFacts.

Import EvalFacts.

(** Running a list of statements: the part that has run without ending
    the execution hands its trace to the rest. *)
Lemma exec_block_app (machine : Exec.machine) (a b : list node)
    (tr : list string) :
  Exec.exec machine (Block (a ++ b)) tr
  = match Exec.exec machine (Block a) tr with
    | (Some h, tr') => (Some h, tr')
    | (None, tr') => Exec.exec machine (Block b) tr'
    end.
Proof.
  unfold Block. cbn [Exec.exec]. revert tr.
  induction a as [|s a IH]; intros tr; cbn [app]; [reflexivity|].
  destruct (Exec.exec machine s tr) as [[h|] tr']; [reflexivity|].
  apply IH.
Qed.

Lemma exec_block_cons (machine : Exec.machine) (s : node) (l : list node)
    (tr : list string) :
  Exec.exec machine (Block (s :: l)) tr
  = match Exec.exec machine s tr with
    | (Some h, tr') => (Some h, tr')
    | (None, tr') => Exec.exec machine (Block l) tr'
    end.
Proof. reflexivity. Qed.

Lemma exec_guard (machine : Exec.machine) (tr : list string) :
  Exec.exec machine (Block [RequireZero CallValue]) tr
  = if EVM.eval (Exec.rho machine) CallValue =? 0 then (None, tr)
    else (Some Exec.Reverted, tr).
Proof.
  cbn [Block RequireZero If Exec.exec].
  now destruct (EVM.eval (Exec.rho machine) CallValue =? 0).
Qed.

Lemma exec_require_zero (machine : Exec.machine) (e : node)
    (tr : list string) :
  Exec.exec machine (RequireZero e) tr
  = if EVM.eval (Exec.rho machine) e =? 0 then (None, tr)
    else (Some Exec.Reverted, tr).
Proof.
  cbn [Block RequireZero If Exec.exec].
  now destruct (EVM.eval (Exec.rho machine) e =? 0).
Qed.

End GuardFacts.

(** X15: the size check of a method.  The check prelude of a function
    method reverts, before anything else of the arm has run, a call whose
    calldata is not exactly [4 + 32 * n] bytes long, [n] being the number
    of parameters; when one of the parameters is an array, a call whose
    calldata is shorter than that. *)
Theorem calldatasize_guard (m : Method.t) (check rest : list node)
    (machine : Exec.machine) :
  Method.isFunction m = true ->
  Method.check m = Ok check ->
  let size := 4 + Z.of_nat (List.length (Method.params m)) * 32 in
  let given := EVM.eval (Exec.rho machine) CallDataSize in
  size < two256 ->
  (if Method.array m then given < size else given <> size) ->
  Exec.exec machine (Block (check ++ rest)) [] = (Some Exec.Reverted, []).
Proof.
  intros Hf Hc size given Hsize Hbad.
  assert (H0 : 0 <= size) by (unfold size; lia).
  unfold Method.check in Hc. rewrite Hf in Hc. cbn [negb] in Hc.
  fold size in Hc. clearbody size.
  destruct (Method.param_checks (Method.params m)) as [cs|];
    cbn [bind] in Hc; [| discriminate].
  injection Hc as <-.
  rewrite <- !app_assoc, GuardFacts.exec_block_app.
  assert (Hguard : forall g,
            g = [RequireZero CallValue] \/ g = [] ->
            (exists tr, Exec.exec machine (Block g) []
                        = (Some Exec.Reverted, []) /\ tr = @nil string) \/
            Exec.exec machine (Block g) [] = (None, [])).
  { intros g [-> | ->]; [| now right].
    rewrite GuardFacts.exec_guard.
    destruct (_ =? 0); [now right | left; now exists []]. }
  destruct (Hguard (if negb (opt_is (Method.mutability m) "payable")
                    then [RequireZero CallValue] else []))
    as [(tr & -> & _) | ->];
    [destruct (negb _); auto | reflexivity |].
  assert (Hlit : EVM.eval (Exec.rho machine) (Literal (VNumber size)) = size).
  { apply MemberFacts.eval_number. lia. }
  pose proof (EvalFacts.eval_range (Exec.rho machine) CallDataSize) as Rg.
  fold given in Rg.
  assert (Hrev : Exec.exec machine
                   (if Method.array m
                    then RequireGte CallDataSize (Literal (VNumber size))
                    else RequireEq CallDataSize (Literal (VNumber size)))
                   [] = (Some Exec.Reverted, [])).
  { destruct (Method.array m).
    - unfold RequireGte.
      rewrite GuardFacts.exec_require_zero.
      change (EVM.eval (Exec.rho machine)
                (Lt CallDataSize (Literal (VNumber size))))
        with (EVM.u256 (EVM.lt given
                (EVM.eval (Exec.rho machine) (Literal (VNumber size))))).
      rewrite Hlit. unfold EVM.lt.
      destruct (Z.ltb_spec given size); [reflexivity | lia].
    - unfold RequireEq.
      rewrite GuardFacts.exec_require_zero, ConditionFacts.eval_xor.
      fold given. rewrite Hlit.
      destruct (Z.eqb_spec (Z.lxor given size) 0) as [E | E];
        [| reflexivity].
      apply Z.lxor_eq in E. contradiction. }
  cbn [app]. now rewrite GuardFacts.exec_block_cons, Hrev.
Qed.

(** Witness: the README's method, three parameters with an array, called
    with no calldata. *)
Lemma calldatasize_guard_witness :
  Exec.exec {| Exec.rho := all_zero; Exec.after_call := fun _ _ => None |}
    (Block ([ RequireZero CallValue;
              RequireGte CallDataSize (Literal (VNumber 100));
              RequireZero (Shr 32 (CallDataLoad 4));
              RequireZero (Shr 64 (CallDataLoad 36));
              Call "__check_calldata_array"
                [Literal (VNumber 68); Literal (VNumber 32)] ]
            ++ [Call "__method_foobar" []])) []
  = (Some Exec.Reverted, []).
Proof.
  apply (calldatasize_guard (foobar_method digest_stub)
           [ RequireZero CallValue;
             RequireGte CallDataSize (Literal (VNumber 100));
             RequireZero (Shr 32 (CallDataLoad 4));
             RequireZero (Shr 64 (CallDataLoad 36));
             Call "__check_calldata_array"
               [Literal (VNumber 68); Literal (VNumber 32)] ]
           [Call "__method_foobar" []]
           {| Exec.rho := all_zero; Exec.after_call := fun _ _ => None |});
    reflexivity.
Defined.

(** X16: the range check of a parameter.  For a parameter that is not an
    array, of a type other than [intN] and narrower than 256 bits, the
    statement that [check] builds reverts exactly when the word does not
    fit the type: for [bytesN] and [function] (left-aligned) when one of
    the low [256 - width] bits is set, otherwise (right-aligned) when the
    word is [2^width] or more. *)
Theorem param_check_rejects (p : MethodParam.t) (expr c : node)
    (machine : Exec.machine) (tr : list string) :
  MethodParam.array p = false ->
  0 < MethodParam.width p < 256 ->
  String.eqb (MethodParam.base p) "int" = false ->
  MethodParam.check p expr = Ok c ->
  let v := EVM.eval (Exec.rho machine) expr in
  let w := MethodParam.width p in
  let fits :=
    if MethodParam.isPadded p then v mod 2 ^ (256 - w) =? 0
    else v <? 2 ^ w in
  Exec.exec machine c tr
  = if fits then (None, tr) else (Some Exec.Reverted, tr).
Proof.
  intros Ha Hw Hint Hc v w fits. subst fits w.
  unfold MethodParam.check in Hc. rewrite Ha, Hint in Hc.
  unfold assert_ in Hc.
  destruct (Z.ltb_spec 0 (MethodParam.width p)); [| lia].
  cbn [bind] in Hc.
  destruct (Z.eqb_spec (MethodParam.width p) 256); [lia|].
  unfold MethodParam.isPadded. rewrite Ha. cbn [orb].
  destruct (Z.eqb_spec (MethodParam.width p) 256); [lia|].
  pose proof (EvalFacts.eval_range (Exec.rho machine) expr) as Rv.
  fold v in Rv.
  set (w := MethodParam.width p) in *.
  assert (Hpw : 0 < 2 ^ w) by (apply Z.pow_pos_nonneg; lia).
  assert (H256 : 256 < two256) by reflexivity.
  destruct (String.eqb (MethodParam.base p) "bytes"
            || String.eqb (MethodParam.base p) "function").
  - assert (E : c = RequireZero (Shl w expr)) by congruence. subst c.
    rewrite GuardFacts.exec_require_zero.
    change (EVM.eval (Exec.rho machine) (Shl w expr))
      with (EVM.u256 (EVM.shl (EVM.eval (Exec.rho machine)
                                 (Literal (VNumber w))) v)).
    rewrite MemberFacts.eval_number by lia. unfold EVM.shl.
    destruct (Z.ltb_spec w 256); [| lia].
    rewrite WordFacts.u256_idem. unfold EVM.u256.
    assert (Hsplit : two256 = 2 ^ (256 - w) * 2 ^ w).
    { rewrite <- Z.pow_add_r by lia. unfold two256. f_equal. lia. }
    assert (Hq : 0 < 2 ^ (256 - w)) by (apply Z.pow_pos_nonneg; lia).
    assert (Hmul : (v * 2 ^ w) mod two256 = (v mod 2 ^ (256 - w)) * 2 ^ w).
    { rewrite Hsplit. rewrite Z.mul_mod_distr_r by lia. reflexivity. }
    rewrite Hmul.
    destruct (Z.eqb_spec (v mod 2 ^ (256 - w)) 0) as [E | E].
    + now rewrite E.
    + destruct (Z.eqb_spec (v mod 2 ^ (256 - w) * 2 ^ w) 0); [nia|].
      reflexivity.
  - assert (E : c = RequireZero (Shr w expr)) by congruence. subst c.
    rewrite GuardFacts.exec_require_zero.
    rewrite MemberFacts.eval_shr by lia. fold v.
    destruct (Z.ltb_spec v (2 ^ w)).
    + rewrite Z.div_small by lia. reflexivity.
    + assert (0 < v / 2 ^ w) by (apply Z.div_str_pos; lia).
      destruct (Z.eqb_spec (v / 2 ^ w) 0); [lia | reflexivity].
Qed.

(** Witness: the check of [uint32 id] at a call whose word is 0. *)
Lemma param_check_rejects_witness :
  Exec.exec {| Exec.rho := all_zero; Exec.after_call := fun _ _ => None |}
    (RequireZero (Shr 32 (CallDataLoad 4))) []
  = (None, []).
Proof.
  apply (param_check_rejects
           (MethodParam.new (Some "id")
              {| ABIType.value := "uint32"; ABIType.base := "uint";
                 ABIType.width := 32; ABIType.array := false |} 4)
           (CallDataLoad 4) (RequireZero (Shr 32 (CallDataLoad 4)))
           {| Exec.rho := all_zero; Exec.after_call := fun _ _ => None |} []);
    try reflexivity.
  cbn. lia.
Defined.

(** X17: [encode] and [decode] of a parameter are inverse to each other
    on the words of its type: for a left-aligned type ([bytesN],
    [function]) narrower than 256 bits, decoding the encoded value gives
    the value back when it is below [2^width], and encoding the decoded
    word gives the word back when its low [256 - width] bits are zero;
    for every other type both leave the expression as it is. *)
Theorem param_encode_decode (rho : EVM.valuation) (p : MethodParam.t)
    (x : node) :
  0 < MethodParam.width p <= 256 ->
  let w := MethodParam.width p in
  let v := EVM.eval rho x in
  (MethodParam.isPadded p = false ->
   MethodParam.decode p (ParamCoding.encode p x) = x /\
   ParamCoding.encode p (MethodParam.decode p x) = x) /\
  (MethodParam.isPadded p = true ->
   (v < 2 ^ w ->
    EVM.eval rho (MethodParam.decode p (ParamCoding.encode p x)) = v) /\
   (v mod 2 ^ (256 - w) = 0 ->
    EVM.eval rho (ParamCoding.encode p (MethodParam.decode p x)) = v)).
Proof.
  intros Hw w v. subst w. split.
  - intros Hp. unfold MethodParam.decode, ParamCoding.encode.
    rewrite Hp. now split.
  - intros Hp. unfold MethodParam.decode, ParamCoding.encode. rewrite Hp.
    assert (Hw' : MethodParam.width p < 256).
    { unfold MethodParam.isPadded in Hp.
      destruct (MethodParam.array p); [discriminate|]. cbn [orb] in Hp.
      destruct (Z.eqb_spec (MethodParam.width p) 256); [discriminate | lia]. }
    set (w := MethodParam.width p) in *.
    pose proof (EvalFacts.eval_range rho x) as Rv. fold v in Rv.
    assert (Hpw : 0 < 2 ^ w) by (apply Z.pow_pos_nonneg; lia).
    assert (Hq : 0 < 2 ^ (256 - w)) by (apply Z.pow_pos_nonneg; lia).
    assert (Hsplit : two256 = 2 ^ w * 2 ^ (256 - w)).
    { rewrite <- Z.pow_add_r by lia. unfold two256. f_equal. lia. }
    split.
    + intros Hfit. rewrite MemberFacts.eval_shr by lia.
      rewrite (MemberFacts.eval_shl rho (256 - w) w) by (fold v; lia).
      fold v. now rewrite Z.div_mul by lia.
    + intros Hlow.
      assert (Hd : EVM.eval rho (Shr (256 - w) x) = v / 2 ^ (256 - w))
        by (apply MemberFacts.eval_shr; lia).
      assert (Hlt : v / 2 ^ (256 - w) < 2 ^ w).
      { apply Z.div_lt_upper_bound; lia. }
      rewrite (MemberFacts.eval_shl rho (256 - w) w) by (rewrite ?Hd; lia).
      rewrite Hd.
      pose proof (Z.div_mod v (2 ^ (256 - w)) ltac:(lia)). lia.
Qed.

(** Witness: a [bytes4] parameter and the expression [x], which is 0. *)
Lemma param_encode_decode_witness :
  let p := MethodParam.new None
             {| ABIType.value := "bytes4"; ABIType.base := "bytes";
                ABIType.width := 32; ABIType.array := false |} 4 in
  EVM.eval all_zero (MethodParam.decode p (ParamCoding.encode p (Identifier "x")))
  = EVM.eval all_zero (Identifier "x").
Proof.
  intros p.
  refine (proj1 (proj2 (param_encode_decode all_zero p (Identifier "x") _)
                   eq_refl) _).
  - cbn. lia.
  - reflexivity.
Defined.

(** ** Padding twice *)

Module PadFacts.

Lemma pad_loop_done (fuel : nat) (size needs : Z) (body : list node) :
  needs <= size -> NoInline_.pad_loop fuel size needs body = Some body.
Proof.
  intros H. destruct fuel; cbn [NoInline_.pad_loop];
    destruct (Z.ltb_spec size needs); try lia; reflexivity.
Qed.

Lemma padded_not_inlinable (returns : typed_idents) (k : nat)
    (body : list node) :
  isInlinableExpression returns
    (NBlock (List.repeat NoInline_.pad (S k) ++ body)) = false.
Proof.
  unfold isInlinableExpression. cbn [List.repeat app body_of].
  destruct returns as [|[r o] [|]]; reflexivity.
Qed.

Lemma needs_nonneg (params : typed_idents) (memguard : bool) :
  0 <= NoInline_.needs params memguard.
Proof. destruct params, memguard; cbn; lia. Qed.

(** A function that is large enough and is not a single assignment to its
    return variable is returned as it is. *)
Lemma NoInline_kept (name : string) (params : typed_idents)
    (modifier : option string) (returns : typed_idents) (body : list node)
    (builtin memguard : bool) (s : Z) :
  CodeSize.codeSize (NBlock body) = Ok s ->
  NoInline_.needs params memguard <= s ->
  isInlinableExpression returns (NBlock body) = false ->
  NoInline (NFunctionDefinition name params modifier returns (NBlock body)
              builtin) memguard
  = Ok (NFunctionDefinition name params modifier returns (NBlock body)
          builtin).
Proof.
  intros Hs Hle Hin. unfold NoInline. rewrite Hs, Hin. cbn [bind].
  now rewrite pad_loop_done.
Qed.

Lemma codeSize_assign (lhs : list string) (expr : node) (s : Z) :
  CodeSize.codeSize expr = Ok s ->
  CodeSize.codeSize (NBlock [NAssignment lhs expr]) = Ok s.
Proof.
  unfold CodeSize.codeSize.
  cbn [traverse flat_map CodeSize.walk CodeSize.step bind app].
  rewrite app_nil_r. intros H. exact H.
Qed.

End PadFacts.

(** X18: [NoInline] is idempotent: applied to a function it has returned,
    with the same [memguard], it returns that function unchanged. *)
Theorem NoInline_idempotent
    (name : string) (params : typed_idents) (modifier : option string)
    (returns : typed_idents) (body : list node) (builtin memguard : bool)
    (func' : node) :
  NoInline (NFunctionDefinition name params modifier returns (NBlock body)
              builtin) memguard = Ok func' ->
  NoInline func' memguard = Ok func'.
Proof.
  intros H. pose proof H as H0. unfold NoInline in H.
  destruct (CodeSize.codeSize (NBlock body)) as [s|] eqn:Hs; cbn [bind] in H;
    [| discriminate].
  pose proof (SizeFacts.codeSize_nonneg _ _ Hs) as Hpos.
  pose proof (PadFacts.needs_nonneg params memguard) as Hn.
  set (needs := NoInline_.needs params memguard) in *.
  destruct (isInlinableExpression returns (NBlock body)) eqn:Hin.
  - destruct (SizeFacts.pad_loop_spec needs (Z.to_nat needs)
                (s + 4) [NoInline_.pad] ltac:(lia)) as (k & Hk & Hle & _).
    rewrite Hk in H. cbn [app body_of] in H. injection H as <-.
    change (NoInline_.pad :: List.repeat NoInline_.pad k ++ body)
      with (List.repeat NoInline_.pad (S k) ++ body).
    apply (PadFacts.NoInline_kept _ _ _ _ _ _ _ (s + 4 * Z.of_nat (S k))).
    + now apply (SizeFacts.codeSize_padded (S k)).
    + fold needs. lia.
    + apply PadFacts.padded_not_inlinable.
  - destruct (SizeFacts.pad_loop_spec needs (Z.to_nat needs)
                s [] ltac:(lia)) as (k & Hk & Hle & Hzero).
    rewrite Hk in H. cbn [app] in H. destruct k as [|k].
    + cbn [List.repeat] in H. injection H as <-. exact H0.
    + cbn [List.repeat body_of] in H. injection H as <-.
      change (NoInline_.pad :: List.repeat NoInline_.pad k ++ body)
        with (List.repeat NoInline_.pad (S k) ++ body).
      apply (PadFacts.NoInline_kept _ _ _ _ _ _ _ (s + 4 * Z.of_nat (S k))).
      * now apply (SizeFacts.codeSize_padded (S k)).
      * fold needs. lia.
      * apply PadFacts.padded_not_inlinable.
Qed.

(** Witness: [function f(x) { leave }], padded once and then again. *)
Lemma NoInline_idempotent_witness :
  NoInline (NFunctionDefinition "f" [("x", None)] None []
              (NBlock [NoInline_.pad; NoInline_.pad; NoInline_.pad; NLeave])
              false) false
  = Ok (NFunctionDefinition "f" [("x", None)] None []
          (NBlock [NoInline_.pad; NoInline_.pad; NoInline_.pad; NLeave])
          false).
Proof.
  apply (NoInline_idempotent "f" [("x", None)] (Some "noinline") []
           [NLeave] false false).
  reflexivity.
Defined.

(** X19: [FunctionConstant] returns for every expression that can be
    sized.  The function it builds has no parameter, returns [__ret] and
    has the assignment of the expression to [__ret] behind at least one
    pad, so it is no inlinable expression; its body reaches the threshold
    of a function without parameters, and [NoInline] leaves it as it
    is. *)
Theorem FunctionConstant_needs_no_padding
    (name : string) (expr : node) (memguard : bool) (s : Z) :
  CodeSize.codeSize expr = Ok s ->
  exists (k : nat) (func : node),
    FunctionConstant name expr memguard = Ok func /\
    func = NFunctionDefinition name [] None [("__ret", None)]
             (NBlock (List.repeat NoInline_.pad (S k)
                      ++ [Assign "__ret" expr])) false /\
    isInlinableExpression [("__ret", None)]
      (NBlock (List.repeat NoInline_.pad (S k) ++ [Assign "__ret" expr]))
    = false /\
    (if memguard then 8 else 6) <= s + 4 * Z.of_nat (S k) /\
    NoInline func memguard = Ok func.
Proof.
  intros Hs. pose proof (SizeFacts.codeSize_nonneg _ _ Hs) as Hpos.
  unfold FunctionConstant. rewrite Hs. cbn [bind].
  set (needs := if memguard then 8 else 6).
  assert (Hn : 0 <= needs) by (subst needs; destruct memguard; lia).
  destruct (SizeFacts.pad_loop_spec needs (Z.to_nat needs)
              (4 + s) [NoInline_.pad] ltac:(lia)) as (k & Hk & Hle & _).
  rewrite Hk. exists k. eexists. split; [reflexivity|].
  cbn [app]. change (NoInline_.pad :: List.repeat NoInline_.pad k)
    with (List.repeat NoInline_.pad (S k)).
  split; [reflexivity|].
  split; [apply PadFacts.padded_not_inlinable|].
  split; [lia|].
  apply (PadFacts.NoInline_kept _ _ _ _ _ _ _ (s + 4 * Z.of_nat (S k))).
  - apply (SizeFacts.codeSize_padded (S k)).
    now apply PadFacts.codeSize_assign.
  - change (NoInline_.needs [] memguard) with needs. lia.
  - apply PadFacts.padded_not_inlinable.
Qed.

(** Witness: the constant [1]: size 1, so one pad makes 5 and a second
    one 9. *)
Lemma FunctionConstant_needs_no_padding_witness :
  exists (k : nat) (func : node),
    FunctionConstant "one" (Literal (VNumber 1)) false = Ok func /\
    func = NFunctionDefinition "one" [] None [("__ret", None)]
             (NBlock (List.repeat NoInline_.pad (S k)
                      ++ [Assign "__ret" (Literal (VNumber 1))])) false /\
    isInlinableExpression [("__ret", None)]
      (NBlock (List.repeat NoInline_.pad (S k)
               ++ [Assign "__ret" (Literal (VNumber 1))]))
    = false /\
    6 <= 1 + 4 * Z.of_nat (S k) /\
    NoInline func false = Ok func.
Proof.
  exact (FunctionConstant_needs_no_padding "one" (Literal (VNumber 1)) false 1
           eq_refl).
Defined.

(** ** Struct initialisers *)

Module InitFacts.

Import EvalFacts MemberFacts.

Lemma laid_weaken (hi : Z) (ms : list StructMember.t) :
  forall lo lo', lo' <= lo -> laid lo hi ms -> laid lo' hi ms.
Proof.
  destruct ms as [|m ms]; cbn; intros lo lo' Hle H; [lia|].
  destruct H as (H1 & H2 & H3 & H4). repeat split; (lia || assumption).
Qed.

Lemma laid_app (hi : Z) (a : list StructMember.t) :
  forall lo mid b,
    laid lo mid a -> laid mid hi b -> laid lo hi (a ++ b).
Proof.
  induction a as [|m a IH]; cbn; intros lo mid b Ha Hb.
  - now apply (laid_weaken hi b mid lo).
  - destruct Ha as (H1 & H2 & H3 & H4). repeat split; try assumption.
    now apply (IH _ mid).
Qed.

Lemma laid_le (hi : Z) (ms : list StructMember.t) :
  forall lo, laid lo hi ms -> lo <= hi.
Proof.
  induction ms as [|m ms IH]; cbn; intros lo H; [assumption|].
  destruct H as (H1 & H2 & _ & H4). apply IH in H4. lia.
Qed.

(** The members that the loop of [init] adds are laid out from the
    offset it starts at up to the offset it ends at. *)
Lemma init_loop_laid (sname : string) (nodes : list StructMemberNode.t) :
  forall offset n members offset' n' members',
    Struct.init_loop sname nodes offset n members = Ok (offset', n', members') ->
    exists added, members' = members ++ added /\ laid offset offset' added.
Proof.
  induction nodes as [|member rest IH];
    intros offset n members offset' n' members' H.
  - cbn in H. injection H as <- <- <-. exists []. rewrite app_nil_r.
    split; [reflexivity | cbn; lia].
  - cbn [Struct.init_loop] in H.
    destruct (Struct.type_width _ (StructMemberNode.kind member))
      as [w|] eqn:Hw; cbn [bind] in H; [| discriminate].
    pose proof (StructFacts.type_width_nonneg _ _ _ Hw) as Hw0.
    destruct (String.eqb (StructMemberNode.name member) "+").
    + apply IH in H as (added & -> & Hl). exists added.
      split; [reflexivity|]. apply (laid_weaken _ _ (offset + w)); [lia|].
      exact Hl.
    + destruct (Struct.has members (StructMemberNode.name member));
        [discriminate|].
      destruct (isLiteral (StructMemberNode.value member));
        cbn [negb] in H; [| discriminate].
      destruct (StructMember.new _ offset w _) as [mem|] eqn:Hnew;
        cbn [bind] in H; [| discriminate].
      pose proof (StructFacts.new_layout _ _ _ _ _ Hnew)
        as (Hn1 & Hn2 & Hn3 & Hn4).
      apply IH in H as (added & -> & Hl).
      exists (mem :: added). rewrite <- app_assoc. split; [reflexivity|].
      cbn [laid]. rewrite Hn1, Hn2, Hn3. repeat split; try lia.
      * eexists. exact Hnew.
      * exact Hl.
Qed.

Lemma init_laid (def : StructDefinition.t) (s : Struct.t) :
  Struct.init def = Ok s -> laid 0 256 (Struct.members s).
Proof.
  unfold Struct.init.
  destruct (Struct.init_loop _ _ 0 0 []) as [[[o n] ms]|] eqn:Hl;
    cbn [bind]; [| discriminate].
  apply init_loop_laid in Hl as (added & -> & Hlaid). cbn [app].
  destruct (Z.eqb_spec o 0); cbn [orb]; [discriminate|].
  destruct (Z.ltb_spec 256 o); [discriminate|].
  intros [= <-]. cbn [Struct.members].
  apply (laid_app 256 added 0 o []) in Hlaid; [| cbn; lia].
  now rewrite app_nil_r in Hlaid.
Qed.

(** What [new] has made. *)
Lemma made_shape (m : StructMember.t) (d : string) :
  StructMember.new (StructMember.name m) (StructMember.offset m)
    (StructMember.width m) d = Ok m ->
  0 <= StructMember.width m ->
  StructMember.shift m
  = 256 - (StructMember.offset m + StructMember.width m) /\
  StructMember.mod_ m = 2 ^ StructMember.width m - 1 /\
  0 <= StructMember.value m < 2 ^ StructMember.width m.
Proof.
  intros Hnew Hw.
  destruct (new_masks _ _ _ _ _ Hnew) as (_ & _ & Hs & _ & _ & Hm).
  split; [assumption|]. rewrite Z.shiftl_1_l in Hm. split; [assumption|].
  unfold StructMember.new in Hnew.
  destruct (toBigInt d) as [v|]; cbn [bind] in Hnew; [| discriminate].
  assert (E : StructMember.value m
              = Z.land v (Z.shiftl 1 (StructMember.width m) - 1)).
  { now injection Hnew as <-. }
  rewrite E, Z.shiftl_1_l.
  replace (2 ^ StructMember.width m - 1) with (Z.ones (StructMember.width m))
    by (rewrite Z.ones_equiv; lia).
  rewrite Z.land_ones by lia. apply Z.mod_pos_bound.
  apply Z.pow_pos_nonneg; lia.
Qed.

Section Pack.

Variable rho : EVM.valuation.

Lemma or_all_app (a b : list Z) :
  or_all (a ++ b) = Z.lor (or_all a) (or_all b).
Proof.
  induction a as [|x a IH]; [reflexivity|].
  cbn [app]. unfold or_all in *. cbn [fold_right].
  now rewrite IH, Z.lor_assoc.
Qed.

Lemma fold_left_lor (f : StructMember.t -> Z) (ms : list StructMember.t) :
  forall n,
    fold_left (fun n mem => Z.lor n (f mem)) ms n
    = Z.lor n (or_all (map f ms)).
Proof.
  induction ms as [|m ms IH]; intros n; cbn [fold_left map].
  - unfold or_all. cbn [fold_right]. now rewrite Z.lor_0_r.
  - rewrite IH. unfold or_all. cbn [fold_right]. now rewrite Z.lor_assoc.
Qed.

Lemma u256_lor (a b : Z) :
  EVM.u256 (Z.lor a b) = Z.lor (EVM.u256 a) (EVM.u256 b).
Proof.
  unfold EVM.u256, two256. rewrite <- !Z.land_ones by lia.
  apply Z.land_lor_distr_l.
Qed.

Lemma u256_or_all (l : list Z) :
  EVM.u256 (or_all l) = or_all (map EVM.u256 l).
Proof.
  induction l as [|x l IH]; [reflexivity|].
  cbn [map]. unfold or_all in *. cbn [fold_right].
  now rewrite u256_lor, IH.
Qed.

Lemma eval_shl_any (s : Z) (x : node) :
  0 <= s <= 256 ->
  EVM.eval rho (Shl s x) = EVM.u256 (EVM.eval rho x * 2 ^ s).
Proof.
  intros Hs.
  change (EVM.eval rho (Shl s x))
    with (EVM.u256 (EVM.shl (EVM.eval rho (Literal (VNumber s)))
                      (EVM.eval rho x))).
  assert (H256 : 256 < two256) by reflexivity.
  rewrite eval_number by lia. unfold EVM.shl.
  destruct (Z.ltb_spec s 256).
  - apply WordFacts.u256_idem.
  - replace s with 256 by lia. unfold EVM.u256.
    now rewrite WordFacts.shiftl_high by lia.
Qed.

(** One step of the accumulation or-s the shifted argument into the
    word. *)
Lemma eval_accumulate (m : StructMember.t) (acc value : node) :
  0 <= StructMember.shift m <= 256 ->
  EVM.eval rho (StructMember.accumulate m acc value)
  = Z.lor (EVM.eval rho acc) (late rho (m, value)).
Proof.
  intros Hs. unfold StructMember.accumulate, late. cbn [fst snd].
  pose proof (eval_range rho value) as Rv.
  destruct (isZero acc) eqn:Hz.
  - rewrite (isZero_eval rho acc Hz), Z.lor_0_l.
    destruct (Z.eqb_spec (StructMember.shift m) 0) as [E | E].
    + rewrite E, Z.pow_0_r, Z.mul_1_r. symmetry.
      now apply WordFacts.u256_small.
    + now apply eval_shl_any.
  - destruct (Z.eqb_spec (StructMember.shift m) 0) as [E | E].
    + change (StructMember.Or acc value) with (Or acc value).
      rewrite eval_or, E, Z.pow_0_r, Z.mul_1_r.
      now rewrite WordFacts.u256_small.
    + change (StructMember.Or acc (Shl (StructMember.shift m) value))
        with (Or acc (Shl (StructMember.shift m) value)).
      now rewrite eval_or, eval_shl_any.
Qed.

Lemma eval_accumulated (st : Struct.stack) :
  Forall (fun p => 0 <= StructMember.shift (fst p) <= 256) st ->
  forall acc,
    EVM.eval rho
      (fold_left (fun expr p => StructMember.accumulate (fst p) expr (snd p))
         st acc)
    = Z.lor (EVM.eval rho acc) (or_all (map (late rho) st)).
Proof.
  induction 1 as [|p st Hp Hst IH]; intros acc; cbn [fold_left map].
  - unfold or_all. cbn [fold_right]. now rewrite Z.lor_0_r.
  - rewrite IH, eval_accumulate by assumption.
    unfold or_all. cbn [fold_right]. destruct p. now rewrite Z.lor_assoc.
Qed.

End Pack.

End InitFacts.
Module PackFacts.

Import EvalFacts MemberFacts InitFacts.

Ltac lor_ac :=
  apply Z.bits_inj'; intros ?i ?Hi; rewrite ?Z.lor_spec;
  repeat match goal with
         | |- context [Z.testbit ?x ?j] => destruct (Z.testbit x j)
         end;
  reflexivity.

Lemma laid_head (lo hi : Z) (m : StructMember.t) (ms : list StructMember.t) :
  0 <= lo -> hi <= 256 -> laid lo hi (m :: ms) ->
  0 <= StructMember.offset m /\
  0 <= StructMember.width m <= 256 /\
  StructMember.offset m + StructMember.width m <= hi /\
  StructMember.shift m
  = 256 - (StructMember.offset m + StructMember.width m) /\
  StructMember.mod_ m = 2 ^ StructMember.width m - 1 /\
  0 <= StructMember.value m < 2 ^ StructMember.width m.
Proof.
  intros Hlo Hhi (H1 & H2 & (d & Hd) & H4).
  apply laid_le in H4.
  destruct (made_shape m d Hd H2) as (Hs & Hm & Hv).
  repeat split; (lia || assumption).
Qed.

Lemma laid_tail (lo hi : Z) (m : StructMember.t) (ms : list StructMember.t) :
  laid lo hi (m :: ms) ->
  laid (StructMember.offset m + StructMember.width m) hi ms.
Proof. now intros (_ & _ & _ & H). Qed.

Section Pack.

Variable rho : EVM.valuation.

Lemma placed_share (lo hi : Z) (m : StructMember.t)
    (ms : list StructMember.t) :
  0 <= lo -> hi <= 256 -> laid lo hi (m :: ms) ->
  StructMember.placed m = StructMember.value m * 2 ^ StructMember.shift m.
Proof.
  intros Hlo Hhi H.
  destruct (laid_head _ _ _ _ Hlo Hhi H) as (Ho & Hw & Hsum & Hs & _).
  unfold StructMember.placed. apply Z.shiftl_mul_pow2. lia.
Qed.

Lemma shares_nil (hi : Z) (ms : list StructMember.t) :
  forall lo, 0 <= lo -> hi <= 256 -> laid lo hi ms ->
  map StructMember.placed ms = shares rho ms [].
Proof.
  induction ms as [|m ms IH]; intros lo Hlo Hhi H; [reflexivity|].
  cbn [map shares List.tl].
  rewrite (placed_share _ _ _ _ Hlo Hhi H).
  destruct (laid_head _ _ _ _ Hlo Hhi H) as (Ho & Hw & _).
  now rewrite (IH (StructMember.offset m + StructMember.width m) ltac:(lia) Hhi (laid_tail _ _ _ _ H)).
Qed.

Lemma literal_share (a : node) (v w : Z) :
  isLiteral a = true -> toBigInt (value_of a) = Ok v -> 0 <= w <= 256 ->
  Z.land v (2 ^ w - 1) = EVM.eval rho a mod 2 ^ w.
Proof.
  intros Hl Hv Hw. rewrite (eval_toBigInt rho a v Hl Hv).
  replace (2 ^ w - 1) with (Z.ones w) by (rewrite Z.ones_equiv; lia).
  rewrite Z.land_ones by lia. unfold EVM.u256.
  symmetry. apply Z.mod_mod_divide.
  exists (2 ^ (256 - w)). rewrite <- Z.pow_add_r by lia.
  unfold two256. f_equal. lia.
Qed.

(** The two loops of [fold]: the constant and the stack hold, together,
    the shares of all the members. *)
Lemma fold_loop_shares (args : list node) :
  forall ms lo n st n' st',
    0 <= lo -> laid lo 256 ms ->
    Forall (fun p => 0 <= StructMember.shift (fst p) <= 256) st ->
    Struct.fold_loop ms args n st = Ok (n', st') ->
    Forall (fun p => 0 <= StructMember.shift (fst p) <= 256) st' /\
    Z.lor (EVM.u256 n') (or_all (map (late rho) st'))
    = Z.lor (Z.lor (EVM.u256 n) (or_all (map (late rho) st)))
        (EVM.u256 (or_all (shares rho ms args))).
Proof.
  induction args as [|arg args IH]; intros ms lo n st n' st' Hlo Hl Hst H.
  - assert (E : Struct.fold_loop ms [] n st
                = Ok (fold_left (fun n mem => Z.lor n (StructMember.placed mem))
                        ms n, st)) by (destruct ms; reflexivity).
    rewrite E in H. injection H as <- <-.
    split; [assumption|].
    rewrite (fold_left_lor StructMember.placed), (shares_nil 256 ms lo)
      by (lia || assumption).
    rewrite u256_lor. lor_ac.
  - destruct ms as [|mem ms]; [discriminate|].
    cbn [Struct.fold_loop] in H.
    destruct (laid_head lo 256 mem ms Hlo ltac:(lia) Hl)
      as (Ho & Hw & Hsum & Hs & Hm & Hv).
    pose proof (laid_tail _ _ _ _ Hl) as Hl'.
    cbn [shares List.tl]. unfold or_all at 3. cbn [fold_right].
    fold (or_all (shares rho ms args)).
    destruct (isDefaultIdentifier arg).
    + destruct (IH ms (StructMember.offset mem + StructMember.width mem) _ _ _ _ ltac:(lia) Hl' Hst H) as (Hst' & E).
      split; [assumption|]. rewrite E.
      rewrite (placed_share lo 256 mem ms Hlo ltac:(lia) Hl).
      rewrite !u256_lor. lor_ac.
    + destruct (isLiteral arg) eqn:Hlit.
      * destruct (toBigInt (value_of arg)) as [v|] eqn:Hv';
          cbn [bind] in H; [| discriminate].
        destruct (IH ms (StructMember.offset mem + StructMember.width mem) _ _ _ _ ltac:(lia) Hl' Hst H) as (Hst' & E).
        split; [assumption|]. rewrite E.
        rewrite Hm, (literal_share arg v _ Hlit Hv') by lia.
        rewrite Z.shiftl_mul_pow2 by lia.
        rewrite !u256_lor. lor_ac.
      * assert (Hst2 : Forall (fun p => 0 <= StructMember.shift (fst p) <= 256)
                         (st ++ [(mem, arg)])).
        { apply Forall_app. split; [assumption|].
          constructor; [cbn; lia | constructor]. }
        destruct (IH ms (StructMember.offset mem + StructMember.width mem) _ _ _ _ ltac:(lia) Hl' Hst2 H) as (Hst' & E).
        split; [assumption|]. rewrite E.
        rewrite map_app, or_all_app.
        change (or_all (map (late rho) [(mem, arg)]))
          with (Z.lor (EVM.u256 (EVM.eval rho arg * 2 ^ StructMember.shift mem))
                  0).
        rewrite Z.lor_0_r, !u256_lor. lor_ac.
Qed.

(** The initialiser, evaluated: the or of the shares. *)
Lemma fold_value (def : StructDefinition.t) (s : Struct.t)
    (args : list node) (r : node) :
  Struct.init def = Ok s ->
  Struct.fold s args = Ok r ->
  EVM.eval rho r = EVM.u256 (or_all (shares rho (Struct.members s) args)).
Proof.
  intros Hinit Hfold. pose proof (init_laid _ _ Hinit) as Hl.
  unfold Struct.fold in Hfold. destruct args as [|a args].
  - injection Hfold as <-.
    unfold Struct.init in Hinit.
    destruct (Struct.init_loop _ _ 0 0 []) as [[[o n] ms]|] eqn:El;
      cbn [bind] in Hinit; [| discriminate].
    apply StructFacts.init_loop_spec in El as (_ & added & Ea & En & _).
    cbn [app] in Ea. subst ms n.
    destruct ((o =? 0) || (256 <? o)); [discriminate|].
    injection Hinit as <-. cbn [Struct.value Struct.members] in *.
    rewrite eval_big. f_equal.
    unfold lor_placed. rewrite (fold_left_lor StructMember.placed).
    rewrite (shares_nil 256 added 0) by (lia || assumption).
    apply Z.lor_0_l.
  - destruct (Nat.ltb _ _); [discriminate|].
    destruct (Struct.fold_loop _ _ 0 []) as [[n st]|] eqn:El;
      cbn [bind] in Hfold; [| discriminate].
    injection Hfold as <-.
    destruct (fold_loop_shares _ _ 0 _ _ _ _ ltac:(lia) Hl (Forall_nil _) El)
      as (Hst & E).
    rewrite eval_accumulated by assumption.
    rewrite eval_big, E. cbn [map]. unfold or_all at 1. cbn [fold_right].
    change (EVM.u256 0) with 0. now rewrite !Z.lor_0_l.
Qed.

End Pack.

End PackFacts.
Module ShareFacts.

Import EvalFacts MemberFacts InitFacts PackFacts.

Lemma lor_below (a b k : Z) :
  0 <= k -> 0 <= a < 2 ^ k -> 0 <= b < 2 ^ k -> 0 <= Z.lor a b < 2 ^ k.
Proof.
  intros Hk Ha Hb. split; [apply Z.lor_nonneg; lia|].
  apply FieldFacts.small_of_bits; [apply Z.lor_nonneg; lia | lia |].
  intros i Hi. rewrite Z.lor_spec.
  rewrite (FieldFacts.testbit_small a k i), (FieldFacts.testbit_small b k i)
    by assumption.
  reflexivity.
Qed.

Lemma field_below (s k v : Z) :
  0 <= s -> 0 <= v < 2 ^ s -> field s k v = 0.
Proof.
  intros Hs Hv. unfold field. now rewrite Z.div_small by lia.
Qed.

Lemma field_low (k v : Z) : 0 <= v < 2 ^ k -> field 0 k v = v.
Proof.
  intros Hv. unfold field. rewrite Z.pow_0_r, Z.div_1_r.
  now apply Z.mod_small.
Qed.

Lemma laid_nth (hi : Z) (ms : list StructMember.t) :
  forall lo i m,
    0 <= lo -> laid lo hi ms -> nth_error ms i = Some m ->
    0 <= StructMember.offset m /\
    0 <= StructMember.width m /\
    StructMember.offset m + StructMember.width m <= hi /\
    exists d, StructMember.new (StructMember.name m) (StructMember.offset m)
                (StructMember.width m) d = Ok m.
Proof.
  induction ms as [|m0 ms IH]; intros lo i m Hlo Hl Hn.
  - destruct i; discriminate.
  - destruct Hl as (H1 & H2 & H3 & H4). destruct i as [|i].
    + injection Hn as <-. apply laid_le in H4.
      repeat split; (lia || assumption).
    + apply (IH (StructMember.offset m0 + StructMember.width m0) i m);
        (lia || assumption).
Qed.

Section Shares.

Variable rho : EVM.valuation.

(** The share of the first member: what the initialiser gives it, at its
    place. *)
Lemma head_given (lo : Z) (m : StructMember.t) (ms : list StructMember.t)
    (args : list node) :
  0 <= lo -> laid lo 256 (m :: ms) -> fits rho (m :: ms) args = true ->
  match args with
  | [] => StructMember.value m
  | a :: _ =>
      if isDefaultIdentifier a then StructMember.value m
      else if isLiteral a
      then EVM.eval rho a mod 2 ^ StructMember.width m
      else EVM.eval rho a
  end = given rho m (nth_error args 0) /\
  0 <= given rho m (nth_error args 0) < 2 ^ StructMember.width m.
Proof.
  intros Hlo Hl Hf.
  destruct (laid_head lo 256 m ms Hlo ltac:(lia) Hl)
    as (Ho & Hw & Hsum & Hs & Hm & Hv).
  assert (Hp : 0 < 2 ^ StructMember.width m)
    by (apply Z.pow_pos_nonneg; lia).
  destruct args as [|a args]; cbn [nth_error given]; [now split|].
  cbn [fits] in Hf. apply andb_prop in Hf as [Hf _].
  destruct (isDefaultIdentifier a); [now split|].
  split; [| now apply Z.mod_pos_bound].
  destruct (isLiteral a); [reflexivity|]. cbn [orb] in Hf.
  apply Z.ltb_lt in Hf. pose proof (eval_range rho a).
  symmetry. apply Z.mod_small. lia.
Qed.

Lemma fits_tail (m : StructMember.t) (ms : list StructMember.t)
    (args : list node) :
  fits rho (m :: ms) args = true -> fits rho ms (List.tl args) = true.
Proof.
  destruct args as [|a args]; cbn [fits List.tl].
  - now destruct ms.
  - intros H. now apply andb_prop in H.
Qed.

Lemma nth_tail (args : list node) (i : nat) :
  nth_error (List.tl args) i = nth_error args (S i).
Proof. destruct args; [now destruct i | reflexivity]. Qed.

(** The shares of members laid out from bit [lo] on stay below bit
    [256 - lo]. *)
Lemma shares_below (ms : list StructMember.t) :
  forall lo args,
    0 <= lo -> laid lo 256 ms -> fits rho ms args = true ->
    0 <= or_all (shares rho ms args) < 2 ^ (256 - lo).
Proof.
  induction ms as [|m ms IH]; intros lo args Hlo Hl Hf.
  - cbn [laid] in Hl. cbn [shares]. unfold or_all. cbn [fold_right].
    split; [lia | apply Z.pow_pos_nonneg; lia].
  - destruct (laid_head lo 256 m ms Hlo ltac:(lia) Hl)
      as (Ho & Hw & Hsum & Hs & Hm & Hv).
    destruct (head_given lo m ms args Hlo Hl Hf) as (Eg & Hg).
    pose proof Hl as (Hlo' & _).
    cbn [shares]. rewrite Eg. unfold or_all. cbn [fold_right].
    fold (or_all (shares rho ms (List.tl args))).
    pose proof (IH (StructMember.offset m + StructMember.width m)
                  (List.tl args) ltac:(lia) (laid_tail _ _ _ _ Hl)
                  (fits_tail _ _ _ Hf)) as Hrest.
    set (g := given rho m (nth_error args 0)) in *.
    set (w := StructMember.width m) in *.
    set (o := StructMember.offset m) in *.
    rewrite Hs.
    assert (Hps : 0 < 2 ^ (256 - (o + w))) by (apply Z.pow_pos_nonneg; lia).
    apply lor_below; [lia | |].
    + split; [nia|].
      apply Z.lt_le_trans with (m := 2 ^ w * 2 ^ (256 - (o + w))); [nia|].
      rewrite <- Z.pow_add_r by lia. apply pow2_le. lia.
    + split; [lia|].
      apply Z.lt_le_trans with (m := 2 ^ (256 - (o + w))); [lia|].
      apply pow2_le. lia.
Qed.

(** The bits of a member in the or of the shares are what the initialiser
    gives to the member. *)
Lemma shares_field (ms : list StructMember.t) :
  forall lo args i m,
    0 <= lo -> laid lo 256 ms -> fits rho ms args = true ->
    nth_error ms i = Some m ->
    field (StructMember.shift m) (StructMember.width m)
      (or_all (shares rho ms args))
    = given rho m (nth_error args i).
Proof.
  induction ms as [|m0 ms IH]; intros lo args i m Hlo Hl Hf Hn.
  - destruct i; discriminate.
  - destruct (laid_head lo 256 m0 ms Hlo ltac:(lia) Hl)
      as (Ho & Hw & Hsum & Hs & Hm & Hv).
    destruct (head_given lo m0 ms args Hlo Hl Hf) as (Eg & Hg).
    pose proof (laid_tail _ _ _ _ Hl) as Hl'.
    pose proof (fits_tail _ _ _ Hf) as Hf'.
    pose proof (shares_below ms
                  (StructMember.offset m0 + StructMember.width m0)
                  (List.tl args) ltac:(lia) Hl' Hf') as Hrest.
    cbn [shares]. rewrite Eg. unfold or_all. cbn [fold_right].
    fold (or_all (shares rho ms (List.tl args))).
    destruct i as [|i].
    + injection Hn as <-.
      rewrite Z.lor_comm, FieldFacts.field_ored by lia.
      rewrite field_below by (rewrite ?Hs; lia).
      rewrite Z.lor_0_l. now apply field_low.
    + cbn [nth_error] in Hn.
      destruct (laid_nth 256 ms
                  (StructMember.offset m0 + StructMember.width m0) i m
                  ltac:(lia) Hl' Hn)
        as (Hmo & Hmw & Hmsum & d & Hd).
      destruct (made_shape m d Hd Hmw) as (Hms & _).
      assert (Hlow : StructMember.offset m0 + StructMember.width m0
                     <= StructMember.offset m).
      { clear - Hl' Hn. revert i Hl' Hn.
        generalize (StructMember.offset m0 + StructMember.width m0).
        induction ms as [|m1 ms IH]; intros lo i Hl Hn;
          [destruct i; discriminate|].
        destruct Hl as (H1 & H2 & _ & H4). destruct i as [|i].
        - injection Hn as <-. assumption.
        - pose proof (IH _ i H4 Hn). lia. }
      rewrite Z.lor_comm.
      rewrite (FieldFacts.lor_kept _ _ (StructMember.shift m0)
                 (StructMember.width m0)) by lia.
      rewrite <- nth_tail.
      apply (IH (StructMember.offset m0 + StructMember.width m0));
        (lia || assumption).
Qed.

End Shares.

End ShareFacts.

(** X20: an initialiser of a struct evaluates to the bitwise or of one
    share for each member, taken modulo [2^256]: the default of the
    member for [@] or a missing argument, a literal argument cut to the
    width of the member, any other argument as it evaluates (it is not
    cut), each multiplied by [2^shift] of the member. *)
Theorem struct_initialiser_is_or (rho : EVM.valuation)
    (def : StructDefinition.t) (s : Struct.t)
    (args : list node) (r : node) :
  Struct.init def = Ok s ->
  Struct.fold s args = Ok r ->
  EVM.eval rho r = EVM.u256 (or_all (shares rho (Struct.members s) args)).
Proof. apply PackFacts.fold_value. Qed.

(** Witness: the README's struct with a run-time first argument. *)
Lemma struct_initialiser_is_or_witness :
  EVM.eval all_zero (Shl 192 (Identifier "x"))
  = EVM.u256 (or_all (shares all_zero (Struct.members btc_output_struct)
                        [Identifier "x"; Literal (VNumber 0);
                         Literal (VNumber 0)])).
Proof.
  apply (struct_initialiser_is_or all_zero btc_output btc_output_struct
           [Identifier "x"; Literal (VNumber 0); Literal (VNumber 0)]
           (Shl 192 (Identifier "x"))); reflexivity.
Defined.

(** X21: initialising a struct and reading a member gives back what the
    initialiser gave to it: the default of the member for [@] or a
    missing argument, otherwise the value of the argument modulo
    [2^width].  This needs every argument that is evaluated at run time
    to fit the width of its member; [name] is any expression holding the
    value of the initialiser. *)
Theorem struct_fold_then_read (rho : EVM.valuation)
    (def : StructDefinition.t) (s : Struct.t)
    (args : list node) (r name : node)
    (i : nat) (m : StructMember.t) :
  Struct.init def = Ok s ->
  Struct.fold s args = Ok r ->
  fits rho (Struct.members s) args = true ->
  nth_error (Struct.members s) i = Some m ->
  0 < StructMember.width m ->
  EVM.eval rho name = EVM.eval rho r ->
  EVM.eval rho (MemberAccess.read m name) = given rho m (nth_error args i).
Proof.
  intros Hinit Hfold Hfit Hn Hw Hname.
  pose proof (InitFacts.init_laid _ _ Hinit) as Hl.
  destruct (ShareFacts.laid_nth 256 _ 0 i m ltac:(lia) Hl Hn)
    as (Ho & _ & Hsum & d & Hd).
  rewrite (MemberFacts.read_field rho _ _ _ _ m name Hd Ho Hw Hsum).
  destruct (InitFacts.made_shape m d Hd ltac:(lia)) as (Hs & _).
  rewrite <- Hs, Hname, (PackFacts.fold_value rho def s args r Hinit Hfold).
  pose proof (ShareFacts.shares_below rho _ 0 args ltac:(lia) Hl Hfit) as Hb.
  rewrite WordFacts.u256_small by exact Hb.
  now apply (ShareFacts.shares_field rho _ 0).
Qed.

(** Witness: the member [prefix] of the README's struct, read from an
    initialiser that leaves it at its default. *)
Lemma struct_fold_then_read_witness :
  EVM.eval all_zero
    (MemberAccess.read prefix_member
       (Literal (VBigInt (Z.shiftl 1441812 168))))
  = 1441812.
Proof.
  apply (struct_fold_then_read all_zero btc_output btc_output_struct
           [Literal (VNumber 0); NIdentifier "@" false]
           (Literal (VBigInt (Z.shiftl 1441812 168)))
           (Literal (VBigInt (Z.shiftl 1441812 168)))
           1%nat prefix_member); reflexivity.
Defined.

(** ** Literals in the size of code *)

Module LiteralSizeFacts.

Import CodeSize.

Lemma seen_cons (ig : list Z) (v x : Z) :
  seen ig x = true -> seen (v :: ig) x = true.
Proof. unfold seen. cbn [existsb]. intros ->. apply orb_true_r. Qed.

Lemma seen_head (ig : list Z) (v : Z) : seen (v :: ig) v = true.
Proof. unfold seen. cbn [existsb]. now rewrite Z.eqb_refl. Qed.

(** A step never forgets a literal. *)
Lemma step_keeps (n : node) (ig ig' : list Z) (s s' x : Z) :
  step (ig, s) n = Ok (ig', s') -> seen ig x = true -> seen ig' x = true.
Proof.
  intros H Hx.
  assert (Hsame : forall z, Ok (ig, z) = Ok (ig', s') -> seen ig' x = true).
  { intros z [= <- _]. exact Hx. }
  destruct n; cbn [step] in H; try (eapply Hsame; exact H).
  - destruct (isLiteral _).
    + destruct (toBigInt value) as [v|]; cbn [bind] in H; [| discriminate].
      destruct (negb (v =? 0) && negb (seen ig v)).
      * injection H as <- _. now apply seen_cons.
      * eapply Hsame; exact H.
    + eapply Hsame; exact H.
Qed.

Lemma walk_keeps (l : list node) (x : Z) :
  forall ig s ig' s',
    walk l (ig, s) = Ok (ig', s') -> seen ig x = true -> seen ig' x = true.
Proof.
  induction l as [|n l IH]; intros ig s ig' s' H Hx; cbn [walk] in H.
  - now injection H as <- _.
  - destruct (step (ig, s) n) as [[ig1 s1]|] eqn:Hs; cbn [bind] in H;
      [| discriminate].
    eapply IH; [exact H|]. eapply step_keeps; [exact Hs | exact Hx].
Qed.

(** After the walk, every literal walked over is zero or is in the set. *)
Lemma walk_sees (l : list node) (L : node) :
  forall ig s ig' s',
    walk l (ig, s) = Ok (ig', s') -> In L l -> isLiteral L = true ->
    exists v, toBigInt (value_of L) = Ok v /\ (v = 0 \/ seen ig' v = true).
Proof.
  induction l as [|n l IH]; intros ig s ig' s' H Hin Hl; [contradiction|].
  cbn [walk] in H.
  destruct (step (ig, s) n) as [[ig1 s1]|] eqn:Hs; cbn [bind] in H;
    [| discriminate].
  destruct Hin as [-> | Hin]; [| now apply (IH ig1 s1 ig' s')].
  destruct L; try discriminate. cbn [step value_of] in Hs |- *.
  rewrite Hl in Hs.
  destruct (toBigInt value) as [v|]; cbn [bind] in Hs; [| discriminate].
  exists v. split; [reflexivity|].
  destruct (Z.eqb_spec v 0) as [E | E]; [now left | right].
  cbn [negb andb] in Hs. destruct (seen ig v) eqn:Hv; cbn [negb] in Hs.
  - injection Hs as <- _. eapply walk_keeps; [exact H | exact Hv].
  - injection Hs as <- _. eapply walk_keeps; [exact H | apply seen_head].
Qed.

Lemma traverse_self (n : node) : In n (traverse n).
Proof. destruct n; now left. Qed.

Lemma traverse_args (L : node) (args : list node) :
  In L args -> In L (flat_map traverse args).
Proof.
  intros H. apply in_flat_map. exists L. split; [assumption|].
  apply traverse_self.
Qed.

End LiteralSizeFacts.

(** X22: [codeSize] counts a numeric literal once for each distinct
    non-zero value: a literal argument appended to a call adds nothing to
    the size when it is zero, or when the call already has a literal
    argument with the same value. *)
Theorem codeSize_counts_a_value_once (f : string) (args : list node)
    (L : node) :
  isLiteral L = true ->
  isZero L = true \/
  (exists L0, In L0 args /\ isLiteral L0 = true /\
              toBigInt (value_of L0) = toBigInt (value_of L)) ->
  CodeSize.codeSize (NFunctionCall f (args ++ [L]))
  = CodeSize.codeSize (NFunctionCall f args).
Proof.
  intros Hl Hcase. unfold CodeSize.codeSize.
  cbn [traverse CodeSize.walk CodeSize.step bind].
  rewrite flat_map_app, SizeFacts.walk_app.
  destruct (CodeSize.walk (flat_map traverse args) ([], 0 + 1))
    as [[ig s]|] eqn:Hw; cbn [bind]; [| reflexivity].
  destruct L; try discriminate.
  cbn [flat_map traverse app CodeSize.walk CodeSize.step bind].
  rewrite Hl.
  destruct Hcase as [Hz | (L0 & Hin & Hl0 & Hv)].
  - destruct (EvalFacts.isZero_literal _ Hz) as (_ & Hv).
    cbn [value_of] in Hv. rewrite Hv. reflexivity.
  - destruct (LiteralSizeFacts.walk_sees _ L0 _ _ _ _ Hw
                (LiteralSizeFacts.traverse_args _ _ Hin) Hl0)
      as (v & Hv0 & Hseen).
    cbn [value_of] in Hv. rewrite <- Hv, Hv0. cbn [bind].
    destruct Hseen as [-> | ->]; [reflexivity|].
    now rewrite andb_false_r.
Qed.

(** Witness: [add(16, 0x10)] weighs what [add(16)] weighs. *)
Lemma codeSize_counts_a_value_once_witness :
  CodeSize.codeSize
    (NFunctionCall "add" [NLiteral DecimalNumberT None "16";
                          NLiteral HexNumberT None "0x10"])
  = CodeSize.codeSize (NFunctionCall "add" [NLiteral DecimalNumberT None "16"]).
Proof.
  apply (codeSize_counts_a_value_once "add"
           [NLiteral DecimalNumberT None "16"]
           (NLiteral HexNumberT None "0x10")); [reflexivity|].
  right. exists (NLiteral DecimalNumberT None "16").
  split; [now left | split; reflexivity].
Defined.

(** X23: [Method] never accepts a declaration in which two parameters
    have the same name. *)
Theorem Method_init_rejects_duplicates (keccak256 : list Z -> list Z)
    (decl : MethodDeclaration.t) (i j : nat) (ty ty' : ABIType.t)
    (n : string) :
  nth_error (MethodDeclaration.params decl) i = Some (ty, Some n) ->
  nth_error (MethodDeclaration.params decl) j = Some (ty', Some n) ->
  i <> j ->
  failed (Method.init keccak256 decl).
Proof.
  intros Hi Hj Hne.
  destruct (Method.init keccak256 decl) as [m|] eqn:Hinit; [| exact I].
  destruct (LayoutFacts.init_params _ _ _ Hinit) as (ps & Hl & _).
  pose proof (LayoutFacts.params_loop_binds _ _ _ _ _ _ _ Hl Hi) as Bi.
  pose proof (LayoutFacts.params_loop_binds _ _ _ _ _ _ _ Hl Hj) as Bj.
  rewrite Bi in Bj.
  assert (E : MethodParam.offset
                (MethodParam.new (Some n) ty (4 + 32 * Z.of_nat i))
              = MethodParam.offset
                  (MethodParam.new (Some n) ty' (4 + 32 * Z.of_nat j)))
    by congruence.
  cbn [MethodParam.new MethodParam.offset] in E. lia.
Qed.

(** Witness: [method f(uint256 a, uint256 a)]. *)
Lemma Method_init_rejects_duplicates_witness :
  failed (Method.init digest_stub
            {| MethodDeclaration.name := "f";
               MethodDeclaration.params :=
                 [ (uint256_type, Some "a"); (uint256_type, Some "a") ];
               MethodDeclaration.visibility := None;
               MethodDeclaration.mutability := None;
               MethodDeclaration.modifier := None;
               MethodDeclaration.returns := [] |}).
Proof.
  apply (Method_init_rejects_duplicates digest_stub _ 0%nat 1%nat
           uint256_type uint256_type "a"); [reflexivity | reflexivity | lia].
Defined.

(** X24: a [receive] or [fallback] method that [Method] accepts has no
    parameter and no return value, is not of type [function], and its
    [check] has no calldata test: it is the call value guard alone, and
    nothing for a payable method; [receive] is always payable, so its
    check is empty. *)
Theorem special_methods_check_no_calldata (keccak256 : list Z -> list Z)
    (decl : MethodDeclaration.t) (m : Method.t) :
  Method.init keccak256 decl = Ok m ->
  MethodDeclaration.name decl = "receive" \/
  MethodDeclaration.name decl = "fallback" ->
  Method.params m = [] /\
  Method.returns m = [] /\
  Method.isFunction m = false /\
  Method.check m
  = Ok (if opt_is (Method.mutability m) "payable" then []
        else [RequireZero CallValue]) /\
  (MethodDeclaration.name decl = "receive" -> Method.check m = Ok []).
Proof.
  intros Hinit Hname. unfold Method.init in Hinit.
  destruct (includes_char _ _); [discriminate|]. cbn [bind] in Hinit.
  assert (Hsp : String.eqb (MethodDeclaration.name decl) "receive"
                || String.eqb (MethodDeclaration.name decl) "fallback" = true).
  { destruct Hname as [-> | ->]; reflexivity. }
  rewrite Hsp in Hinit.
  destruct (MethodDeclaration.params decl) as [|p ps]; [| discriminate].
  destruct (MethodDeclaration.returns decl) as [|r rs]; [| discriminate].
  match type of Hinit with
  | bind ?r _ = _ => destruct r as [[]|]; [| discriminate]
  end.
  cbn [bind andb] in Hinit.
  destruct (String.eqb (MethodDeclaration.name decl) "receive"
            && negb (opt_is (MethodDeclaration.mutability decl) "payable"))
    eqn:Hpay; [discriminate|].
  cbn [bind Method.params_loop Method.returns_loop Method.empty_state
       Method.st_params] in Hinit.
  injection Hinit as <-.
  unfold Method.check, Method.isFunction.
  cbn [Method.params Method.returns Method.type Method.mutability].
  assert (Hty : String.eqb (MethodDeclaration.name decl) "function" = false).
  { destruct Hname as [-> | ->]; reflexivity. }
  rewrite Hty. cbn [negb].
  repeat split.
  - now destruct (opt_is (MethodDeclaration.mutability decl) "payable").
  - intros Hr. rewrite Hr in Hpay. cbn [String.eqb andb] in Hpay.
    change (("receive" =? "receive")%string) with true in Hpay.
    cbn [andb] in Hpay.
    destruct (opt_is (MethodDeclaration.mutability decl) "payable");
      [reflexivity | discriminate].
Qed.

(** Witness: [method receive() payable]. *)
Lemma special_methods_check_no_calldata_witness :
  Method.check (method_of {| MethodDeclaration.name := "receive";
                             MethodDeclaration.params := [];
                             MethodDeclaration.visibility := Some "external";
                             MethodDeclaration.mutability := Some "payable";
                             MethodDeclaration.modifier := None;
                             MethodDeclaration.returns := [] |})
  = Ok [].
Proof.
  refine (proj2 (proj2 (proj2 (proj2
            (special_methods_check_no_calldata digest_stub
               {| MethodDeclaration.name := "receive";
                  MethodDeclaration.params := [];
                  MethodDeclaration.visibility := Some "external";
                  MethodDeclaration.mutability := Some "payable";
                  MethodDeclaration.modifier := None;
                  MethodDeclaration.returns := [] |} _ eq_refl
               (or_introl eq_refl))))) eq_refl).
Defined.

(** ** Events *)

Module TopicFacts.

Lemma stack_loop_length (params : list EventParam.t) :
  forall args stack st,
    EventEmit.stack_loop params args stack = Ok st ->
    List.length st
    = (List.length stack + List.length (filter EventParam.indexed params))%nat.
Proof.
  induction params as [|p params IH]; intros args stack st H.
  - destruct args; cbn in H; injection H as <-; cbn; lia.
  - destruct args as [|a args]; [discriminate|].
    cbn [EventEmit.stack_loop] in H. cbn [filter].
    destruct (EventParam.indexed p).
    + destruct (EventEmit.encode p a) as [e|]; cbn [bind] in H;
        [| discriminate].
      apply IH in H. rewrite H, length_app. cbn [List.length]. lia.
    + now apply IH in H.
Qed.

Lemma init_indexed (keccak256 : list Z -> list Z)
    (decl : EventDeclaration.t) (e : Event.t) :
  Event.init keccak256 decl = Ok e ->
  Event.anonymous e = EventDeclaration.anonymous decl /\
  Z.of_nat (List.length (filter EventParam.indexed (Event.params e)))
  <= 3 + b2z (Event.anonymous e).
Proof.
  unfold Event.init.
  destruct (Event.misuses_array _); [discriminate|].
  destruct (Z.ltb_spec (3 + b2z (EventDeclaration.anonymous decl))
              (Z.of_nat (List.length
                 (filter (fun it => snd it) (EventDeclaration.params decl)))));
    [discriminate|].
  intros [= <-]. cbn [Event.anonymous Event.params]. split; [reflexivity|].
  assert (E : forall items : event_items,
             List.length
               (filter EventParam.indexed
                  (map (fun it => EventParam.new (snd (fst it)) (fst (fst it))
                                    (snd it)) items))
             = List.length (filter (fun it => snd it) items)).
  { induction items as [|[[ty n] ix] items IH]; [reflexivity|].
    cbn [map filter EventParam.new EventParam.indexed fst snd].
    destruct ix; cbn [List.length]; now rewrite IH. }
  rewrite E. assumption.
Qed.

End TopicFacts.

(** X25: an event that [Event] accepts never needs more than four
    topics: whatever the arguments, the stack that [_emit] collects (the
    signature, unless the event is anonymous, and the indexed arguments)
    has at most four nodes, so the instruction it names is one of [log0]
    to [log4]. *)
Theorem event_topics_fit (keccak256 : list Z -> list Z)
    (decl : EventDeclaration.t) (e : Event.t) (args st : list node) :
  Event.init keccak256 decl = Ok e ->
  EventEmit.stack e args = Ok st ->
  (List.length st <= 4)%nat /\
  In (EventEmit.logName st) ["log0"; "log1"; "log2"; "log3"; "log4"].
Proof.
  intros Hinit Hst.
  destruct (TopicFacts.init_indexed _ _ _ Hinit) as (_ & Hix).
  unfold EventEmit.stack in Hst.
  destruct (assert_ _ _); cbn [bind] in Hst; [| discriminate].
  apply TopicFacts.stack_loop_length in Hst.
  assert (Hlen : (List.length st <= 4)%nat).
  { rewrite Hst. destruct (Event.anonymous e); cbn [List.length b2z] in *; lia. }
  split; [assumption|].
  unfold EventEmit.logName.
  destruct (List.length st) as [|[|[|[|[|n]]]]]; [| | | | | lia]; cbn; tauto.
Qed.

(** Witness: [event Transfer(address indexed from, uint256 value)]. *)
Lemma event_topics_fit_witness :
  In (EventEmit.logName
        [HexNumber (AbiHash.eventHash digest_stub "Transfer"
                      ["address"; "uint256"]);
         Identifier "from"])
     ["log0"; "log1"; "log2"; "log3"; "log4"].
Proof.
  refine (proj2 (event_topics_fit digest_stub
            {| EventDeclaration.name := "Transfer";
               EventDeclaration.params :=
                 [ ({| ABIType.value := "address"; ABIType.base := "address";
                       ABIType.width := 160; ABIType.array := false |},
                    Some "from", true);
                   (uint256_type, Some "value", false) ];
               EventDeclaration.anonymous := false;
               EventDeclaration.packed := false;
               EventDeclaration.modifier := None |}
            _ [Identifier "from"; Identifier "value"] _ eq_refl eq_refl)).
Defined.

(** X26: the width of an event parameter is the width of its type
    rounded up to whole bytes: the least multiple of 8 that is not below
    it, and [bytes] is that number of bytes. *)
Theorem EventParam_rounds_up (name : option string) (ty : ABIType.t)
    (indexed : bool) :
  0 <= ABIType.width ty ->
  let p := EventParam.new name ty indexed in
  EventParam.width p = 8 * EventParam.bytes p /\
  ABIType.width ty <= EventParam.width p < ABIType.width ty + 8.
Proof.
  intros Hw p. subst p. cbn [EventParam.new EventParam.width EventParam.bytes].
  set (x := ABIType.width ty + 7).
  assert (E : Z.land x (Z.lnot 7) = 8 * (x / 8)).
  { change 7 with (Z.ones 3).
    change (Z.land x (Z.lnot (Z.ones 3))) with (Z.ldiff x (Z.ones 3)).
    rewrite Z.ldiff_ones_r by lia.
    rewrite Z.shiftl_mul_pow2, Z.shiftr_div_pow2 by lia.
    change (2 ^ 3) with 8. lia. }
  rewrite E. rewrite Z.mul_comm, Z.div_mul by lia.
  pose proof (Z.div_mod x 8 ltac:(lia)).
  pose proof (Z.mod_pos_bound x 8 ltac:(lia)).
  subst x. lia.
Qed.

(** Witness: a [bool], one bit wide, takes one byte. *)
Lemma EventParam_rounds_up_witness :
  let p := EventParam.new None
             {| ABIType.value := "bool"; ABIType.base := "bool";
                ABIType.width := 1; ABIType.array := false |} false in
  EventParam.width p = 8 * EventParam.bytes p /\
  1 <= EventParam.width p < 1 + 8.
Proof.
  apply (EventParam_rounds_up None
           {| ABIType.value := "bool"; ABIType.base := "bool";
              ABIType.width := 1; ABIType.array := false |} false).
  cbn. lia.
Defined.

(** ** The cases of the dispatcher *)

Module CaseFacts.

Import Transformer.

(** The cases that the loop adds: one for each ordinary method, in
    order. *)
Lemma select_loop_cases (available : string -> bool)
    (methods : list Method.t) :
  forall st st',
    select_loop available methods st = Ok st' ->
    exists added,
      cases st' = cases st ++ added /\
      Forall2 (fun c m => exists block,
                 arm available m = Ok block /\
                 c = NCase (HexNumber (Method.signature m)) block)
        added (filter ordinary methods).
Proof.
  induction methods as [|m rest IH]; intros st st' H; cbn [select_loop] in H.
  - injection H as <-. exists []. rewrite app_nil_r. split; [reflexivity|].
    constructor.
  - destruct (arm available m) as [block|] eqn:Harm; cbn [bind] in H;
      [| discriminate].
    cbn [filter]. unfold ordinary at 1.
    destruct (String.eqb (Method.name m) "receive"); cbn [negb andb].
    { apply IH in H as (added & E & F). now exists added. }
    destruct (String.eqb (Method.name m) "fallback"); cbn [negb andb].
    { apply IH in H as (added & E & F). now exists added. }
    apply IH in H as (added & E & F). cbn [cases] in E.
    exists (NCase (HexNumber (Method.signature m)) block :: added).
    split; [now rewrite E, <- app_assoc|].
    constructor; [| assumption]. now exists block.
Qed.

End CaseFacts.

(** X27: the selector switch of the dispatcher has exactly one case for
    each method that is neither [receive] nor [fallback], in the order of
    the methods, with the selector of the method as its value and the arm
    of the method as its block; and when no method is called [fallback],
    a selector that matches no case reverts. *)
Theorem dispatcher_cases_exact (available : string -> bool)
    (methods : list Method.t) (root : node) :
  methods <> [] ->
  Transformer.method_select available methods = Ok root ->
  Forall2 (fun c m => exists block,
             Transformer.arm available m = Ok block /\
             c = NCase (HexNumber (Method.signature m)) block)
    (Dispatcher.selector_cases root) (filter ordinary methods) /\
  (~ In "fallback" (List.map Method.name methods) ->
   Dispatcher.fallback_block root = Some (Block [Revert])).
Proof.
  intros Hne H. unfold Transformer.method_select in H.
  destruct methods as [|m0 rest] eqn:Hm; [contradiction|].
  rewrite <- Hm in *. clear Hm m0 rest Hne.
  destruct (Transformer.select_loop available methods _) as [st|] eqn:Hl;
    cbn [bind] in H; [| discriminate].
  injection H as <-.
  cbn [Dispatcher.selector_cases Dispatcher.fallback_block].
  split.
  - destruct (CaseFacts.select_loop_cases _ _ _ _ Hl) as (added & E & F).
    cbn [Transformer.cases app] in E. now rewrite E.
  - intros Hno.
    now rewrite (SelectFacts.select_loop_no_fallback _ _ Hno _ _ Hl).
Qed.

(** Witness: the two methods [deposit] and [withdraw]. *)
Lemma dispatcher_cases_exact_witness :
  Dispatcher.fallback_block bank_dispatcher = Some (Block [Revert]).
Proof.
  refine (proj2 (dispatcher_cases_exact all_available bank_methods
                   bank_dispatcher _ eq_refl) _).
  - discriminate.
  - cbn. intros [H | [H | []]]; discriminate H.
Defined.

(** ** Member names *)

Module NameFacts.

Lemma has_false (members : list StructMember.t) (name : string) :
  Struct.has members name = false ->
  ~ In name (map StructMember.name members).
Proof.
  unfold Struct.has. induction members as [|m ms IH]; cbn [existsb map In].
  - tauto.
  - intros H. apply orb_false_iff in H as [H1 H2].
    apply String.eqb_neq in H1. intros [E | E]; [contradiction|].
    now apply IH.
Qed.

Lemma init_loop_names (sname : string) (nodes : list StructMemberNode.t) :
  forall offset n members offset' n' members',
    Struct.init_loop sname nodes offset n members = Ok (offset', n', members') ->
    NoDup (map StructMember.name members) ->
    ~ In "+" (map StructMember.name members) ->
    NoDup (map StructMember.name members') /\
    ~ In "+" (map StructMember.name members').
Proof.
  induction nodes as [|member rest IH];
    intros offset n members offset' n' members' H Hnd Hplus.
  - cbn in H. injection H as <- <- <-. now split.
  - cbn [Struct.init_loop] in H.
    destruct (Struct.type_width _ (StructMemberNode.kind member))
      as [w|]; cbn [bind] in H; [| discriminate].
    destruct (String.eqb_spec (StructMemberNode.name member) "+") as [Hp|Hp].
    + now apply IH in H.
    + destruct (Struct.has members (StructMemberNode.name member)) eqn:Hhas;
        [discriminate|].
      destruct (isLiteral (StructMemberNode.value member));
        cbn [negb] in H; [| discriminate].
      destruct (StructMember.new _ offset w _) as [mem|] eqn:Hnew;
        cbn [bind] in H; [| discriminate].
      apply StructFacts.new_layout in Hnew as (Hn1 & _).
      apply has_false in Hhas.
      apply IH in H; [assumption | |].
      * rewrite map_app. cbn [map]. rewrite Hn1.
        apply NoDup_app; [assumption | repeat constructor; intros [] |].
        intros x Hx [<- | []]. contradiction.
      * rewrite map_app, in_app_iff. cbn [map In]. rewrite Hn1.
        intros [E | [E | []]]; contradiction.
Qed.

End NameFacts.

(** X29: the members of a struct that [Struct] accepts have distinct
    names, and none of them is the padding [+]. *)
Theorem struct_member_names_distinct (def : StructDefinition.t)
    (s : Struct.t) :
  Struct.init def = Ok s ->
  NoDup (map StructMember.name (Struct.members s)) /\
  ~ In "+" (map StructMember.name (Struct.members s)).
Proof.
  unfold Struct.init.
  destruct (Struct.init_loop _ _ 0 0 []) as [[[o n] ms]|] eqn:Hl;
    cbn [bind]; [| discriminate].
  destruct ((o =? 0) || (256 <? o)); [discriminate|].
  intros [= <-]. cbn [Struct.members].
  apply (NameFacts.init_loop_names _ _ _ _ _ _ _ _ Hl); [constructor|].
  intros [].
Qed.

(** Witness: the README's struct. *)
Lemma struct_member_names_distinct_witness :
  NoDup (map StructMember.name (Struct.members btc_output_struct)).
Proof.
  exact (proj1 (struct_member_names_distinct btc_output btc_output_struct
                  eq_refl)).
Defined.

Module HeapFacts.

Lemma array_is_last (a b : list EventParam.t) (p : EventParam.t) :
  Event.misuses_array (a ++ p :: b) = false ->
  EventParam.array p = true -> b = [].
Proof.
  induction a as [|x a IH]; cbn [app]; intros H Hp.
  - destruct b as [|y b]; [reflexivity|].
    cbn [Event.misuses_array] in H. rewrite Hp in H. discriminate.
  - apply IH; [| assumption].
    destruct (a ++ p :: b) as [|y l] eqn:E; [now destruct a|].
    cbn [Event.misuses_array] in H. now apply orb_false_iff in H.
Qed.

Lemma filter_none (f : EventParam.t -> bool) (l : list EventParam.t) :
  filter (fun p => negb (f p)) l = [] -> forallb f l = true.
Proof.
  induction l as [|x l IH]; [reflexivity|]. cbn [filter forallb].
  destruct (f x); cbn [negb andb]; [exact IH | discriminate].
Qed.

End HeapFacts.

(** X30: in a packed event that [Event] accepts, a parameter of an array
    type that is not indexed is the last parameter that is not indexed:
    every parameter after it is indexed. *)
Theorem packed_array_is_last (keccak256 : list Z -> list Z)
    (decl : EventDeclaration.t) (e : Event.t)
    (pre post : list EventParam.t) (p : EventParam.t) :
  Event.init keccak256 decl = Ok e ->
  Event.packed e = true ->
  Event.params e = pre ++ p :: post ->
  EventParam.indexed p = false ->
  EventParam.array p = true ->
  forallb EventParam.indexed post = true.
Proof.
  unfold Event.init.
  destruct (Event.misuses_array _) eqn:Hm; [discriminate|].
  destruct (_ <? _); [discriminate|].
  intros [= <-]. cbn [Event.packed Event.params].
  intros Hp Hsplit Hix Harr. rewrite Hp, Hsplit in Hm.
  rewrite filter_app in Hm. cbn [filter] in Hm. rewrite Hix in Hm.
  cbn [negb] in Hm.
  apply HeapFacts.filter_none.
  exact (HeapFacts.array_is_last _ _ _ Hm Harr).
Qed.

(** Witness: [event Blob(bytes data, address indexed from) packed]. *)
Lemma packed_array_is_last_witness :
  forallb EventParam.indexed
    [EventParam.new (Some "from")
       {| ABIType.value := "address"; ABIType.base := "address";
          ABIType.width := 160; ABIType.array := false |} true]
  = true.
Proof.
  refine (packed_array_is_last digest_stub
            {| EventDeclaration.name := "Blob";
               EventDeclaration.params :=
                 [ ({| ABIType.value := "bytes"; ABIType.base := "bytes";
                       ABIType.width := 0; ABIType.array := true |},
                    Some "data", false);
                   ({| ABIType.value := "address"; ABIType.base := "address";
                       ABIType.width := 160; ABIType.array := false |},
                    Some "from", true) ];
               EventDeclaration.anonymous := false;
               EventDeclaration.packed := true;
               EventDeclaration.modifier := None |}
            _ [] _ _ eq_refl eq_refl eq_refl eq_refl eq_refl).
Defined.
